(* ===== verification/_CoqProject ===== *)
-Q . S2P
Prelude.v
Slices.v
Crates.v
AhuError.v
Header.v
Index.v
Manifest.v
Bundle.v
Builder.v
MmapBundle.v
Verify.v
Ops.v
Seal.v
CoreError.v
Storage.v
State.v
Config.v
Admission.v
Request.v
Router.v
Install.v
Calendar.v
SignError.v
Times.v
SignCrates.v
Source.v
Text.v
SealDer.v
SealCreate.v
Crl.v
Generate.v
Orchestrate.v
Handlers.v
Live.v
Gossip.v
GossipNode.v
Sessions.v
AdminApi.v
LdapRecord.v
DogtagSync.v
AhuCli.v
EntryChecks.v
CliSign.v
CliQuery.v
Daemon.v
Startup.v
Status.v
Hsm.v
TokenSign.v
NodeLoops.v
DirectorySign.v
Routes.v
Metrics.v
AhuMain.v
HoikeMain.v
