(* ===== verification/Prelude.v ===== *)
(** * Verification of hoike, an OCSP responder for pre-signed responses

    ** The program

    Producers sign OCSP responses in batches and pack them into bundle files
    ("ahu" files): a header, a CBOR manifest, a CMS seal over the manifest, a
    sorted index and a data section.  Responders load bundles, check their
    integrity, their seal and their place in the history, route requests to
    them by issuer, and answer with the stored bytes, with a live signature on
    a nonce, or through an upstream responder.  Producers derive the responses
    from authenticated revocation lists, number the generations from the state
    store, seal the bundle and publish it atomically.  Nodes tell each other of
    new generations by signed gossip, and operators drive a node through an
    authenticated admin interface and a command line.  Files under src/crates/.

    ** Files of this development

    Shared:
    - [Prelude]: results and their notation, tactics, machine
      integers as [N] with their limits ([u16_lim], [u32_lim], [u64_lim]) and
      checked, saturating and truncating operations, little-endian integers,
      slices by range, the generic loop lemmas, the hint database [hoike];
    - [Slices]: the searches and the stable sort of Rust's slices;
    - [Crates]: the third-party functions of sha2, hex, ciborium and uuid as
      the class [Crates], their documented laws as classes, and the instance
      [Toy.crates] on which the witnesses are evaluated.

    The bundle format, crate ahu:
    - [AhuError] (error.rs), [Header] (header.rs), [Index] (index.rs),
      [Manifest] (manifest.rs): data, encoders and decoders;
    - [Bundle] and [Builder] (bundle.rs: [Bundle], [BundleBuilder]);
    - [MmapBundle] (mmap_bundle.rs): the reader over a mapped file, in which
      an index out of range is the value [Panics];
    - [Verify] (verify.rs), [Ops] (ops.rs: [diff], [apply_sealed]),
      [Seal] (seal.rs: signature, pins, anchors, certificate profile).

    The responder's core, crate hoike-core:
    - [CoreError] (error.rs);
    - [Storage] (storage.rs): a file system with failing and crashing system
      calls, the monad [io], [write_atomic], the writer lock;
    - [State] (state.rs): the anti-rollback store;
    - [Config] (config.rs), [Admission] (admission.rs), [Request] (request.rs
      and response.rs), [Router] (router.rs), [Install] (install.rs).

    The producer, crate hoike-sign:
    - [SignError] (error.rs), [Times] (the calendar functions of generate.rs),
      [Text] (Rust's line and prefix functions on strings), [SignCrates] (the
      X.509, OCSP and signature crates as the class [SignCrates] with its laws,
      and the instance [ToySign.crates]);
    - [Source] (source.rs) and [Crl] (crl.rs): revocation sources;
    - [SealDer] (the DER writers of seal.rs) and [SealCreate] (seal.rs,
      keyfile.rs, ml_dsa_bridge.rs): keys, seals and their preflight checks;
    - [Generate] (generate.rs): production of bundles;
    - [Orchestrate] (orchestrate.rs, the signers of ml_dsa_bridge.rs,
      [load_live_material] of live.rs and the checks of rotation.rs): from a
      configured CA to a published bundle;
    - [Live] (live.rs): signing on demand, as the instance of the interface
      [LiveSigning] through which [Handlers] signs;
    - [LdapRecord] and [DogtagSync] (dogtag_sync.rs): the records of a
      certificate directory, and the source that synchronizes with it;
    - [DirectorySign] (orchestrate.rs with the feature dogtag-sync): the passes
      of a signer whose sources are directories;
    - [Hsm] (pkcs11.rs, the token settings of orchestrate.rs, and
      [load_live_material] of live.rs with the feature pkcs11): keys that stay
      in a hardware module;
    - [TokenSign] (orchestrate.rs, generate.rs and seal.rs with the feature
      pkcs11): production and signing of a scope with such keys.

    The gossip layer, crate hoike-gossip:
    - [Gossip] (config.rs, crypto.rs, broadcast.rs), [GossipNode] (node.rs: the
      node's start, announcements and table) and [NodeLoops] (node.rs: its tasks,
      as interleaved state machines).

    The HTTP surface, crate hoike-server:
    - [Calendar] and [Handlers] (handlers.rs, and [AppState] of state.rs);
    - [Sessions] (admin/auth.rs, admin/rbac.rs, the roles of state.rs);
    - [AdminApi] (admin/bundles.rs, admin/signing.rs, admin/query.rs,
      forwarding.rs, [announce_bundle_scopes] of lib.rs, the rotation command of
      rotation.rs);
    - [Status] (admin/status.rs, [load_failure_reason] of obs.rs): what the
      admin interface reports;
    - [Routes] (lib.rs, admin/mod.rs, tls.rs, the builders of state.rs and the
      listeners of main.rs): which handlers each port serves and how;
    - [Metrics] (obs.rs, the metrics endpoint of lib.rs): what is counted.

    The command line, crate hoike-cli:
    - [AhuCli] (ahu_commands.rs, and verify.rs of hoike-sign): the commands on
      bundle files, and the verification of signed responses they use;
    - [EntryChecks]: production, live signing and that verification together;
    - [AhuMain] (ahu_main.rs, [inspect] of ahu_commands.rs): the program ahu;
    - [CliSign] and [CliQuery] (main.rs: [run_sign], [run_query]);
    - [Daemon] (main.rs: the signer loop with urgent passes, [run_import],
      [run_init_state], [check_bundles]);
    - [Startup] (main.rs: [run_server] up to its listeners, polling and the
      consumer of announcements, [run_check]; [format_cert_info] of rotation.rs);
    - [HoikeMain] (main.rs: the command line, [main] and the listeners of a
      started server).

    Functions keep their Rust names, with a prefix of the record on field
    names; where two functions of one file share a name the map of the manifest
    names both.  A loop body is a definition of its own next to the loop.

    ** Modelling

    Pure code is functions.  [Result] is [result]; [Option] is [option]; code
    that performs system calls is in [io], which passes a [World]: the files a
    program sees, the contents known to be durable, the outcome of every
    system call to come (success, failure, crash) and the readings of the
    clock to come.  The theorems quantify over worlds, so they hold under
    every pattern of failures.  [after_crash w p x] says that a restart may
    find the contents [x] at [p]: a file that was not flushed may hold anything,
    a rename that was not followed by a directory flush may be lost.  Hash maps
    are [gmap]; their iteration order is that of [map_to_list].  [f64] is the
    Standard Library's specification of binary64.  Bytes are [list byte].
    Error values keep the variant and the part of the text that tells cases
    apart.  What is drawn at random is an argument.  Concurrency is
    interleaving: a handler that holds a lock is one step, and the theorems on
    the login gate, the session table, the broadcast handler and the table of
    generations are about every sequence of such steps, at every sequence of
    clock readings.

    ** What the theorems show

    - Format ([Header.read_from_iff], [Manifest.from_cbor_to_cbor],
      [Manifest.from_cbor_typed], [Bundle.to_bytes_from_bytes], [Builder.build_correct]): encoders and
      decoders are inverse, and a built file serves exactly what was added;
      [Builder.alias_payload_stored_once]: the second CertID form of an entry
      costs no payload.
    - Lookups ([Index.validate_sort_order_exact], [Bundle.lookup_refines_map],
      [MmapBundle.open_exact], [MmapBundle.lookup_agrees]): both readers
      implement one finite map and the mapped one never panics.
    - Integrity ([Verify.verify_structure_iff], [Verify.build_verifies],
      [Verify.verified_entries_served], [Verify.verified_contents_determined]):
      what verification accepts, that builders satisfy it, and that a manifest
      pins the contents up to a hash collision.
    - Authenticity ([Seal.verify_seal_with_pins_iff],
      [Seal.verify_seal_with_anchors_sound], [Seal.seal_binds_manifest],
      [Admission.admit_bundle_sound]): what a trusted seal establishes, and
      that the demonstration mode bypasses no configured policy.
    - Deltas ([Ops.apply_sealed_contents], [Ops.apply_sealed_envelope],
      [Ops.diff_exact]): materialisation is the overlay of finite maps under
      a newer epoch and a narrower window.
    - Persistence ([Storage.write_atomic_all_or_nothing],
      [Storage.one_writer_per_directory], [State.commit_atomic],
      [State.open_store_sound], [Install.install_all_or_nothing],
      [Router.reload_crash_safe]): nothing is torn by failures or crashes.
    - No rollback ([State.accepted_never_rolled_back],
      [State.marks_paired_and_monotone], [State.check_rollback_exact],
      [State.check_continuity_iff], [Install.install_success],
      [Router.load_sound], [Router.reload_sound]): marks never fall over any
      sequence of operations and restarts, and everything installed or served
      went through the checks.
    - Answers ([Request.parse_ocsp_request_iff], [Router.lookup_first_hit],
      [Handlers.request_answered], [Handlers.forward_request_safe],
      [Calendar.days_to_ymd_calendar]): each request is answered from the
      right scope, within the validity window, or with an unsigned error.
    - Configuration ([Config.validate_transport_iff],
      [Config.destinations_distinct]): what startup accepts, and that labels
      do not share files.
    - Production ([Crl.crl_snapshot_sound], [Generate.produce_bundle_correct],
      [Generate.produce_dual_bundle_correct],
      [Generate.add_shared_entries_exact], [Times.epoch_roundtrip],
      [EntryChecks.produced_entries_verify],
      [EntryChecks.certless_entries_unchecked]): a snapshot is what the CA signed
      and is current; a bundle answers exactly the certificates of its snapshot,
      with their status, within its validity; and its signatures verify exactly
      where a certificate is there to verify them with.
    - Sealing ([SealCreate.created_seal_verifies],
      [SealCreate.seal_material_proved], [SealCreate.separation_check_sound],
      [SealDer.tlv_roundtrip], [SealDer.ecdsa_raw_to_der_correct],
      [SealDer.utc_time_roundtrip]): what the producer seals the verifier of
      [Seal] accepts, and keys are proved before they are used.
    - Publication ([Orchestrate.signed_scope_admissible],
      [Orchestrate.publication_all_or_nothing]): a generation continues the
      state it was derived from and reaches the disk completely or not at all.
    - Live answers ([Live.live_resign_faithful], [Live.live_answers_faithful],
      [Orchestrate.live_material_sound], [EntryChecks.live_response_verifies]):
      signing on demand neither invents nor extends a status and uses only the
      key of the responder, so that its signatures verify.
    - Gossip ([Gossip.check_exact], [Gossip.handler_bounded_and_authentic],
      [GossipNode.announcement_delivered], [GossipNode.fleet_view_sound],
      [NodeLoops.timers_exact], [NodeLoops.packets_exact],
      [NodeLoops.never_blocked]): announcements are attributed to their origin,
      bounded in number, delivered, and never make a peer appear to roll back; in
      every interleaving of a node's tasks timers and packets are neither lost
      nor repeated.
    - Administration ([Sessions.admin_bounded], [Sessions.authenticated_sound],
      [AdminApi.admin_operations_guarded],
      [AdminApi.rotation_installs_bound_key], [AdminApi.upload_verdict_sound],
      [AdminApi.forward_clients_exact], [AdminApi.certid_der_roundtrip],
      [Routes.admin_surface_guarded], [Routes.surfaces_separated],
      [Routes.management_transport], [HoikeMain.management_never_in_clear]): who
      may do what, on which port, over which transport, within which limits.
    - Reports ([Status.fleet_view_exact], [Status.config_view_hides_secrets],
      [Status.rotation_view_agrees], [Status.rotation_view_wraps],
      [Metrics.scrape_exact]): the lag of each node is exact, no secret is shown,
      a scrape shows the figures of its moment, and where the view of rotation
      departs from what the signer loop does.
    - Directory ([LdapRecord.serial_forms_agree],
      [LdapRecord.revocation_time_units], [DogtagSync.sync_content],
      [DogtagSync.refresh_all_or_nothing],
      [DogtagSync.snapshot_good_is_valid],
      [DirectorySign.directory_answers_faithful],
      [DirectorySign.pass_keeps_sources], [DirectorySign.directory_publication]):
      the checkpoint is what the messages say entry by entry, it is replaced
      completely or not at all, and in every published bundle only what the
      directory called valid is called good.
    - Hardware keys ([Hsm.hsm_initialized_once], [Hsm.hsm_key_as_configured],
      [Hsm.hsm_signature_verifies], [Hsm.live_hsm_material_bound],
      [Hsm.live_material_without_hsm], [TokenSign.token_production_observed],
      [TokenSign.token_bundle_correct], [TokenSign.token_scope_admissible],
      [TokenSign.token_key_not_seal_key]): one initialization per module and
      process, the configured key, signatures that verify, and bundles as good as
      those of software keys, after the same checks.
    - Nodes ([Startup.startup_sound], [Startup.startup_refuses_missing_state],
      [Startup.polling_never_rolls_back], [Startup.passed_check_true],
      [Startup.offline_commands_excluded],
      [Daemon.signer_loop_never_rolls_back], [Daemon.scheduled_passes_regular],
      [Daemon.prepared_material_current], [Daemon.urgent_pass_forgets_nothing],
      [Daemon.failed_pass_hides_revocations]): what a running node has checked,
      when it signs, and that no loop takes what is served back.
    - Commands ([AhuCli.cli_apply_publishes_verified],
      [CliSign.cli_sign_publishes], [CliQuery.query_understood],
      [AhuMain.layout_exact], [AhuMain.discriminators_exact],
      [AhuMain.accepted_mode], [HoikeMain.parsed_sign_args]): what the commands
      write is complete and verified, what they report is exact, and what they
      ask is understood.

    ** Bounds and fuel

    Loops that are not structural run on fuel.  The search of the mapped reader
    ([MmapBundle.search_loop]) and the library search ([Slices]) run on fuel
    one above the number of records; the interval shrinks at each step, and the
    theorems about them are equalities, so running out of fuel would be a wrong
    answer.  The pairing loop [Generate.add_pairs] and [Generate.chunks] run on
    fuel equal to the length of the list; [Generate.add_shared_entries_exact]
    and [Generate.chunks_concat] show that nothing is left over; [Text.trim]
    removes one character per step from a text of that length.  Times are
    exact up to the last second of the year 9999 ([Times.END_SECS]), lengths in
    [SealDer] below 2^24, those of [AdminApi.push_der_length] below 2^16.  The
    builder theorems assume sections below 2^32 bytes for the
    32-bit lengths of the format ([Builder.buildable]); the theorems on files
    assume a length below 2^62 or 2^64, which a file of the program has.
    The theorems on [apply_sealed] assume fewer than 2^29 records.

    ** Not modelled

    The crates outside the repository (cryptography, CBOR, DER, JSON, TOML,
    HTTP, TLS, foca, bcrypt, the exporter of metrics, clap's grammar of options
    beyond what the code declares) are parameters with stated laws.  Log lines and
    the texts of error messages are left out; so are re-exports, descriptions of
    metrics and the texts of the usage.  The features dogtag-sync and pkcs11 are
    composed with [Orchestrate] one at a time ([DirectorySign], [TokenSign]), not
    together, and the passes of [Daemon] and [AdminApi] are those of software keys
    and lists.  The tasks of the server other than a node's are not interleaved with
    each other: what they share is under locks, and each holder's section is one
    step.

    ** This file

    The prelude itself follows. *)

From stdpp Require Import base tactics list gmap strings pretty.
From Stdlib Require Import NArith Lia.
From Stdlib Require Strings.Byte.
From Corelib Require Export Init.Byte.

#[export] Set Default Goal Selector "!".

(** ** Results *)

(** Rust's [Result<A, E>]. *)
Inductive result (E A : Type) : Type :=
| Ok (a : A)
| Err (e : E).
Arguments Ok {E A} a.
Arguments Err {E A} e.

#[export] Instance result_ret {E} : MRet (result E) := fun A a => Ok a.
#[export] Instance result_bind {E} : MBind (result E) :=
  fun A B f m => match m with Ok a => f a | Err e => Err e end.
#[export] Instance result_fmap {E} : FMap (result E) :=
  fun A B f m => match m with Ok a => Ok (f a) | Err e => Err e end.

(** [Option::ok_or]. *)
Definition ok_or {E A} (o : option A) (e : E) : result E A :=
  match o with Some a => Ok a | None => Err e end.

(** [Result::ok]. *)
Definition to_option {E A} (r : result E A) : option A :=
  match r with Ok a => Some a | Err _ => None end.

(** [Result::map_err]. *)
Definition map_err {E F A} (f : E -> F) (r : result E A) : result F A :=
  match r with Ok a => Ok a | Err e => Err (f e) end.

(** [if !b { return Err(e) }]. *)
Definition ensure {E} (b : bool) (e : E) : result E unit :=
  if b then Ok tt else Err e.

Definition is_ok {E A} (r : result E A) : bool :=
  match r with Ok _ => true | Err _ => false end.

(** A [for] loop whose body may return early with an error. *)
Fixpoint for_each {E A} (f : A -> result E unit) (l : list A) : result E unit :=
  match l with
  | [] => Ok tt
  | x :: l => f x ;; for_each f l
  end.

(** A [for] loop that updates a local state and may return early. *)
Fixpoint fold_result {E A S} (f : S -> A -> result E S) (s : S) (l : list A) : result E S :=
  match l with
  | [] => Ok s
  | x :: l => s' ← f s x; fold_result f s' l
  end.

Section results.
Context {E A B : Type}.
Implicit Types (m : result E A).

Lemma bind_Ok m (f : A -> result E B) b :
  m ≫= f = Ok b <-> exists a, m = Ok a /\ f a = Ok b.
Proof. destruct m; cbn; naive_solver. Qed.

Lemma bind_Err m (f : A -> result E B) e :
  m ≫= f = Err e <-> m = Err e \/ exists a, m = Ok a /\ f a = Err e.
Proof. destruct m; cbn; naive_solver. Qed.

Lemma ensure_Ok b (e : E) u : ensure b e = Ok u <-> b = true.
Proof. destruct b, u; cbn; naive_solver. Qed.

Lemma ok_or_Ok (o : option A) (e : E) a : ok_or o e = Ok a <-> o = Some a.
Proof. destruct o; cbn; naive_solver. Qed.

Lemma map_err_Ok {F} (f : E -> F) m a : map_err f m = Ok a <-> m = Ok a.
Proof. destruct m; cbn; naive_solver. Qed.

Lemma fmap_Ok (f : A -> B) m b : f <$> m = Ok b <-> exists a, m = Ok a /\ b = f a.
Proof. destruct m; cbn; naive_solver. Qed.

End results.

Section loops.
Context {E A : Type}.

Lemma for_each_Ok (f : A -> result E unit) (l : list A) u :
  for_each f l = Ok u <-> Forall (fun x => f x = Ok tt) l.
Proof.
  induction l as [|x l IH]; cbn [for_each].
  - destruct u. split; [constructor | done].
  - rewrite Forall_cons, bind_Ok, <- IH. split.
    + intros ([] & ? & ?). done.
    + intros [? ?]. by exists tt.
Qed.

(** A failing loop stopped at its first failing element, with that element's error. *)
Lemma for_each_Err (f : A -> result E unit) (l : list A) e :
  for_each f l = Err e <->
  exists l1 x l2, l = l1 ++ x :: l2 /\ Forall (fun y => f y = Ok tt) l1 /\ f x = Err e.
Proof.
  induction l as [|x l IH]; cbn [for_each].
  - split; [done|]. by intros ([]&?&?&?&_).
  - rewrite bind_Err. split.
    + intros [Hx|([]&Hx&(l1&y&l2&->&Hl&Hy)%IH)].
      * exists [], x, l. by repeat constructor.
      * exists (x :: l1), y, l2. split_and!; [done| by constructor | done].
    + intros (l1&y&l2&Heq&Hl&Hy). destruct l1 as [|z l1]; simplify_eq/=; [by left|].
      apply Forall_cons in Hl as [Hz Hl]. right. exists tt. split; [done|]. apply IH. by exists l1, y, l2.
Qed.

(** Rule for loops: an invariant kept by every body that returns. *)
Lemma fold_result_inv {S} (f : S -> A -> result E S) (P : S -> Prop) l s s' :
  (forall s x s', x ∈ l -> P s -> f s x = Ok s' -> P s') ->
  P s -> fold_result f s l = Ok s' -> P s'.
Proof.
  revert s. induction l as [|x l IH]; intros s Hstep Hs; cbn [fold_result]; [by intros [= <-]|].
  intros (s1 & Hx & Hl)%bind_Ok. eapply (IH s1); [|by eapply Hstep; [left|..]|done].
  intros. eapply Hstep; [by right|..]; done.
Qed.
End loops.

Lemma mapM_Ok {E A B} (f : A -> result E B) (l : list A) (k : list B) :
  mapM f l = Ok k <-> Forall2 (fun x y => f x = Ok y) l k.
Proof.
  revert k. induction l as [|x l IH]; intros k; cbn [mapM].
  - split; [intros [= <-]; constructor | by inversion 1].
  - split.
    + intros (y & Hy & (ys & Hys & [= <-])%bind_Ok)%bind_Ok. constructor; [done|]. by apply IH.
    + inversion 1 as [|? y ? ys Hy Hys]; subst. rewrite Hy. cbn.
      apply IH in Hys. rewrite Hys. done.
Qed.

(** Inversion of a successful computation, bind by bind. *)
Ltac inv_ok :=
  repeat match goal with
  | H : _ ≫= _ = Ok _ |- _ =>
      let a := fresh "v" in let H1 := fresh "H" in let H2 := fresh "H" in
      apply bind_Ok in H as (a & H1 & H2)
  | H : ensure _ _ = Ok _ |- _ => apply ensure_Ok in H
  | H : ok_or _ _ = Ok _ |- _ => apply ok_or_Ok in H
  | H : map_err _ _ = Ok _ |- _ => apply map_err_Ok in H
  | H : Ok _ = Ok _ |- _ => injection H as H; try subst
  | H : mret _ = Ok _ |- _ => cbv [mret result_ret] in H
  | H : Err _ = Ok _ |- _ => discriminate H
  | H : Some _ = None |- _ => discriminate H
  | H : unit |- _ => destruct H
  end.

(** Loops over a list whose state is the set of the keys seen so far, and which
    refuse a key that was seen. *)
Section unique.
Context {E A : Type} (key : A -> string) (f : gset string -> A -> result E (gset string)) (P : A -> Prop).
Hypothesis step : forall seen a seen',
  f seen a = Ok seen' <-> seen' = (seen ∪ {[key a]}) /\ (key a ∉ seen) /\ P a.

Lemma unique_fold l seen :
  (exists seen', fold_result f seen l = Ok seen') <->
  NoDup (key <$> l) /\ Forall (fun a => key a ∉ seen) l /\ Forall P l.
Proof.
  revert seen. induction l as [|a l IH]; intros seen.
  - split; [intros _; split_and!; constructor|by eexists].
  - transitivity ((key a ∉ seen) /\ P a /\ exists seen', fold_result f (seen ∪ {[key a]}) l = Ok seen').
    + cbn [fold_result]. split.
      * intros (s' & (s1 & (-> & Hn & Hp)%step & Hr)%bind_Ok). eauto.
      * intros (Hn & Hp & s' & Hr). exists s'. apply bind_Ok. eexists. by rewrite step.
    + rewrite IH. cbn [fmap list_fmap]. rewrite NoDup_cons, !Forall_cons, !Forall_forall.
      setoid_rewrite not_elem_of_union. setoid_rewrite not_elem_of_singleton. split.
      * intros (? & ? & ? & Hd & ?). split_and!; try done; [|naive_solver].
        intros (x & Hx & Hin)%list_elem_of_fmap. by apply (Hd x Hin).
      * intros ([Hn ?] & [? Hs] & ? & ?). split_and!; try done. intros x Hin. split; [by apply Hs|].
        intros Hx. apply Hn. rewrite <- Hx. by apply list_elem_of_fmap_2.
Qed.

Lemma unique_fold_start l :
  (exists seen', fold_result f ∅ l = Ok seen') <-> NoDup (key <$> l) /\ Forall P l.
Proof.
  rewrite unique_fold. split; [tauto|]. intros [? ?]. split_and!; try done.
  rewrite Forall_forall. set_solver.
Qed.
End unique.

Create HintDb hoike.
Create Rewrite HintDb hoike_rw.
#[export] Hint Rewrite @bind_Ok @ensure_Ok @ok_or_Ok @map_err_Ok @for_each_Ok @mapM_Ok : hoike_rw.

(** ** Bytes *)

#[export] Instance byte_eq_dec' : EqDecision byte := Byte.byte_eq_dec.

(** [u8 as uN] and the truncating cast [uN as u8]. *)
Definition byte_of_N (n : N) : byte :=
  match Byte.of_N (n mod 256) with Some b => b | None => x00 end.

Lemma to_N_byte_of_N n : Byte.to_N (byte_of_N n) = (n mod 256)%N.
Proof.
  unfold byte_of_N. destruct (Byte.of_N (n mod 256)) eqn:E.
  - by apply Byte.to_of_N in E.
  - apply Byte.of_N_None_iff in E. pose proof (N.mod_lt n 256). lia.
Qed.

Lemma byte_of_to_N b : byte_of_N (Byte.to_N b) = b.
Proof.
  unfold byte_of_N. pose proof (Byte.to_N_bounded b).
  rewrite N.mod_small by lia. by rewrite Byte.of_to_N.
Qed.

#[export] Instance byte_to_N_inj : Inj (=) (=) Byte.to_N.
Proof. intros a b Hab. by rewrite <- (byte_of_to_N a), Hab, byte_of_to_N. Qed.

#[export] Instance byte_countable : Countable byte :=
  inj_countable' Byte.to_N byte_of_N byte_of_to_N.

#[export] Instance byte_inhabited : Inhabited byte := populate x00.

(** Byte strings: [Vec<u8>], [&[u8]] and [[u8; n]]. *)
Abbreviation bytes := (list byte).

(** [slice.len() as u64]. *)
Definition len {A} (l : list A) : N := N.of_nat (length l).

Lemma len_app {A} (l k : list A) : len (l ++ k) = (len l + len k)%N.
Proof. unfold len. rewrite length_app. lia. Qed.
Lemma len_cons {A} (x : A) l : len (x :: l) = (1 + len l)%N.
Proof. unfold len. cbn [length]. lia. Qed.
Lemma len_nil {A} : len (@nil A) = 0%N.
Proof. done. Qed.
#[export] Hint Rewrite @len_app @len_cons @len_nil : hoike_rw.

(** ** Machine integers

    Unsigned integers are values of [N]; [u16_lim], [u32_lim] and [u64_lim]
    are the first values out of range.  [usize] is 64 bits wide. *)

Definition u16_lim : N := 2 ^ 16.
Definition u32_lim : N := 2 ^ 32.
Definition u64_lim : N := 2 ^ 64.

(** [n as u32]: the cast wraps. *)
Definition as_u32 (n : N) : N := n mod u32_lim.

(** [u32::try_from], [usize::try_from], [u64::checked_add], [u64::saturating_sub]. *)
Definition try_u32 (n : N) : option N := if (n <? u32_lim)%N then Some n else None.
Definition try_usize (n : N) : option N := if (n <? u64_lim)%N then Some n else None.
Definition checked_add (a b : N) : option N :=
  if (a + b <? u64_lim)%N then Some (a + b)%N else None.
Definition saturating_sub (a b : N) : N := a - b.
Definition saturating_add (a b : N) : N := N.min (a + b) (u64_lim - 1).

Lemma as_u32_small n : (n < u32_lim)%N -> as_u32 n = n.
Proof. apply N.mod_small. Qed.

Lemma try_u32_Some n m : try_u32 n = Some m <-> n = m /\ (n < u32_lim)%N.
Proof. unfold try_u32. destruct (N.ltb_spec n u32_lim); naive_solver lia. Qed.
Lemma try_usize_Some n m : try_usize n = Some m <-> n = m /\ (n < u64_lim)%N.
Proof. unfold try_usize. destruct (N.ltb_spec n u64_lim); naive_solver lia. Qed.
Lemma checked_add_Some a b c :
  checked_add a b = Some c <-> c = (a + b)%N /\ (a + b < u64_lim)%N.
Proof. unfold checked_add. destruct (N.ltb_spec (a + b) u64_lim); naive_solver lia. Qed.
Lemma checked_add_None a b : checked_add a b = None <-> (u64_lim <= a + b)%N.
Proof. unfold checked_add. destruct (N.ltb_spec (a + b) u64_lim); naive_solver lia. Qed.

(** ** Big-endian integers *)

Fixpoint be_encode (w : nat) (n : N) : bytes :=
  match w with
  | O => []
  | S w => byte_of_N (n / 256 ^ N.of_nat w) :: be_encode w n
  end.

Definition be_decode (l : bytes) : N :=
  fold_left (fun acc b => (acc * 256 + Byte.to_N b)%N) l 0%N.

Lemma length_be_encode w n : length (be_encode w n) = w.
Proof. induction w; cbn; congruence. Qed.
Lemma len_be_encode w n : len (be_encode w n) = N.of_nat w.
Proof. unfold len. by rewrite length_be_encode. Qed.
#[export] Hint Rewrite length_be_encode len_be_encode : hoike_rw.

Lemma be_decode_acc l acc :
  fold_left (fun acc b => (acc * 256 + Byte.to_N b)%N) l acc =
  (acc * 256 ^ len l + be_decode l)%N.
Proof.
  unfold be_decode. revert acc. induction l as [|b l IH]; intros acc; cbn [fold_left].
  - rewrite len_nil, N.pow_0_r. lia.
  - rewrite IH, (IH (0 * 256 + Byte.to_N b)%N), len_cons, N.pow_add_r, N.pow_1_r. lia.
Qed.

Lemma be_decode_cons b l :
  be_decode (b :: l) = (Byte.to_N b * 256 ^ len l + be_decode l)%N.
Proof. unfold be_decode at 1. cbn [fold_left]. rewrite be_decode_acc. lia. Qed.

Lemma pow256_pos n : (0 < 256 ^ n)%N.
Proof. apply N.neq_0_lt_0, N.pow_nonzero. lia. Qed.

Lemma be_decode_bound l : (be_decode l < 256 ^ len l)%N.
Proof.
  induction l as [|b l IH]; [done|].
  rewrite be_decode_cons, len_cons, N.pow_add_r, N.pow_1_r.
  pose proof (Byte.to_N_bounded b). nia.
Qed.

Lemma be_decode_encode_mod w n : be_decode (be_encode w n) = (n mod 256 ^ N.of_nat w)%N.
Proof.
  induction w as [|w IH]; [by rewrite N.mod_1_r|].
  cbn [be_encode]. rewrite be_decode_cons, IH, len_be_encode, to_N_byte_of_N.
  replace (N.of_nat (S w)) with (N.of_nat w + 1)%N by lia.
  rewrite N.pow_add_r, N.pow_1_r.
  pose proof (pow256_pos (N.of_nat w)). set (p := (256 ^ N.of_nat w)%N) in *.
  rewrite (N.Div0.mod_mul_r n p 256). lia.
Qed.

Lemma be_decode_encode w n :
  (n < 256 ^ N.of_nat w)%N -> be_decode (be_encode w n) = n.
Proof. intros. by rewrite be_decode_encode_mod, N.mod_small. Qed.

Lemma be_encode_mod w n m :
  (n mod 256 ^ N.of_nat w = m mod 256 ^ N.of_nat w)%N -> be_encode w n = be_encode w m.
Proof.
  induction w as [|w IH]; [done|]. intros Heq. cbn [be_encode].
  replace (N.of_nat (S w)) with (N.of_nat w + 1)%N in Heq by lia.
  rewrite N.pow_add_r, N.pow_1_r in Heq.
  pose proof (pow256_pos (N.of_nat w)). set (p := (256 ^ N.of_nat w)%N) in *.
  rewrite !(N.Div0.mod_mul_r _ p 256) in Heq.
  pose proof (N.mod_lt n p). pose proof (N.mod_lt m p).
  destruct (N.div_mod_unique p ((n / p) mod 256) ((m / p) mod 256) (n mod p) (m mod p))
    as [Hd Hm]; [lia..|].
  f_equal; [|by apply IH]. unfold byte_of_N. by rewrite Hd.
Qed.

Lemma be_encode_decode l : be_encode (length l) (be_decode l) = l.
Proof.
  induction l as [|b l IH]; [done|]. cbn [length be_encode].
  change (N.of_nat (length l)) with (len l). rewrite be_decode_cons.
  pose proof (be_decode_bound l). pose proof (pow256_pos (len l)).
  f_equal.
  - rewrite N.div_add_l, N.div_small, N.add_0_r by lia. apply byte_of_to_N.
  - etrans; [|exact IH]. apply be_encode_mod. change (N.of_nat (length l)) with (len l).
    by rewrite N.add_comm, N.Div0.mod_add.
Qed.

Lemma be_encode_inj w n m :
  (n < 256 ^ N.of_nat w)%N -> (m < 256 ^ N.of_nat w)%N ->
  be_encode w n = be_encode w m -> n = m.
Proof.
  intros Hn Hm Heq. by rewrite <- (be_decode_encode w n), Heq, be_decode_encode.
Qed.

(** The limits as powers of 256, the form the codec lemmas use. *)
Lemma u16_lim_pow : u16_lim = (256 ^ N.of_nat 2)%N. Proof. reflexivity. Qed.
Lemma u32_lim_pow : u32_lim = (256 ^ N.of_nat 4)%N. Proof. reflexivity. Qed.
Lemma u64_lim_pow : u64_lim = (256 ^ N.of_nat 8)%N. Proof. reflexivity. Qed.

(** ** Readers

    A [Read] implementation over a byte slice is the list of the bytes that
    are left; [read_exact] fails when there are too few. *)

Inductive IoError : Type :=
| UnexpectedEof
| WouldBlock
| IoOther (reason : string).

Definition read_exact (n : nat) (r : bytes) : result IoError (bytes * bytes) :=
  if decide (n <= length r) then Ok (take n r, drop n r) else Err UnexpectedEof.

Definition read_be (w : nat) (r : bytes) : result IoError (N * bytes) :=
  '(b, r) ← read_exact w r; Ok (be_decode b, r).

Lemma read_exact_app l r : read_exact (length l) (l ++ r) = Ok (l, r).
Proof.
  unfold read_exact. rewrite decide_True by (rewrite length_app; lia).
  by rewrite take_app_length, drop_app_length.
Qed.

Lemma read_exact_Ok n r l r' :
  read_exact n r = Ok (l, r') <-> r = l ++ r' /\ length l = n.
Proof.
  unfold read_exact. case_decide; split.
  - intros [= <- <-]. rewrite take_drop, length_take. split; [done | lia].
  - intros [-> <-]. by rewrite take_app_length, drop_app_length.
  - done.
  - intros [-> <-]. rewrite length_app in *. lia.
Qed.

Lemma read_be_app w n r :
  (n < 256 ^ N.of_nat w)%N -> read_be w (be_encode w n ++ r) = Ok (n, r).
Proof.
  intros. unfold read_be.
  assert (read_exact w (be_encode w n ++ r) = Ok (be_encode w n, r)) as ->.
  { apply read_exact_Ok. by rewrite length_be_encode. }
  cbn. by rewrite be_decode_encode.
Qed.

Lemma read_be_Ok w r n r' :
  read_be w r = Ok (n, r') <-> r = be_encode w n ++ r' /\ (n < 256 ^ N.of_nat w)%N.
Proof.
  split.
  - unfold read_be. intros ([b r1] & [-> <-]%read_exact_Ok & [= <- <-])%bind_Ok.
    rewrite be_encode_decode. split; [done | apply be_decode_bound].
  - intros [-> ?]. by apply read_be_app.
Qed.

(** ** Slices *)

(** [slice.get(start..end)]. *)
Definition slice_get {A} (l : list A) (start stop : N) : option (list A) :=
  if (start <=? stop)%N && (stop <=? len l)%N
  then Some (take (N.to_nat (stop - start)) (drop (N.to_nat start) l))
  else None.

Lemma slice_get_Some {A} (l k : list A) start stop :
  slice_get l start stop = Some k <->
  exists l1 l2, l = l1 ++ k ++ l2 /\ len l1 = start /\ (start + len k)%N = stop.
Proof.
  unfold slice_get, len.
  destruct (N.leb_spec start stop); [destruct (N.leb_spec stop (N.of_nat (length l)))|]; cbn;
    split.
  - intros [= <-]. exists (take (N.to_nat start) l), (drop (N.to_nat stop) l).
    rewrite !length_take, length_drop. split_and!; [|lia..].
    rewrite <- (take_drop (N.to_nat start) l) at 1. f_equal.
    rewrite <- (take_drop (N.to_nat (stop - start)) (drop (N.to_nat start) l)) at 1.
    rewrite drop_drop. do 2 f_equal. lia.
  - intros (l1 & l2 & -> & <- & <-). f_equal.
    rewrite Nat2N.id, drop_app_length.
    replace (N.to_nat _) with (length k) by lia. by rewrite take_app_length.
  - done.
  - intros (l1 & l2 & -> & <- & <-). rewrite !length_app in *. lia.
  - done.
  - intros (l1 & l2 & -> & <- & <-). lia.
Qed.

Lemma slice_get_mid {A} (l1 k l2 : list A) :
  slice_get (l1 ++ k ++ l2) (len l1) (len l1 + len k) = Some k.
Proof. apply slice_get_Some. by exists l1, l2. Qed.

Lemma slice_get_is_Some {A} (l : list A) start stop :
  is_Some (slice_get l start stop) <-> (start <= stop /\ stop <= len l)%N.
Proof.
  unfold slice_get.
  destruct (N.leb_spec start stop); [destruct (N.leb_spec stop (len l))|]; cbn;
    split; try (intros [? [=]]); try lia; by eauto.
Qed.

Lemma slice_get_len {A} (l k : list A) start stop :
  slice_get l start stop = Some k -> (start + len k = stop)%N.
Proof. intros (?&?&_&_&?)%slice_get_Some. done. Qed.

(** ** Orders

    The laws of [Ord::cmp] the searches and sorts rely on. *)

Class CmpSpec {A} (cmp : A -> A -> comparison) : Prop := {
  cmp_eq a b : cmp a b = Eq <-> a = b;
  cmp_antisym a b : cmp b a = CompOpp (cmp a b);
  cmp_trans a b c : cmp a b = Lt -> cmp b c = Lt -> cmp a c = Lt;
}.

#[export] Hint Mode CmpSpec ! ! : typeclass_instances.
Arguments cmp_eq {A} cmp {_} a b.
Arguments cmp_antisym {A} cmp {_} a b.
Arguments cmp_trans {A} cmp {_} a b c.

Lemma cmp_refl `{CmpSpec A cmp} a : cmp a a = Eq.
Proof. by apply (cmp_eq cmp). Qed.

Lemma cmp_gt_lt `{CmpSpec A cmp} a b : cmp a b = Gt <-> cmp b a = Lt.
Proof. rewrite (cmp_antisym cmp a b). destruct (cmp a b); naive_solver. Qed.

#[export] Instance N_compare_spec : CmpSpec N.compare.
Proof.
  split.
  - apply N.compare_eq_iff.
  - intros. apply N.compare_antisym.
  - intros a b c. rewrite !N.compare_lt_iff. apply N.lt_trans.
Qed.

(** [Ordering::then]. *)
Definition cmp_then (c d : comparison) : comparison :=
  match c with Eq => d | _ => c end.

(** Lexicographic comparison of byte slices and arrays. *)
Fixpoint bytes_cmp (a b : bytes) : comparison :=
  match a, b with
  | [], [] => Eq
  | [], _ :: _ => Lt
  | _ :: _, [] => Gt
  | x :: a, y :: b => cmp_then (N.compare (Byte.to_N x) (Byte.to_N y)) (bytes_cmp a b)
  end.

#[export] Instance bytes_cmp_spec : CmpSpec bytes_cmp.
Proof.
  split.
  - induction a as [|x a IH]; intros [|y b]; cbn; try done.
    destruct (N.compare_spec (Byte.to_N x) (Byte.to_N y)) as [E|E|E]; cbn.
    + apply (inj Byte.to_N) in E as ->. rewrite IH. naive_solver.
    + split; [done|]. intros [= -> ->]. lia.
    + split; [done|]. intros [= -> ->]. lia.
  - induction a as [|x a IH]; intros [|y b]; cbn; try done.
    rewrite (N.compare_antisym (Byte.to_N x)).
    destruct (N.compare (Byte.to_N x) (Byte.to_N y)); cbn; [apply IH|done..].
  - induction a as [|x a IH]; intros [|y b] [|z c]; cbn; try done.
    destruct (N.compare_spec (Byte.to_N x) (Byte.to_N y)) as [E|E|E]; cbn; try done;
      destruct (N.compare_spec (Byte.to_N y) (Byte.to_N z)) as [F|F|F]; cbn; try done;
      intros H1 H2.
    + rewrite E, F, N.compare_refl. cbn. eauto.
    + by rewrite E, (proj2 (N.compare_lt_iff _ _) F).
    + by rewrite <- F, (proj2 (N.compare_lt_iff _ _) E).
    + by rewrite (proj2 (N.compare_lt_iff _ _) (N.lt_trans _ _ _ E F)).
Qed.

(** The order on pairs: [(a1, b1).cmp(&(a2, b2))]. *)
Definition pair_cmp {A B} (ca : A -> A -> comparison) (cb : B -> B -> comparison)
    (p q : A * B) : comparison :=
  cmp_then (ca p.1 q.1) (cb p.2 q.2).

#[export] Instance pair_cmp_spec {A B} (ca : A -> A -> comparison) (cb : B -> B -> comparison) :
  CmpSpec ca -> CmpSpec cb -> CmpSpec (pair_cmp ca cb).
Proof.
  intros Ha Hb. split; unfold pair_cmp.
  - intros [a1 b1] [a2 b2]; cbn. destruct (ca a1 a2) eqn:E; cbn.
    + apply (cmp_eq ca) in E as ->. rewrite (cmp_eq cb). naive_solver.
    + split; [done|]. intros [= -> ->]. by rewrite cmp_refl in E.
    + split; [done|]. intros [= -> ->]. by rewrite cmp_refl in E.
  - intros [a1 b1] [a2 b2]; cbn. rewrite (cmp_antisym ca a1 a2).
    destruct (ca a1 a2); cbn; [apply (cmp_antisym cb)|done..].
  - intros [a1 b1] [a2 b2] [a3 b3]; cbn.
    destruct (ca a1 a2) eqn:E; cbn; try done; destruct (ca a2 a3) eqn:F; cbn; try done;
      intros H1 H2.
    + apply (cmp_eq ca) in E as ->. apply (cmp_eq ca) in F as ->. rewrite cmp_refl. cbn.
      by eapply (cmp_trans cb).
    + apply (cmp_eq ca) in E as ->. by rewrite F.
    + apply (cmp_eq ca) in F as ->. by rewrite E.
    + by rewrite (cmp_trans ca _ _ _ E F).
Qed.
