(* ===== verification/Slices.v ===== *)
(** * Slices: the searches and the sort of Rust's slice library

    [slice::binary_search_by], the textbook loop the memory-mapped reader
    writes out by hand, and the stable [slice::sort_by_key], each with the
    theorem its callers rely on.  Elements are compared through a key and a
    comparison that obeys the laws of [Ord] ([CmpSpec]). *)

From stdpp Require Import base tactics list sorting.
From Stdlib Require Import NArith Lia.
From S2P Require Import Prelude.

(** Strictly ascending sequences of keys. *)
Definition ascending {K} (cmp : K -> K -> comparison) (ks : list K) : Prop :=
  StronglySorted (fun a b => cmp a b = Lt) ks.

Section ascending.
Context {K : Type} (cmp : K -> K -> comparison) `{!CmpSpec cmp}.
Implicit Types (ks : list K).

Lemma ascending_cons_inv a ks :
  ascending cmp (a :: ks) -> ascending cmp ks /\ Forall (fun b => cmp a b = Lt) ks.
Proof. apply StronglySorted_inv. Qed.

Lemma ascending_lookup ks i j a b :
  ascending cmp ks -> ks !! i = Some a -> ks !! j = Some b -> i < j -> cmp a b = Lt.
Proof.
  intros Hs. revert i j. induction Hs as [|x ks Hs IH Hx]; intros [|i] [|j] Hi Hj ?;
    simplify_eq/=; try lia.
  - rewrite Forall_forall in Hx. apply Hx. by eapply list_elem_of_lookup_2.
  - eapply IH; [done|done|lia].
Qed.

Lemma ascending_inj ks i j a :
  ascending cmp ks -> ks !! i = Some a -> ks !! j = Some a -> i = j.
Proof.
  intros Hs Hi Hj. destruct (lt_eq_lt_dec i j) as [[Hlt| ->]|Hlt]; [|done|].
  - pose proof (ascending_lookup _ _ _ _ _ Hs Hi Hj Hlt) as E. by rewrite (cmp_refl a) in E.
  - pose proof (ascending_lookup _ _ _ _ _ Hs Hj Hi Hlt) as E. by rewrite (cmp_refl a) in E.
Qed.

Lemma ascending_NoDup ks : ascending cmp ks -> NoDup ks.
Proof. intros Hs. apply NoDup_alt. intros. by eapply ascending_inj. Qed.

Lemma ascending_cons a b ks :
  cmp a b = Lt -> ascending cmp (b :: ks) -> ascending cmp (a :: b :: ks).
Proof.
  intros Hab Hs. constructor; [done|]. constructor; [done|].
  apply StronglySorted_inv in Hs as [_ Hb]. eapply Forall_impl; [done|].
  intros c. cbn. by eapply (cmp_trans cmp).
Qed.

(** The order of an ascending sequence is determined by its elements. *)
Lemma ascending_unique ks1 ks2 :
  ascending cmp ks1 -> ascending cmp ks2 -> ks1 ≡ₚ ks2 -> ks1 = ks2.
Proof.
  intros H1 H2. eapply StronglySorted_unique_strong; [|exact H1|exact H2].
  intros a b _ _ Hab Hba. pose proof (cmp_trans cmp _ _ _ Hab Hba) as E.
  by rewrite (cmp_refl a) in E.
Qed.
End ascending.

(** ** [slice::binary_search_by]

    The library's branchless loop: [base] is kept at an element that is not
    greater than the target, [size] halves until one candidate is left. *)

Section search.
Context {A : Type}.
Implicit Types (f : A -> comparison) (l : list A).

Definition probe f l (i : nat) : comparison :=
  match l !! i with Some x => f x | None => Gt end.

Fixpoint narrow (fuel : nat) f l (base size : nat) : nat :=
  match fuel with
  | O => base
  | S fuel =>
      if Nat.leb size 1 then base
      else
        let half := Nat.div size 2 in
        let mid := base + half in
        let base := match probe f l mid with Gt => base | _ => mid end in
        narrow fuel f l base (size - half)
  end.

Definition binary_search_by f l : result nat nat :=
  match l with
  | [] => Err 0
  | _ =>
      let base := narrow (length l) f l 0 (length l) in
      match probe f l base with
      | Eq => Ok base
      | Lt => Err (S base)
      | Gt => Err base
      end
  end.

(** ** The textbook search loop: [while lo < hi]. *)
Fixpoint bisect (fuel : nat) (p : nat -> comparison) (lo hi : nat) : option nat :=
  match fuel with
  | O => None
  | S fuel =>
      if Nat.ltb lo hi then
        let mid := lo + Nat.div (hi - lo) 2 in
        match p mid with
        | Eq => Some mid
        | Lt => bisect fuel p (S mid) hi
        | Gt => bisect fuel p lo mid
        end
      else None
  end.

(** What the searches need of the probe: the comparisons along the slice are
    first [Lt], then at most one [Eq], then [Gt]. *)
Definition bitonic (p : nat -> comparison) (n : nat) : Prop :=
  forall i j, i < j -> j < n -> p i = Lt \/ p j = Gt.

Lemma bitonic_gt p n i j : bitonic p n -> p i = Gt -> i <= j -> j < n -> p j = Gt.
Proof.
  intros Hp Hi Hij Hj. destruct (decide (i = j)) as [->|]; [done|].
  destruct (Hp i j) as [E|E]; [lia|done| |done]. by rewrite E in Hi.
Qed.

Lemma bitonic_lt p n i j : bitonic p n -> p j <> Gt -> i < j -> j < n -> p i = Lt.
Proof. intros Hp Hj Hij Hn. by destruct (Hp i j). Qed.

Lemma bitonic_eq p n i j : bitonic p n -> p i = Eq -> p j = Eq -> i < n -> j < n -> i = j.
Proof.
  intros Hp Hi Hj ??. destruct (lt_eq_lt_dec i j) as [[Hlt| ->]|Hlt]; [|done|].
  - destruct (Hp i j); [done|done|congruence..].
  - destruct (Hp j i); [done|done|congruence..].
Qed.

Lemma narrow_spec fuel f l base size :
  bitonic (probe f l) (length l) ->
  size <= fuel -> 1 <= size -> base + size <= length l ->
  (base = 0 \/ probe f l base <> Gt) ->
  (forall j, base + size <= j -> j < length l -> probe f l j = Gt) ->
  let b := narrow fuel f l base size in
  b < length l /\ (b = 0 \/ probe f l b <> Gt) /\
  (forall j, b < j -> j < length l -> probe f l j = Gt).
Proof.
  intros Hp. revert base size.
  induction fuel as [|fuel IH]; intros base size Hf Hs Hl Hb He; [lia|].
  cbn [narrow]. destruct (Nat.leb_spec size 1) as [H1|H1].
  - cbv zeta. split_and!; [lia|done|]. intros. apply He; lia.
  - assert (1 <= size / 2 /\ size / 2 < size) as [Hh1 Hh2].
    { split; [apply Nat.div_le_lower_bound; lia | apply Nat.div_lt; lia]. }
    set (half := size / 2) in *. cbv zeta.
    destruct (probe f l (base + half)) eqn:E; apply IH; try lia; rewrite ?E; try (by right);
      try done.
    1-2: intros; apply He; lia.
    intros j Hj ?. eapply bitonic_gt; [exact Hp|exact E| |done].
    pose proof (Nat.div_mod_eq size 2). pose proof (Nat.mod_upper_bound size 2). lia.
Qed.

(** On a sorted slice the search is exact: it returns the index of the match,
    or else the insertion point. *)
Lemma binary_search_by_spec f l :
  bitonic (probe f l) (length l) ->
  match binary_search_by f l with
  | Ok i => i < length l /\ probe f l i = Eq
  | Err i => i <= length l /\ (forall j, j < i -> probe f l j = Lt) /\
             (forall j, i <= j -> j < length l -> probe f l j = Gt)
  end.
Proof.
  intros Hp. unfold binary_search_by. destruct l as [|x l']; [cbn; split_and!; lia|].
  set (l := x :: l') in *.
  destruct (narrow_spec (length l) f l 0 (length l) Hp) as (Hb & Hb0 & Hb1);
    [cbn; lia..|by left|lia|].
  set (b := narrow (length l) f l 0 (length l)) in *.
  destruct (probe f l b) eqn:E.
  - done.
  - split_and!; [lia| |intros; apply Hb1; lia].
    intros j Hj. destruct (decide (j = b)) as [->|]; [done|].
    eapply (bitonic_lt _ _ j b); [exact Hp|congruence|lia|lia].
  - destruct Hb0 as [->|]; [|congruence]. split_and!; [lia|lia|].
    intros [|j] ??; [done|]. apply Hb1; lia.
Qed.

Lemma bisect_spec fuel p n lo hi :
  bitonic p n -> hi - lo <= fuel -> hi <= n ->
  match bisect (S fuel) p lo hi with
  | Some i => lo <= i < hi /\ p i = Eq
  | None => forall i, lo <= i < hi -> p i <> Eq
  end.
Proof.
  intros Hp. revert lo hi. induction fuel as [|fuel IH]; intros lo hi Hf Hn;
    cbn [bisect]; (destruct (Nat.ltb_spec lo hi) as [Hlt|Hge]; [|intros; lia]); [lia|].
  assert ((hi - lo) / 2 < hi - lo) as Hm by (apply Nat.div_lt; lia).
  set (mid := lo + (hi - lo) / 2). destruct (p mid) eqn:E.
  - split; [lia|done].
  - pose proof (IH (S mid) hi) as IHr. cbn [bisect] in IHr.
    specialize (IHr ltac:(lia) Hn).
    destruct (if Nat.ltb (S mid) hi then _ else None); [split; [lia|apply IHr]|].
    intros i Hi. destruct (decide (i <= mid)) as [Hle|]; [|apply IHr; lia].
    destruct (decide (i = mid)) as [->|]; [congruence|].
    rewrite (bitonic_lt _ _ i mid Hp); [done|congruence|lia|lia].
  - pose proof (IH lo mid) as IHr. cbn [bisect] in IHr.
    specialize (IHr ltac:(lia) ltac:(lia)).
    destruct (if Nat.ltb lo mid then _ else None); [split; [lia|apply IHr]|].
    intros i Hi. destruct (decide (i < mid)); [apply IHr; lia|].
    rewrite (bitonic_gt _ _ mid i Hp E); [done|lia|lia].
Qed.
End search.

(** Both searches, on elements with strictly ascending keys. *)
Section keyed_search.
Context {A K : Type} (key : A -> K) (cmp : K -> K -> comparison) `{!CmpSpec cmp}.
Implicit Types (l : list A) (k : K).

Lemma probe_bitonic l k :
  ascending cmp (key <$> l) -> bitonic (probe (fun x => cmp (key x) k) l) (length l).
Proof.
  intros Hs i j Hij Hj. unfold probe.
  destruct (lookup_lt_is_Some_2 l j) as [y Hy]; [lia|].
  destruct (lookup_lt_is_Some_2 l i) as [x Hx]; [lia|]. rewrite Hx, Hy.
  assert (cmp (key x) (key y) = Lt) as Hxy.
  { eapply (ascending_lookup _ (key <$> l) i j); [done|by rewrite list_lookup_fmap, ?Hx, ?Hy..|done]. }
  destruct (cmp (key y) k) eqn:E; [..|by right]; left.
  - apply (cmp_eq cmp) in E as <-. done.
  - by eapply (cmp_trans cmp).
Qed.

Lemma binary_search_by_key l k i :
  ascending cmp (key <$> l) ->
  to_option (binary_search_by (fun x => cmp (key x) k) l) = Some i <->
  exists x, l !! i = Some x /\ key x = k.
Proof.
  intros Hs. pose proof (probe_bitonic l k Hs) as Hp.
  assert (forall j x, l !! j = Some x -> key x = k ->
    j < length l /\ probe (fun x => cmp (key x) k) l j = Eq) as Hhit.
  { intros j x Hj <-. unfold probe. rewrite Hj. split; [by eapply lookup_lt_Some|apply cmp_refl]. }
  pose proof (binary_search_by_spec (fun x => cmp (key x) k) l Hp) as Hspec.
  destruct (binary_search_by _ l) as [j|j]; cbn; split.
  - intros [= <-]. destruct Hspec as [Hj HE]. destruct (lookup_lt_is_Some_2 l j Hj) as [x Hx].
    exists x. unfold probe in HE. rewrite Hx in HE. by apply (cmp_eq cmp) in HE.
  - intros (x & Hx & Hk). destruct (Hhit _ _ Hx Hk), Hspec. f_equal. by eapply bitonic_eq.
  - done.
  - intros (x & Hx & Hk). destruct (Hhit _ _ Hx Hk) as [Hi HE]. destruct Hspec as (_ & HLt & HGt).
    destruct (decide (i < j)); [rewrite HLt in HE by lia|rewrite HGt in HE by lia]; done.
Qed.

Lemma binary_search_by_none l k :
  ascending cmp (key <$> l) ->
  to_option (binary_search_by (fun x => cmp (key x) k) l) = None <-> k ∉ key <$> l.
Proof.
  intros Hs. rewrite list_elem_of_fmap. split.
  - intros Hn (x & -> & (i & Hi)%list_elem_of_lookup).
    assert (to_option (binary_search_by (fun y => cmp (key y) (key x)) l) = Some i) as E
      by (apply binary_search_by_key; eauto). congruence.
  - intros Hn. destruct (to_option _) as [i|] eqn:E; [|done].
    apply binary_search_by_key in E as (x & Hx & <-); [|done].
    destruct Hn. exists x. split; [done|]. by eapply list_elem_of_lookup_2.
Qed.

(** The hand-written loop finds exactly what the library search finds. *)
Lemma bisect_binary_search l k (p : nat -> comparison) :
  ascending cmp (key <$> l) ->
  (forall i x, l !! i = Some x -> p i = cmp (key x) k) ->
  bisect (S (length l)) p 0 (length l) =
  to_option (binary_search_by (fun x => cmp (key x) k) l).
Proof.
  intros Hs Hp.
  assert (forall i, i < length l -> p i = probe (fun x => cmp (key x) k) l i) as Hpp.
  { intros i [x Hx]%lookup_lt_is_Some_2. unfold probe. rewrite Hx. by apply Hp. }
  assert (bitonic p (length l)) as Hb.
  { intros i j ??. rewrite !Hpp by lia. by apply probe_bitonic. }
  pose proof (bisect_spec (length l) p (length l) 0 (length l) Hb ltac:(lia) ltac:(lia)) as Hspec.
  destruct (bisect _ p 0 (length l)) as [i|]; symmetry.
  - destruct Hspec as [Hi HE]. rewrite Hpp in HE by lia.
    destruct (lookup_lt_is_Some_2 l i) as [x Hx]; [lia|].
    apply binary_search_by_key; [done|]. exists x. split; [done|].
    unfold probe in HE. rewrite Hx in HE. by apply (cmp_eq cmp).
  - apply binary_search_by_none; [done|]. intros (x & -> & (i & Hi)%list_elem_of_lookup)%list_elem_of_fmap.
    apply (Hspec i); [split; [lia|by eapply lookup_lt_Some]|].
    rewrite (Hp _ _ Hi). apply cmp_refl.
Qed.
End keyed_search.

(** ** [slice::sort_by_key]: a stable sort *)
Section sort.
Context {A K : Type} (key : A -> K) (cmp : K -> K -> comparison) `{!CmpSpec cmp}.
Implicit Types (l : list A) (x : A).

Fixpoint insert_by x l : list A :=
  match l with
  | [] => [x]
  | y :: l => match cmp (key x) (key y) with
              | Gt => y :: insert_by x l
              | _ => x :: y :: l
              end
  end.

Fixpoint sort_by_key l : list A :=
  match l with
  | [] => []
  | x :: l => insert_by x (sort_by_key l)
  end.

Lemma insert_by_perm x l : insert_by x l ≡ₚ x :: l.
Proof.
  induction l as [|y l IH]; cbn; [done|].
  destruct (cmp (key x) (key y)); [done..|]. rewrite IH. apply Permutation_swap.
Qed.

Lemma sort_by_key_perm l : sort_by_key l ≡ₚ l.
Proof. induction l as [|x l IH]; cbn; [done|]. by rewrite insert_by_perm, IH. Qed.

Lemma insert_by_ascending x l :
  key x ∉ key <$> l -> ascending cmp (key <$> l) -> ascending cmp (key <$> insert_by x l).
Proof.
  induction l as [|y l IH]; intros Hx Hs; cbn; [repeat constructor|].
  rewrite fmap_cons, not_elem_of_cons in Hx. destruct Hx as [Hxy Hx].
  destruct (cmp (key x) (key y)) eqn:E.
  - by apply (cmp_eq cmp) in E.
  - by apply ascending_cons.
  - apply StronglySorted_inv in Hs as [Hs Hy]. cbn. constructor; [by apply IH|].
    rewrite insert_by_perm. cbn. constructor; [by apply cmp_gt_lt|done].
Qed.

Lemma sort_by_key_ascending l :
  NoDup (key <$> l) -> ascending cmp (key <$> sort_by_key l).
Proof.
  induction l as [|x l IH]; cbn; [constructor|]. intros [Hx Hl]%NoDup_cons.
  apply insert_by_ascending; [|by apply IH]. by rewrite sort_by_key_perm.
Qed.

(** Sorting changes nothing when the keys ascend already. *)
Lemma sort_by_key_id l : ascending cmp (key <$> l) -> sort_by_key l = l.
Proof.
  induction l as [|x l IH]; cbn; [done|]. intros [Hs Hx]%StronglySorted_inv.
  rewrite (IH Hs). destruct l as [|y l]; [done|]. cbn in *.
  apply Forall_cons in Hx as [-> _]. done.
Qed.
End sort.
