(* ===== verification/Crates.v ===== *)
(** * Crates: the third-party code the program calls

    The functions of the crates [sha2], [hex], [ciborium] and [uuid] are
    parameters of the model, gathered in the operational class [Crates]; the
    documented behaviour the program relies on is stated by the classes
    [Sha256Spec], [HexSpec], [CiboriumSpec] and [UuidSpec].  The last part
    builds one concrete instance, [Toy.crates], that satisfies all of them: it
    is used to evaluate the model on concrete inputs. *)

From stdpp Require Import base tactics list strings.
From Stdlib Require Import NArith ZArith Lia.
From S2P Require Import Prelude.

(** [ciborium::Value].  A float is kept as its 64 bits. *)
Inductive Value : Type :=
| VInteger (z : Z)
| VBytes (b : bytes)
| VFloat (bits : N)
| VText (s : string)
| VBool (b : bool)
| VNull
| VTag (t : N) (v : Value)
| VArray (vs : list Value)
| VMap (kvs : list (Value * Value)).

Section value_ind.
Variable P : Value -> Prop.
Hypothesis HInteger : forall z, P (VInteger z).
Hypothesis HBytes : forall b, P (VBytes b).
Hypothesis HFloat : forall b, P (VFloat b).
Hypothesis HText : forall s, P (VText s).
Hypothesis HBool : forall b, P (VBool b).
Hypothesis HNull : P VNull.
Hypothesis HTag : forall t v, P v -> P (VTag t v).
Hypothesis HArray : forall vs, Forall P vs -> P (VArray vs).
Hypothesis HMap : forall kvs, Forall (fun kv => P kv.1 /\ P kv.2) kvs -> P (VMap kvs).

(** Structural induction that goes through the nested lists. *)
Fixpoint value_rect' (v : Value) : P v :=
  match v with
  | VInteger z => HInteger z
  | VBytes b => HBytes b
  | VFloat b => HFloat b
  | VText s => HText s
  | VBool b => HBool b
  | VNull => HNull
  | VTag t v => HTag t v (value_rect' v)
  | VArray vs =>
      HArray vs ((fix go (vs : list Value) : Forall P vs :=
        match vs with
        | [] => Forall_nil_2 _
        | v :: vs => Forall_cons_2 _ _ _ (value_rect' v) (go vs)
        end) vs)
  | VMap kvs =>
      HMap kvs ((fix go (kvs : list (Value * Value)) :
          Forall (fun kv => P kv.1 /\ P kv.2) kvs :=
        match kvs with
        | [] => Forall_nil_2 _
        | (k, v) :: kvs =>
            Forall_cons_2 _ (k, v) _ (conj (value_rect' k) (value_rect' v)) (go kvs)
        end) kvs)
  end.
End value_ind.

(** The accessors of [Value]. *)
Definition as_integer (v : Value) : option Z :=
  match v with VInteger z => Some z | _ => None end.
Definition as_bytes (v : Value) : option bytes :=
  match v with VBytes b => Some b | _ => None end.
Definition as_text (v : Value) : option string :=
  match v with VText s => Some s | _ => None end.
Definition as_array (v : Value) : option (list Value) :=
  match v with VArray vs => Some vs | _ => None end.
Definition as_map (v : Value) : option (list (Value * Value)) :=
  match v with VMap kvs => Some kvs | _ => None end.

(** Well-formed UTF-8 (RFC 3629): what every Rust [String] holds. *)
Definition utf8_tail (b : byte) : bool :=
  (128 <=? Byte.to_N b)%N && (Byte.to_N b <? 192)%N.
Definition byte_in (lo hi : N) (b : byte) : bool :=
  (lo <=? Byte.to_N b)%N && (Byte.to_N b <=? hi)%N.

Fixpoint utf8_valid (l : bytes) : bool :=
  match l with
  | [] => true
  | a :: l1 =>
      if byte_in 0 127 a then utf8_valid l1 else
      match l1 with
      | [] => false
      | b :: l2 =>
          if byte_in 194 223 a then utf8_tail b && utf8_valid l2 else
          match l2 with
          | [] => false
          | c :: l3 =>
              if byte_in 224 239 a then
                (if byte_in 224 224 a then byte_in 160 191 b
                 else if byte_in 237 237 a then byte_in 128 159 b else utf8_tail b) &&
                utf8_tail c && utf8_valid l3
              else
              match l3 with
              | [] => false
              | d :: l4 =>
                  byte_in 240 244 a &&
                  (if byte_in 240 240 a then byte_in 144 191 b
                   else if byte_in 244 244 a then byte_in 128 143 b else utf8_tail b) &&
                  utf8_tail c && utf8_tail d && utf8_valid l4
              end
          end
      end
  end.

Definition is_utf8 (s : string) : bool := utf8_valid (String.list_byte_of_string s).

(** Values that [ciborium] writes and reads back unchanged: integers in the
    range of a CBOR integer, valid text, no semantic tags (a bignum tag is read
    back as an integer), and nesting below the reader's recursion limit. *)
Fixpoint portable (depth : nat) (v : Value) : bool :=
  match depth with
  | O => false
  | S depth =>
      match v with
      | VInteger z => (- 2 ^ 64 <=? z)%Z && (z <? 2 ^ 64)%Z
      | VText s => is_utf8 s
      | VTag _ _ => false
      | VArray vs => forallb (portable depth) vs
      | VMap kvs => forallb (fun kv => portable depth kv.1 && portable depth kv.2) kvs
      | VFloat b => (b <? u64_lim)%N
      | VBytes _ | VBool _ | VNull => true
      end
  end.

Definition cbor_depth : nat := 128.

Lemma portable_S d v : portable d v = true -> portable (S d) v = true.
Proof.
  revert d. induction v as [| | | | | | | vs IH | kvs IH] using value_rect';
    intros [|d] H; try done.
  - cbn in H. change (forallb (portable (S d)) vs = true).
    rewrite forallb_forall in *. intros x Hx. rewrite Forall_forall in IH.
    apply IH; [by apply list_elem_of_In|]. by apply H.
  - cbn in H. change (forallb (fun kv => portable (S d) kv.1 && portable (S d) kv.2) kvs = true).
    rewrite forallb_forall in *. intros x Hx. rewrite Forall_forall in IH.
    destruct (IH x) as [IHk IHv]; [by apply list_elem_of_In|].
    specialize (H x Hx). apply andb_true_iff in H as [Hk Hv].
    by rewrite IHk, IHv.
Qed.

Lemma portable_mono d e v : d <= e -> portable d v = true -> portable e v = true.
Proof. induction 1; [done|]. intros. by apply portable_S, IHle. Qed.

(** ** The crates *)

Class Crates := {
  (** [sha2::Sha256::digest] *)
  sha256 : bytes -> bytes;
  (** [hex::encode], [hex::decode] *)
  hex_encode : bytes -> string;
  hex_decode : string -> result string bytes;
  (** [ciborium::into_writer] and [ciborium::from_reader] at type [Value] *)
  cbor_into_writer : Value -> bytes;
  cbor_from_reader : bytes -> result string Value;
  (** [uuid::Uuid::from_slice] followed by [as_bytes] *)
  uuid_from_slice : bytes -> result string bytes;
}.

Class Sha256Spec `{!Crates} : Prop := {
  sha256_length b : length (sha256 b) = 32;
}.

(** [u8::is_ascii_hexdigit]. *)
Definition is_hexdigit (c : Ascii.ascii) : bool :=
  let n := Ascii.N_of_ascii c in
  ((48 <=? n) && (n <=? 57) || (97 <=? n) && (n <=? 102) || (65 <=? n) && (n <=? 70))%N.

Class HexSpec `{!Crates} : Prop := {
  hex_decode_encode b : hex_decode (hex_encode b) = Ok b;
  hex_encode_length b : String.length (hex_encode b) = 2 * length b;
  hex_encode_digits b :
    forallb is_hexdigit (String.list_ascii_of_string (hex_encode b)) = true;
}.

Class CiboriumSpec `{!Crates} : Prop := {
  cbor_read_write v :
    portable cbor_depth v = true -> cbor_from_reader (cbor_into_writer v) = Ok v;
}.

Class UuidSpec `{!Crates} : Prop := {
  uuid_from_slice_16 b : length b = 16 -> uuid_from_slice b = Ok b;
  uuid_from_slice_Ok b u : uuid_from_slice b = Ok u -> u = b /\ length b = 16;
}.

#[export] Instance hex_encode_inj `{!Crates, !HexSpec} : Inj (=) (=) hex_encode.
Proof.
  intros a b Hab. apply (f_equal hex_decode) in Hab.
  rewrite !hex_decode_encode in Hab. congruence.
Qed.

(** ** A concrete instance *)
Module Toy.

(** A checksum of 32 bytes. *)
Definition digest (b : bytes) : bytes :=
  be_encode 32
    (fold_left (fun acc x => N.land (acc * 263 + Byte.to_N x + 1) (N.ones 128))%N b 7%N).

Definition nibble (n : N) : Ascii.ascii :=
  Ascii.ascii_of_N (if (n <? 10)%N then 48 + n else 87 + n).

Definition unnibble (c : Ascii.ascii) : option N :=
  let n := Ascii.N_of_ascii c in
  if (48 <=? n)%N && (n <=? 57)%N then Some (n - 48)%N
  else if (97 <=? n)%N && (n <=? 102)%N then Some (n - 87)%N
  else if (65 <=? n)%N && (n <=? 70)%N then Some (n - 55)%N
  else None.

Fixpoint to_hex (b : bytes) : string :=
  match b with
  | [] => EmptyString
  | x :: b =>
      String (nibble (Byte.to_N x / 16)) (String (nibble (Byte.to_N x mod 16)) (to_hex b))
  end.

Fixpoint of_hex (s : string) : result string bytes :=
  match s with
  | EmptyString => Ok []
  | String a (String c s) =>
      match unnibble a, unnibble c with
      | Some h, Some l => b ← of_hex s; Ok (byte_of_N (h * 16 + l) :: b)
      | _, _ => Err "invalid character"%string
      end
  | _ => Err "odd number of digits"%string
  end.

Lemma of_to_hex b : of_hex (to_hex b) = Ok b.
Proof. induction b as [|x b IH]; [done|]. cbn [to_hex of_hex]. rewrite IH. by destruct x. Qed.

(** A tag-length-value codec for [Value]. *)
Fixpoint enc_pos (p : positive) : bytes :=
  match p with xH => [x02] | xO p => x00 :: enc_pos p | xI p => x01 :: enc_pos p end.

Fixpoint dec_pos (l : bytes) : option (positive * bytes) :=
  match l with
  | x02 :: l => Some (xH, l)
  | x00 :: l => '(p, l) ← dec_pos l; Some (xO p, l)
  | x01 :: l => '(p, l) ← dec_pos l; Some (xI p, l)
  | _ => None
  end.

Lemma dec_enc_pos p r : dec_pos (enc_pos p ++ r) = Some (p, r).
Proof. induction p as [p IH|p IH|]; cbn; [rewrite IH|rewrite IH|]; done. Qed.

Definition enc_N (n : N) : bytes := enc_pos (N.succ_pos n).
Definition dec_N (l : bytes) : option (N * bytes) :=
  '(p, l) ← dec_pos l; Some (Pos.pred_N p, l).

Lemma dec_enc_N n r : dec_N (enc_N n ++ r) = Some (n, r).
Proof. unfold dec_N, enc_N. rewrite dec_enc_pos. cbn. by rewrite N.pos_pred_succ. Qed.

Definition enc_bytes (b : bytes) : bytes := enc_N (len b) ++ b.
Definition dec_bytes (l : bytes) : option (bytes * bytes) :=
  '(n, l) ← dec_N l; Some (take (N.to_nat n) l, drop (N.to_nat n) l).

Lemma dec_enc_bytes b r : dec_bytes (enc_bytes b ++ r) = Some (b, r).
Proof.
  unfold dec_bytes, enc_bytes. rewrite <- app_assoc, dec_enc_N. cbn.
  unfold len. by rewrite Nat2N.id, take_app_length, drop_app_length.
Qed.

Definition zigzag (z : Z) : N :=
  if (0 <=? z)%Z then (2 * Z.to_N z)%N else (2 * Z.to_N (- z) + 1)%N.
Definition unzigzag (n : N) : Z :=
  if N.even n then Z.of_N (N.div n 2) else (- Z.of_N (N.div n 2))%Z.

Lemma unzigzag_zigzag z : unzigzag (zigzag z) = z.
Proof.
  unfold unzigzag, zigzag. destruct (Z.leb_spec 0 z).
  - rewrite N.even_mul. change (N.even 2 || N.even (Z.to_N z)) with true. cbv iota.
    rewrite N.mul_comm, N.div_mul by done. by apply Z2N.id.
  - rewrite N.even_add, N.even_mul.
    change (eqb (N.even 2 || N.even (Z.to_N (- z))) (N.even 1)) with false. cbv iota.
    rewrite N.mul_comm, N.add_comm, N.div_add by done.
    change (1 / 2)%N with 0%N. rewrite N.add_0_l, Z2N.id; lia.
Qed.

Fixpoint enc (v : Value) : bytes :=
  match v with
  | VInteger z => x00 :: enc_N (zigzag z)
  | VBytes b => x01 :: enc_bytes b
  | VFloat b => x02 :: enc_N b
  | VText s => x03 :: enc_bytes (String.list_byte_of_string s)
  | VBool b => if b then [x04] else [x05]
  | VNull => [x06]
  | VTag t v => x07 :: enc_N t ++ enc v
  | VArray vs => x08 :: enc_N (len vs) ++ flat_map enc vs
  | VMap kvs => x09 :: enc_N (len kvs) ++ flat_map (fun kv => enc kv.1 ++ enc kv.2) kvs
  end.

(** [n] values in a row. *)
Fixpoint dec_many {A} (d : bytes -> option (A * bytes)) (n : nat) (l : bytes) :
    option (list A * bytes) :=
  match n with
  | O => Some ([], l)
  | S n => '(x, l) ← d l; '(xs, l) ← dec_many d n l; Some (x :: xs, l)
  end.

Fixpoint dec (fuel : nat) (l : bytes) : option (Value * bytes) :=
  match fuel with
  | O => None
  | S fuel =>
      match l with
      | x00 :: l => '(n, l) ← dec_N l; Some (VInteger (unzigzag n), l)
      | x01 :: l => '(b, l) ← dec_bytes l; Some (VBytes b, l)
      | x02 :: l => '(n, l) ← dec_N l; Some (VFloat n, l)
      | x03 :: l => '(b, l) ← dec_bytes l; Some (VText (String.string_of_list_byte b), l)
      | x04 :: l => Some (VBool true, l)
      | x05 :: l => Some (VBool false, l)
      | x06 :: l => Some (VNull, l)
      | x07 :: l => '(t, l) ← dec_N l; '(v, l) ← dec fuel l; Some (VTag t v, l)
      | x08 :: l =>
          '(n, l) ← dec_N l; '(vs, l) ← dec_many (dec fuel) (N.to_nat n) l; Some (VArray vs, l)
      | x09 :: l =>
          '(n, l) ← dec_N l;
          '(kvs, l) ← dec_many
             (fun l => '(k, l) ← dec fuel l; '(v, l) ← dec fuel l; Some ((k, v), l))
             (N.to_nat n) l;
          Some (VMap kvs, l)
      | _ => None
      end
  end.

Lemma dec_many_flat_map {A} (d : bytes -> option (A * bytes)) (e : A -> bytes) xs r :
  (forall x r, x ∈ xs -> d (e x ++ r) = Some (x, r)) ->
  dec_many d (length xs) (flat_map e xs ++ r) = Some (xs, r).
Proof.
  induction xs as [|x xs IH]; intros Hd; cbn [dec_many length flat_map]; [done|].
  rewrite <- app_assoc, Hd by left. cbn [mbind option_bind].
  rewrite IH; [done|]. intros. apply Hd. by right.
Qed.

Lemma length_flat_map_elem {A} (e : A -> bytes) xs x :
  x ∈ xs -> length (e x) <= length (flat_map e xs).
Proof.
  induction 1; cbn; rewrite length_app; lia.
Qed.

Lemma dec_enc v : forall fuel r, length (enc v) <= fuel -> dec fuel (enc v ++ r) = Some (v, r).
Proof.
  induction v as [z|b|b|s|[]| |t v IH|vs IH|kvs IH] using value_rect';
    intros [|fuel] r Hf; try (cbn in Hf; lia); cbn [enc] in *; cbn [app dec].
  - by rewrite dec_enc_N; cbn; rewrite unzigzag_zigzag.
  - by rewrite dec_enc_bytes.
  - by rewrite dec_enc_N.
  - rewrite dec_enc_bytes. cbn. by rewrite String.string_of_list_byte_of_string.
  - done.
  - done.
  - done.
  - rewrite <- app_assoc, dec_enc_N. cbn [mbind option_bind]. rewrite IH; [done|].
    cbn in Hf. rewrite length_app in Hf. lia.
  - rewrite <- app_assoc, dec_enc_N. cbn [mbind option_bind]. unfold len. rewrite Nat2N.id.
    rewrite dec_many_flat_map; [done|]. intros x q Hx. rewrite Forall_forall in IH.
    apply IH; [done|]. cbn in Hf. rewrite length_app in Hf.
    pose proof (length_flat_map_elem enc vs x Hx). lia.
  - rewrite <- app_assoc, dec_enc_N. cbn [mbind option_bind]. unfold len. rewrite Nat2N.id.
    rewrite dec_many_flat_map; [done|]. intros [k v] q Hx. rewrite Forall_forall in IH.
    destruct (IH _ Hx) as [IHk IHv]. cbn in *. rewrite length_app in Hf.
    pose proof (length_flat_map_elem (fun kv => enc kv.1 ++ enc kv.2) kvs _ Hx) as Hl.
    cbn in Hl. rewrite length_app in Hl.
    rewrite <- app_assoc, IHk by lia. cbn. rewrite IHv by lia. done.
Qed.

Definition from_reader (l : bytes) : result string Value :=
  match dec (length l) l with
  | Some (v, _) => Ok v
  | None => Err "decode error"%string
  end.

#[export] Instance crates : Crates := {
  sha256 := digest;
  hex_encode := to_hex;
  hex_decode := of_hex;
  cbor_into_writer := enc;
  cbor_from_reader := from_reader;
  uuid_from_slice := fun b =>
    if decide (length b = 16) then Ok b else Err "invalid length"%string;
}.

#[export] Instance sha256_spec : Sha256Spec.
Proof. split. intros. apply length_be_encode. Qed.
#[export] Instance hex_spec : HexSpec.
Proof.
  split; [apply of_to_hex|..]; intros b; induction b as [|x b IH]; cbn in *; [done|lia|done|].
  rewrite IH. by destruct x.
Qed.
#[export] Instance ciborium_spec : CiboriumSpec.
Proof.
  split. intros v _. cbn. unfold from_reader.
  rewrite <- (app_nil_r (enc v)) at 2. rewrite dec_enc; done.
Qed.
#[export] Instance uuid_spec : UuidSpec.
Proof. split; intros b; cbn; case_decide; naive_solver. Qed.
End Toy.
