(* ===== verification/AhuError.v ===== *)
(** * AhuError: the error type of the crate [ahu] (ahu/src/error.rs) *)

From stdpp Require Import base strings.
From S2P Require Import Prelude.

(** The variants of [AhuError]; formatted messages are kept as strings and
    displayed digests as the hexadecimal text the code puts there. *)
Inductive AhuError : Type :=
| BadMagic (found : bytes)
| UnsupportedVersion (major minor : N)
| HeaderOutOfBounds (field : string) (offset length file_size : N)
| ManifestDecode (reason : string)
| ManifestField (reason : string)
| SealInvalid (reason : string)
| IndexDigestMismatch (expected actual : string)
| DataDigestMismatch (expected actual : string)
| IndexNotSorted (index : nat) (key next_key : string)
| DuplicateEntryKey (index : nat) (key : string)
| IndexSizeMismatch (size : N) (record_size : N)
| EpochRollback (scope : string) (epoch high_water : N)
| ContinuityBreak (scope : string)
| DeltaMissingBase
| ForkDetected (scope : string)
| EntryOutOfBounds (offset : N) (length : N)
| ReservedNotZero (index : nat)
| Io (e : IoError)
| WriteError (reason : string)
| InvalidOperation (reason : string).

(** [pub type Result<T> = std::result::Result<T, AhuError>]. *)
Abbreviation ahu_result := (result AhuError).
