(* ===== verification/Header.v ===== *)
(** * Header: the file header of a bundle (ahu/src/header.rs) *)

From stdpp Require Import base tactics list strings.
From Stdlib Require Import NArith Lia.
From S2P Require Import Prelude AhuError.
Local Open Scope N_scope.

Definition MAGIC : bytes := [x41; x48; x55; x31].
Definition HEADER_SIZE : N := 64.
Definition FORMAT_MAJOR : N := 0.
Definition FORMAT_MINOR : N := 1.

Record FileHeader : Type := mkFileHeader {
  fh_format_major : N;
  fh_format_minor : N;
  fh_manifest_offset : N;
  fh_manifest_length : N;
  fh_seal_offset : N;
  fh_seal_length : N;
  fh_index_offset : N;
  fh_index_length : N;
  fh_data_offset : N;
  fh_data_length : N;
}.

(** The integer types of the fields. *)
Record FileHeader_wf (h : FileHeader) : Prop := {
  fhw_major : fh_format_major h < u16_lim;
  fhw_minor : fh_format_minor h < u16_lim;
  fhw_manifest_offset : fh_manifest_offset h < u64_lim;
  fhw_manifest_length : fh_manifest_length h < u32_lim;
  fhw_seal_offset : fh_seal_offset h < u64_lim;
  fhw_seal_length : fh_seal_length h < u32_lim;
  fhw_index_offset : fh_index_offset h < u64_lim;
  fhw_index_length : fh_index_length h < u64_lim;
  fhw_data_offset : fh_data_offset h < u64_lim;
  fhw_data_length : fh_data_length h < u64_lim;
}.

(** The reads of the source return [io::Error], converted by [?]. *)
Definition read_u16 (r : bytes) : ahu_result (N * bytes) := map_err Io (read_be 2 r).
Definition read_u32 (r : bytes) : ahu_result (N * bytes) := map_err Io (read_be 4 r).
Definition read_u64 (r : bytes) : ahu_result (N * bytes) := map_err Io (read_be 8 r).

(** [FileHeader::read_from]. *)
Definition read_from (r : bytes) : ahu_result (FileHeader * bytes) :=
  '(magic, r) ← map_err Io (read_exact 4 r);
  if decide (magic <> MAGIC) then Err (BadMagic magic) else
  '(format_major, r) ← read_u16 r;
  if negb (format_major =? FORMAT_MAJOR) then
    '(format_minor, r) ← read_u16 r;
    Err (UnsupportedVersion format_major format_minor)
  else
  '(format_minor, r) ← read_u16 r;
  '(manifest_offset, r) ← read_u64 r;
  '(manifest_length, r) ← read_u32 r;
  '(seal_offset, r) ← read_u64 r;
  '(seal_length, r) ← read_u32 r;
  '(index_offset, r) ← read_u64 r;
  '(index_length, r) ← read_u64 r;
  '(data_offset, r) ← read_u64 r;
  '(data_length, r) ← read_u64 r;
  Ok (mkFileHeader format_major format_minor manifest_offset manifest_length
        seal_offset seal_length index_offset index_length data_offset data_length, r).

(** [FileHeader::write_to], as the bytes appended to the writer. *)
Definition write_to (h : FileHeader) : bytes :=
  MAGIC ++
  be_encode 2 (fh_format_major h) ++
  be_encode 2 (fh_format_minor h) ++
  be_encode 8 (fh_manifest_offset h) ++
  be_encode 4 (fh_manifest_length h) ++
  be_encode 8 (fh_seal_offset h) ++
  be_encode 4 (fh_seal_length h) ++
  be_encode 8 (fh_index_offset h) ++
  be_encode 8 (fh_index_length h) ++
  be_encode 8 (fh_data_offset h) ++
  be_encode 8 (fh_data_length h).

(** The closure [check] of [validate_bounds]. *)
Definition check_bounds (file_size : N) (field : string) (offset length : N) :
    ahu_result unit :=
  match checked_add offset length with
  | Some stop =>
      if file_size <? stop then Err (HeaderOutOfBounds field offset length file_size)
      else Ok tt
  | None => Err (HeaderOutOfBounds field offset length file_size)
  end.

(** [FileHeader::validate_bounds]. *)
Definition validate_bounds (h : FileHeader) (file_size : N) : ahu_result unit :=
  check_bounds file_size "manifest" (fh_manifest_offset h) (fh_manifest_length h) ;;
  check_bounds file_size "seal" (fh_seal_offset h) (fh_seal_length h) ;;
  check_bounds file_size "index" (fh_index_offset h) (fh_index_length h) ;;
  check_bounds file_size "data" (fh_data_offset h) (fh_data_length h) ;;
  Ok tt.

(** ** Properties *)

Lemma read_u16_Ok r n r' : read_u16 r = Ok (n, r') <-> r = be_encode 2 n ++ r' /\ n < u16_lim.
Proof. unfold read_u16. by rewrite map_err_Ok, read_be_Ok, u16_lim_pow. Qed.
Lemma read_u32_Ok r n r' : read_u32 r = Ok (n, r') <-> r = be_encode 4 n ++ r' /\ n < u32_lim.
Proof. unfold read_u32. by rewrite map_err_Ok, read_be_Ok, u32_lim_pow. Qed.
Lemma read_u64_Ok r n r' : read_u64 r = Ok (n, r') <-> r = be_encode 8 n ++ r' /\ n < u64_lim.
Proof. unfold read_u64. by rewrite map_err_Ok, read_be_Ok, u64_lim_pow. Qed.

Lemma read_u16_app n r : n < u16_lim -> read_u16 (be_encode 2 n ++ r) = Ok (n, r).
Proof. intros. by apply read_u16_Ok. Qed.
Lemma read_u32_app n r : n < u32_lim -> read_u32 (be_encode 4 n ++ r) = Ok (n, r).
Proof. intros. by apply read_u32_Ok. Qed.
Lemma read_u64_app n r : n < u64_lim -> read_u64 (be_encode 8 n ++ r) = Ok (n, r).
Proof. intros. by apply read_u64_Ok. Qed.

(** Fields are read by the rule for their width. *)
Ltac read_fields :=
  repeat (first
    [ rewrite read_u16_app by done | rewrite read_u32_app by done
    | rewrite read_u64_app by done ]; cbn [mbind result_bind]).
Ltac inv_reads :=
  repeat match goal with
  | H : read_u16 _ = Ok (_, _) |- _ => apply read_u16_Ok in H as [-> ?]
  | H : read_u32 _ = Ok (_, _) |- _ => apply read_u32_Ok in H as [-> ?]
  | H : read_u64 _ = Ok (_, _) |- _ => apply read_u64_Ok in H as [-> ?]
  end.

Lemma length_write_to h : len (write_to h) = HEADER_SIZE.
Proof. unfold write_to. autorewrite with hoike_rw. reflexivity. Qed.

Lemma read_from_Ok (r : bytes) (h : FileHeader) (rest : bytes) :
  read_from r = Ok (h, rest) <->
  r = write_to h ++ rest /\ FileHeader_wf h /\ fh_format_major h = FORMAT_MAJOR.
Proof.
  unfold write_to, read_from. rewrite <- !app_assoc. split.
  - intros H. inv_ok. destruct v as [magic r1]. apply read_exact_Ok in H0 as [-> _].
    case_decide as Hm; [done|]. subst magic. inv_ok.
    destruct v as [major r2]. destruct (N.eqb_spec major FORMAT_MAJOR) as [->|]; cbn [negb] in *.
    + repeat (inv_ok; match goal with p : N * bytes |- _ => destruct p as [? ?] end).
      inv_ok. simplify_eq/=. inv_reads. split; [done|]. split; [by constructor|done].
    + inv_ok. by destruct v.
  - intros (-> & [] & Hmaj).
    rewrite (read_exact_app MAGIC _ : read_exact 4 _ = _). cbn [map_err mbind result_bind].
    rewrite decide_False by (intros Hn; by destruct Hn).
    rewrite read_u16_app by done. cbn [mbind result_bind]. rewrite Hmaj. cbn [negb N.eqb FORMAT_MAJOR].
    read_fields. destruct h. cbn in *. by subst.
Qed.

(** The header reader accepts exactly the encodings of well-typed headers of
    the supported major version: it succeeds with [h] and the unread rest if and
    only if the input is [write_to h] followed by that rest.  This is the round
    trip of the header in both directions. *)
Theorem read_from_iff (r : bytes) (h : FileHeader) (rest : bytes) :
  read_from r = Ok (h, rest) <->
  r = write_to h ++ rest /\ FileHeader_wf h /\ fh_format_major h = FORMAT_MAJOR.
Proof. apply read_from_Ok. Qed.

Definition sample_header : FileHeader :=
  mkFileHeader FORMAT_MAJOR FORMAT_MINOR 64 256 320 512 832 4800 5632 102400.

Lemma check_bounds_Ok file_size field offset length u :
  check_bounds file_size field offset length = Ok u <->
  offset + length < u64_lim /\ offset + length <= file_size.
Proof.
  unfold check_bounds. destruct u, (checked_add offset length) as [stop|] eqn:E.
  - apply checked_add_Some in E as [-> ?].
    destruct (N.ltb_spec file_size (offset + length)); split; try done; lia.
  - apply checked_add_None in E. split; [done|lia].
Qed.

(** The four sections a header describes, as (offset, length). *)
Definition sections (h : FileHeader) : list (N * N) :=
  [(fh_manifest_offset h, fh_manifest_length h); (fh_seal_offset h, fh_seal_length h);
   (fh_index_offset h, fh_index_length h); (fh_data_offset h, fh_data_length h)].

Lemma validate_bounds_Ok (h : FileHeader) (file_size : N) :
  validate_bounds h file_size = Ok tt <->
  Forall (fun s => s.1 + s.2 < u64_lim /\ s.1 + s.2 <= file_size) (sections h).
Proof.
  unfold validate_bounds, sections. rewrite !Forall_cons, <- !check_bounds_Ok. cbn [fst snd].
  split.
  - intros. inv_ok. repeat (split; [eassumption|]). constructor.
  - intros (H1 & H2 & H3 & H4 & _). by rewrite H1, H2, H3, H4.
Qed.

(** Bounds validation is exact and free of wrap-around: it succeeds if and
    only if every section the header describes ends, computed over the
    mathematical integers, both below 2^64 and inside the file. *)
Theorem validate_bounds_iff (h : FileHeader) (file_size : N) :
  validate_bounds h file_size = Ok tt <->
  Forall (fun s => s.1 + s.2 < u64_lim /\ s.1 + s.2 <= file_size) (sections h).
Proof. apply validate_bounds_Ok. Qed.
