(* ===== verification/Index.v ===== *)
(** * Index: index records, their order and the searches (ahu/src/index.rs) *)

From stdpp Require Import base tactics list strings.
From Stdlib Require Import NArith Lia.
From S2P Require Import Prelude Slices Crates AhuError Header.
Local Open Scope N_scope.

Definition INDEX_RECORD_SIZE : N := 48.

(** [IndexFlags]: a [u16] of which three bits are defined. *)
Definition MULTI : N := 1.
Definition ALIAS : N := 2.
Definition TOMBSTONE : N := 4.
Definition flags_all : N := N.lor MULTI (N.lor ALIAS TOMBSTONE).
Definition flags_empty : N := 0.

(** [from_bits_truncate] drops the undefined bits. *)
Definition from_bits_truncate (raw : N) : N := N.land raw flags_all.
Definition flags_contains (flags flag : N) : bool := N.land flags flag =? flag.

Definition ALG_DISC_DEFAULT : N := 0.
Definition ALG_DISC_ML_DSA_44 : N := 2.
Definition ALG_DISC_ML_DSA_65 : N := 3.
Definition ALG_DISC_ML_DSA_87 : N := 4.

Record IndexRecord : Type := mkIndexRecord {
  ir_entry_key : bytes;
  ir_data_offset : N;
  ir_data_length : N;
  ir_flags : N;
  ir_discriminator : N;
}.

(** The types of the fields: [[u8; 32]], [u64], [u32], [IndexFlags], [u16]. *)
Record IndexRecord_wf (rec : IndexRecord) : Prop := {
  irw_key : length (ir_entry_key rec) = 32%nat;
  irw_offset : ir_data_offset rec < u64_lim;
  irw_length : ir_data_length rec < u32_lim;
  irw_flags : from_bits_truncate (ir_flags rec) = ir_flags rec;
  irw_disc : ir_discriminator rec < u16_lim;
}.

#[export] Instance IndexRecord_eq_dec : EqDecision IndexRecord.
Proof. solve_decision. Defined.

(** [IndexRecord::read_from]. *)
Definition read_record (r : bytes) : ahu_result (IndexRecord * bytes) :=
  '(entry_key, r) ← map_err Io (read_exact 32 r);
  '(data_offset, r) ← read_u64 r;
  '(data_length, r) ← read_u32 r;
  '(flags_raw, r) ← read_u16 r;
  '(discriminator, r) ← read_u16 r;
  Ok (mkIndexRecord entry_key data_offset data_length
        (from_bits_truncate flags_raw) discriminator, r).

(** [IndexRecord::write_to], as the bytes appended to the writer. *)
Definition write_record (rec : IndexRecord) : bytes :=
  ir_entry_key rec ++
  be_encode 8 (ir_data_offset rec) ++
  be_encode 4 (ir_data_length rec) ++
  be_encode 2 (ir_flags rec) ++
  be_encode 2 (ir_discriminator rec).

Definition is_tombstone (rec : IndexRecord) : bool := flags_contains (ir_flags rec) TOMBSTONE.
Definition is_alias (rec : IndexRecord) : bool := flags_contains (ir_flags rec) ALIAS.
Definition is_multi (rec : IndexRecord) : bool := flags_contains (ir_flags rec) MULTI.

(** The sort key: [(entry_key, discriminator)]. *)
Abbreviation EntryKey := (bytes * N)%type.
Definition record_key (rec : IndexRecord) : EntryKey :=
  (ir_entry_key rec, ir_discriminator rec).
Definition key_cmp : EntryKey -> EntryKey -> comparison := pair_cmp bytes_cmp N.compare.

#[export] Instance key_cmp_spec : CmpSpec key_cmp := _.

Section index.
Context {CR : Crates}.
Implicit Types (records : list IndexRecord) (key : bytes) (disc : N).

(** [compute_entry_key]. *)
Definition compute_entry_key (certid_der : bytes) : bytes := sha256 certid_der.

(** The loop of [validate_sort_order]: [i] counts the adjacent pairs. *)
Fixpoint validate_sort_order_from (i : nat) records : ahu_result unit :=
  match records with
  | r1 :: ((r2 :: _) as tl) =>
      match bytes_cmp (ir_entry_key r1) (ir_entry_key r2) with
      | Gt => Err (IndexNotSorted i (hex_encode (ir_entry_key r1)) (hex_encode (ir_entry_key r2)))
      | Eq =>
          match N.compare (ir_discriminator r1) (ir_discriminator r2) with
          | Eq => Err (DuplicateEntryKey i (hex_encode (ir_entry_key r1)))
          | Gt => Err (IndexNotSorted i (hex_encode (ir_entry_key r1))
                         (hex_encode (ir_entry_key r2)))
          | Lt => validate_sort_order_from (S i) tl
          end
      | Lt => validate_sort_order_from (S i) tl
      end
  | _ => Ok tt
  end.

(** [validate_sort_order]. *)
Definition validate_sort_order records : ahu_result unit :=
  validate_sort_order_from 0 records.

(** [binary_search_with_discriminator]. *)
Definition binary_search_with_discriminator records key disc : option nat :=
  to_option (binary_search_by
    (fun r => cmp_then (bytes_cmp (ir_entry_key r) key)
                (N.compare (ir_discriminator r) disc)) records).

(** [binary_search]. *)
Definition binary_search records key : option nat :=
  binary_search_with_discriminator records key ALG_DISC_DEFAULT.

(** The loop over the preferences. *)
Fixpoint first_preference records key (preferences : list N) : option nat :=
  match preferences with
  | [] => None
  | disc :: preferences =>
      match binary_search_with_discriminator records key disc with
      | Some idx => Some idx
      | None => first_preference records key preferences
      end
  end.

(** [binary_search_preferred]. *)
Definition binary_search_preferred records key (preferences : list N) : option nat :=
  match first_preference records key preferences with
  | Some idx => Some idx
  | None =>
      if negb (bool_decide (ALG_DISC_DEFAULT ∈ preferences))
      then binary_search_with_discriminator records key ALG_DISC_DEFAULT
      else None
  end.
End index.

(** ** Properties *)

Lemma from_bits_truncate_lt raw : from_bits_truncate raw < 8.
Proof.
  unfold from_bits_truncate. change flags_all with (N.ones 3). rewrite N.land_ones.
  apply N.mod_lt. done.
Qed.

Lemma from_bits_truncate_idemp raw :
  from_bits_truncate (from_bits_truncate raw) = from_bits_truncate raw.
Proof. unfold from_bits_truncate. by rewrite <- N.land_assoc, N.land_diag. Qed.

Lemma length_write_record rec :
  length (ir_entry_key rec) = 32%nat -> length (write_record rec) = 48%nat.
Proof. intros Hk. unfold write_record. rewrite !length_app, !length_be_encode, Hk. done. Qed.

(** The 48 bytes of a record whose flag word on the wire is [raw]. *)
Definition raw_record (rec : IndexRecord) (raw : N) : bytes :=
  ir_entry_key rec ++ be_encode 8 (ir_data_offset rec) ++ be_encode 4 (ir_data_length rec) ++
  be_encode 2 raw ++ be_encode 2 (ir_discriminator rec).

Lemma write_record_raw rec : write_record rec = raw_record rec (ir_flags rec).
Proof. done. Qed.

Lemma irw_flags_u16 rec : IndexRecord_wf rec -> ir_flags rec < u16_lim.
Proof.
  intros []. rewrite <- irw_flags0. eapply N.lt_trans; [apply from_bits_truncate_lt|done].
Qed.

(** What a record reader accepts: 48 bytes, of which only the undefined flag
    bits are lost. *)
Lemma read_record_iff r rec rest :
  read_record r = Ok (rec, rest) <->
  exists raw, r = raw_record rec raw ++ rest /\ raw < u16_lim /\
    ir_flags rec = from_bits_truncate raw /\ IndexRecord_wf rec.
Proof.
  unfold read_record, raw_record. split.
  - intros H. inv_ok. destruct v as [key r1]. apply read_exact_Ok in H0 as [-> Hk].
    repeat (inv_ok; match goal with p : N * bytes |- _ => destruct p as [? ?] end).
    inv_ok. simplify_eq/=. inv_reads. eexists. rewrite <- !app_assoc. split; [done|].
    split; [done|]. split; [done|]. constructor; try done. apply from_bits_truncate_idemp.
  - intros (raw & -> & Hraw & Hf & []). rewrite <- !app_assoc.
    rewrite <- irw_key0 at 1. rewrite read_exact_app. cbn [map_err mbind result_bind].
    read_fields. rewrite <- Hf. by destruct rec.
Qed.

Lemma read_write_record rec rest :
  IndexRecord_wf rec -> read_record (write_record rec ++ rest) = Ok (rec, rest).
Proof.
  intros Hwf. apply read_record_iff. exists (ir_flags rec).
  split_and!; [done|by apply irw_flags_u16|by destruct Hwf|done].
Qed.

Lemma write_record_inj r1 r2 :
  IndexRecord_wf r1 -> IndexRecord_wf r2 -> write_record r1 = write_record r2 -> r1 = r2.
Proof.
  intros H1 H2 Heq. pose proof (read_write_record r1 [] H1) as E.
  rewrite Heq, read_write_record in E by done. congruence.
Qed.

Section index_props.
Context {CR : Crates}.
Implicit Types (records : list IndexRecord) (key : bytes) (disc : N).

(** The error reported for an adjacent pair that does not ascend. *)
Definition pair_error (i : nat) (r1 r2 : IndexRecord) : AhuError :=
  if decide (record_key r1 = record_key r2)
  then DuplicateEntryKey i (hex_encode (ir_entry_key r1))
  else IndexNotSorted i (hex_encode (ir_entry_key r1)) (hex_encode (ir_entry_key r2)).

Lemma validate_step i r1 r2 rs :
  validate_sort_order_from i (r1 :: r2 :: rs) =
  match key_cmp (record_key r1) (record_key r2) with
  | Lt => validate_sort_order_from (S i) (r2 :: rs)
  | _ => Err (pair_error i r1 r2)
  end.
Proof.
  unfold key_cmp, pair_cmp, record_key, pair_error, cmp_then. cbn [validate_sort_order_from fst snd].
  destruct (bytes_cmp (ir_entry_key r1) (ir_entry_key r2)) eqn:E; [..|done|].
  - apply (cmp_eq bytes_cmp) in E. destruct (N.compare_spec (ir_discriminator r1) (ir_discriminator r2));
      [by rewrite decide_True by (unfold record_key; congruence)|done|].
    rewrite decide_False; [done|]. unfold record_key. intros [= ? ?]. lia.
  - rewrite decide_False; [done|]. unfold record_key. intros [= Hk _].
    by rewrite Hk, cmp_refl in E.
Qed.

Lemma validate_from_Ok i records :
  validate_sort_order_from i records = Ok tt <-> ascending key_cmp (record_key <$> records).
Proof.
  revert i. induction records as [|r1 [|r2 rs] IH]; intros i.
  - split; [constructor|done].
  - split; [repeat constructor|done].
  - rewrite validate_step. destruct (key_cmp (record_key r1) (record_key r2)) eqn:E.
    2: { rewrite IH, !fmap_cons. split; [by apply (ascending_cons key_cmp)|]. by intros [? _]%(ascending_cons_inv key_cmp). }
    all: split; [done|]; intros [_ [Hlt _]%Forall_cons]%(ascending_cons_inv key_cmp); congruence.
Qed.

Lemma validate_sort_order_Ok records u :
  validate_sort_order records = Ok u <-> ascending key_cmp (record_key <$> records).
Proof. destruct u. apply validate_from_Ok. Qed.

(** The sort-order check accepts exactly the indexes whose
    (entry_key, discriminator) pairs strictly ascend, and otherwise reports the
    first adjacent pair that does not, as a duplicate when the pair is equal and
    as an order violation when it descends. *)
Theorem validate_sort_order_exact records :
  match validate_sort_order records with
  | Ok _ => ascending key_cmp (record_key <$> records)
  | Err e => exists i r1 r2,
      records !! i = Some r1 /\ records !! S i = Some r2 /\
      ascending key_cmp (record_key <$> take (S i) records) /\
      key_cmp (record_key r1) (record_key r2) <> Lt /\ e = pair_error i r1 r2
  end.
Proof.
  destruct (validate_sort_order records) as [[]|e] eqn:H; [by apply validate_sort_order_Ok in H|].
  unfold validate_sort_order in H.
  assert (forall n, validate_sort_order_from n records = Err e -> exists i r1 r2,
    records !! i = Some r1 /\ records !! S i = Some r2 /\
    ascending key_cmp (record_key <$> take (S i) records) /\
    key_cmp (record_key r1) (record_key r2) <> Lt /\ e = pair_error (n + i) r1 r2) as Hgen.
  { clear H. induction records as [|r1 [|r2 rs] IH]; intros n; [done..|].
    rewrite validate_step. destruct (key_cmp (record_key r1) (record_key r2)) eqn:E.
    2: { intros (i & a & b & Ha & Hb & Hs & Hab & ->)%IH. exists (S i), a, b.
         replace (n + S i)%nat with (S n + i)%nat by lia. split_and!; try done.
         rewrite !firstn_cons, !fmap_cons in *. by apply (ascending_cons key_cmp). }
    all: intros [= <-]; exists 0%nat, r1, r2; rewrite Nat.add_0_r, E;
      split_and!; try done; repeat constructor. }
  destruct (Hgen 0%nat H) as (i & r1 & r2 & ?). by exists i, r1, r2.
Qed.

(** On a sorted index the binary search returns [Some i] exactly when record
    [i] carries the requested (entry_key, discriminator) pair, and [None] exactly
    when no record does. *)
Theorem binary_search_exact records key disc :
  validate_sort_order records = Ok tt ->
  (forall i, binary_search_with_discriminator records key disc = Some i <->
     exists r, records !! i = Some r /\ record_key r = (key, disc)) /\
  (binary_search_with_discriminator records key disc = None <->
     (key, disc) ∉ record_key <$> records).
Proof.
  intros Hs%validate_sort_order_Ok. split.
  - intros i. exact (binary_search_by_key record_key key_cmp records (key, disc) i Hs).
  - exact (binary_search_by_none record_key key_cmp records (key, disc) Hs).
Qed.

Lemma bsd_Some records key disc i :
  ascending key_cmp (record_key <$> records) ->
  binary_search_with_discriminator records key disc = Some i <->
  exists r, records !! i = Some r /\ record_key r = (key, disc).
Proof. intros Hs. exact (binary_search_by_key record_key key_cmp records (key, disc) i Hs). Qed.

Lemma bsd_None records key disc :
  ascending key_cmp (record_key <$> records) ->
  binary_search_with_discriminator records key disc = None <-> (key, disc) ∉ record_key <$> records.
Proof. intros Hs. exact (binary_search_by_none record_key key_cmp records (key, disc) Hs). Qed.

Lemma first_preference_app records key p1 p2 :
  first_preference records key (p1 ++ p2) =
  match first_preference records key p1 with
  | Some i => Some i
  | None => first_preference records key p2
  end.
Proof.
  induction p1 as [|d p1 IH]; cbn; [done|].
  by destruct (binary_search_with_discriminator records key d).
Qed.

(** The order in which discriminators are tried: the client's, then the default. *)
Definition effective_preferences (preferences : list N) : list N :=
  preferences ++ (if decide (ALG_DISC_DEFAULT ∈ preferences) then [] else [ALG_DISC_DEFAULT]).

Lemma binary_search_preferred_effective records key preferences :
  binary_search_preferred records key preferences =
  first_preference records key (effective_preferences preferences).
Proof.
  unfold binary_search_preferred, effective_preferences. rewrite first_preference_app.
  destruct (first_preference records key preferences); [done|].
  case_decide as E; [by rewrite bool_decide_eq_true_2|].
  rewrite bool_decide_eq_false_2 by done. cbn.
  by destruct (binary_search_with_discriminator records key ALG_DISC_DEFAULT).
Qed.

Lemma first_preference_Some records key ps i :
  first_preference records key ps = Some i <->
  exists p1 d p2, ps = p1 ++ d :: p2 /\
    Forall (fun d' => binary_search_with_discriminator records key d' = None) p1 /\
    binary_search_with_discriminator records key d = Some i.
Proof.
  split.
  - induction ps as [|d ps IH]; cbn; [done|].
    destruct (binary_search_with_discriminator records key d) as [j|] eqn:E.
    + intros [= <-]. exists [], d, ps. by repeat constructor.
    + intros (p1 & d' & p2 & -> & Hp & Hd)%IH. exists (d :: p1), d', p2.
      split_and!; [done|by constructor|done].
  - intros (p1 & d & p2 & -> & Hp & Hd). rewrite first_preference_app.
    replace (first_preference records key p1) with (@None nat); [cbn; by rewrite Hd|].
    induction Hp as [|d' p1 Hd' Hp IH]; cbn; [done|]. by rewrite Hd'.
Qed.

(** A preferred lookup answers with the first discriminator, in the client's
    order followed by the default, under which the key is stored; it misses
    exactly when the key is stored under none of them. *)
Theorem binary_search_preferred_exact records key preferences :
  validate_sort_order records = Ok tt ->
  match binary_search_preferred records key preferences with
  | Some i => exists p1 d p2 r,
      effective_preferences preferences = p1 ++ d :: p2 /\
      Forall (fun d' => (key, d') ∉ record_key <$> records) p1 /\
      records !! i = Some r /\ record_key r = (key, d)
  | None => Forall (fun d => (key, d) ∉ record_key <$> records)
              (effective_preferences preferences)
  end.
Proof.
  intros Hs%validate_sort_order_Ok. rewrite binary_search_preferred_effective.
  destruct (first_preference records key _) as [i|] eqn:E.
  - apply first_preference_Some in E as (p1 & d & p2 & -> & Hp & (r & ? & ?)%bsd_Some); [|done].
    exists p1, d, p2, r. split_and!; try done.
    eapply Forall_impl; [done|]. intros d' Hd'. by apply bsd_None.
  - generalize dependent (effective_preferences preferences). intros ps.
    induction ps as [|d ps IH]; cbn; [constructor|].
    destruct (binary_search_with_discriminator records key d) eqn:Ed; [done|].
    intros. constructor; [by apply bsd_None|]. by apply IH.
Qed.
End index_props.
