(* ===== verification/Manifest.v ===== *)
(** * Manifest: the bundle manifest and its CBOR form (ahu/src/manifest.rs)

    The data types of the manifest, [Manifest::to_cbor] (the value tree it
    builds, written by [ciborium]) and [Manifest::from_cbor] (the value tree
    [ciborium] reads, taken apart by key lookups).  Main results: the round
    trip, and the integer widths and digest lengths of whatever is decoded. *)

From stdpp Require Import base tactics list strings pretty.
From Stdlib Require Import NArith ZArith Lia.
From S2P Require Import Prelude Crates AhuError.
Local Open Scope N_scope.

(** ** Data *)

Inductive BundleType := Full | Delta.
Inductive Completeness := Partial | AuthoritativeComplete.
Inductive ResponderIdType := ByName | ByKey.

Record ResponderId := mkResponderId {
  rid_id_type : ResponderIdType;
  rid_value : bytes;
}.

Record CaScope := mkCaScope {
  cs_hash_algorithm : bytes;
  cs_issuer_name_hash : bytes;
  cs_issuer_key_hash : bytes;
  cs_epoch : N;
  cs_responder_id : ResponderId;
  cs_responder_chain : option (list bytes);
  cs_signature_algorithm : bytes;
  cs_completeness : Completeness;
}.

Record Window := mkWindow {
  w_produced_at : N;
  w_this_update_min : N;
  w_next_update_min : N;
  w_next_update_max : N;
}.

Record Integrity := mkIntegrity {
  in_index_digest : bytes;
  in_data_digest : bytes;
}.

Record Continuity := mkContinuity {
  co_prev_manifest_digest : option bytes;
  co_base_manifest_digest : option bytes;
  co_chain_length : N;
}.

Record Shard := mkShard {
  sh_shard_index : N;
  sh_shard_count : N;
  sh_shard_fn : N;
}.

Inductive CompressionAlgorithm := CompressionNone | Zstd.

Record Compression := mkCompression {
  cm_algorithm : CompressionAlgorithm;
  cm_dictionary_digest : option bytes;
}.

Record Manifest := mkManifest {
  m_format_version : N;
  m_bundle_id : bytes;
  m_producer_id : string;
  m_created_at : N;
  m_bundle_type : BundleType;
  m_ca_scopes : list CaScope;
  m_window : Window;
  m_integrity : Integrity;
  m_entry_count : N;
  m_continuity : Continuity;
  m_shard : option Shard;
  m_compression : option Compression;
  m_extensions : option (list (string * Value));
}.

#[export] Instance BundleType_eq_dec : EqDecision BundleType.
Proof. solve_decision. Defined.
#[export] Instance Completeness_eq_dec : EqDecision Completeness.
Proof. solve_decision. Defined.
#[export] Instance CompressionAlgorithm_eq_dec : EqDecision CompressionAlgorithm.
Proof. solve_decision. Defined.
#[export] Instance Window_eq_dec : EqDecision Window.
Proof. solve_decision. Defined.

(** The [#[repr(u8)]] values. *)
Definition bundle_type_u8 (t : BundleType) : N := match t with Full => 0 | Delta => 1 end.
Definition completeness_u8 (c : Completeness) : N :=
  match c with Partial => 0 | AuthoritativeComplete => 1 end.
Definition responder_id_type_u8 (t : ResponderIdType) : N :=
  match t with ByName => 0 | ByKey => 1 end.
Definition compression_u8 (a : CompressionAlgorithm) : N :=
  match a with CompressionNone => 0 | Zstd => 1 end.

(** ** Encoding *)

Definition vuint (n : N) : Value := VInteger (Z.of_N n).
Definition entry (k : Z) (v : Value) : Value * Value := (VInteger k, v).
Definition opt_entry {A} (k : Z) (f : A -> Value) (o : option A) : list (Value * Value) :=
  match o with Some a => [entry k (f a)] | None => [] end.

Definition responder_id_to_val (rid : ResponderId) : Value :=
  VMap [entry 1 (vuint (responder_id_type_u8 (rid_id_type rid)));
        entry 2 (VBytes (rid_value rid))].

Definition scope_to_val (s : CaScope) : Value :=
  VMap ([entry 1 (VBytes (cs_hash_algorithm s));
         entry 2 (VBytes (cs_issuer_name_hash s));
         entry 3 (VBytes (cs_issuer_key_hash s));
         entry 4 (vuint (cs_epoch s));
         entry 5 (responder_id_to_val (cs_responder_id s))] ++
        opt_entry 6 (fun chain => VArray (VBytes <$> chain)) (cs_responder_chain s) ++
        [entry 7 (VBytes (cs_signature_algorithm s));
         entry 8 (vuint (completeness_u8 (cs_completeness s)))]).

Definition window_to_val (w : Window) : Value :=
  VMap [entry 1 (vuint (w_produced_at w));
        entry 2 (vuint (w_this_update_min w));
        entry 3 (vuint (w_next_update_min w));
        entry 4 (vuint (w_next_update_max w))].

Definition integrity_to_val (i : Integrity) : Value :=
  VMap [entry 1 (VBytes (in_index_digest i)); entry 2 (VBytes (in_data_digest i))].

Definition continuity_to_val (c : Continuity) : Value :=
  VMap (opt_entry 1 VBytes (co_prev_manifest_digest c) ++
        opt_entry 2 VBytes (co_base_manifest_digest c) ++
        [entry 3 (vuint (co_chain_length c))]).

Definition shard_to_val (s : Shard) : Value :=
  VMap [entry 1 (vuint (sh_shard_index s));
        entry 2 (vuint (sh_shard_count s));
        entry 3 (vuint (sh_shard_fn s))].

Definition compression_to_val (c : Compression) : Value :=
  VMap ([entry 1 (vuint (compression_u8 (cm_algorithm c)))] ++
        opt_entry 2 VBytes (cm_dictionary_digest c)).

Definition extensions_to_val (exts : list (string * Value)) : Value :=
  VMap ((fun kv => (VText kv.1, kv.2)) <$> exts).

Definition manifest_entries (m : Manifest) : list (Value * Value) :=
  [entry 1 (vuint (m_format_version m));
   entry 2 (VBytes (m_bundle_id m));
   entry 3 (VText (m_producer_id m));
   entry 4 (vuint (m_created_at m));
   entry 5 (vuint (bundle_type_u8 (m_bundle_type m)));
   entry 6 (VArray (scope_to_val <$> m_ca_scopes m));
   entry 7 (window_to_val (m_window m));
   entry 8 (integrity_to_val (m_integrity m));
   entry 9 (vuint (m_entry_count m));
   entry 10 (continuity_to_val (m_continuity m))] ++
  opt_entry 11 shard_to_val (m_shard m) ++
  opt_entry 12 compression_to_val (m_compression m) ++
  opt_entry 13 extensions_to_val (m_extensions m).

(** [Manifest::to_cbor]. *)
Definition to_cbor {CR : Crates} (m : Manifest) : bytes :=
  cbor_into_writer (VMap (manifest_entries m)).

(** ** Decoding *)

(** The value under the first integer key equal to [key]: the loop every getter
    of [from_cbor] runs. *)
Fixpoint lookup_key (map : list (Value * Value)) (key : Z) : option Value :=
  match map with
  | [] => None
  | (k, v) :: map =>
      match as_integer k with
      | Some ki => if (ki =? key)%Z then Some v else lookup_key map key
      | None => lookup_key map key
      end
  end.

Definition key_msg (key : Z) (what : string) : AhuError :=
  ManifestField ("key " +:+ pretty key +:+ ": " +:+ what).

(** A getter: the value under [key], through the accessor of its type. *)
Definition get_as {A} (acc : Value -> option A) (what : string)
    (map : list (Value * Value)) (key : Z) : ahu_result A :=
  match lookup_key map key with
  | Some v => ok_or (acc v) (key_msg key ("expected " +:+ what))
  | None => Err (key_msg key "missing")
  end.

Definition get_uint (map : list (Value * Value)) (key : Z) : ahu_result N :=
  n ← get_as as_integer "integer" map key;
  if (0 <=? n)%Z && (n <? Z.of_N u64_lim)%Z then Ok (Z.to_N n)
  else Err (key_msg key "integer out of u64 range").

Definition get_bytes := get_as as_bytes "bytes".
Definition get_text := get_as as_text "text".
Definition get_map := get_as as_map "map".
Definition get_array := get_as as_array "array".

Definition get_optional_bytes (map : list (Value * Value)) (key : Z) :
    ahu_result (option bytes) :=
  match lookup_key map key with
  | Some v => Some <$> ok_or (as_bytes v) (key_msg key "expected bytes")
  | None => Ok None
  end.

Definition get_optional_map (map : list (Value * Value)) (key : Z) :
    option (list (Value * Value)) :=
  lookup_key map key ≫= as_map.

Definition to_fixed_32 (v : bytes) : ahu_result bytes :=
  if decide (length v = 32%nat) then Ok v else Err (ManifestField "expected 32-byte digest").

(** [opt.map(f).transpose()?]. *)
Definition transpose_map {A B} (f : A -> ahu_result B) (o : option A) : ahu_result (option B) :=
  match o with Some a => Some <$> f a | None => Ok None end.

Definition parse_bundle_type (n : N) : ahu_result BundleType :=
  match n with
  | 0 => Ok Full
  | 1 => Ok Delta
  | _ => Err (ManifestField ("unknown bundle_type: " +:+ pretty n))
  end.

Definition parse_responder_id (rid_map : list (Value * Value)) : ahu_result ResponderId :=
  n ← get_uint rid_map 1;
  id_type ← match n with
            | 0 => Ok ByName
            | 1 => Ok ByKey
            | _ => Err (ManifestField ("unknown responder_id type: " +:+ pretty n))
            end;
  value ← get_bytes rid_map 2;
  Ok (mkResponderId id_type value).

(** The loop that collects the responder chain: the last array under key 6. *)
Definition parse_responder_chain (scope_map : list (Value * Value)) :
    ahu_result (option (list bytes)) :=
  fold_result (fun chain kv =>
    match as_integer kv.1 with
    | Some 6%Z =>
        match as_array kv.2 with
        | Some arr =>
            Some <$> mapM (fun c => ok_or (as_bytes c)
              (ManifestField "responder chain entry is not bytes")) arr
        | None => Ok chain
        end
    | _ => Ok chain
    end) None scope_map.

Definition parse_completeness (n : N) : ahu_result Completeness :=
  match n with
  | 0 => Ok Partial
  | 1 => Ok AuthoritativeComplete
  | _ => Err (ManifestField ("unknown completeness: " +:+ pretty n))
  end.

Definition parse_scope (scope_val : Value) : ahu_result CaScope :=
  scope_map ← ok_or (as_map scope_val) (ManifestField "ca_scope entry is not a map");
  rid_map ← get_map scope_map 5;
  responder_id ← parse_responder_id rid_map;
  responder_chain ← parse_responder_chain scope_map;
  hash_algorithm ← get_bytes scope_map 1;
  issuer_name_hash ← get_bytes scope_map 2;
  issuer_key_hash ← get_bytes scope_map 3;
  epoch ← get_uint scope_map 4;
  signature_algorithm ← get_bytes scope_map 7;
  n ← get_uint scope_map 8;
  completeness ← parse_completeness n;
  Ok (mkCaScope hash_algorithm issuer_name_hash issuer_key_hash epoch responder_id
        responder_chain signature_algorithm completeness).

Definition parse_window (window_map : list (Value * Value)) : ahu_result Window :=
  produced_at ← get_uint window_map 1;
  this_update_min ← get_uint window_map 2;
  next_update_min ← get_uint window_map 3;
  next_update_max ← get_uint window_map 4;
  Ok (mkWindow produced_at this_update_min next_update_min next_update_max).

Definition parse_integrity (integrity_map : list (Value * Value)) : ahu_result Integrity :=
  i ← get_bytes integrity_map 1; index_digest ← to_fixed_32 i;
  d ← get_bytes integrity_map 2; data_digest ← to_fixed_32 d;
  Ok (mkIntegrity index_digest data_digest).

Definition parse_continuity (continuity_map : list (Value * Value)) : ahu_result Continuity :=
  p ← get_optional_bytes continuity_map 1;
  prev ← transpose_map to_fixed_32 p;
  b ← get_optional_bytes continuity_map 2;
  base ← transpose_map to_fixed_32 b;
  chain_length ← get_uint continuity_map 3;
  Ok (mkContinuity prev base chain_length).

Definition parse_shard (sm : list (Value * Value)) : ahu_result Shard :=
  shard_index ← get_uint sm 1;
  shard_count ← get_uint sm 2;
  shard_fn ← get_uint sm 3;
  Ok (mkShard shard_index shard_count shard_fn).

Definition parse_compression (cm : list (Value * Value)) : ahu_result Compression :=
  n ← get_uint cm 1;
  algo ← match n with
         | 0 => Ok CompressionNone
         | 1 => Ok Zstd
         | _ => Err (ManifestField ("unknown compression algorithm: " +:+ pretty n))
         end;
  d ← get_optional_bytes cm 2;
  dict ← transpose_map to_fixed_32 d;
  Ok (mkCompression algo dict).

(** [filter_map]: entries whose key is not text are dropped. *)
Definition parse_extensions (ext_map : list (Value * Value)) : list (string * Value) :=
  omap (fun kv => (fun key => (key, kv.2)) <$> as_text kv.1) ext_map.

Section from_cbor.
Context {CR : Crates}.

Definition parse_root (map : list (Value * Value)) : ahu_result Manifest :=
  format_version ← get_uint map 1;
  bundle_id_bytes ← get_bytes map 2;
  bundle_id ← map_err (fun e => ManifestField ("bundle_id: " +:+ e))
                (uuid_from_slice bundle_id_bytes);
  producer_id ← get_text map 3;
  created_at ← get_uint map 4;
  bundle_type_raw ← get_uint map 5;
  bundle_type ← parse_bundle_type bundle_type_raw;
  ca_scope_arr ← get_array map 6;
  ca_scopes ← mapM parse_scope ca_scope_arr;
  window_map ← get_map map 7;
  window ← parse_window window_map;
  integrity_map ← get_map map 8;
  integrity ← parse_integrity integrity_map;
  entry_count ← get_uint map 9;
  continuity_map ← get_map map 10;
  continuity ← parse_continuity continuity_map;
  shard ← transpose_map parse_shard (get_optional_map map 11);
  compression ← transpose_map parse_compression (get_optional_map map 12);
  let extensions := parse_extensions <$> get_optional_map map 13 in
  Ok (mkManifest format_version bundle_id producer_id created_at bundle_type ca_scopes
        window integrity entry_count continuity shard compression extensions).

(** [Manifest::from_cbor]. *)
Definition from_cbor (data : bytes) : ahu_result Manifest :=
  val ← map_err ManifestDecode (cbor_from_reader data);
  map ← ok_or (as_map val) (ManifestDecode "root is not a map");
  parse_root map.
End from_cbor.

(** ** Well-formed manifests *)

Definition digest_wf (d : bytes) : Prop := length d = 32%nat.
Definition opt_all {A} (P : A -> Prop) (o : option A) : Prop :=
  match o with Some a => P a | None => True end.

Record Window_wf (w : Window) : Prop := {
  ww_produced_at : w_produced_at w < u64_lim;
  ww_this_update_min : w_this_update_min w < u64_lim;
  ww_next_update_min : w_next_update_min w < u64_lim;
  ww_next_update_max : w_next_update_max w < u64_lim;
}.

Record Continuity_wf (c : Continuity) : Prop := {
  cow_prev : opt_all digest_wf (co_prev_manifest_digest c);
  cow_base : opt_all digest_wf (co_base_manifest_digest c);
  cow_chain : co_chain_length c < u64_lim;
}.

Record Shard_wf (s : Shard) : Prop := {
  shw_index : sh_shard_index s < u64_lim;
  shw_count : sh_shard_count s < u64_lim;
  shw_fn : sh_shard_fn s < u64_lim;
}.

(** The field types of [Manifest]: integer widths, array lengths. *)
Record Manifest_typed (m : Manifest) : Prop := {
  mt_format_version : m_format_version m < u64_lim;
  mt_bundle_id : length (m_bundle_id m) = 16%nat;
  mt_created_at : m_created_at m < u64_lim;
  mt_scopes : Forall (fun s => cs_epoch s < u64_lim) (m_ca_scopes m);
  mt_window : Window_wf (m_window m);
  mt_index_digest : digest_wf (in_index_digest (m_integrity m));
  mt_data_digest : digest_wf (in_data_digest (m_integrity m));
  mt_entry_count : m_entry_count m < u64_lim;
  mt_continuity : Continuity_wf (m_continuity m);
  mt_shard : opt_all Shard_wf (m_shard m);
  mt_compression : opt_all (fun c => opt_all digest_wf (cm_dictionary_digest c)) (m_compression m);
}.

(** The nesting left for an extension value below the root and its map. *)
Definition ext_depth : nat := 100.

(** Rust strings hold UTF-8, and the extension values are ones [ciborium]
    carries unchanged. *)
Record Manifest_wf (m : Manifest) : Prop := {
  mw_typed : Manifest_typed m;
  mw_producer : is_utf8 (m_producer_id m) = true;
  mw_extensions : opt_all
    (Forall (fun kv => is_utf8 kv.1 = true /\ portable ext_depth kv.2 = true)) (m_extensions m);
}.

(** ** Round trip *)

Lemma get_uint_lookup map key n :
  lookup_key map key = Some (vuint n) -> n < u64_lim -> get_uint map key = Ok n.
Proof.
  intros Hl Hn. unfold get_uint, get_as. rewrite Hl. cbn.
  destruct (Z.leb_spec 0 (Z.of_N n)); [|lia].
  destruct (Z.ltb_spec (Z.of_N n) (Z.of_N u64_lim)); [|lia]. cbn. by rewrite N2Z.id.
Qed.

Lemma get_uint_bound map key n : get_uint map key = Ok n -> n < u64_lim.
Proof.
  unfold get_uint. intros (z & _ & H)%bind_Ok.
  destruct (Z.leb_spec 0 z), (Z.ltb_spec z (Z.of_N u64_lim)); cbn in H; try done.
  injection H as <-. lia.
Qed.

#[local] Arguments get_uint : simpl never.
#[local] Arguments to_fixed_32 : simpl never.

(** Getters on a map that is written out: find the key, check the range. *)
Ltac get_keys :=
  repeat (first [ erewrite get_uint_lookup; [|reflexivity|done]
                | progress cbn [mbind result_bind get_bytes get_text get_map get_array get_as
                    lookup_key as_integer as_bytes as_text as_map as_array entry vuint fst snd
                    ok_or Z.eqb Pos.eqb get_optional_bytes get_optional_map option_bind
                    transpose_map fmap result_fmap app opt_entry] ]).

Lemma to_fixed_32_wf d : digest_wf d -> to_fixed_32 d = Ok d.
Proof. intros. unfold to_fixed_32. by rewrite decide_True. Qed.
Lemma to_fixed_32_Ok d d' : to_fixed_32 d = Ok d' -> d' = d /\ digest_wf d.
Proof. unfold to_fixed_32. case_decide; [by intros [= ->]|done]. Qed.

Lemma mapM_as_bytes (chain : list bytes) :
  mapM (fun c => ok_or (as_bytes c) (ManifestField "responder chain entry is not bytes"))
    (VBytes <$> chain) = Ok chain.
Proof. induction chain as [|c chain IH]; [done|]. cbn in *. by rewrite IH. Qed.

Lemma parse_scope_roundtrip s : cs_epoch s < u64_lim -> parse_scope (scope_to_val s) = Ok s.
Proof.
  intros He. destruct s as [ha nh kh ep rid chain sa c]. cbn in He.
  assert (completeness_u8 c < u64_lim) by (by destruct c).
  assert (parse_responder_id
    [entry 1 (vuint (responder_id_type_u8 (rid_id_type rid))); entry 2 (VBytes (rid_value rid))]
    = Ok rid) as Hrid by (destruct rid as [[] ?]; reflexivity).
  unfold parse_scope, scope_to_val. cbn [cs_hash_algorithm cs_issuer_name_hash cs_issuer_key_hash
    cs_epoch cs_responder_id cs_responder_chain cs_signature_algorithm cs_completeness].
  destruct chain as [chain|]; get_keys; unfold responder_id_to_val; cbn [as_map ok_or mbind result_bind];
    rewrite Hrid; cbn [mbind result_bind].
  all: unfold parse_responder_chain, entry;
    cbn [fold_result mbind result_bind as_integer as_array fst snd vuint].
  - rewrite mapM_as_bytes. get_keys. by destruct c.
  - get_keys. by destruct c.
Qed.

Lemma parse_window_roundtrip w :
  Window_wf w -> exists wm, window_to_val w = VMap wm /\ parse_window wm = Ok w.
Proof.
  intros []. eexists. split; [done|]. unfold parse_window. get_keys. by destruct w.
Qed.

Lemma parse_integrity_roundtrip i :
  digest_wf (in_index_digest i) -> digest_wf (in_data_digest i) ->
  exists im, integrity_to_val i = VMap im /\ parse_integrity im = Ok i.
Proof.
  intros. eexists. split; [done|]. unfold parse_integrity. get_keys.
  rewrite to_fixed_32_wf by done. get_keys. rewrite to_fixed_32_wf by done. by destruct i.
Qed.

Lemma parse_continuity_roundtrip c :
  Continuity_wf c -> exists cm, continuity_to_val c = VMap cm /\ parse_continuity cm = Ok c.
Proof.
  intros []. eexists. split; [done|]. unfold parse_continuity. destruct c as [[p|] [b|] n]; cbn in *;
    get_keys; rewrite ?to_fixed_32_wf by done; get_keys; rewrite ?to_fixed_32_wf by done; by get_keys.
Qed.

Lemma parse_shard_roundtrip s :
  Shard_wf s -> exists sm, shard_to_val s = VMap sm /\ parse_shard sm = Ok s.
Proof. intros []. eexists. split; [done|]. unfold parse_shard. get_keys. by destruct s. Qed.

Lemma parse_compression_roundtrip c :
  opt_all digest_wf (cm_dictionary_digest c) ->
  exists cm, compression_to_val c = VMap cm /\ parse_compression cm = Ok c.
Proof.
  intros Hd. eexists. split; [done|]. unfold parse_compression.
  destruct c as [[] [d|]]; cbn in *; get_keys; rewrite ?to_fixed_32_wf by done; done.
Qed.

Lemma parse_extensions_roundtrip exts :
  exists em, extensions_to_val exts = VMap em /\ parse_extensions em = exts.
Proof.
  eexists. split; [done|]. unfold parse_extensions.
  induction exts as [|[k v] exts IH]; [done|]. cbn in *. by rewrite IH.
Qed.

Lemma parse_scopes_roundtrip scopes :
  Forall (fun s => cs_epoch s < u64_lim) scopes ->
  mapM parse_scope (scope_to_val <$> scopes) = Ok scopes.
Proof.
  intros Hs. apply mapM_Ok. induction Hs; cbn; constructor; [|done]. by apply parse_scope_roundtrip.
Qed.

Lemma parse_root_roundtrip {CR : Crates} `{!UuidSpec} m :
  Manifest_typed m -> parse_root (manifest_entries m) = Ok m.
Proof.
  intros []. destruct m as [fv bid pid ca bt scopes w i ec co sh cm ex]. cbn in *.
  assert (bundle_type_u8 bt < u64_lim) by (by destruct bt).
  destruct (parse_window_roundtrip w) as (wm & Ew & Hw); [done|].
  destruct (parse_integrity_roundtrip i) as (im & Ei & Hi); [done..|].
  destruct (parse_continuity_roundtrip co) as (com & Eco & Hco); [done|].
  unfold parse_root, manifest_entries.
  cbn [m_format_version m_bundle_id m_producer_id m_created_at m_bundle_type m_ca_scopes m_window
    m_integrity m_entry_count m_continuity m_shard m_compression m_extensions].
  rewrite Ew, Ei, Eco. get_keys. rewrite uuid_from_slice_16 by done. cbn [map_err]. get_keys.
  assert (parse_bundle_type (bundle_type_u8 bt) = Ok bt) as -> by (by destruct bt). get_keys.
  rewrite parse_scopes_roundtrip by done. get_keys. rewrite Hw. get_keys. rewrite Hi. get_keys.
  rewrite Hco. get_keys.
  destruct sh as [sh|], cm as [cm|], ex as [ex|]; cbn [opt_entry app opt_all] in *;
    try (destruct (parse_shard_roundtrip sh) as (shm & Esh & Hsh); [done|]; rewrite Esh);
    try (destruct (parse_compression_roundtrip cm) as (cmm & Ecm & Hcm); [done|]; rewrite Ecm);
    try (destruct (parse_extensions_roundtrip ex) as (exm & Eex & Hex); rewrite Eex);
    get_keys; rewrite ?Hsh; get_keys; rewrite ?Hcm; get_keys;
    cbn [option_fmap option_map]; rewrite ?Hex; done.
Qed.

(** ** The value tree is one [ciborium] carries *)

Lemma portable_vuint d n : n < u64_lim -> portable (S d) (vuint n) = true.
Proof.
  intros. cbn. destruct (Z.leb_spec (-2 ^ 64) (Z.of_N n)); [|lia].
  destruct (Z.ltb_spec (Z.of_N n) (2 ^ 64)); [done|]. unfold u64_lim in *. lia.
Qed.

Definition portable_entry (d : nat) (kv : Value * Value) : bool :=
  portable d kv.1 && portable d kv.2.

Lemma portable_map d kvs :
  Forall (fun kv => portable_entry d kv = true) kvs -> portable (S d) (VMap kvs) = true.
Proof.
  intros Hf. cbn. apply forallb_forall. intros kv Hkv%list_elem_of_In.
  rewrite Forall_forall in Hf. by apply Hf.
Qed.

Lemma portable_array d vs :
  Forall (fun v => portable d v = true) vs -> portable (S d) (VArray vs) = true.
Proof.
  intros Hf. cbn. apply forallb_forall. intros v Hv%list_elem_of_In.
  rewrite Forall_forall in Hf. by apply Hf.
Qed.

Lemma portable_entry_int d k v :
  (Z.abs k < 100)%Z -> portable (S d) v = true -> portable_entry (S d) (entry k v) = true.
Proof.
  intros Hk Hv. unfold portable_entry, entry. cbn [fst snd]. rewrite Hv.
  cbn. destruct (Z.leb_spec (-2 ^ 64) k); [|lia]. destruct (Z.ltb_spec k (2 ^ 64)); [done|lia].
Qed.

Lemma portable_opt_entry {A} d k (f : A -> Value) o :
  (Z.abs k < 100)%Z -> opt_all (fun a => portable (S d) (f a) = true) o ->
  Forall (fun kv => portable_entry (S d) kv = true) (opt_entry k f o).
Proof. intros. destruct o; constructor; [by apply portable_entry_int|constructor]. Qed.

(** Portability of a map given entry by entry. *)
Ltac portable_entries :=
  repeat first
    [ apply portable_map | apply Forall_app; split | apply Forall_cons; split
    | apply Forall_nil_2 | (apply portable_opt_entry; [done|]) | (apply portable_entry_int; [done|])
    | (apply portable_vuint; done) ].

Lemma portable_scope d s :
  cs_epoch s < u64_lim -> portable (S (S (S d))) (scope_to_val s) = true.
Proof.
  intros He. unfold scope_to_val, responder_id_to_val.
  assert (completeness_u8 (cs_completeness s) < u64_lim) by (by destruct (cs_completeness s)).
  assert (responder_id_type_u8 (rid_id_type (cs_responder_id s)) < u64_lim)
    by (by destruct (rid_id_type (cs_responder_id s))).
  portable_entries; try done.
  destruct (cs_responder_chain s) as [chain|]; cbn [opt_all]; [|done].
  apply portable_array, Forall_fmap, Forall_true. done.
Qed.

Lemma portable_manifest m :
  Manifest_wf m -> portable cbor_depth (VMap (manifest_entries m)) = true.
Proof.
  intros [[] Hp Hx]. apply (portable_mono (S (S ext_depth))); [unfold cbor_depth, ext_depth; lia|].
  destruct mt_window0, mt_continuity0.
  assert (bundle_type_u8 (m_bundle_type m) < u64_lim) by (by destruct (m_bundle_type m)).
  unfold manifest_entries, ext_depth in *. portable_entries; try done.
  - apply portable_array, Forall_fmap. eapply Forall_impl; [exact mt_scopes0|].
    intros s Hs. by apply portable_scope.
  - by destruct (co_prev_manifest_digest _).
  - by destruct (co_base_manifest_digest _).
  - destruct (m_shard m) as [sh|]; [|done]. destruct mt_shard0. cbn [opt_all].
    unfold shard_to_val. by portable_entries.
  - destruct (m_compression m) as [cm|]; [|done]. cbn [opt_all].
    assert (compression_u8 (cm_algorithm cm) < u64_lim) by (by destruct (cm_algorithm cm)).
    unfold compression_to_val. portable_entries; try done. by destruct (cm_dictionary_digest cm).
  - destruct (m_extensions m) as [ex|]; [|done]. cbn [opt_all] in *.
    apply portable_map, Forall_fmap. eapply Forall_impl; [exact Hx|].
    intros [k v] [Hk Hv]. unfold portable_entry. cbn [fst snd compose] in *.
    by rewrite Hv, andb_true_r.
Qed.

Section manifest_props.
Context {CR : Crates} {UU : UuidSpec} {CB : CiboriumSpec}.

Lemma from_to_cbor m : Manifest_wf m -> from_cbor (to_cbor m) = Ok m.
Proof.
  intros Hm. unfold from_cbor, to_cbor. rewrite cbor_read_write by (by apply portable_manifest).
  cbn. apply parse_root_roundtrip. by destruct Hm.
Qed.

(** Decoding an encoded manifest gives the manifest back, field by field
    (scopes with their optional chains, continuity digests, shard, compression
    and extensions included), for every manifest whose integers and digests have
    their Rust types and whose extension values [ciborium] carries unchanged. *)
Theorem from_cbor_to_cbor m : Manifest_wf m -> from_cbor (to_cbor m) = Ok m.
Proof. apply from_to_cbor. Qed.

Lemma to_cbor_inj m1 m2 :
  Manifest_wf m1 -> Manifest_wf m2 -> to_cbor m1 = to_cbor m2 -> m1 = m2.
Proof.
  intros H1 H2 Heq. pose proof (from_to_cbor m1 H1) as E.
  rewrite Heq, from_to_cbor in E by done. congruence.
Qed.

(** ** What the decoder guarantees *)

Lemma parse_scope_epoch v s : parse_scope v = Ok s -> cs_epoch s < u64_lim.
Proof. unfold parse_scope. intros H. inv_ok. cbn. by eapply get_uint_bound. Qed.

Lemma parse_window_wf wm w : parse_window wm = Ok w -> Window_wf w.
Proof. unfold parse_window. intros H. inv_ok. split; cbn; by eapply get_uint_bound. Qed.

Lemma transpose_fixed_32 o o' : transpose_map to_fixed_32 o = Ok o' -> opt_all digest_wf o'.
Proof.
  destruct o as [d|]; cbn; [|by intros [= <-]].
  by intros (d' & [-> Hd]%to_fixed_32_Ok & ->)%fmap_Ok.
Qed.

Lemma parse_continuity_wf cm c : parse_continuity cm = Ok c -> Continuity_wf c.
Proof.
  unfold parse_continuity. intros H. inv_ok.
  split; cbn; [by eapply transpose_fixed_32..|by eapply get_uint_bound].
Qed.

Lemma transpose_map_all {A B} (f : A -> ahu_result B) (P : B -> Prop) o o' :
  (forall a b, f a = Ok b -> P b) -> transpose_map f o = Ok o' -> opt_all P o'.
Proof.
  intros Hf. destruct o as [a|]; cbn; [|by intros [= <-]].
  intros (b & Hb & ->)%fmap_Ok. by eapply Hf.
Qed.

Lemma parse_shard_wf sm s : parse_shard sm = Ok s -> Shard_wf s.
Proof. unfold parse_shard. intros H. inv_ok. split; cbn; by eapply get_uint_bound. Qed.

Lemma parse_compression_wf cm c :
  parse_compression cm = Ok c -> opt_all digest_wf (cm_dictionary_digest c).
Proof. unfold parse_compression. intros H. inv_ok. by eapply transpose_fixed_32. Qed.

Lemma from_cbor_Ok_typed data m : from_cbor data = Ok m -> Manifest_typed m.
Proof.
  unfold from_cbor, parse_root, parse_integrity. intros H. inv_ok.
  repeat match goal with
  | E : get_uint _ _ = Ok _ |- _ => apply get_uint_bound in E
  | E : to_fixed_32 _ = Ok _ |- _ => apply to_fixed_32_Ok in E as [-> ?]
  | E : uuid_from_slice _ = Ok _ |- _ => apply uuid_from_slice_Ok in E as [-> ?]
  | E : mapM parse_scope _ = Ok _ |- _ => apply mapM_Ok in E
  end.
  split; cbn; try done.
  - eapply Forall2_Forall_r; [done|]. apply Forall_true. intros ? ?. apply parse_scope_epoch.
  - by eapply parse_window_wf.
  - by eapply parse_continuity_wf.
  - by eapply (transpose_map_all parse_shard); [apply parse_shard_wf|].
  - by eapply (transpose_map_all parse_compression); [apply parse_compression_wf|].
Qed.

End manifest_props.

(** ** A sample *)

Definition sample_scope : CaScope := {|
  cs_hash_algorithm := [x60; x86]; cs_issuer_name_hash := [x01]; cs_issuer_key_hash := [x02];
  cs_epoch := 5; cs_responder_id := mkResponderId ByKey [xaa; xbb];
  cs_responder_chain := Some [[x30]; [x31; x32]]; cs_signature_algorithm := [x2a];
  cs_completeness := AuthoritativeComplete |}.

Definition zeros (n : nat) : bytes := replicate n x00.

Definition sample_manifest : Manifest := {|
  m_format_version := 1; m_bundle_id := zeros 16; m_producer_id := "signer-1";
  m_created_at := 1000; m_bundle_type := Full; m_ca_scopes := [sample_scope];
  m_window := mkWindow 1000 1000 2000 3000; m_integrity := mkIntegrity (zeros 32) (zeros 32);
  m_entry_count := 2; m_continuity := mkContinuity (Some (zeros 32)) None 0;
  m_shard := Some (mkShard 0 1 0); m_compression := Some (mkCompression Zstd None);
  m_extensions := Some [("x-note"%string, VArray [VInteger (-3); VText "ok"])] |}.

Lemma sample_manifest_wf : Manifest_wf sample_manifest.
Proof.
  split; [split|done|]; cbn [opt_all sample_manifest m_window m_continuity m_shard m_compression
    m_extensions m_ca_scopes cm_dictionary_digest]; try done; repeat constructor.
Qed.

Lemma from_cbor_to_cbor_witness :
  @from_cbor Toy.crates (@to_cbor Toy.crates sample_manifest) = Ok sample_manifest.
Proof. apply (@from_cbor_to_cbor Toy.crates Toy.uuid_spec Toy.ciborium_spec), sample_manifest_wf. Defined.

