(* ===== verification/Bundle.v ===== *)
(** * Bundle: a bundle file in memory (ahu/src/bundle.rs, [Bundle])

    Reading a bundle from its bytes, writing its sections back, and looking up
    entries.  Main results: what an accepted file looks like, and that writing
    a parsed bundle gives a file that parses to the same contents. *)

From stdpp Require Import base tactics list gmap strings.
From Stdlib Require Import NArith Lia.
From S2P Require Import Prelude Slices Crates AhuError Header Index Manifest.
Local Open Scope N_scope.

Record Bundle : Type := mkBundle {
  b_header : FileHeader;
  b_manifest : Manifest;
  b_manifest_bytes : bytes;
  b_seal_bytes : bytes;
  b_index : list IndexRecord;
  b_data : bytes;
}.

(** [Bundle::read_section]. *)
Definition read_section (file : bytes) (offset length : N) : ahu_result bytes :=
  ok_or (start ← try_usize offset;
         n ← try_usize length;
         stop ← checked_add start n;
         slice_get file start stop)
        (HeaderOutOfBounds "section" offset length (len file)).

(** The loop of [parse_index]: [count] records from the cursor. *)
Fixpoint read_records (count : nat) (r : bytes) : ahu_result (list IndexRecord) :=
  match count with
  | O => Ok []
  | S count => '(rec, r) ← read_record r; rs ← read_records count r; Ok (rec :: rs)
  end.

(** [Bundle::parse_index]. *)
Definition parse_index (index_bytes : bytes) : ahu_result (list IndexRecord) :=
  if negb (len index_bytes mod INDEX_RECORD_SIZE =? 0)
  then Err (IndexSizeMismatch (len index_bytes) INDEX_RECORD_SIZE)
  else read_records (N.to_nat (len index_bytes / INDEX_RECORD_SIZE)) index_bytes.

(** The index section: the records one after the other. *)
Definition write_index (records : list IndexRecord) : bytes := flat_map write_record records.

(** The payload of a record: [Bundle::entry_bytes]. *)
Definition entry_bytes (b : Bundle) (record : IndexRecord) : option bytes :=
  if is_tombstone record then None else
  start ← try_usize (ir_data_offset record);
  n ← try_usize (ir_data_length record);
  stop ← checked_add start n;
  slice_get (b_data b) start stop.

(** [Bundle::entry_at]: the same on the record at an index. *)
Definition entry_at (b : Bundle) (idx : nat) : option bytes :=
  record ← b_index b !! idx;
  if is_tombstone record then None else
  start ← try_usize (ir_data_offset record);
  n ← try_usize (ir_data_length record);
  stop ← checked_add start n;
  slice_get (b_data b) start stop.

(** [Bundle::lookup], [Bundle::lookup_preferred]. *)
Definition lookup (b : Bundle) (entry_key : bytes) : option bytes :=
  idx ← binary_search (b_index b) entry_key; entry_at b idx.
Definition lookup_preferred (b : Bundle) (entry_key : bytes) (preferences : list N) :
    option bytes :=
  idx ← binary_search_preferred (b_index b) entry_key preferences; entry_at b idx.

Section bundle.
Context {CR : Crates}.

(** [Bundle::from_bytes]. *)
Definition from_bytes (file : bytes) : ahu_result Bundle :=
  let file_size := len file in
  '(header, _) ← read_from file;
  validate_bounds header file_size ;;
  manifest_bytes ← read_section file (fh_manifest_offset header) (fh_manifest_length header);
  manifest ← from_cbor manifest_bytes;
  seal_bytes ← read_section file (fh_seal_offset header) (fh_seal_length header);
  index_bytes ← read_section file (fh_index_offset header) (fh_index_length header);
  index ← parse_index index_bytes;
  data ← read_section file (fh_data_offset header) (fh_data_length header);
  Ok (mkBundle header manifest manifest_bytes seal_bytes index data).

(** The header of a file with the sections laid out one after the other. *)
Definition to_bytes (b : Bundle) : ahu_result bytes :=
  let index := write_index (b_index b) in
  let manifest_offset := HEADER_SIZE in
  manifest_length ← ok_or (try_u32 (len (b_manifest_bytes b)))
                      (InvalidOperation "manifest too large");
  let seal_offset := manifest_offset + manifest_length in
  seal_length ← ok_or (try_u32 (len (b_seal_bytes b))) (InvalidOperation "seal too large");
  let index_offset := seal_offset + seal_length in
  let index_length := len index in
  data_offset ← ok_or (checked_add index_offset index_length)
                  (InvalidOperation "bundle too large");
  let data_length := len (b_data b) in
  let header := mkFileHeader (fh_format_major (b_header b)) (fh_format_minor (b_header b))
    manifest_offset manifest_length seal_offset seal_length index_offset index_length
    data_offset data_length in
  Ok (write_to header ++ b_manifest_bytes b ++ b_seal_bytes b ++ index ++ b_data b).
End bundle.

(** ** Sections and records *)

(** [s] is the part of [file] at [offset], of [length] bytes. *)
Definition section_at (file s : bytes) (offset length : N) : Prop :=
  (exists l1 l2, file = l1 ++ s ++ l2 /\ len l1 = offset) /\ len s = length /\
  offset + length < u64_lim.

Lemma read_section_Ok file offset length s :
  read_section file offset length = Ok s <-> section_at file s offset length.
Proof.
  unfold read_section, section_at. rewrite ok_or_Ok. split.
  - intros (o & [<- _]%try_usize_Some & H)%bind_Some.
    apply bind_Some in H as (n & [<- _]%try_usize_Some & H).
    apply bind_Some in H as (stop & [-> ?]%checked_add_Some & (l1 & l2 & -> & <- & ?)%slice_get_Some).
    split_and!; [by exists l1, l2|lia|done].
  - intros ((l1 & l2 & -> & <-) & <- & Hlt).
    assert (len l1 < u64_lim /\ len s < u64_lim) as [H1 H2] by lia.
    assert (try_usize (len l1) = Some (len l1)) as -> by (by apply try_usize_Some).
    assert (try_usize (len s) = Some (len s)) as -> by (by apply try_usize_Some). cbn.
    assert (checked_add (len l1) (len s) = Some (len l1 + len s)) as ->
      by (by apply checked_add_Some). cbn.
    apply slice_get_mid.
Qed.

Lemma section_at_mid l1 s l2 n :
  len l1 = n -> n + len s < u64_lim -> section_at (l1 ++ s ++ l2) s n (len s).
Proof. intros. split; [by exists l1, l2|done]. Qed.

(** [ib] is the records [rs] with the flag words as they stand in the file. *)
Definition index_encodes (ib : bytes) (rs : list IndexRecord) : Prop :=
  exists raws, Forall2 (fun rec raw => raw < u16_lim /\ ir_flags rec = from_bits_truncate raw /\
      IndexRecord_wf rec) rs raws /\ ib = concat (zip_with raw_record rs raws).

Lemma length_raw_record rec raw :
  length (ir_entry_key rec) = 32%nat -> length (raw_record rec raw) = 48%nat.
Proof. intros Hk. unfold raw_record. rewrite !length_app, !length_be_encode, Hk. done. Qed.

Lemma drop_record (l r : bytes) count :
  length l = 48%nat -> drop (48 * S count) (l ++ r) = drop (48 * count) r.
Proof.
  intros Hl. replace (48 * S count)%nat with (length l + 48 * count)%nat by lia.
  by rewrite <- drop_drop, drop_app_length.
Qed.

Lemma read_records_Ok r rs rest count :
  length r = (48 * count + length rest)%nat ->
  read_records count r = Ok rs /\ drop (48 * count) r = rest <->
  exists ib, r = ib ++ rest /\ index_encodes ib rs /\ length rs = count.
Proof.
  revert r rs. induction count as [|count IH]; intros r rs Hlen; cbn [read_records].
  - split.
    + intros [[= <-] <-]. exists []. split_and!; [done| |done]. by exists [].
    + intros (ib & -> & (raws & Hf & ->) & Hl). destruct rs; [|done].
      inversion Hf; subst. done.
  - split.
    + intros [([rec r1] & (raw & -> & ?)%read_record_iff & (rs' & Hrs & [= <-])%bind_Ok)%bind_Ok Hd].
      destruct_and!. rename select (IndexRecord_wf rec) into Hwf.
      assert (length (raw_record rec raw) = 48%nat) as Hr
        by (apply length_raw_record; by destruct Hwf).
      rewrite length_app, Hr in Hlen. 
      destruct (proj1 (IH r1 rs' ltac:(lia))) as (ib & -> & (raws & Hf & ->) & <-).
      { split; [done|]. by rewrite <- Hd, drop_record. }
      eexists (raw_record rec raw ++ _). rewrite <- app_assoc. split_and!; [done| |done].
      exists (raw :: raws). split; [by constructor|done].
    + intros (ib & -> & (raws & Hf & ->) & Hl). destruct rs as [|rec rs]; [done|].
      inversion Hf as [|? raw ? raws' (?&?&Hwf) Hf' E1]; subst. cbn [zip_with concat] in *.
      assert (length (raw_record rec raw) = 48%nat) as Hr
        by (apply length_raw_record; by destruct Hwf).
      rewrite <- app_assoc in Hlen |- *. rewrite length_app, Hr in Hlen.
      assert (read_record (raw_record rec raw ++ concat (zip_with raw_record rs raws') ++ rest) =
        Ok (rec, concat (zip_with raw_record rs raws') ++ rest)) as ->
        by (apply read_record_iff; by exists raw).
      injection Hl as Hl.
      destruct (proj2 (IH (concat (zip_with raw_record rs raws') ++ rest) rs ltac:(lia)))
        as [Hrs Hd]; [eexists; split_and!; [done|by exists raws'|done]|].
      rewrite drop_record, Hd by done. cbn [mbind result_bind]. by rewrite Hrs.
Qed.

Lemma index_encodes_wf ib rs : index_encodes ib rs -> Forall IndexRecord_wf rs.
Proof.
  intros (raws & Hf & _). eapply Forall2_Forall_l; [done|].
  apply Forall_true. by intros ? ? (_&_&?).
Qed.

Lemma index_encodes_length ib rs : index_encodes ib rs -> len ib = INDEX_RECORD_SIZE * len rs.
Proof.
  intros (raws & Hf & ->). unfold INDEX_RECORD_SIZE, len.
  induction Hf as [|rec raw rs raws (_&_&Hwf) Hf IH]; [done|]. cbn [zip_with concat].
  rewrite length_app, length_raw_record by (by destruct Hwf). cbn [length]. lia.
Qed.

Lemma write_index_encodes rs : Forall IndexRecord_wf rs -> index_encodes (write_index rs) rs.
Proof.
  intros Hf. exists (ir_flags <$> rs). split.
  - induction Hf as [|rec rs Hwf Hf IH]; constructor; [|done].
    split_and!; [by apply irw_flags_u16|by destruct Hwf|done].
  - unfold write_index. clear Hf. induction rs as [|rec rs IH]; [done|]. cbn. by rewrite IH.
Qed.

(** The index section is accepted exactly when it is a whole number of records. *)
Lemma parse_index_Ok ib rs : parse_index ib = Ok rs <-> index_encodes ib rs.
Proof.
  unfold parse_index. destruct (N.eqb_spec (len ib mod INDEX_RECORD_SIZE) 0) as [Hm|Hm]; cbn.
  - assert (len ib = 48 * (len ib / 48)) as Hd.
    { pose proof (N.div_mod (len ib) 48 ltac:(lia)). unfold INDEX_RECORD_SIZE in Hm. lia. }
    unfold INDEX_RECORD_SIZE. set (c := N.to_nat (len ib / 48)).
    assert (length ib = 48 * c + length (@nil byte))%nat as Hl.
    { unfold c. unfold len in *. cbn. lia. }
    pose proof (read_records_Ok ib rs [] c Hl) as Hr. split.
    + intros H. destruct (proj1 Hr) as (ib' & -> & He & _); [|by rewrite app_nil_r].
      split; [done|]. apply drop_ge. cbn in Hl. lia.
    + intros He. apply Hr. exists ib. rewrite app_nil_r. split_and!; [done..|].
      apply index_encodes_length in He. unfold INDEX_RECORD_SIZE, len in *. cbn in Hl. lia.
  - split; [done|]. intros He%index_encodes_length. rewrite He, N.mul_comm in Hm.
    by rewrite N.Div0.mod_mul in Hm.
Qed.

(** ** Reading *)

(** What a file that parses to [b] looks like. *)
Record parses {CR : Crates} (file : bytes) (b : Bundle) : Prop := {
  pa_header : exists rest, file = write_to (b_header b) ++ rest;
  pa_wf : FileHeader_wf (b_header b);
  pa_major : fh_format_major (b_header b) = FORMAT_MAJOR;
  pa_manifest : section_at file (b_manifest_bytes b)
    (fh_manifest_offset (b_header b)) (fh_manifest_length (b_header b));
  pa_decoded : from_cbor (b_manifest_bytes b) = Ok (b_manifest b);
  pa_seal : section_at file (b_seal_bytes b)
    (fh_seal_offset (b_header b)) (fh_seal_length (b_header b));
  pa_index : exists ib, index_encodes ib (b_index b) /\
    section_at file ib (fh_index_offset (b_header b)) (fh_index_length (b_header b));
  pa_data : section_at file (b_data b)
    (fh_data_offset (b_header b)) (fh_data_length (b_header b));
}.

Lemma section_at_bounds file s offset length :
  section_at file s offset length -> offset + length < u64_lim /\ offset + length <= len file.
Proof.
  intros ((l1 & l2 & -> & <-) & <- & ?). split; [done|]. rewrite !len_app. lia.
Qed.

(** The layout [to_bytes] gives the sections. *)
Definition compact_header (b : Bundle) : FileHeader :=
  let seal_offset := HEADER_SIZE + len (b_manifest_bytes b) in
  let index_offset := seal_offset + len (b_seal_bytes b) in
  let data_offset := index_offset + len (write_index (b_index b)) in
  mkFileHeader (fh_format_major (b_header b)) (fh_format_minor (b_header b))
    HEADER_SIZE (len (b_manifest_bytes b)) seal_offset (len (b_seal_bytes b))
    index_offset (len (write_index (b_index b))) data_offset (len (b_data b)).

Definition with_header (b : Bundle) (h : FileHeader) : Bundle :=
  mkBundle h (b_manifest b) (b_manifest_bytes b) (b_seal_bytes b) (b_index b) (b_data b).

(** A bundle that can be written: the types of its fields and sections that
    fit in their length fields and together in a file. *)
Record Bundle_wf {CR : Crates} (b : Bundle) : Prop := {
  bw_major : fh_format_major (b_header b) = FORMAT_MAJOR;
  bw_minor : fh_format_minor (b_header b) < u16_lim;
  bw_decoded : from_cbor (b_manifest_bytes b) = Ok (b_manifest b);
  bw_index : Forall IndexRecord_wf (b_index b);
  bw_manifest_length : len (b_manifest_bytes b) < u32_lim;
  bw_seal_length : len (b_seal_bytes b) < u32_lim;
  bw_size : HEADER_SIZE + len (b_manifest_bytes b) + len (b_seal_bytes b) +
    INDEX_RECORD_SIZE * len (b_index b) + len (b_data b) < u64_lim;
}.

Section bundle_props.
Context {CR : Crates}.

Lemma from_bytes_Ok file b : from_bytes file = Ok b <-> parses file b.
Proof.
  unfold from_bytes. split.
  - intros H. inv_ok. destruct v as [h rest]. inv_ok.
    rename select (read_from _ = _) into Hh. apply read_from_Ok in Hh as (Hf & Hwf & Hmaj).
    repeat match goal with
    | E : read_section _ _ _ = Ok _ |- _ => apply read_section_Ok in E
    | E : parse_index _ = Ok _ |- _ => apply parse_index_Ok in E
    end.
    split; cbn -[write_to]; eauto.
  - intros [[rest ->] Hwf Hmaj Hm Hd Hs (ib & Hi & His) Hda].
    set (file := write_to (b_header b) ++ rest) in *.
    assert (read_from file = Ok (b_header b, rest)) as -> by (by apply read_from_Ok).
    cbn [mbind result_bind].
    assert (validate_bounds (b_header b) (len file) = Ok tt) as ->.
    { apply validate_bounds_Ok. unfold sections.
      repeat constructor; cbn [fst snd]; eapply section_at_bounds; eauto. }
    apply read_section_Ok in Hm, Hs, His, Hda. apply parse_index_Ok in Hi.
    cbn [mbind result_bind]. rewrite Hm. cbn [mbind result_bind]. rewrite Hd.
    cbn [mbind result_bind]. rewrite Hs. cbn [mbind result_bind]. rewrite His.
    cbn [mbind result_bind]. rewrite Hi. cbn [mbind result_bind]. rewrite Hda. by destruct b.
Qed.

Lemma len_write_index rs :
  Forall IndexRecord_wf rs -> len (write_index rs) = INDEX_RECORD_SIZE * len rs.
Proof. intros. by apply index_encodes_length, write_index_encodes. Qed.

Lemma to_bytes_compact b :
  Bundle_wf b ->
  to_bytes b = Ok (write_to (compact_header b) ++ b_manifest_bytes b ++ b_seal_bytes b ++
                   write_index (b_index b) ++ b_data b).
Proof.
  intros []. pose proof (len_write_index _ bw_index0) as Hi. unfold to_bytes.
  assert (try_u32 (len (b_manifest_bytes b)) = Some (len (b_manifest_bytes b))) as ->
    by (by apply try_u32_Some).
  assert (try_u32 (len (b_seal_bytes b)) = Some (len (b_seal_bytes b))) as ->
    by (by apply try_u32_Some).
  cbn [ok_or mbind result_bind]. unfold checked_add.
  destruct (N.ltb_spec (HEADER_SIZE + len (b_manifest_bytes b) + len (b_seal_bytes b) +
    len (write_index (b_index b))) u64_lim); [done|lia].
Qed.

Lemma compact_header_wf b : Bundle_wf b -> FileHeader_wf (compact_header b).
Proof.
  intros []. pose proof (len_write_index _ bw_index0).
  split; cbn -[HEADER_SIZE u64_lim INDEX_RECORD_SIZE] in *; try lia. by rewrite bw_major0.
Qed.

Lemma from_bytes_compact b :
  Bundle_wf b ->
  from_bytes (write_to (compact_header b) ++ b_manifest_bytes b ++ b_seal_bytes b ++
              write_index (b_index b) ++ b_data b) = Ok (with_header b (compact_header b)).
Proof.
  intros Hb. apply from_bytes_Ok. pose proof (length_write_to (compact_header b)) as Hh.
  pose proof (compact_header_wf b Hb) as Hc. destruct Hb.
  pose proof (len_write_index _ bw_index0) as Hi.
  split; cbn [with_header b_header b_manifest b_manifest_bytes b_seal_bytes b_index b_data
    compact_header fh_format_major fh_manifest_offset fh_manifest_length fh_seal_offset
    fh_seal_length fh_index_offset fh_index_length fh_data_offset fh_data_length]; try done.
  - by eexists.
  - apply section_at_mid; [done|lia].
  - rewrite app_assoc. apply section_at_mid; [by rewrite len_app, Hh|lia].
  - eexists. split; [by apply write_index_encodes|].
    rewrite (app_assoc (write_to _)), (app_assoc (_ ++ _)).
    apply section_at_mid; [by rewrite !len_app, Hh|lia].
  - rewrite (app_assoc (write_to _)), (app_assoc (_ ++ _)), (app_assoc ((_ ++ _) ++ _)).
    rewrite <- (app_nil_r (b_data b)) at 1. apply section_at_mid; [by rewrite !len_app, Hh|lia].
Qed.

Lemma parses_wf file b : len file < 2 ^ 62 -> parses file b -> Bundle_wf b.
Proof.
  intros Hf [_ [] Hmaj Hm Hd Hs (ib & Hi & His) Hda].
  pose proof (section_at_bounds _ _ _ _ Hm). pose proof (section_at_bounds _ _ _ _ Hs).
  pose proof (section_at_bounds _ _ _ _ His). pose proof (section_at_bounds _ _ _ _ Hda).
  destruct Hm as (_ & Hm & _), Hs as (_ & Hs & _), His as (_ & His & _), Hda as (_ & Hda & _).
  pose proof (index_encodes_length _ _ Hi).
  split; [done|done|done|by eapply index_encodes_wf|lia|lia|].
  unfold u32_lim, u64_lim, HEADER_SIZE in *. lia.
Qed.

(** A file is accepted exactly when it starts with a well-typed header of the
    supported version, the four sections lie inside the file where the header
    says (the ends computed without wrap-around), the manifest section decodes
    and the index section is a whole number of records; the bundle then holds
    precisely those sections. *)
Theorem from_bytes_iff file b : from_bytes file = Ok b <-> parses file b.
Proof. apply from_bytes_Ok. Qed.

(** A parsed bundle can be written back, the file written parses to the same
    manifest, seal, index and data under the compact header, and writing that
    again gives the same file: [to_bytes] normalises the layout and loses nothing. *)
Theorem to_bytes_from_bytes file b :
  len file < 2 ^ 62 -> from_bytes file = Ok b ->
  exists file', to_bytes b = Ok file' /\
    from_bytes file' = Ok (with_header b (compact_header b)) /\
    to_bytes (with_header b (compact_header b)) = Ok file'.
Proof.
  intros Hf Hb%from_bytes_Ok. apply parses_wf in Hb; [|done].
  eexists. split_and!; [by apply to_bytes_compact|by apply from_bytes_compact|].
  assert (Bundle_wf (with_header b (compact_header b))) as Hb' by (destruct Hb; by split).
  exact (to_bytes_compact _ Hb').
Qed.
End bundle_props.

(** ** Lookups as a finite map

    The contents of a bundle: each (entry_key, discriminator) pair with the
    payload a lookup serves for it, [None] where the record is a tombstone or
    points outside the data section. *)

Abbreviation entry_table := (gmap EntryKey (option bytes)).

Definition bundle_map (b : Bundle) : entry_table :=
  list_to_map ((fun r => (record_key r, entry_bytes b r)) <$> b_index b).

(** The first discriminator that is stored answers. *)
Fixpoint table_lookup (t : entry_table) (key : bytes) (discs : list N) : option bytes :=
  match discs with
  | [] => None
  | d :: discs => match t !! (key, d) with Some p => p | None => table_lookup t key discs end
  end.

Lemma fst_record_keys b :
  ((fun r => (record_key r, entry_bytes b r)) <$> b_index b).*1 = record_key <$> b_index b.
Proof. by rewrite <- list_fmap_compose. Qed.

Lemma bundle_map_Some b k p :
  ascending key_cmp (record_key <$> b_index b) ->
  bundle_map b !! k = Some p <-> exists r, r ∈ b_index b /\ record_key r = k /\ entry_bytes b r = p.
Proof.
  intros Hs. unfold bundle_map. rewrite <- elem_of_list_to_map.
  - rewrite list_elem_of_fmap. naive_solver.
  - rewrite fst_record_keys. by apply (ascending_NoDup key_cmp).
Qed.

Lemma bundle_map_None b k : bundle_map b !! k = None <-> k ∉ record_key <$> b_index b.
Proof. unfold bundle_map. by rewrite <- not_elem_of_list_to_map, fst_record_keys. Qed.

Lemma entry_at_bytes b i : entry_at b i = b_index b !! i ≫= entry_bytes b.
Proof. done. Qed.

Lemma first_preference_table b key discs :
  ascending key_cmp (record_key <$> b_index b) ->
  (first_preference (b_index b) key discs ≫= entry_at b) = table_lookup (bundle_map b) key discs.
Proof.
  intros Hs. induction discs as [|d discs IH]; cbn; [done|].
  destruct (binary_search_with_discriminator (b_index b) key d) as [i|] eqn:E.
  - apply bsd_Some in E as (r & Hi & Hr); [|done].
    assert (bundle_map b !! (key, d) = Some (entry_bytes b r)) as ->.
    { apply bundle_map_Some; [done|]. exists r. split_and!; try done. by eapply list_elem_of_lookup_2. }
    cbn [mbind option_bind]. by rewrite entry_at_bytes, Hi.
  - apply bsd_None in E; [|done]. rewrite (proj2 (bundle_map_None b (key, d)) E). done.
Qed.

Section table_props.
Context {CR : Crates}.

Lemma lookup_preferred_table b key preferences :
  validate_sort_order (b_index b) = Ok tt ->
  lookup_preferred b key preferences =
  table_lookup (bundle_map b) key (effective_preferences preferences).
Proof.
  intros Hs%validate_sort_order_Ok. unfold lookup_preferred.
  by rewrite binary_search_preferred_effective, first_preference_table.
Qed.

Lemma lookup_table b key :
  validate_sort_order (b_index b) = Ok tt ->
  lookup b key = table_lookup (bundle_map b) key [ALG_DISC_DEFAULT].
Proof.
  intros Hs%validate_sort_order_Ok. unfold lookup, binary_search.
  rewrite <- first_preference_table by done. cbn.
  by destruct (binary_search_with_discriminator _ _ _).
Qed.

(** On a bundle with a sorted index the lookups implement a finite map: a
    preferred lookup returns the payload stored under the first discriminator of
    the effective preference order that is present for the key (nothing when
    that record is a tombstone), and the plain lookup does so for the default. *)
Theorem lookup_refines_map b key preferences :
  validate_sort_order (b_index b) = Ok tt ->
  lookup_preferred b key preferences =
    table_lookup (bundle_map b) key (effective_preferences preferences) /\
  lookup b key = table_lookup (bundle_map b) key [ALG_DISC_DEFAULT].
Proof. intros Hs. split; [by apply lookup_preferred_table|by apply lookup_table]. Qed.
End table_props.

(** ** A sample *)

Definition sample_records : list IndexRecord :=
  [mkIndexRecord (replicate 32 x11) 0 3 flags_empty 0;
   mkIndexRecord (replicate 32 x11) 3 2 flags_empty 3;
   mkIndexRecord (replicate 32 x22) 0 0 TOMBSTONE 0].

Definition sample_bundle {CR : Crates} : Bundle :=
  mkBundle sample_header sample_manifest (to_cbor sample_manifest) [x30; x00] sample_records
    [x61; x62; x63; x64; x65].

Definition sample_parsed {CR : Crates} : Bundle :=
  with_header sample_bundle (compact_header sample_bundle).

Definition sample_file {CR : Crates} : bytes :=
  match to_bytes sample_bundle with Ok file => file | Err _ => [] end.

Lemma to_bytes_from_bytes_witness :
  exists file', to_bytes (@sample_parsed Toy.crates) = Ok file' /\
    @from_bytes Toy.crates file' =
      Ok (with_header (@sample_parsed Toy.crates) (compact_header (@sample_parsed Toy.crates))) /\
    to_bytes (with_header (@sample_parsed Toy.crates)
      (compact_header (@sample_parsed Toy.crates))) = Ok file'.
Proof.
  apply (@to_bytes_from_bytes Toy.crates (@sample_file Toy.crates)); vm_compute; reflexivity.
Defined.

Lemma lookup_refines_map_witness :
  lookup_preferred (@sample_bundle Toy.crates) (replicate 32 x11) [3] =
    table_lookup (bundle_map (@sample_bundle Toy.crates)) (replicate 32 x11) [3; 0] /\
  lookup (@sample_bundle Toy.crates) (replicate 32 x11) =
    table_lookup (bundle_map (@sample_bundle Toy.crates)) (replicate 32 x11) [0].
Proof.
  apply (@lookup_refines_map Toy.crates (@sample_bundle Toy.crates) (replicate 32 x11) [3]).
  vm_compute. reflexivity.
Defined.
