(* ===== verification/Builder.v ===== *)
(** * Builder: constructing a bundle file (ahu/src/bundle.rs, [BundleBuilder])

    The builder collects entries; [build] sorts them, lays out the data
    section with the payloads of alias records stored once, computes the
    integrity digests, has the manifest sealed and writes the file.  Main
    result: the file parses, and its lookups serve exactly the entries added. *)

From stdpp Require Import base tactics list gmap strings.
From Stdlib Require Import NArith Lia.
From S2P Require Import Prelude Slices Crates AhuError Header Index Manifest Bundle.
Local Open Scope N_scope.

Abbreviation pending := (IndexRecord * bytes)%type.

Record BundleBuilder : Type := mkBundleBuilder {
  bb_manifest : Manifest;
  bb_entries : list pending;
}.

(** [BundleBuilder::new]. *)
Definition new (manifest : Manifest) : BundleBuilder := mkBundleBuilder manifest [].

Definition push_entries (bb : BundleBuilder) (es : list pending) : BundleBuilder :=
  mkBundleBuilder (bb_manifest bb) (bb_entries bb ++ es).

Definition add_entry_with_discriminator (bb : BundleBuilder) (entry_key : bytes)
    (discriminator : N) (response_der : bytes) : BundleBuilder :=
  push_entries bb
    [(mkIndexRecord entry_key 0 (as_u32 (len response_der)) flags_empty discriminator,
      response_der)].

Definition add_entry (bb : BundleBuilder) (entry_key response_der : bytes) : BundleBuilder :=
  add_entry_with_discriminator bb entry_key 0 response_der.

Definition add_dual_entry_with_discriminator (bb : BundleBuilder)
    (entry_key_1 entry_key_2 response_der : bytes) (discriminator : N) : BundleBuilder :=
  let n := as_u32 (len response_der) in
  let flags := N.lor ALIAS MULTI in
  push_entries bb
    [(mkIndexRecord entry_key_1 0 n flags discriminator, response_der);
     (mkIndexRecord entry_key_2 0 n flags discriminator, response_der)].

Definition add_dual_entry (bb : BundleBuilder) (entry_key_1 entry_key_2 response_der : bytes) :
    BundleBuilder :=
  add_dual_entry_with_discriminator bb entry_key_1 entry_key_2 response_der 0.

Definition add_tombstone (bb : BundleBuilder) (entry_key : bytes) (discriminator : N) :
    BundleBuilder :=
  push_entries bb [(mkIndexRecord entry_key 0 0 TOMBSTONE discriminator, [])].

Definition relocate (record : IndexRecord) (offset length : N) : IndexRecord :=
  mkIndexRecord (ir_entry_key record) offset length (ir_flags record) (ir_discriminator record).

(** The locals of the layout loop of [build]. *)
Record layout : Type := mkLayout {
  ly_data : bytes;
  ly_index : list IndexRecord;
  ly_offsets : gmap bytes (N * N);
}.

Definition empty_layout : layout := mkLayout [] [] ∅.

Section build.
Context {CR : Crates}.

(** One iteration of the layout loop. *)
Definition place (ly : layout) (e : pending) : layout :=
  let '(record, payload) := e in
  if is_tombstone record then
    mkLayout (ly_data ly) (ly_index ly ++ [relocate record 0 0]) (ly_offsets ly)
  else if is_alias record then
    let digest := sha256 payload in
    match ly_offsets ly !! digest with
    | Some (offset, n) =>
        mkLayout (ly_data ly) (ly_index ly ++ [relocate record offset n]) (ly_offsets ly)
    | None =>
        let offset := len (ly_data ly) in
        let n := as_u32 (len payload) in
        mkLayout (ly_data ly ++ payload) (ly_index ly ++ [relocate record offset n])
          (<[digest := (offset, n)]> (ly_offsets ly))
    end
  else
    let offset := len (ly_data ly) in
    mkLayout (ly_data ly ++ payload)
      (ly_index ly ++ [relocate record offset (as_u32 (len payload))]) (ly_offsets ly).

Definition lay_out (entries : list pending) : layout := fold_left place entries empty_layout.

(** The manifest with the computed digests and entry count. *)
Definition complete_manifest (m : Manifest) (index_digest data_digest : bytes) (count : N) :
    Manifest :=
  mkManifest (m_format_version m) (m_bundle_id m) (m_producer_id m) (m_created_at m)
    (m_bundle_type m) (m_ca_scopes m) (m_window m) (mkIntegrity index_digest data_digest) count
    (m_continuity m) (m_shard m) (m_compression m) (m_extensions m).

(** [BundleBuilder::build]. *)
Definition build (bb : BundleBuilder) (seal_fn : bytes -> ahu_result bytes) : ahu_result bytes :=
  let entries := sort_by_key (fun e => record_key e.1) key_cmp (bb_entries bb) in
  let ly := lay_out entries in
  let data_section := ly_data ly in
  let index_section := write_index (ly_index ly) in
  let index_digest := sha256 index_section in
  let data_digest := sha256 data_section in
  let manifest := complete_manifest (bb_manifest bb) index_digest data_digest
                    (len (ly_index ly)) in
  let manifest_bytes := to_cbor manifest in
  seal_bytes ← seal_fn manifest_bytes;
  let manifest_offset := HEADER_SIZE in
  let manifest_length := as_u32 (len manifest_bytes) in
  let seal_offset := manifest_offset + manifest_length in
  let seal_length := as_u32 (len seal_bytes) in
  let index_offset := seal_offset + seal_length in
  let index_length := len index_section in
  let data_offset := index_offset + index_length in
  let data_length := len data_section in
  let header := mkFileHeader FORMAT_MAJOR FORMAT_MINOR manifest_offset manifest_length
    seal_offset seal_length index_offset index_length data_offset data_length in
  Ok (write_to header ++ manifest_bytes ++ seal_bytes ++ index_section ++ data_section).
End build.

(** ** Well-formed builders *)

(** The types of a pending record: [[u8; 32]], [u16], [IndexFlags]. *)
Definition pending_wf (e : pending) : Prop :=
  length (ir_entry_key e.1) = 32%nat /\ ir_discriminator e.1 < u16_lim /\
  from_bits_truncate (ir_flags e.1) = ir_flags e.1 /\ len e.2 < u32_lim.

Definition builder_wf (bb : BundleBuilder) : Prop := Forall pending_wf (bb_entries bb).

Lemma push_entries_wf bb es :
  builder_wf bb -> Forall pending_wf es -> builder_wf (push_entries bb es).
Proof. intros. by apply Forall_app. Qed.

Lemma new_wf m : builder_wf (new m).
Proof. constructor. Qed.
Lemma add_entry_wf bb k d p :
  builder_wf bb -> length k = 32%nat -> d < u16_lim -> len p < u32_lim ->
  builder_wf (add_entry_with_discriminator bb k d p).
Proof. intros. apply push_entries_wf; [done|]. by repeat constructor. Qed.
Lemma add_dual_entry_wf bb k1 k2 p d :
  builder_wf bb -> length k1 = 32%nat -> length k2 = 32%nat -> d < u16_lim -> len p < u32_lim ->
  builder_wf (add_dual_entry_with_discriminator bb k1 k2 p d).
Proof. intros. apply push_entries_wf; [done|]. by repeat constructor. Qed.
Lemma add_tombstone_wf bb k d :
  builder_wf bb -> length k = 32%nat -> d < u16_lim -> builder_wf (add_tombstone bb k d).
Proof. intros. apply push_entries_wf; [done|]. by repeat constructor. Qed.
#[export] Hint Resolve new_wf add_entry_wf add_dual_entry_wf add_tombstone_wf : hoike.

(** What the entries of a builder stand for. *)
Definition pending_value (e : pending) : option bytes :=
  if is_tombstone e.1 then None else Some e.2.
Definition entry_map (es : list pending) : entry_table :=
  list_to_map ((fun e => (record_key e.1, pending_value e)) <$> es).

(** Payloads of alias records are stored by digest: no two that differ collide. *)
Definition collision_free {CR : Crates} (es : list pending) : Prop :=
  forall e1 e2, e1 ∈ es -> e2 ∈ es -> is_alias e1.1 = true -> is_alias e2.1 = true ->
    sha256 e1.2 = sha256 e2.2 -> e1.2 = e2.2.

Definition payload_total (es : list pending) : N := foldr (fun e n => len e.2 + n) 0 es.

(** ** The layout loop *)

(** [payload] stands at [offset] in the data section. *)
Definition located (data : bytes) (offset n : N) (payload : bytes) : Prop :=
  exists l1 l2, data = l1 ++ payload ++ l2 /\ len l1 = offset /\ len payload = n.

Lemma located_app data more offset n p : located data offset n p -> located (data ++ more) offset n p.
Proof. intros (l1 & l2 & -> & ? & ?). exists l1, (l2 ++ more). by rewrite <- !app_assoc. Qed.

Lemma located_end data p : located (data ++ p) (len data) (len p) p.
Proof. exists data, []. by rewrite app_nil_r. Qed.

Lemma located_le data offset n p : located data offset n p -> offset + n <= len data.
Proof. intros (l1 & l2 & -> & <- & <-). rewrite !len_app. lia. Qed.

(** Record [rec] is entry [e] placed in the data section. *)
Definition placed (data : bytes) (e : pending) (rec : IndexRecord) : Prop :=
  exists offset n, rec = relocate e.1 offset n /\
    if is_tombstone e.1 then offset = 0 /\ n = 0 else located data offset n e.2.

Lemma placed_app data more e rec : placed data e rec -> placed (data ++ more) e rec.
Proof.
  intros (o & n & -> & H). exists o, n. split; [done|].
  destruct (is_tombstone e.1); [done|]. by apply located_app.
Qed.

Record layout_inv {CR : Crates} (es : list pending) (ly : layout) : Prop := {
  li_placed : Forall2 (placed (ly_data ly)) es (ly_index ly);
  li_total : len (ly_data ly) <= payload_total es;
  li_offsets : forall digest o n, ly_offsets ly !! digest = Some (o, n) ->
    exists e, e ∈ es /\ is_alias e.1 = true /\ sha256 e.2 = digest /\ located (ly_data ly) o n e.2;
}.

Lemma payload_total_app es1 es2 :
  payload_total (es1 ++ es2) = payload_total es1 + payload_total es2.
Proof. unfold payload_total. induction es1 as [|e es1 IH]; cbn; [done|]. rewrite IH. lia. Qed.

Lemma entry_bytes_placed b e rec :
  placed (b_data b) e rec -> len (b_data b) < u64_lim -> entry_bytes b rec = pending_value e.
Proof.
  intros (o & n & -> & H) Hlen. unfold entry_bytes, pending_value.
  change (is_tombstone (relocate e.1 o n)) with (is_tombstone e.1).
  destruct (is_tombstone e.1); [done|]. cbn [relocate ir_data_offset ir_data_length].
  pose proof (located_le _ _ _ _ H).
  assert (try_usize o = Some o) as -> by (apply try_usize_Some; split; [done|lia]).
  assert (try_usize n = Some n) as -> by (apply try_usize_Some; split; [done|lia]).
  cbn. assert (checked_add o n = Some (o + n)) as -> by (apply checked_add_Some; split; [done|lia]).
  cbn. destruct H as (l1 & l2 & -> & <- & <-). apply slice_get_mid.
Qed.

Lemma placed_wf data e rec :
  pending_wf e -> placed data e rec -> len data < u64_lim -> IndexRecord_wf rec.
Proof.
  intros (Hk & Hd & Hf & Hl) (o & n & -> & H) Hlen.
  assert (o < u64_lim /\ n < u32_lim) as [Ho Hn].
  { destruct (is_tombstone e.1); [by destruct H as [-> ->]|].
    pose proof (located_le _ _ _ _ H). destruct H as (l1 & l2 & _ & _ & <-). split; [lia|done]. }
  by split.
Qed.

Lemma placed_keys data es rs :
  Forall2 (placed data) es rs -> record_key <$> rs = (fun e => record_key e.1) <$> es.
Proof.
  induction 1 as [|e rec es rs (o & n & -> & _) _ IH]; [done|]. by rewrite !fmap_cons, IH.
Qed.

Section build_props.
Context {CR : Crates}.

Lemma place_inv es ly e :
  layout_inv es ly -> pending_wf e -> collision_free (es ++ [e]) ->
  layout_inv (es ++ [e]) (place ly e).
Proof.
  intros [Hp Ht Ho] (_ & _ & _ & Hl) Hc. destruct e as [rec p]. cbn [snd] in Hl.
  assert (payload_total (es ++ [(rec, p)]) = payload_total es + len p) as Htot
    by (rewrite payload_total_app; cbn; lia).
  assert (Hsub : forall e, e ∈ es -> e ∈ es ++ [(rec, p)]) by (intros; set_solver).
  unfold place. rewrite as_u32_small by done.
  destruct (is_tombstone rec) eqn:Et; [|destruct (is_alias rec) eqn:Ea;
    [destruct (ly_offsets ly !! sha256 p) as [[o n]|] eqn:Eo|]].
  - split; cbn [ly_data ly_index ly_offsets].
    + apply Forall2_app; [done|]. constructor; [|done]. exists 0, 0. cbn. by rewrite Et.
    + lia.
    + intros d o n (e & ? & ?)%Ho. eauto.
  - split; cbn [ly_data ly_index ly_offsets].
    + apply Forall2_app; [done|]. constructor; [|done]. exists o, n. cbn. rewrite Et.
      split; [done|]. destruct (Ho _ _ _ Eo) as (e & He & Hea & Hd & Hloc).
      assert (e.2 = p) as <-; [|done]. apply (Hc e (rec, p)); [by apply Hsub|set_solver|done..].
    + lia.
    + intros d o' n' (e & ? & ?)%Ho. eauto.
  - split; cbn [ly_data ly_index ly_offsets].
    + apply Forall2_app; [by eapply Forall2_impl; [done|]; intros; apply placed_app|].
      constructor; [|done]. eexists _, _. split; [done|]. cbn. rewrite Et. apply located_end.
    + rewrite len_app. lia.
    + intros d o n [[<- [= <- <-]]|[? (e & ? & ? & ? & ?)%Ho]]%lookup_insert_Some.
      * exists (rec, p). split_and!; [set_solver|done..|apply located_end].
      * exists e. split_and!; auto using located_app.
  - split; cbn [ly_data ly_index ly_offsets].
    + apply Forall2_app; [by eapply Forall2_impl; [done|]; intros; apply placed_app|].
      constructor; [|done]. eexists _, _. split; [done|]. cbn. rewrite Et. apply located_end.
    + rewrite len_app. lia.
    + intros d o n (e & ? & ? & ? & ?)%Ho. exists e. split_and!; auto using located_app.
Qed.

Lemma lay_out_inv es : Forall pending_wf es -> collision_free es -> layout_inv es (lay_out es).
Proof.
  unfold lay_out. induction es as [|e es IH] using rev_ind; intros Hwf Hc.
  - split; [constructor|done|]. intros ???. cbn. by rewrite lookup_empty.
  - rewrite fold_left_app. cbn. apply Forall_app in Hwf as [Hwf [He _]%Forall_cons].
    apply place_inv; [|done|done]. apply IH; [done|].
    intros e1 e2 ??. apply Hc; set_solver.
Qed.
End build_props.

(** ** The file *)

(** The bundle a builder describes, once sealed. *)
Definition built {CR : Crates} (bb : BundleBuilder) (seal_bytes : bytes) : Bundle :=
  let entries := sort_by_key (fun e => record_key e.1) key_cmp (bb_entries bb) in
  let ly := lay_out entries in
  let m := complete_manifest (bb_manifest bb) (sha256 (write_index (ly_index ly)))
             (sha256 (ly_data ly)) (len (ly_index ly)) in
  mkBundle (mkFileHeader FORMAT_MAJOR FORMAT_MINOR 0 0 0 0 0 0 0 0) m (to_cbor m) seal_bytes
    (ly_index ly) (ly_data ly).

(** What [build] needs: distinct keys, no digest collision between alias
    payloads, and sizes that fit the format's length fields. *)
Record buildable {CR : Crates} (bb : BundleBuilder) (seal_bytes : bytes) : Prop := {
  bu_manifest : Manifest_wf (bb_manifest bb);
  bu_wf : builder_wf bb;
  bu_keys : NoDup ((fun e => record_key e.1) <$> bb_entries bb);
  bu_collision : collision_free (bb_entries bb);
  bu_manifest_length : len (b_manifest_bytes (built bb seal_bytes)) < u32_lim;
  bu_seal_length : len seal_bytes < u32_lim;
  bu_count : len (bb_entries bb) < 2 ^ 48;
  bu_total : payload_total (bb_entries bb) < 2 ^ 62;
}.

Section built_props.
Context {CR : Crates} {SH : Sha256Spec} {UU : UuidSpec} {CB : CiboriumSpec}.
Implicit Types (bb : BundleBuilder) (seal : bytes).

Local Abbreviation sorted bb :=
  (sort_by_key (fun e => record_key e.1) key_cmp (bb_entries bb)).

Lemma sorted_perm bb : sorted bb ≡ₚ bb_entries bb.
Proof. apply sort_by_key_perm. Qed.

Lemma payload_total_perm es1 es2 : es1 ≡ₚ es2 -> payload_total es1 = payload_total es2.
Proof. unfold payload_total. induction 1; cbn; lia. Qed.

Lemma built_layout bb seal : buildable bb seal -> layout_inv (sorted bb) (lay_out (sorted bb)).
Proof.
  intros []. apply lay_out_inv.
  - by rewrite sorted_perm.
  - intros e1 e2. rewrite sorted_perm. apply bu_collision0.
Qed.

Lemma built_data_length bb seal : buildable bb seal -> len (b_data (built bb seal)) < 2 ^ 62.
Proof.
  intros Hb. destruct (built_layout bb seal Hb) as [_ Ht _]. cbn [built b_data].
  rewrite (payload_total_perm _ _ (sorted_perm bb)) in Ht. destruct Hb. lia.
Qed.

Lemma built_placed bb seal :
  buildable bb seal ->
  Forall2 (placed (b_data (built bb seal))) (sorted bb) (b_index (built bb seal)).
Proof. intros Hb. by destruct (built_layout bb seal Hb). Qed.

Lemma built_index_wf bb seal :
  buildable bb seal -> Forall IndexRecord_wf (b_index (built bb seal)).
Proof.
  intros Hb. pose proof (built_data_length bb seal Hb) as Hd.
  pose proof (built_placed bb seal Hb) as Hp. destruct Hb as [_ Hwf _ _ _ _ _ _].
  unfold builder_wf in Hwf. rewrite <- (sorted_perm bb) in Hwf.
  revert Hp Hwf. generalize (b_index (built bb seal)), (sorted bb). intros rs es.
  induction 1 as [|e rec es rs He _ IH]; [constructor|].
  intros [Hwe Hwf]%Forall_cons. constructor; [|by apply IH].
  eapply placed_wf; [done|done|unfold u64_lim; lia].
Qed.

Lemma built_sorted bb seal :
  buildable bb seal -> ascending key_cmp (record_key <$> b_index (built bb seal)).
Proof.
  intros Hb. erewrite placed_keys by (by apply built_placed). destruct Hb.
  by apply (sort_by_key_ascending (fun e : pending => record_key e.1) key_cmp).
Qed.

Lemma built_count bb seal : buildable bb seal -> len (b_index (built bb seal)) = len (bb_entries bb).
Proof.
  intros Hb. unfold len. erewrite <- (Forall2_length _ (sorted bb)) by (by apply built_placed).
  by rewrite sorted_perm.
Qed.

Lemma built_manifest_wf bb seal : buildable bb seal -> Manifest_wf (b_manifest (built bb seal)).
Proof.
  intros Hb. pose proof (built_count bb seal Hb) as Hc. cbn [built b_index] in Hc.
  destruct Hb as [[[] ? ?] _ _ _ _ _ Hcount _].
  split; [split|..]; cbn [b_manifest built complete_manifest m_format_version m_bundle_id
    m_producer_id m_created_at m_ca_scopes m_window m_integrity m_entry_count m_continuity m_shard
    m_compression m_extensions in_index_digest in_data_digest]; try done.
  - apply sha256_length.
  - apply sha256_length.
  - rewrite Hc. unfold u64_lim. lia.
Qed.

Lemma built_wf bb seal : buildable bb seal -> Bundle_wf (built bb seal).
Proof.
  intros Hb. pose proof (built_data_length bb seal Hb). pose proof (built_count bb seal Hb).
  split; try (by destruct Hb).
  - by apply from_to_cbor, built_manifest_wf.
  - by apply built_index_wf.
  - destruct Hb. cbn [built b_seal_bytes] in *. 
    unfold HEADER_SIZE, INDEX_RECORD_SIZE, u32_lim, u64_lim in *. lia.
Qed.

Lemma build_Ok bb seal_fn seal :
  buildable bb seal -> seal_fn (b_manifest_bytes (built bb seal)) = Ok seal ->
  build bb seal_fn = to_bytes (built bb seal).
Proof.
  intros Hb Hs. rewrite to_bytes_compact by (by apply built_wf). unfold build.
  cbn [built b_manifest_bytes] in Hs. rewrite Hs. cbn [mbind result_bind].
  destruct Hb. cbn [built b_manifest_bytes] in *. by rewrite !as_u32_small.
Qed.

Lemma build_read bb seal_fn seal file :
  buildable bb seal -> seal_fn (b_manifest_bytes (built bb seal)) = Ok seal ->
  build bb seal_fn = Ok file ->
  from_bytes file = Ok (with_header (built bb seal) (compact_header (built bb seal))).
Proof.
  intros Hb Hs Hf. rewrite (build_Ok _ _ _ Hb Hs) in Hf. pose proof (built_wf bb seal Hb) as Hwf.
  revert Hf Hwf. generalize (built bb seal). intros b Hf Hwf.
  rewrite to_bytes_compact in Hf by done. apply (f_equal to_option) in Hf. cbn [to_option] in Hf.
  apply (inj Some) in Hf as <-. by apply from_bytes_compact.
Qed.

Lemma built_map bb seal : buildable bb seal -> bundle_map (built bb seal) = entry_map (bb_entries bb).
Proof.
  intros Hb. unfold bundle_map, entry_map.
  assert ((fun r => (record_key r, entry_bytes (built bb seal) r)) <$> b_index (built bb seal) =
    (fun e => (record_key e.1, pending_value e)) <$> sorted bb) as ->.
  { pose proof (built_data_length bb seal Hb). pose proof (built_placed bb seal Hb) as Hp.
    revert Hp. generalize (b_index (built bb seal)), (sorted bb). intros rs es.
    induction 1 as [|e rec es rs He Hp IH]; [done|]. rewrite !fmap_cons, IH. f_equal.
    erewrite entry_bytes_placed by (try done; unfold u64_lim; lia).
    destruct He as (o & n & -> & _). done. }
  apply list_to_map_proper; [|by rewrite sorted_perm].
  rewrite <- list_fmap_compose. destruct Hb. by rewrite sorted_perm.
Qed.

(** C28: [build] and [from_bytes] compose to the identity on contents: for distinct
    keys and sizes that fit the format, the file built is accepted by the reader,
    carries the seal that was returned, has a strictly sorted index, and a lookup
    with any preferences serves exactly the payload that was added under that
    key and discriminator (nothing for a tombstone or a key never added). *)
Theorem build_correct bb seal_fn seal :
  buildable bb seal -> seal_fn (b_manifest_bytes (built bb seal)) = Ok seal ->
  exists file b, build bb seal_fn = Ok file /\ from_bytes file = Ok b /\
    b_seal_bytes b = seal /\ validate_sort_order (b_index b) = Ok tt /\
    bundle_map b = entry_map (bb_entries bb) /\
    (forall key preferences, lookup_preferred b key preferences =
       table_lookup (entry_map (bb_entries bb)) key (effective_preferences preferences)).
Proof.
  intros Hb Hs. set (b := with_header (built bb seal) (compact_header (built bb seal))).
  assert (validate_sort_order (b_index b) = Ok tt) as Hv
    by (by apply validate_sort_order_Ok, built_sorted).
  assert (bundle_map b = entry_map (bb_entries bb)) as Hm by (by apply built_map).
  eexists _, b. rewrite (build_Ok _ _ _ Hb Hs), to_bytes_compact by (by apply built_wf).
  split_and!; [done|by apply from_bytes_compact, built_wf|done..|].
  intros. by rewrite lookup_preferred_table, Hm.
Qed.
End built_props.

(** ** Files below 4 GiB *)

Section small_files.
Context {CR : Crates}.

(** Every payload that is laid out is part of the data section. *)
Record sizes_inv (es : list pending) (ly : layout) : Prop := {
  si_payloads : Forall (fun e => is_tombstone e.1 = false -> len e.2 <= len (ly_data ly)) es;
  si_count : length (ly_index ly) = length es;
  si_offsets : forall digest, is_Some (ly_offsets ly !! digest) ->
    exists e, e ∈ es /\ is_alias e.1 = true /\ is_tombstone e.1 = false /\ sha256 e.2 = digest;
}.

Lemma place_sizes es ly e :
  collision_free (es ++ [e]) -> sizes_inv es ly -> sizes_inv (es ++ [e]) (place ly e).
Proof.
  intros Hc [Hp Hn Ho]. destruct e as [rec p].
  assert (Hgrow : forall more,
    Forall (fun e => is_tombstone e.1 = false -> len e.2 <= len (ly_data ly ++ more)) es).
  { intros more. eapply Forall_impl; [exact Hp|]. intros e H Ht. specialize (H Ht).
    rewrite len_app. lia. }
  assert (Hsub : forall e, e ∈ es -> e ∈ es ++ [(rec, p)]) by set_solver.
  unfold place. destruct (is_tombstone rec) eqn:Et; [|destruct (is_alias rec) eqn:Ea;
    [destruct (ly_offsets ly !! sha256 p) as [[o n]|] eqn:Eo|]];
    split; cbn [ly_data ly_index ly_offsets]; rewrite ?length_app, ?Hn; try done.
  - apply Forall_app_2; [done|]. repeat constructor. cbn. congruence.
  - intros d (e & ? & ?)%Ho. eauto.
  - apply Forall_app_2; [done|]. repeat constructor. intros _. cbn [snd].
    destruct (Ho (sha256 p)) as (e & He & Hea & Het & Hd); [by rewrite Eo|].
    assert (e.2 = p) as <- by (apply (Hc e (rec, p)); [by auto|set_solver|done..]).
    rewrite Forall_forall in Hp. by apply Hp.
  - intros d (e & ? & ?)%Ho. eauto.
  - apply Forall_app_2; [done|]. repeat constructor. intros _. cbn [snd]. rewrite len_app. lia.
  - intros d [x [[<- _]|[_ Hx]]%lookup_insert_Some].
    + exists (rec, p). split_and!; [set_solver|done..].
    + destruct (Ho d) as (e & ? & ?); [by eexists|]. eauto.
  - apply Forall_app_2; [done|]. repeat constructor. intros _. cbn [snd]. rewrite len_app. lia.
  - intros d (e & ? & ?)%Ho. eauto.
Qed.

Lemma lay_out_sizes es : collision_free es -> sizes_inv es (lay_out es).
Proof.
  unfold lay_out. induction es as [|e es IH] using rev_ind; intros Hc.
  - split; [constructor|done|]. intros d [x Hx]. cbn in Hx. by rewrite lookup_empty in Hx.
  - rewrite fold_left_app. apply place_sizes; [done|]. apply IH. intros e1 e2 ??. apply Hc; set_solver.
Qed.

Lemma payload_total_bound es n : Forall (fun e => len e.2 <= n) es -> payload_total es <= len es * n.
Proof.
  unfold payload_total. induction 1 as [|e es He _ IH]; cbn [foldr]; [done|].
  rewrite len_cons. lia.
Qed.

(** The types of a pending record, without a bound on its payload. *)
Definition pending_typed (e : pending) : Prop :=
  length (ir_entry_key e.1) = 32%nat /\ ir_discriminator e.1 < u16_lim /\
  from_bits_truncate (ir_flags e.1) = ir_flags e.1 /\ is_tombstone e.1 = false.

Lemma len_write_index_ge rs : 16 * len rs <= len (write_index rs).
Proof.
  induction rs as [|r l IH]; [done|]. unfold write_index. cbn [flat_map]. fold (write_index l).
  rewrite len_cons, len_app. unfold write_record. rewrite !len_app, !len_be_encode. lia.
Qed.

Lemma small_buildable bb seal_fn file :
  Manifest_wf (bb_manifest bb) -> Forall pending_typed (bb_entries bb) ->
  NoDup ((fun e => record_key e.1) <$> bb_entries bb) -> collision_free (bb_entries bb) ->
  build bb seal_fn = Ok file -> len file < u32_lim ->
  exists seal, seal_fn (b_manifest_bytes (built bb seal)) = Ok seal /\ buildable bb seal.
Proof.
  intros Hm Ht Hk Hc Hb Hf. set (es := sort_by_key (fun e => record_key e.1) key_cmp (bb_entries bb)).
  assert (es ≡ₚ bb_entries bb) as Hperm by apply sort_by_key_perm.
  assert (sizes_inv es (lay_out es)) as [Hp Hn _].
  { apply lay_out_sizes. intros e1 e2. rewrite Hperm. apply Hc. }
  unfold build in Hb. fold es in Hb. apply bind_Ok in Hb as (seal & Hs & Hb).
  apply (f_equal to_option) in Hb. cbn [to_option] in Hb. apply (inj Some) in Hb. exists seal. split; [exact Hs|].
  apply (f_equal len) in Hb. rewrite !len_app in Hb.
  assert (Forall (fun e => len e.2 <= len (ly_data (lay_out es))) (bb_entries bb)) as Hle.
  { rewrite <- Hperm. rewrite <- Hperm in Ht. rewrite Forall_forall in *. intros e He.
    apply Hp; [done|]. by destruct (Ht e He) as (_ & _ & _ & ?). }
  assert (16 * len (bb_entries bb) <= len (write_index (ly_index (lay_out es)))) as Hi.
  { unfold len at 1. rewrite <- Hperm, <- Hn. apply len_write_index_ge. }
  pose proof (payload_total_bound _ _ Hle) as Htot.
  assert (16 * len (bb_entries bb) < u32_lim /\ len (ly_data (lay_out es)) < u32_lim) as [Hc1 Hc2] by lia.
  split; try done.
  - unfold builder_wf. rewrite Forall_forall in *. intros e He. specialize (Hle e He).
    destruct (Ht e He) as (? & ? & ? & _). split_and!; try done. lia.
  - cbn [built b_manifest_bytes]. fold es. lia.
  - lia.
  - unfold u32_lim in *. lia.
  - eapply N.le_lt_trans; [exact Htot|]. 
    apply N.le_lt_trans with (2 ^ 28 * 2 ^ 32); [|done].
    apply N.mul_le_mono; unfold u32_lim in *; lia.
Qed.
End small_files.

(** Whatever was added, the file of a builder carries its manifest: a reader that
    accepts the file reads the builder's fields. *)
Section built_manifest.
Context {CR : Crates} {SH : Sha256Spec} {UU : UuidSpec} {CB : CiboriumSpec}.

Lemma write_to_inj h1 h2 r1 r2 :
  FileHeader_wf h1 -> FileHeader_wf h2 -> fh_format_major h1 = FORMAT_MAJOR ->
  fh_format_major h2 = FORMAT_MAJOR -> write_to h1 ++ r1 = write_to h2 ++ r2 -> h1 = h2 /\ r1 = r2.
Proof.
  intros W1 W2 M1 M2 E. assert (read_from (write_to h1 ++ r1) = Ok (h1, r1)) as R1 by (by apply read_from_Ok).
  assert (read_from (write_to h2 ++ r2) = Ok (h2, r2)) as R2 by (by apply read_from_Ok).
  rewrite E, R2 in R1. by injection R1 as -> ->.
Qed.

Lemma section_at_inj l1 s l2 n s' :
  len s = n -> section_at (l1 ++ s ++ l2) s' (len l1) n -> s' = s.
Proof.
  intros Hn ((k1 & k2 & E & Hk) & Hs & _).
  apply app_inj_1 in E as [_ E]; [|unfold len in *; lia].
  by apply app_inj_1 in E as [E _]; [|unfold len in *; lia].
Qed.

Lemma build_manifest bb seal_fn file b :
  Manifest_wf (bb_manifest bb) -> build bb seal_fn = Ok file -> len file < u32_lim ->
  from_bytes file = Ok b ->
  exists index_digest data_digest count,
    b_manifest b = complete_manifest (bb_manifest bb) index_digest data_digest count.
Proof.
  intros Hm Hb Hf Hp%from_bytes_Ok. set (es := sort_by_key (fun e => record_key e.1) key_cmp (bb_entries bb)).
  unfold build in Hb. fold es in Hb. apply bind_Ok in Hb as (seal & _ & Hb).
  apply (f_equal to_option) in Hb. cbn [to_option] in Hb. apply (inj Some) in Hb.
  set (m := complete_manifest _ _ _ _) in Hb. set (h := mkFileHeader _ _ _ _ _ _ _ _ _ _) in Hb.
  eexists _, _, _. fold m. subst file.
  pose proof (len_write_index_ge (ly_index (lay_out es))) as Hi.
  pose proof (length_write_to h) as Hh. rewrite !len_app in Hf.
  assert (Manifest_wf m) as Hmw.
  { destruct Hm as [[] ? ?]. split; [split|..]; try done; cbn.
    - apply sha256_length.
    - apply sha256_length.
    - unfold u32_lim, u64_lim in *. lia. }
  assert (len (to_cbor m) < u32_lim /\ len seal < u32_lim) as [Hl1 Hl2] by lia.
  assert (FileHeader_wf h) as Hw.
  { subst h. rewrite !as_u32_small by done. unfold u32_lim, u64_lim, HEADER_SIZE in *.
    split; cbn; unfold u32_lim, u64_lim, u16_lim, HEADER_SIZE, FORMAT_MAJOR, FORMAT_MINOR in *; lia. }
  destruct Hp as [[rest E] Hbw Hmaj Hs Hd _ _ _].
  apply write_to_inj in E as [Hhe _]; [|done..]. rewrite <- Hhe in Hs.
  replace (fh_manifest_offset h) with (len (write_to h)) in Hs by done.
  apply section_at_inj in Hs; [|subst h; cbn; by rewrite as_u32_small].
  rewrite Hs, from_to_cbor in Hd by done. by injection Hd as <-.
Qed.
End built_manifest.

(** ** Alias payloads are stored once *)

Section alias_props.
Context {CR : Crates}.

Definition alias_shared (ly : layout) (e : pending) (rec : IndexRecord) : Prop :=
  is_tombstone e.1 = false -> is_alias e.1 = true ->
  ly_offsets ly !! sha256 e.2 = Some (ir_data_offset rec, ir_data_length rec).

Lemma place_shared es ly e :
  Forall2 (alias_shared ly) es (ly_index ly) ->
  Forall2 (alias_shared (place ly e)) (es ++ [e]) (ly_index (place ly e)).
Proof.
  intros Hf. destruct e as [rec p]. unfold place.
  destruct (is_tombstone rec) eqn:Et; [|destruct (is_alias rec) eqn:Ea;
    [destruct (ly_offsets ly !! sha256 p) as [[o n]|] eqn:Eo|]]; cbn [ly_index].
  all: apply Forall2_app; [|constructor; [|done]].
  3, 7: done.
  all: try (intros Ht Hal; cbn in *; congruence).
  - done.
  - eapply Forall2_impl; [done|]. intros e rec' He Ht Hal. cbn.
    rewrite lookup_insert_ne; [by apply He|]. intros Heq. specialize (He Ht Hal).
    rewrite <- Heq, Eo in He. done.
  - intros _ _. cbn. by rewrite lookup_insert_eq.
Qed.

Lemma lay_out_shared es : Forall2 (alias_shared (lay_out es)) es (ly_index (lay_out es)).
Proof.
  unfold lay_out. induction es as [|e es IH] using rev_ind; [constructor|].
  rewrite fold_left_app. by apply place_shared.
Qed.

(** The payload of a dual-CertID entry is stored once: whatever was added to
    the builder, any two alias records of the layout whose payloads are equal
    point at the same bytes of the data section. *)
Theorem alias_payload_stored_once es i j e1 e2 r1 r2 :
  es !! i = Some e1 -> es !! j = Some e2 ->
  ly_index (lay_out es) !! i = Some r1 -> ly_index (lay_out es) !! j = Some r2 ->
  is_tombstone e1.1 = false -> is_tombstone e2.1 = false ->
  is_alias e1.1 = true -> is_alias e2.1 = true -> e1.2 = e2.2 ->
  ir_data_offset r1 = ir_data_offset r2 /\ ir_data_length r1 = ir_data_length r2.
Proof.
  intros Hi Hj Hri Hrj Ht1 Ht2 Ha1 Ha2 Heq. pose proof (lay_out_shared es) as Hf.
  pose proof (Forall2_lookup_lr _ _ _ _ _ _ Hf Hi Hri Ht1 Ha1) as E1.
  pose proof (Forall2_lookup_lr _ _ _ _ _ _ Hf Hj Hrj Ht2 Ha2) as E2.
  rewrite Heq, E2 in E1. by injection E1.
Qed.
End alias_props.

(** ** A sample *)

Definition sample_builder : BundleBuilder :=
  add_tombstone
    (add_dual_entry
      (add_entry_with_discriminator (new sample_manifest) (replicate 32 x33) 3 [x01; x02])
      (replicate 32 x22) (replicate 32 x11) [x05; x06; x07])
    (replicate 32 x44) 0.

Definition toy_seal (m : bytes) : ahu_result bytes := Ok [x30; x82].

Lemma sample_buildable : @buildable Toy.crates sample_builder [x30; x82].
Proof.
  split; [apply sample_manifest_wf|by repeat constructor| | |
    vm_compute; reflexivity..].
  - by apply (bool_decide_unpack _).
  - intros e1 e2 H1 H2 Ha1 Ha2 _. apply list_elem_of_In in H1, H2. cbn in H1, H2.
    destruct_or?; subst; first [done | discriminate Ha1 | discriminate Ha2].
Qed.

Lemma build_correct_witness :
  exists file b, @build Toy.crates sample_builder toy_seal = Ok file /\
    @from_bytes Toy.crates file = Ok b /\
    b_seal_bytes b = [x30; x82] /\ @validate_sort_order Toy.crates (b_index b) = Ok tt /\
    bundle_map b = entry_map (bb_entries sample_builder) /\
    (forall key preferences, lookup_preferred b key preferences =
       table_lookup (entry_map (bb_entries sample_builder)) key
         (effective_preferences preferences)).
Proof.
  apply (@build_correct Toy.crates Toy.sha256_spec Toy.uuid_spec Toy.ciborium_spec
    sample_builder toy_seal [x30; x82] sample_buildable). reflexivity.
Defined.

Lemma alias_payload_stored_once_witness :
  exists r1 r2,
    ly_index (@lay_out Toy.crates (bb_entries sample_builder)) !! 1%nat = Some r1 /\
    ly_index (@lay_out Toy.crates (bb_entries sample_builder)) !! 2%nat = Some r2 /\
    ir_data_offset r1 = ir_data_offset r2 /\ ir_data_length r1 = ir_data_length r2.
Proof.
  eexists _, _. split; [vm_compute; reflexivity|]. split; [vm_compute; reflexivity|].
  eapply (@alias_payload_stored_once Toy.crates (bb_entries sample_builder) 1 2);
    first [reflexivity | vm_compute; reflexivity].
Defined.
