(* ===== verification/MmapBundle.v ===== *)
(** * MmapBundle: lookups in a mapped bundle file (ahu/src/mmap_bundle.rs)

    The reader that searches the index and slices responses directly in the
    mapped file.  Indexing a slice out of range panics, and [may_panic] keeps
    that apart from an error or a miss.  Main result: it accepts the files
    [Bundle::from_bytes] accepts, never panics, and on a sorted index answers
    every lookup as the in-memory bundle does. *)

From stdpp Require Import base tactics list gmap strings.
From Stdlib Require Import NArith Lia.
From S2P Require Import Prelude Slices Crates AhuError Header Index Manifest Bundle.
Local Open Scope N_scope.

Inductive may_panic (A : Type) : Type :=
| Returns (a : A)
| Panics.
Arguments Returns {A} a.
Arguments Panics {A}.

#[export] Instance may_panic_ret : MRet may_panic := fun A a => Returns a.
#[export] Instance may_panic_bind : MBind may_panic :=
  fun A B f m => match m with Returns a => f a | Panics => Panics end.

(** [&slice[start..end]]. *)
Definition index_slice {A} (l : list A) (start stop : N) : may_panic (list A) :=
  match slice_get l start stop with Some s => Returns s | None => Panics end.

Record MmapBundle : Type := mkMmapBundle {
  mm_mmap : bytes;
  mm_header : FileHeader;
  mm_manifest : Manifest;
  mm_manifest_start : N;
  mm_manifest_end : N;
  mm_seal_start : N;
  mm_seal_end : N;
  mm_index_offset : N;
  mm_index_count : nat;
  mm_data_offset : N;
  mm_data_length : N;
}.

Section mmap.
Context {CR : Crates}.

(** [MmapBundle::open], on the contents of the file. *)
Definition open (file : bytes) : may_panic (ahu_result MmapBundle) :=
  let file_size := len file in
  if bool_decide (try_usize file_size = None) || (file_size <? HEADER_SIZE)
  then Returns (Err (HeaderOutOfBounds "file" 0 HEADER_SIZE file_size)) else
  head ← index_slice file 0 HEADER_SIZE;
  match ('(header, _) ← read_from head; validate_bounds header file_size ;; Ok header) with
  | Err e => Returns (Err e)
  | Ok header =>
      let manifest_start := fh_manifest_offset header in
      let manifest_end := manifest_start + fh_manifest_length header in
      manifest_bytes ← index_slice file manifest_start manifest_end;
      match from_cbor manifest_bytes with
      | Err e => Returns (Err e)
      | Ok manifest =>
          let seal_start := fh_seal_offset header in
          let seal_end := seal_start + fh_seal_length header in
          let index_offset := fh_index_offset header in
          let index_length := fh_index_length header in
          if negb (index_length mod INDEX_RECORD_SIZE =? 0)
          then Returns (Err (IndexSizeMismatch index_length INDEX_RECORD_SIZE)) else
          let index_count := N.to_nat (index_length / INDEX_RECORD_SIZE) in
          Returns (Ok (mkMmapBundle file header manifest manifest_start manifest_end
            seal_start seal_end index_offset index_count
            (fh_data_offset header) (fh_data_length header)))
      end
  end.
End mmap.

Implicit Types (mb : MmapBundle).

Definition record_base mb (n : nat) : N := mm_index_offset mb + N.of_nat n * INDEX_RECORD_SIZE.

Definition read_entry_key mb (n : nat) : may_panic bytes :=
  let offset := record_base mb n in
  index_slice (mm_mmap mb) offset (offset + 32).

Definition read_discriminator mb (n : nat) : may_panic N :=
  let base := record_base mb n in
  b ← index_slice (mm_mmap mb) (base + 46) (base + 48);
  Returns (be_decode b).

(** (data_offset, data_length, flags, discriminator) of record [n]. *)
Definition read_record_fields mb (n : nat) : may_panic (N * N * N * N) :=
  let base := record_base mb n in
  o ← index_slice (mm_mmap mb) (base + 32) (base + 40);
  l ← index_slice (mm_mmap mb) (base + 40) (base + 44);
  f ← index_slice (mm_mmap mb) (base + 44) (base + 46);
  d ← index_slice (mm_mmap mb) (base + 46) (base + 48);
  Returns (be_decode o, be_decode l, from_bits_truncate (be_decode f), be_decode d).

(** The loop of [binary_search_disc]; the interval shrinks on every turn, so
    [index_count + 1] turns are enough. *)
Fixpoint search_loop (fuel : nat) mb (entry_key : bytes) (disc : N) (lo hi : nat) :
    may_panic (option nat) :=
  match fuel with
  | O => Returns None
  | S fuel =>
      if Nat.ltb lo hi then
        let mid := (lo + Nat.div (hi - lo) 2)%nat in
        key ← read_entry_key mb mid;
        mid_disc ← read_discriminator mb mid;
        match cmp_then (bytes_cmp key entry_key) (N.compare mid_disc disc) with
        | Eq => Returns (Some mid)
        | Lt => search_loop fuel mb entry_key disc (S mid) hi
        | Gt => search_loop fuel mb entry_key disc lo mid
        end
      else Returns None
  end.

Definition binary_search_disc mb (entry_key : bytes) (disc : N) : may_panic (option nat) :=
  search_loop (S (mm_index_count mb)) mb entry_key disc 0 (mm_index_count mb).

Definition entry_at_mmap mb (idx : nat) : may_panic (option bytes) :=
  '(offset, n, flags, _) ← read_record_fields mb idx;
  Returns
    (if flags_contains flags TOMBSTONE then None else
     relative ← try_usize offset;
     n ← try_usize n;
     relative_end ← checked_add relative n;
     if mm_data_length mb <? relative_end then None else
     start ← checked_add (mm_data_offset mb) relative;
     stop ← checked_add (mm_data_offset mb) relative_end;
     slice_get (mm_mmap mb) start stop).

(** [MmapBundle::lookup]. *)
Definition lookup mb (entry_key : bytes) : may_panic (option bytes) :=
  idx ← binary_search_disc mb entry_key 0;
  match idx with Some idx => entry_at_mmap mb idx | None => Returns None end.

(** The loop of [lookup_preferred]; its last step is the continuation [final]. *)
Fixpoint try_preferences mb (entry_key : bytes) (preferences : list N)
    (final : may_panic (option bytes)) : may_panic (option bytes) :=
  match preferences with
  | [] => final
  | disc :: preferences =>
      idx ← binary_search_disc mb entry_key disc;
      match idx with
      | Some idx => entry_at_mmap mb idx
      | None => try_preferences mb entry_key preferences final
      end
  end.

(** [MmapBundle::lookup_preferred]. *)
Definition lookup_preferred mb (entry_key : bytes) (preferences : list N) :
    may_panic (option bytes) :=
  try_preferences mb entry_key preferences
    (if negb (bool_decide (0 ∈ preferences)) then
       idx ← binary_search_disc mb entry_key 0;
       match idx with Some idx => entry_at_mmap mb idx | None => Returns None end
     else Returns None).

(** [manifest_bytes], [seal_bytes]. *)
Definition manifest_bytes mb : may_panic bytes :=
  index_slice (mm_mmap mb) (mm_manifest_start mb) (mm_manifest_end mb).
Definition seal_bytes mb : may_panic bytes :=
  index_slice (mm_mmap mb) (mm_seal_start mb) (mm_seal_end mb).

(** ** Records in the mapping *)

Lemma index_slice_mid {A} (l1 s l2 : list A) a z :
  len l1 = a -> a + len s = z -> index_slice (l1 ++ s ++ l2) a z = Returns s.
Proof. intros <- <-. unfold index_slice. by rewrite slice_get_mid. Qed.

(** The mapped view of a file that parses to [b]. *)
Definition mapped (file : bytes) (b : Bundle) : MmapBundle :=
  let h := b_header b in
  mkMmapBundle file h (b_manifest b)
    (fh_manifest_offset h) (fh_manifest_offset h + fh_manifest_length h)
    (fh_seal_offset h) (fh_seal_offset h + fh_seal_length h)
    (fh_index_offset h) (length (b_index b)) (fh_data_offset h) (fh_data_length h).

Lemma index_encodes_split ib rs n rec :
  index_encodes ib rs -> rs !! n = Some rec ->
  exists p raw q, ib = p ++ raw_record rec raw ++ q /\ len p = N.of_nat n * INDEX_RECORD_SIZE /\
    raw < u16_lim /\ ir_flags rec = from_bits_truncate raw /\ IndexRecord_wf rec.
Proof.
  intros (raws & Hf & ->) Hn. revert n Hn.
  induction Hf as [|r raw rs raws (Hraw & Hfl & Hwf) Hf IH]; intros n Hn; [done|].
  cbn [zip_with concat]. destruct n as [|n].
  - injection Hn as ->. exists [], raw, (concat (zip_with raw_record rs raws)). done.
  - destruct (IH n Hn) as (p & raw' & q & -> & Hp & ?).
    exists (raw_record r raw ++ p), raw', q. rewrite <- app_assoc. split_and!; [done| |naive_solver..].
    rewrite len_app, Hp. unfold len. rewrite length_raw_record by (by destruct Hwf).
    unfold INDEX_RECORD_SIZE. lia.
Qed.

Section records.
Context {CR : Crates} (file : bytes) (b : Bundle) (Hb : parses file b).

Lemma record_in_file n rec :
  b_index b !! n = Some rec ->
  exists p raw q, file = p ++ raw_record rec raw ++ q /\ len p = record_base (mapped file b) n /\
    raw < u16_lim /\ ir_flags rec = from_bits_truncate raw /\ IndexRecord_wf rec.
Proof.
  intros Hn. destruct Hb as [_ _ _ _ _ _ (ib & Hi & (l1 & l2 & -> & Hl) & _) _].
  destruct (index_encodes_split _ _ _ _ Hi Hn) as (p & raw & q & -> & Hp & ?).
  exists (l1 ++ p), raw, (q ++ l2). rewrite <- !app_assoc. split_and!; [done| |naive_solver..].
  rewrite len_app, Hl, Hp. done.
Qed.

Lemma read_fields_at n rec :
  b_index b !! n = Some rec ->
  read_entry_key (mapped file b) n = Returns (ir_entry_key rec) /\
  read_discriminator (mapped file b) n = Returns (ir_discriminator rec) /\
  read_record_fields (mapped file b) n =
    Returns (ir_data_offset rec, ir_data_length rec, ir_flags rec, ir_discriminator rec).
Proof.
  intros (p & raw & q & Hf & Hp & Hraw & -> & [Hk Ho Hl _ Hd])%record_in_file.
  unfold raw_record in Hf. rewrite <- !app_assoc in Hf.
  set (base := record_base (mapped file b) n) in *.
  rewrite u16_lim_pow in Hraw, Hd. rewrite u32_lim_pow in Hl. rewrite u64_lim_pow in Ho.
  assert (index_slice file base (base + 32) = Returns (ir_entry_key rec)) as E1.
  { rewrite Hf. apply index_slice_mid; unfold len in *; lia. }
  assert (index_slice file (base + 32) (base + 40) = Returns (be_encode 8 (ir_data_offset rec))) as E2.
  { rewrite Hf. rewrite (app_assoc p). apply index_slice_mid;
      rewrite ?len_app, ?len_be_encode; unfold len in *; lia. }
  assert (index_slice file (base + 40) (base + 44) = Returns (be_encode 4 (ir_data_length rec))) as E3.
  { rewrite Hf. rewrite (app_assoc p), (app_assoc (p ++ _)). apply index_slice_mid;
      rewrite ?len_app, ?len_be_encode; unfold len in *; lia. }
  assert (index_slice file (base + 44) (base + 46) = Returns (be_encode 2 raw)) as E4.
  { rewrite Hf. rewrite (app_assoc p), (app_assoc (p ++ _)), (app_assoc ((p ++ _) ++ _)).
    apply index_slice_mid; rewrite ?len_app, ?len_be_encode; unfold len in *; lia. }
  assert (index_slice file (base + 46) (base + 48) = Returns (be_encode 2 (ir_discriminator rec))) as E5.
  { rewrite Hf. rewrite (app_assoc p), (app_assoc (p ++ _)), (app_assoc ((p ++ _) ++ _)),
      (app_assoc (((p ++ _) ++ _) ++ _)).
    apply index_slice_mid; rewrite ?len_app, ?len_be_encode; unfold len in *; lia. }
  unfold read_entry_key, read_discriminator, read_record_fields. fold base.
  change (mm_mmap (mapped file b)) with file. rewrite E1, E2, E3, E4, E5. cbn [mbind may_panic_bind].
  by rewrite !be_decode_encode.
Qed.

(** The payload of a record: the mapped arithmetic gives the data section's slice. *)
Lemma entry_at_mmap_at n rec :
  b_index b !! n = Some rec -> entry_at_mmap (mapped file b) n = Returns (entry_bytes b rec).
Proof.
  intros Hn. destruct (read_fields_at n rec Hn) as (_ & _ & Hr).
  unfold entry_at_mmap. rewrite Hr. cbn [mbind may_panic_bind]. f_equal. unfold entry_bytes, is_tombstone.
  destruct (flags_contains (ir_flags rec) TOMBSTONE); [done|].
  destruct (try_usize (ir_data_offset rec)) as [o|]; [|done].
  destruct (try_usize (ir_data_length rec)) as [k|]; [|done]. cbn.
  destruct (checked_add o k) as [stop|] eqn:Ec; [|done]. cbn. apply checked_add_Some in Ec as [-> _].
  destruct Hb as [_ _ _ _ _ _ _ ((l1 & l2 & Hf & Hl) & Hd & Hlt)].
  destruct (N.ltb_spec (fh_data_length (b_header b)) (o + k)) as [Hgt|Hle].
  - destruct (slice_get (b_data b) o (o + k)) eqn:E; [|done].
    assert (is_Some (slice_get (b_data b) o (o + k))) as [_ ?]%slice_get_is_Some by eauto. lia.
  - assert (checked_add (fh_data_offset (b_header b)) o = Some (fh_data_offset (b_header b) + o)) as ->
      by (apply checked_add_Some; split; [done|lia]). cbn.
    assert (checked_add (fh_data_offset (b_header b)) (o + k) =
      Some (fh_data_offset (b_header b) + (o + k))) as -> by (apply checked_add_Some; split; [done|lia]).
    cbn. destruct (slice_get (b_data b) o (o + k)) as [s|] eqn:E.
    + apply slice_get_Some in E as (d1 & d2 & Hb' & <- & Hs). apply slice_get_Some.
      exists (l1 ++ d1), (d2 ++ l2). rewrite Hf, Hb', !len_app, <- !app_assoc. split_and!; [done|lia|lia].
    + assert (is_Some (slice_get (b_data b) o (o + k))) as [? Hs]
        by (apply slice_get_is_Some; lia). congruence.
Qed.

Definition probe_at (key : bytes) (disc : N) (n : nat) : comparison :=
  match b_index b !! n with
  | Some rec => key_cmp (record_key rec) (key, disc)
  | None => Gt
  end.

Lemma search_loop_bisect fuel key disc lo hi :
  (hi <= length (b_index b))%nat ->
  search_loop fuel (mapped file b) key disc lo hi = Returns (bisect fuel (probe_at key disc) lo hi).
Proof.
  revert lo hi. induction fuel as [|fuel IH]; intros lo hi Hhi; cbn [search_loop bisect]; [done|].
  destruct (Nat.ltb_spec lo hi) as [Hlt|]; [|done].
  assert ((hi - lo) / 2 < hi - lo)%nat by (apply Nat.div_lt; lia).
  set (mid := (lo + (hi - lo) / 2)%nat) in *.
  destruct (lookup_lt_is_Some_2 (b_index b) mid) as [rec Hrec]; [lia|].
  destruct (read_fields_at mid rec Hrec) as (-> & -> & _). cbn [mbind may_panic_bind].
  unfold probe_at at 1. rewrite Hrec. unfold key_cmp, pair_cmp, record_key. cbn [fst snd].
  destruct (cmp_then _ _); [done|apply IH; lia..].
Qed.

Lemma binary_search_disc_returns key disc :
  exists r, binary_search_disc (mapped file b) key disc = Returns r /\
    (forall i, r = Some i -> is_Some (b_index b !! i)) /\
    (ascending key_cmp (record_key <$> b_index b) ->
     r = binary_search_with_discriminator (b_index b) key disc).
Proof.
  unfold binary_search_disc. eexists. split; [by apply search_loop_bisect|]. split.
  - cbn [mapped mm_index_count]. intros i. 
    cut (forall fuel lo hi, (hi <= length (b_index b))%nat ->
      bisect fuel (probe_at key disc) lo hi = Some i -> (i < hi)%nat).
    { intros Hcut Hi. apply lookup_lt_is_Some_2. by eapply Hcut. }
    induction fuel as [|fuel IH]; intros lo hi Hhi; cbn [bisect]; [done|].
    destruct (Nat.ltb_spec lo hi) as [Hlt|]; [|done].
    assert ((hi - lo) / 2 < hi - lo)%nat by (apply Nat.div_lt; lia).
    destruct (probe_at _ _ _); [intros <-%(inj Some); lia|apply IH; lia|].
    intros ?%IH; lia.
  - intros Hs. cbn [mapped mm_index_count].
    apply (bisect_binary_search record_key key_cmp (b_index b) (key, disc)); [done|].
    intros i x Hx. unfold probe_at. by rewrite Hx.
Qed.
End records.

(** ** Opening and looking up *)

Section mmap_props.
Context {CR : Crates}.

Lemma parses_index_count file b :
  parses file b ->
  fh_index_length (b_header b) mod INDEX_RECORD_SIZE = 0 /\
  N.to_nat (fh_index_length (b_header b) / INDEX_RECORD_SIZE) = length (b_index b).
Proof.
  intros [_ _ _ _ _ _ (ib & Hi & _ & Hl & _) _]. apply index_encodes_length in Hi.
  rewrite <- Hl, Hi, N.mul_comm. split; [apply N.Div0.mod_mul|].
  rewrite N.div_mul by done. unfold len. lia.
Qed.

Lemma open_parses file b :
  len file < u64_lim -> parses file b -> open file = Returns (Ok (mapped file b)).
Proof.
  intros Hsz Hb. destruct (parses_index_count _ _ Hb) as [Hmod Hcount].
  pose proof Hb as [[rest Hf] Hwf Hmaj Hm Hd Hs (ib & Hi & His) Hda].
  pose proof (length_write_to (b_header b)) as Hh.
  unfold open. rewrite bool_decide_eq_false_2.
  2: { rewrite (proj2 (try_usize_Some (len file) (len file))); done. }
  destruct (N.ltb_spec (len file) HEADER_SIZE) as [Hlt|_];
    [rewrite Hf, len_app in Hlt; lia|]. cbn [orb].
  assert (index_slice file 0 HEADER_SIZE = Returns (write_to (b_header b))) as ->
    by (rewrite Hf; by apply (index_slice_mid [])).
  cbn [mbind may_panic_bind].
  assert (read_from (write_to (b_header b)) = Ok (b_header b, [])) as ->
    by (apply read_from_Ok; by rewrite app_nil_r).
  cbn [mbind result_bind].
  assert (validate_bounds (b_header b) (len file) = Ok tt) as ->.
  { apply validate_bounds_Ok. unfold sections.
    repeat constructor; cbn [fst snd]; eapply section_at_bounds; eauto. }
  cbn [mbind result_bind]. destruct Hm as ((l1 & l2 & Hfm & Hl1) & Hl & _).
  assert (index_slice file (fh_manifest_offset (b_header b))
    (fh_manifest_offset (b_header b) + fh_manifest_length (b_header b)) =
    Returns (b_manifest_bytes b)) as -> by (rewrite Hfm; apply index_slice_mid; lia).
  cbn [mbind may_panic_bind]. rewrite Hd, Hmod. cbn [N.eqb negb]. by rewrite Hcount.
Qed.

Lemma read_from_prefix file h rest :
  HEADER_SIZE <= len file ->
  read_from (take (N.to_nat HEADER_SIZE) file) = Ok (h, rest) ->
  read_from file = Ok (h, drop (N.to_nat HEADER_SIZE) file).
Proof.
  intros Hlen (Ht & Hwf & Hmaj)%read_from_Ok. apply read_from_Ok. split; [|done].
  rewrite <- (take_drop (N.to_nat HEADER_SIZE) file) at 1. f_equal. rewrite Ht.
  enough (rest = []) as -> by apply app_nil_r.
  apply (f_equal len) in Ht. rewrite len_app, length_write_to in Ht.
  unfold len in *. rewrite length_take in Ht. apply length_zero_iff_nil.
  unfold HEADER_SIZE in *. lia.
Qed.

Lemma section_exists file offset n :
  offset + n < u64_lim -> offset + n <= len file -> exists s, section_at file s offset n.
Proof.
  intros Hlt Hle. assert (is_Some (slice_get file offset (offset + n))) as [s Hs]
    by (apply slice_get_is_Some; lia).
  apply slice_get_Some in Hs as (l1 & l2 & Hf & Hl & Hs). exists s.
  split_and!; [by exists l1, l2|lia|done].
Qed.

Lemma index_encodes_exists ib : len ib mod INDEX_RECORD_SIZE = 0 -> exists rs, index_encodes ib rs.
Proof.
  intros Hm. assert (exists n, length ib = 48 * n)%nat as [n Hn].
  { exists (N.to_nat (len ib / 48)). pose proof (N.div_mod (len ib) 48 ltac:(lia)).
    unfold INDEX_RECORD_SIZE in Hm. unfold len in *. lia. }
  clear Hm. revert ib Hn. induction n as [|n IH]; intros ib Hn.
  - exists [], []. split; [constructor|]. apply length_zero_iff_nil. lia.
  - destruct (IH (drop 48 ib)) as (rs & raws & Hf & Hd); [rewrite length_drop; lia|].
    assert (exists rec rest, read_record ib = Ok (rec, rest)) as (rec & rest & Hr).
    { unfold read_record, read_u64, read_u32, read_u16, read_be, read_exact.
      repeat (rewrite decide_True by (rewrite ?length_drop; lia); cbn [map_err mbind result_bind]).
      by eexists _, _. }
    apply read_record_iff in Hr as (raw & -> & ? & ? & Hwf).
    exists (rec :: rs), (raw :: raws). split; [by constructor|]. cbn [zip_with concat].
    rewrite <- Hd. f_equal.
    assert (length (raw_record rec raw) = 48%nat) as <-
      by (apply length_raw_record; by destruct Hwf).
    by rewrite drop_app_length.
Qed.

Lemma open_returns file :
  len file < u64_lim ->
  match open file with
  | Returns (Ok mb) => exists b, parses file b /\ mb = mapped file b
  | Returns (Err _) => forall b, ~ parses file b
  | Panics => False
  end.
Proof.
  intros Hsz. pose proof (open_parses file) as Hopen. revert Hopen. unfold open.
  rewrite bool_decide_eq_false_2 by (rewrite (proj2 (try_usize_Some (len file) (len file))); done).
  destruct (N.ltb_spec (len file) HEADER_SIZE) as [Hlt|Hge]; cbn [orb];
    [intros Hopen b Hb; by specialize (Hopen b Hsz Hb)|].
  assert (index_slice file 0 HEADER_SIZE = Returns (take (N.to_nat HEADER_SIZE) file)) as ->.
  { unfold index_slice, slice_get. destruct (N.leb_spec HEADER_SIZE (len file)); [done|lia]. }
  cbn [mbind may_panic_bind].
  destruct (_ ≫= _) as [h|e] eqn:Eh; [|intros Hopen b Hb; by specialize (Hopen b Hsz Hb)].
  inv_ok. destruct v as [h' r]. inv_ok. rename select (read_from _ = _) into Hr.
  apply read_from_prefix in Hr as (Hf & Hwf & Hmaj)%read_from_Ok; [|done].
  rename select (validate_bounds _ _ = _) into Hv. apply validate_bounds_Ok in Hv.
  unfold sections in Hv. rewrite !Forall_cons in Hv. cbn [fst snd] in Hv.
  destruct Hv as ([Hm1 Hm2] & [Hs1 Hs2] & [Hi1 Hi2] & [Hd1 Hd2] & _).
  destruct (section_exists _ _ _ Hm1 Hm2) as (mbs & Hm).
  assert (index_slice file (fh_manifest_offset h) (fh_manifest_offset h + fh_manifest_length h) =
    Returns mbs) as ->.
  { destruct Hm as ((l1 & l2 & -> & ?) & ? & _). apply index_slice_mid; lia. }
  cbn [mbind may_panic_bind].
  destruct (from_cbor mbs) as [m|e] eqn:Em; [|intros Hopen b Hb; by specialize (Hopen b Hsz Hb)].
  destruct (N.eqb_spec (fh_index_length h mod INDEX_RECORD_SIZE) 0) as [E0|]; cbn [negb];
    [|intros Hopen b Hb; by specialize (Hopen b Hsz Hb)].
  intros Hopen. destruct (section_exists _ _ _ Hs1 Hs2) as (sl & Hs).
  destruct (section_exists _ _ _ Hi1 Hi2) as (ib & Hi).
  destruct (section_exists _ _ _ Hd1 Hd2) as (da & Hd).
  destruct (index_encodes_exists ib) as (rs & Hrs); [by destruct Hi as (_ & -> & _)|].
  assert (parses file (mkBundle h m mbs sl rs da)) as Hp by (split; cbn -[write_to]; eauto).
  exists (mkBundle h m mbs sl rs da). split; [done|]. specialize (Hopen _ Hsz Hp). congruence.
Qed.

(** Opening a mapped file never panics and accepts exactly the files
    [Bundle::from_bytes] accepts, with the same header, manifest, manifest bytes
    and seal bytes. *)
Theorem open_exact file :
  len file < u64_lim ->
  match open file with
  | Returns (Ok mb) => exists b, from_bytes file = Ok b /\
      mm_header mb = b_header b /\ mm_manifest mb = b_manifest b /\
      manifest_bytes mb = Returns (b_manifest_bytes b) /\
      seal_bytes mb = Returns (b_seal_bytes b)
  | Returns (Err _) => forall b, from_bytes file <> Ok b
  | Panics => False
  end.
Proof.
  intros Hsz. pose proof (open_returns file Hsz) as Hopen.
  destruct (open file) as [[mb|e]|]; [|intros b ?%from_bytes_Ok; by eapply Hopen|done].
  destruct Hopen as (b & Hb & ->). exists b. split_and!; [by apply from_bytes_Ok|done..| |];
    unfold manifest_bytes, seal_bytes; cbn [mapped mm_mmap mm_manifest_start mm_manifest_end
      mm_seal_start mm_seal_end].
  - destruct Hb as [_ _ _ ((l1 & l2 & Hf & ?) & ? & _) _ _ _ _]. rewrite Hf at 1.
    apply index_slice_mid; lia.
  - destruct Hb as [_ _ _ _ _ ((l1 & l2 & Hf & ?) & ? & _) _ _]. rewrite Hf at 1.
    apply index_slice_mid; lia.
Qed.

Section lookups.
Context (file : bytes) (b : Bundle) (Hb : parses file b).

Lemma search_then_entry key disc :
  exists idx, binary_search_disc (mapped file b) key disc = Returns idx /\
    (ascending key_cmp (record_key <$> b_index b) ->
     idx = binary_search_with_discriminator (b_index b) key disc) /\
    forall i, idx = Some i -> entry_at_mmap (mapped file b) i = Returns (Bundle.entry_at b i).
Proof.
  destruct (binary_search_disc_returns file b Hb key disc) as (idx & Hr & Hin & Heq).
  exists idx. split_and!; [done..|]. intros i Hi. destruct (Hin i Hi) as [rec Hrec].
  rewrite (entry_at_mmap_at file b Hb i rec Hrec), entry_at_bytes, Hrec. done.
Qed.

Lemma try_preferences_returns key prefs final out :
  final = Returns out ->
  exists r, try_preferences (mapped file b) key prefs final = Returns r /\
    (ascending key_cmp (record_key <$> b_index b) ->
     r = match first_preference (b_index b) key prefs with
         | Some i => Bundle.entry_at b i
         | None => out
         end).
Proof.
  intros ->. induction prefs as [|d prefs IH]; cbn [try_preferences first_preference]; [by eexists|].
  destruct (search_then_entry key d) as ([i|] & -> & Heq & Hent); cbn [mbind may_panic_bind].
  - exists (Bundle.entry_at b i). split; [by apply Hent|]. intros Hs. by rewrite <- (Heq Hs).
  - destruct IH as (r & Hr & Hs). exists r. split; [done|]. intros Hasc.
    rewrite <- (Heq Hasc). by apply Hs.
Qed.

Lemma lookup_returns key :
  exists r, lookup (mapped file b) key = Returns r /\
    (ascending key_cmp (record_key <$> b_index b) -> r = Bundle.lookup b key).
Proof.
  unfold lookup. destruct (search_then_entry key 0) as ([i|] & -> & Heq & Hent);
    cbn [mbind may_panic_bind].
  - exists (Bundle.entry_at b i). split; [by apply Hent|]. intros Hs.
    unfold Bundle.lookup, binary_search, ALG_DISC_DEFAULT. by rewrite <- (Heq Hs).
  - exists None. split; [done|]. intros Hs.
    unfold Bundle.lookup, binary_search, ALG_DISC_DEFAULT. by rewrite <- (Heq Hs).
Qed.

Lemma lookup_preferred_returns key prefs :
  exists r, lookup_preferred (mapped file b) key prefs = Returns r /\
    (ascending key_cmp (record_key <$> b_index b) -> r = Bundle.lookup_preferred b key prefs).
Proof.
  unfold lookup_preferred, Bundle.lookup_preferred, binary_search_preferred, ALG_DISC_DEFAULT.
  case_bool_decide as Hin; cbn [negb].
  - destruct (try_preferences_returns key prefs _ None eq_refl) as (r & Hr & Heq).
    exists r. split; [done|]. intros Hs. rewrite (Heq Hs).
    by destruct (first_preference (b_index b) key prefs).
  - destruct (lookup_returns key) as (out & Hout & Ho). unfold lookup in Hout.
    destruct (try_preferences_returns key prefs _ out Hout) as (r & Hr & Heq).
    exists r. split; [done|]. intros Hs. rewrite (Heq Hs), (Ho Hs).
    by destruct (first_preference (b_index b) key prefs).
Qed.
End lookups.

(** C30: lookups in a mapped bundle never panic, whatever the index holds, and on a
    sorted index the hand-written search over the mapped bytes answers every
    query exactly as the in-memory bundle does. *)
Theorem lookup_agrees file mb b key preferences :
  len file < u64_lim -> open file = Returns (Ok mb) -> from_bytes file = Ok b ->
  (exists r r', lookup_preferred mb key preferences = Returns r /\ lookup mb key = Returns r') /\
  (validate_sort_order (b_index b) = Ok tt ->
   lookup_preferred mb key preferences = Returns (Bundle.lookup_preferred b key preferences) /\
   lookup mb key = Returns (Bundle.lookup b key)).
Proof.
  intros Hsz Hopen Hb%from_bytes_Ok. rewrite (open_parses file b Hsz Hb) in Hopen.
  injection Hopen as <-.
  destruct (lookup_preferred_returns file b Hb key preferences) as (r & Hr & Heq).
  destruct (lookup_returns file b Hb key) as (r' & Hr' & Heq'). split; [by exists r, r'|].
  intros Hs%validate_sort_order_Ok. by rewrite Hr, Hr', Heq, Heq'.
Qed.
End mmap_props.

(** ** Witnesses *)

Lemma open_exact_witness :
  match @open Toy.crates (@sample_file Toy.crates) with
  | Returns (Ok mb) => exists b, @from_bytes Toy.crates (@sample_file Toy.crates) = Ok b /\
      mm_header mb = b_header b /\ mm_manifest mb = b_manifest b /\
      manifest_bytes mb = Returns (b_manifest_bytes b) /\
      seal_bytes mb = Returns (b_seal_bytes b)
  | Returns (Err _) => forall b, @from_bytes Toy.crates (@sample_file Toy.crates) <> Ok b
  | Panics => False
  end.
Proof. apply (@open_exact Toy.crates (@sample_file Toy.crates)). vm_compute. reflexivity. Defined.

Definition sample_mapped : MmapBundle :=
  mapped (@sample_file Toy.crates) (@sample_parsed Toy.crates).

Lemma lookup_agrees_witness :
  lookup_preferred sample_mapped (replicate 32 x11) [3; 0] = Returns (Some [x64; x65]) /\
  lookup sample_mapped (replicate 32 x22) = Returns None.
Proof.
  assert (Bundle.lookup_preferred (@sample_parsed Toy.crates) (replicate 32 x11) [3; 0] =
    Some [x64; x65]) as <- by (vm_compute; reflexivity).
  assert (Bundle.lookup (@sample_parsed Toy.crates) (replicate 32 x22) = None) as <-
    by (vm_compute; reflexivity).
  split.
  - eapply (@lookup_agrees Toy.crates (@sample_file Toy.crates)); vm_compute; reflexivity.
  - eapply (@lookup_agrees Toy.crates (@sample_file Toy.crates) _ _ _ []); vm_compute; reflexivity.
Defined.
