(* ===== verification/Verify.v ===== *)
(** * Verify: structural verification of a bundle (ahu/src/verify.rs)

    [verify_structure], [manifest_digest] and [check_epochs].  Main results:
    what an accepted bundle guarantees, that a manifest determines the index
    and the data of every bundle accepted under it up to a hash collision, and
    that what the builder builds is accepted. *)

From stdpp Require Import base tactics list gmap strings pretty.
From Stdlib Require Import NArith Lia.
From S2P Require Import Prelude Slices Crates AhuError Header Index Manifest Bundle Builder.
Local Open Scope N_scope.

Record VerifyResult : Type := mkVerifyResult {
  vr_header_ok : bool;
  vr_manifest_ok : bool;
  vr_index_digest_ok : bool;
  vr_data_digest_ok : bool;
  vr_sort_order_ok : bool;
  vr_entry_bounds_ok : bool;
  vr_seal_present : bool;
  vr_entry_count_matches : bool;
  vr_warnings : list string;
}.

Section verify.
Context {CR : Crates}.
Implicit Types (b : Bundle).

(** The loop over the index: records that are not tombstones have a payload. *)
Definition check_entry_bounds b (record : IndexRecord) : ahu_result unit :=
  if is_tombstone record then Ok tt
  else match entry_bytes b record with
       | None => Err (EntryOutOfBounds (ir_data_offset record) (ir_data_length record))
       | Some _ => Ok tt
       end.

Definition count_warning (m : Manifest) (n : N) : string :=
  "entry_count in manifest (" +:+ pretty (m_entry_count m) +:+
  ") does not match index record count (" +:+ pretty n +:+ ")".

Definition verify_structure b : ahu_result VerifyResult :=
  manifest ← from_cbor (b_manifest_bytes b);
  if negb (bool_decide (to_cbor manifest = to_cbor (b_manifest b)))
  then Err (ManifestField "decoded manifest does not match manifest bytes") else
  let seal_present := negb (bool_decide (b_seal_bytes b = [])) in
  let index_bytes := write_index (b_index b) in
  let computed_index_digest := sha256 index_bytes in
  ensure (bool_decide (computed_index_digest = in_index_digest (m_integrity manifest)))
    (IndexDigestMismatch (hex_encode (in_index_digest (m_integrity manifest)))
       (hex_encode computed_index_digest)) ;;
  let computed_data_digest := sha256 (b_data b) in
  ensure (bool_decide (computed_data_digest = in_data_digest (m_integrity manifest)))
    (DataDigestMismatch (hex_encode (in_data_digest (m_integrity manifest)))
       (hex_encode computed_data_digest)) ;;
  validate_sort_order (b_index b) ;;
  let entry_count_matches := len (b_index b) =? m_entry_count manifest in
  for_each (check_entry_bounds b) (b_index b) ;;
  if bool_decide (m_bundle_type manifest = Delta) &&
     bool_decide (co_base_manifest_digest (m_continuity manifest) = None)
  then Err DeltaMissingBase else
  Ok (mkVerifyResult true true true true true true seal_present entry_count_matches
        ((if entry_count_matches then [] else [count_warning manifest (len (b_index b))]) ++
         (if seal_present then [] else ["seal section is empty"%string]))).

(** [manifest_digest]. *)
Definition manifest_digest (manifest_bytes : bytes) : bytes := sha256 manifest_bytes.

(** [check_epochs]: the marks by (producer_id, issuer_key_hash). *)
Definition check_epochs b (high_water_marks : gmap (string * bytes) N) : ahu_result unit :=
  for_each (fun scope =>
    match high_water_marks !! (m_producer_id (b_manifest b), cs_issuer_key_hash scope) with
    | Some hw =>
        if cs_epoch scope <=? hw
        then Err (EpochRollback (hex_encode (cs_issuer_key_hash scope)) (cs_epoch scope) hw)
        else Ok tt
    | None => Ok tt
    end) (m_ca_scopes (b_manifest b)).
End verify.

(** ** Properties *)

(** What structural verification establishes. *)
Record verified {CR : Crates} (b : Bundle) (m : Manifest) : Prop := {
  vf_manifest : from_cbor (b_manifest_bytes b) = Ok m;
  vf_agrees : to_cbor m = to_cbor (b_manifest b);
  vf_index : sha256 (write_index (b_index b)) = in_index_digest (m_integrity m);
  vf_data : sha256 (b_data b) = in_data_digest (m_integrity m);
  vf_sorted : ascending key_cmp (record_key <$> b_index b);
  vf_bounds : Forall (fun r => is_tombstone r = false -> is_Some (entry_bytes b r)) (b_index b);
  vf_delta : m_bundle_type m = Delta -> is_Some (co_base_manifest_digest (m_continuity m));
}.

Section verify_props.
Context {CR : Crates}.
Implicit Types (b : Bundle).

Lemma check_entry_bounds_Ok b r :
  check_entry_bounds b r = Ok tt <-> (is_tombstone r = false -> is_Some (entry_bytes b r)).
Proof.
  unfold check_entry_bounds. destruct (is_tombstone r), (entry_bytes b r); cbn;
    split; try done; intros H; by destruct (H eq_refl).
Qed.

Lemma verify_structure_Ok b r :
  verify_structure b = Ok r <->
  exists m, verified b m /\
    r = let seal_present := negb (bool_decide (b_seal_bytes b = [])) in
        let matches := len (b_index b) =? m_entry_count m in
        mkVerifyResult true true true true true true seal_present matches
          ((if matches then [] else [count_warning m (len (b_index b))]) ++
           (if seal_present then [] else ["seal section is empty"%string])).
Proof.
  unfold verify_structure. split.
  - intros H. inv_ok. rename v into m. exists m.
    case_bool_decide as Ha; cbn [negb] in *; [|done]. inv_ok.
    repeat match goal with E : bool_decide _ = true |- _ => apply bool_decide_eq_true in E end.
    rename select (for_each _ _ = _) into Hb. apply for_each_Ok in Hb.
    destruct (bool_decide (m_bundle_type m = Delta) && _) eqn:Ed; [done|]. inv_ok.
    split; [|done]. split; try done.
    + by apply (validate_sort_order_Ok _ tt).
    + eapply Forall_impl; [done|]. intros x. apply check_entry_bounds_Ok.
    + intros Hd. rewrite bool_decide_eq_true_2 in Ed by done. cbn in Ed.
      apply bool_decide_eq_false in Ed. by apply not_eq_None_Some.
  - intros (m & [Hm Ha Hi Hd Hs Hb Hdl] & ->). rewrite Hm. cbn [mbind result_bind].
    rewrite bool_decide_eq_true_2 by done. cbn [negb].
    rewrite (bool_decide_eq_true_2 _ Hi). cbn [ensure mbind result_bind].
    rewrite (bool_decide_eq_true_2 _ Hd). cbn [ensure mbind result_bind].
    rewrite (proj2 (validate_sort_order_Ok _ tt) Hs). cbn [mbind result_bind].
    assert (for_each (check_entry_bounds b) (b_index b) = Ok tt) as ->.
    { apply for_each_Ok. eapply Forall_impl; [done|]. intros x. by apply check_entry_bounds_Ok. }
    cbn [mbind result_bind].
    destruct (bool_decide (m_bundle_type m = Delta)) eqn:Et; cbn [andb]; [|done].
    apply bool_decide_eq_true in Et. destruct (Hdl Et) as [d ->]. done.
Qed.

(** Structural verification accepts exactly the bundles whose manifest bytes
    decode to a manifest that agrees with the decoded one and carries the digests
    of the index and data sections, whose index strictly ascends with every
    record that is not a tombstone inside the data section, and which name a base
    if they are deltas; a wrong entry count or a missing seal only warns. *)
Theorem verify_structure_iff b :
  (exists r, verify_structure b = Ok r) <-> (exists m, verified b m).
Proof.
  split.
  - intros (r & (m & Hm & _)%verify_structure_Ok). by exists m.
  - intros (m & Hm). eexists. apply verify_structure_Ok. by exists m.
Qed.

(** In a verified bundle no stored entry is lost: a lookup with any
    preferences that hits a record which is not a tombstone returns its bytes. *)
Theorem verified_entries_served b r key disc preferences p1 p2 rec :
  verify_structure b = Ok r ->
  effective_preferences preferences = p1 ++ disc :: p2 ->
  Forall (fun d => (key, d) ∉ record_key <$> b_index b) p1 ->
  rec ∈ b_index b -> record_key rec = (key, disc) -> is_tombstone rec = false ->
  exists payload, lookup_preferred b key preferences = Some payload /\
    entry_bytes b rec = Some payload.
Proof.
  intros (m & [_ _ _ _ Hs Hb _] & _)%verify_structure_Ok Hp Hp1 Hrec Hkey Ht.
  rewrite Forall_forall in Hb. destruct (Hb rec Hrec Ht) as [payload Hpay]. exists payload.
  split; [|done].
  rewrite lookup_preferred_table by (by apply validate_sort_order_Ok). rewrite Hp. clear Hp.
  induction Hp1 as [|d p1 Hd Hp1 IH]; cbn.
  - rewrite (proj2 (bundle_map_Some b (key, disc) (Some payload) Hs)); [done|]. by exists rec.
  - by rewrite (proj2 (bundle_map_None b (key, d)) Hd).
Qed.

Lemma write_index_inj rs1 rs2 :
  Forall IndexRecord_wf rs1 -> Forall IndexRecord_wf rs2 ->
  write_index rs1 = write_index rs2 -> rs1 = rs2.
Proof.
  intros H1 H2 Heq. apply write_index_encodes, parse_index_Ok in H1, H2. congruence.
Qed.

(** The sealed manifest pins the contents: two parsed bundles that pass
    verification with the same manifest bytes have the same index and data, or
    else exhibit an explicit SHA-256 collision. *)
Theorem verified_contents_determined b1 b2 r1 r2 :
  Forall IndexRecord_wf (b_index b1) -> Forall IndexRecord_wf (b_index b2) ->
  verify_structure b1 = Ok r1 -> verify_structure b2 = Ok r2 ->
  b_manifest_bytes b1 = b_manifest_bytes b2 ->
  (b_index b1 = b_index b2 /\ b_data b1 = b_data b2) \/
  exists x y, x <> y /\ sha256 x = sha256 y.
Proof.
  intros Hw1 Hw2 (m1 & [Hm1 _ Hi1 Hd1 _ _ _] & _)%verify_structure_Ok
    (m2 & [Hm2 _ Hi2 Hd2 _ _ _] & _)%verify_structure_Ok Heq.
  rewrite Heq in Hm1. assert (m1 = m2) as -> by congruence.
  destruct (decide (write_index (b_index b1) = write_index (b_index b2))) as [Ei|Ei].
  - destruct (decide (b_data b1 = b_data b2)) as [Ed|Ed].
    + left. split; [by apply write_index_inj|done].
    + right. exists (b_data b1), (b_data b2). split; [done|congruence].
  - right. eexists _, _. split; [exact Ei|congruence].
Qed.

(** The epoch check rejects exactly the bundles with a scope whose epoch is
    not above the recorded mark of its (producer, issuer key) pair, and names
    the first such scope. *)
Theorem check_epochs_exact b marks :
  let mark s := marks !! (m_producer_id (b_manifest b), cs_issuer_key_hash s) in
  match check_epochs b marks with
  | Ok _ => forall s hw, s ∈ m_ca_scopes (b_manifest b) -> mark s = Some hw -> hw < cs_epoch s
  | Err e => exists l1 s l2 hw, m_ca_scopes (b_manifest b) = l1 ++ s :: l2 /\
      Forall (fun s' => forall hw', mark s' = Some hw' -> hw' < cs_epoch s') l1 /\
      mark s = Some hw /\ cs_epoch s <= hw /\
      e = EpochRollback (hex_encode (cs_issuer_key_hash s)) (cs_epoch s) hw
  end.
Proof.
  cbv zeta. unfold check_epochs. set (f := fun scope => _).
  assert (forall s, f s = Ok tt <-> forall hw,
    marks !! (m_producer_id (b_manifest b), cs_issuer_key_hash s) = Some hw -> hw < cs_epoch s) as Hf.
  { intros s. unfold f. destruct (marks !! _) as [hw|]; [|naive_solver].
    destruct (N.leb_spec (cs_epoch s) hw); split; try done; naive_solver lia. }
  destruct (for_each f _) as [u|e] eqn:E.
  - apply for_each_Ok in E. intros s hw Hs. rewrite Forall_forall in E. by apply Hf, E.
  - apply for_each_Err in E as (l1 & s & l2 & Hl & Hl1 & Hs). exists l1, s, l2.
    unfold f in Hs. destruct (marks !! _) as [hw|]; [|done].
    destruct (N.leb_spec (cs_epoch s) hw); [|done]. injection Hs as <-. exists hw.
    split_and!; [done| |done..]. eapply Forall_impl; [done|]. intros x. by apply Hf.
Qed.
End verify_props.

Section build_verifies.
Context {CR : Crates} {SH : Sha256Spec} {UU : UuidSpec} {CB : CiboriumSpec}.

Lemma built_bounds bb seal :
  buildable bb seal ->
  Forall (fun r => is_tombstone r = false -> is_Some (entry_bytes (built bb seal) r))
    (b_index (built bb seal)).
Proof.
  intros Hb. pose proof (built_data_length bb seal Hb). pose proof (built_placed bb seal Hb) as Hp.
  eapply Forall2_Forall_r; [exact Hp|]. apply Forall_true. intros e rec Hpl Ht.
  erewrite entry_bytes_placed; [|exact Hpl|unfold u64_lim; lia].
  destruct Hpl as (o & n & -> & _). unfold pending_value.
  change (is_tombstone (relocate e.1 o n)) with (is_tombstone e.1) in Ht. rewrite Ht. by eexists.
Qed.

(** What the builder builds verifies: the bundle read back from the built file
    passes structural verification with every check true and no warning about
    the entry count, provided a delta names its base. *)
Theorem build_verifies bb seal_fn seal :
  buildable bb seal -> seal_fn (b_manifest_bytes (built bb seal)) = Ok seal ->
  (m_bundle_type (bb_manifest bb) = Delta ->
   is_Some (co_base_manifest_digest (m_continuity (bb_manifest bb)))) ->
  exists file b, build bb seal_fn = Ok file /\ from_bytes file = Ok b /\
    verify_structure b = Ok (mkVerifyResult true true true true true true
      (negb (bool_decide (seal = []))) true
      (if negb (bool_decide (seal = [])) then [] else ["seal section is empty"%string])).
Proof.
  intros Hb Hs Hd. set (b := with_header (built bb seal) (compact_header (built bb seal))).
  eexists _, b. rewrite (build_Ok _ _ _ Hb Hs), to_bytes_compact by (by apply built_wf).
  split_and!; [done|by apply from_bytes_compact, built_wf|].
  apply verify_structure_Ok. exists (b_manifest (built bb seal)). split.
  - split; cbn [b with_header b_manifest b_manifest_bytes b_index b_data]; try done.
    + by apply from_to_cbor, built_manifest_wf.
    + by apply built_sorted.
    + by apply built_bounds.
  - assert ((len (b_index b) =? m_entry_count (b_manifest (built bb seal))) = true) as ->
      by (apply N.eqb_refl). done.
Qed.
End build_verifies.

(** ** Witnesses *)

Definition sample_built : Bundle := @built Toy.crates sample_builder [x30; x82].

Definition all_ok : VerifyResult := mkVerifyResult true true true true true true true true [].

Lemma sample_built_verifies : @verify_structure Toy.crates sample_built = Ok all_ok.
Proof. vm_compute. reflexivity. Qed.

Lemma verified_entries_served_witness :
  exists payload, lookup_preferred sample_built (replicate 32 x33) [9; 3] = Some payload /\
    payload = [x01; x02].
Proof.
  destruct (b_index sample_built !! 2%nat) as [rec|] eqn:E; [|by vm_compute in E].
  destruct (@verified_entries_served Toy.crates sample_built all_ok (replicate 32 x33) 3 [9; 3]
    [9] [0] rec) as (p & Hp & Hrec).
  - apply sample_built_verifies.
  - reflexivity.
  - constructor; [|constructor]. refine (bool_decide_unpack _ _). vm_compute. exact I.
  - by eapply list_elem_of_lookup_2.
  - vm_compute in E. injection E as <-. reflexivity.
  - vm_compute in E. injection E as <-. reflexivity.
  - exists p. split; [exact Hp|].
    assert (Some p = Some [x01; x02]) as [= ->]; [|done]. rewrite <- Hrec.
    vm_compute in E. injection E as <-. vm_compute. reflexivity.
Defined.

Lemma verified_contents_determined_witness :
  (b_index sample_built = b_index sample_built /\ b_data sample_built = b_data sample_built) \/
  exists x y, x <> y /\ @sha256 Toy.crates x = @sha256 Toy.crates y.
Proof.
  apply (@verified_contents_determined Toy.crates sample_built sample_built all_ok all_ok).
  - apply (@built_index_wf Toy.crates), sample_buildable.
  - apply (@built_index_wf Toy.crates), sample_buildable.
  - apply sample_built_verifies.
  - apply sample_built_verifies.
  - reflexivity.
Defined.

Lemma build_verifies_witness :
  exists file b, @build Toy.crates sample_builder toy_seal = Ok file /\
    @from_bytes Toy.crates file = Ok b /\ @verify_structure Toy.crates b = Ok all_ok.
Proof.
  apply (@build_verifies Toy.crates Toy.sha256_spec Toy.uuid_spec Toy.ciborium_spec
    sample_builder toy_seal [x30; x82] sample_buildable); [reflexivity|done].
Defined.
