(* ===== verification/Ops.v ===== *)
(** * Ops: diff and delta application (ahu/src/ops.rs)

    [diff] compares two bundles entry by entry; [apply_sealed] folds a chain
    of deltas into a base bundle and builds the result.  Main results: both
    are characterised by the finite maps the bundles stand for, and a
    materialised bundle has an epoch above and a validity window inside those
    of everything it retains. *)

From stdpp Require Import base tactics list gmap strings pretty.
From Stdlib Require Import NArith Lia.
From S2P Require Import Prelude Slices Crates AhuError Header Index Manifest Bundle Builder Verify.
Local Open Scope N_scope.

(** ** Diff *)

(** The vectors of [DiffResult] are collected from hash sets, in no particular
    order: they are sets here. *)
Record DiffResult : Type := mkDiffResult {
  df_a_entry_count : nat;
  df_b_entry_count : nat;
  df_a_epochs : list N;
  df_b_epochs : list N;
  df_added : gset EntryKey;
  df_removed : gset EntryKey;
  df_changed : gset EntryKey;
  df_unchanged : nat;
}.

Definition index_keys (b : Bundle) : gset EntryKey := list_to_set (record_key <$> b_index b).

Definition find_entry (b : Bundle) (k : EntryKey) : option bytes :=
  idx ← binary_search_with_discriminator (b_index b) k.1 k.2; entry_at b idx.

Definition diff (a b : Bundle) : DiffResult :=
  let a_keys := index_keys a in
  let b_keys := index_keys b in
  let common := a_keys ∩ b_keys in
  mkDiffResult (length (b_index a)) (length (b_index b))
    (cs_epoch <$> m_ca_scopes (b_manifest a)) (cs_epoch <$> m_ca_scopes (b_manifest b))
    (b_keys ∖ a_keys) (a_keys ∖ b_keys)
    (filter (fun k => find_entry a k <> find_entry b k) common)
    (size (filter (fun k => find_entry a k = find_entry b k) common)).

(** ** Apply *)

Record DeltaStat : Type := mkDeltaStat {
  ds_added : nat;
  ds_replaced : nat;
  ds_removed : nat;
  ds_chain_length_warning : bool;
}.

Record ApplyResult : Type := mkApplyResult {
  ar_bytes : bytes;
  ar_entry_count : nat;
  ar_final_epoch : N;
  ar_deltas : list DeltaStat;
}.

Definition MAX_CHAIN_LENGTH : N := 24.

(** A retained payload, its flags and the window of the bundle it comes from. *)
Abbreviation RetainedEntry := (bytes * N * Window)%type.
Abbreviation working_set := (gmap EntryKey RetainedEntry).

(** The first loop: the payloads of the base. *)
Definition retain_base (base : Bundle) : working_set :=
  fold_left (fun ws record =>
    match entry_bytes base record with
    | Some data =>
        <[record_key record := (data, ir_flags record, m_window (b_manifest base))]> ws
    | None => ws
    end) (b_index base) ∅.

(** The working set with the counters of the record loop. *)
Record progress : Type := mkProgress {
  pg_set : working_set;
  pg_added : nat;
  pg_replaced : nat;
  pg_removed : nat;
}.

Definition apply_record (delta : Bundle) (p : progress) (record : IndexRecord) : progress :=
  let key := record_key record in
  let ws := pg_set p in
  if flags_contains (ir_flags record) TOMBSTONE then
    match ws !! key with
    | Some _ => mkProgress (delete key ws) (pg_added p) (pg_replaced p) (S (pg_removed p))
    | None => mkProgress (delete key ws) (pg_added p) (pg_replaced p) (pg_removed p)
    end
  else
    match entry_bytes delta record with
    | Some data =>
        let ws' := <[key := (data, ir_flags record, m_window (b_manifest delta))]> ws in
        match ws !! key with
        | Some _ => mkProgress ws' (pg_added p) (S (pg_replaced p)) (pg_removed p)
        | None => mkProgress ws' (S (pg_added p)) (pg_replaced p) (pg_removed p)
        end
    | None => p
    end.

(** The scopes of a bundle as the comparison sees them. *)
Definition scope_set (b : Bundle) : gset (bytes * bytes * bytes) :=
  list_to_set ((fun s => (cs_hash_algorithm s, cs_issuer_name_hash s, cs_issuer_key_hash s)) <$>
    m_ca_scopes (b_manifest b)).

Definition max_epoch_of (b : Bundle) : N := foldr N.max 0 (cs_epoch <$> m_ca_scopes (b_manifest b)).

(** The locals of the delta loop. *)
Record chain_state : Type := mkChainState {
  ch_set : working_set;
  ch_prev_digest : bytes;
  ch_max_epoch : N;
  ch_stats : list DeltaStat;
}.

Definition delta_msg (i : nat) (what : string) : AhuError :=
  InvalidOperation ("delta " +:+ pretty (N.of_nat (S i)) +:+ what).

Section apply.
Context {CR : Crates}.

(** One turn of the delta loop. *)
Definition apply_delta (base : Bundle) (s : chain_state) (arg : nat * Bundle) :
    ahu_result chain_state :=
  let '(i, delta) := arg in
  let base_manifest_digest := manifest_digest (b_manifest_bytes base) in
  ensure (bool_decide (m_bundle_type (b_manifest delta) = Delta))
    (delta_msg i " is a full bundle, expected a delta") ;;
  verify_structure delta ;;
  ensure (bool_decide (co_base_manifest_digest (m_continuity (b_manifest delta)) =
                       Some base_manifest_digest))
    (delta_msg i " base_manifest_digest does not match base bundle") ;;
  ensure (bool_decide (m_producer_id (b_manifest delta) = m_producer_id (b_manifest base)) &&
          bool_decide (scope_set delta = scope_set base))
    (delta_msg i " producer/CA scopes do not match base") ;;
  match co_prev_manifest_digest (m_continuity (b_manifest delta)) with
  | Some prev_digest =>
      ensure (bool_decide (prev_digest = ch_prev_digest s))
        (delta_msg i (" prev_manifest_digest chain broken (expected " +:+
           hex_encode (ch_prev_digest s) +:+ ", got " +:+ hex_encode prev_digest +:+ ")"))
  | None => Ok tt
  end ;;
  let chain_length_warning :=
    MAX_CHAIN_LENGTH <? co_chain_length (m_continuity (b_manifest delta)) in
  let p := fold_left (apply_record delta) (b_index delta) (mkProgress (ch_set s) 0 0 0) in
  let max_epoch := fold_left (fun m scope => N.max m (cs_epoch scope))
                     (m_ca_scopes (b_manifest delta)) (ch_max_epoch s) in
  Ok (mkChainState (pg_set p) (manifest_digest (b_manifest_bytes delta)) max_epoch
        (ch_stats s ++ [mkDeltaStat (pg_added p) (pg_replaced p) (pg_removed p)
                          chain_length_warning])).

Definition with_epoch (e : N) (s : CaScope) : CaScope :=
  mkCaScope (cs_hash_algorithm s) (cs_issuer_name_hash s) (cs_issuer_key_hash s) e
    (cs_responder_id s) (cs_responder_chain s) (cs_signature_algorithm s) (cs_completeness s).

(** [BTreeMap] iteration: by ascending key. *)
Definition in_key_order (ws : working_set) : list (EntryKey * RetainedEntry) :=
  sort_by_key fst key_cmp (map_to_list ws).

Definition inconsistent (w : Window) : bool :=
  (w_next_update_min w <? w_this_update_min w) || (w_next_update_max w <? w_next_update_min w).

(** The window of the result: the intersection of the retained windows. *)
Definition merged_window (base_window : Window) (windows : list Window) : ahu_result Window :=
  match windows with
  | [] => Ok base_window
  | w :: ws =>
      ensure (negb (existsb inconsistent windows))
        (InvalidOperation "inconsistent source validity window") ;;
      let this_update_min := fold_left N.min (w_this_update_min <$> ws) (w_this_update_min w) in
      let produced_at := fold_left N.max (w_produced_at <$> ws) (w_produced_at w) in
      let expires := fold_left N.min (w_next_update_min <$> ws) (w_next_update_min w) in
      ensure (negb (expires <=? produced_at))
        (InvalidOperation "retained response validity windows do not overlap") ;;
      Ok (mkWindow produced_at this_update_min expires expires)
  end.

(** The manifest of the materialised bundle, before [build] completes it. *)
Definition materialized_manifest (base : Bundle) (prev_digest : bytes) (epoch : N)
    (window : Window) : Manifest :=
  let m := b_manifest base in
  mkManifest (m_format_version m) (m_bundle_id m) (m_producer_id m) (m_created_at m) Full
    (with_epoch epoch <$> m_ca_scopes m) window (m_integrity m) (m_entry_count m)
    (mkContinuity (Some prev_digest) None 0)
    (m_shard m) (m_compression m) (m_extensions m).

Definition add_retained (bb : BundleBuilder) (kv : EntryKey * RetainedEntry) : BundleBuilder :=
  add_entry_with_discriminator bb kv.1.1 kv.1.2 kv.2.1.1.

(** The checks and the delta loop. *)
Definition apply_chain (base : Bundle) (deltas : list Bundle) : ahu_result chain_state :=
  verify_structure base ;;
  ensure (bool_decide (m_bundle_type (b_manifest base) = Full))
    (InvalidOperation "base bundle must be a full bundle, not a delta") ;;
  fold_result (apply_delta base)
    (mkChainState (retain_base base) (manifest_digest (b_manifest_bytes base))
       (max_epoch_of base) [])
    (imap pair deltas).

(** [apply_sealed]. *)
Definition apply_sealed (base : Bundle) (deltas : list Bundle)
    (seal_fn : bytes -> ahu_result bytes) : ahu_result ApplyResult :=
  s ← apply_chain base deltas;
  final_epoch ← ok_or (checked_add (ch_max_epoch s) 1) (InvalidOperation "epoch exhausted");
  let retained := in_key_order (ch_set s) in
  window ← merged_window (m_window (b_manifest base)) ((fun kv => kv.2.2) <$> retained);
  let manifest := materialized_manifest base (ch_prev_digest s) final_epoch window in
  let builder := fold_left add_retained retained (new manifest) in
  bytes ← build builder seal_fn;
  Ok (mkApplyResult bytes (size (ch_set s)) final_epoch (ch_stats s)).

(** [apply]. *)
Definition apply (base : Bundle) (deltas : list Bundle) : ahu_result ApplyResult :=
  apply_sealed base deltas (fun _ => Ok []).
End apply.

(** ** Overlays *)

(** Entries of [d] replace or, where [None], remove those of [t]. *)
Definition overlay {V} (t : gmap EntryKey V) (d : gmap EntryKey (option V)) : gmap EntryKey V :=
  merge (fun x y => match y with Some y => y | None => x end) t d.

Lemma lookup_overlay {V} (t : gmap EntryKey V) d k :
  overlay t d !! k = match d !! k with Some y => y | None => t !! k end.
Proof. unfold overlay. rewrite lookup_merge. by destruct (t !! k), (d !! k) as [[]|]. Qed.

Lemma overlay_empty {V} (d : gmap EntryKey (option V)) : overlay ∅ d = omap id d.
Proof.
  apply map_eq. intros k. rewrite lookup_overlay, lookup_omap, lookup_empty.
  by destruct (d !! k) as [[]|].
Qed.

Lemma overlay_fmap {V W} (f : V -> W) (t : gmap EntryKey V) d :
  f <$> overlay t d = overlay (f <$> t) (fmap (M:=option) f <$> d).
Proof.
  apply map_eq. intros k. rewrite lookup_fmap, !lookup_overlay, !lookup_fmap.
  by destruct (d !! k) as [[]|], (t !! k).
Qed.

(** What a bundle contributes: each record with its payload, flags and window. *)
Definition tag (b : Bundle) (r : IndexRecord) : EntryKey * option RetainedEntry :=
  (record_key r, (fun data => (data, ir_flags r, m_window (b_manifest b))) <$> entry_bytes b r).
Definition tagged (b : Bundle) : gmap EntryKey (option RetainedEntry) :=
  list_to_map (tag b <$> b_index b).

(** The entries a chain of deltas leaves. *)
Definition materialized (base : Bundle) (deltas : list Bundle) : working_set :=
  foldl (fun t d => overlay t (tagged d)) (omap id (tagged base)) deltas.

Definition payload_of (e : RetainedEntry) : bytes := e.1.1.

(** In terms of payloads alone: the bundles' maps, overlaid. *)
Definition merged_entries (base : Bundle) (deltas : list Bundle) : gmap EntryKey bytes :=
  foldl (fun t d => overlay t (bundle_map d)) (omap id (bundle_map base)) deltas.

Lemma bundle_map_tagged b : bundle_map b = fmap (M:=option) payload_of <$> tagged b.
Proof.
  unfold bundle_map, tagged. rewrite <- list_to_map_fmap, <- list_fmap_compose. f_equal.
  apply list_fmap_ext. intros i r _. cbn. by destruct (entry_bytes b r).
Qed.

Lemma materialized_payloads base deltas :
  payload_of <$> materialized base deltas = merged_entries base deltas.
Proof.
  unfold materialized, merged_entries.
  assert (payload_of <$> omap id (tagged base) = omap id (bundle_map base)) as <-.
  { rewrite <- !overlay_empty, overlay_fmap, fmap_empty. by rewrite bundle_map_tagged. }
  generalize (omap id (tagged base)). induction deltas as [|d deltas IH]; intros t; cbn; [done|].
  rewrite IH, overlay_fmap. by rewrite bundle_map_tagged.
Qed.

(** ** The loops compute overlays *)

Lemma fst_tags b rs : (tag b <$> rs).*1 = record_key <$> rs.
Proof. by rewrite <- list_fmap_compose. Qed.

Lemma tags_fresh b r rs :
  record_key r ∉ record_key <$> rs ->
  (list_to_map (tag b <$> rs) : gmap EntryKey _) !! record_key r = None.
Proof. intros. apply not_elem_of_list_to_map_1. by rewrite fst_tags. Qed.

Lemma tags_cons b r rs :
  (list_to_map (tag b <$> r :: rs) : gmap EntryKey _) =
  <[record_key r := (tag b r).2]> (list_to_map (tag b <$> rs)).
Proof. done. Qed.

Lemma retain_base_overlay b rs ws :
  NoDup (record_key <$> rs) ->
  (forall k, k ∈ record_key <$> rs -> ws !! k = None) ->
  fold_left (fun ws record =>
    match entry_bytes b record with
    | Some data => <[record_key record := (data, ir_flags record, m_window (b_manifest b))]> ws
    | None => ws
    end) rs ws = overlay ws (list_to_map (tag b <$> rs)).
Proof.
  revert ws. induction rs as [|r rs IH]; intros ws Hnd Hfresh; cbn [fold_left].
  - apply map_eq. intros k. rewrite lookup_overlay. cbn. by rewrite lookup_empty.
  - rewrite fmap_cons in Hnd. apply NoDup_cons in Hnd as [Hr Hnd]. rewrite IH.
    + apply map_eq. intros k. rewrite !lookup_overlay, tags_cons.
      destruct (decide (k = record_key r)) as [->|Hne].
      * rewrite lookup_insert_eq, tags_fresh by done. unfold tag. cbn [snd].
        destruct (entry_bytes b r) as [data|]; [by rewrite lookup_insert_eq|].
        apply Hfresh. rewrite fmap_cons. left.
      * rewrite lookup_insert_ne by done. destruct (list_to_map _ !! k); [done|].
        destruct (entry_bytes b r); [by rewrite lookup_insert_ne|done].
    + done.
    + intros k Hk. assert (ws !! k = None) as Hn by (apply Hfresh; rewrite fmap_cons; by right).
      destruct (entry_bytes b r); [|done]. rewrite lookup_insert_ne; [done|]. by intros <-.
Qed.

Lemma retain_base_tagged b :
  NoDup (record_key <$> b_index b) -> retain_base b = omap id (tagged b).
Proof.
  intros Hnd. unfold retain_base. rewrite retain_base_overlay by done. apply overlay_empty.
Qed.

Lemma apply_record_set delta p r :
  (is_tombstone r = false -> is_Some (entry_bytes delta r)) ->
  pg_set (apply_record delta p r) =
  match (tag delta r).2 with
  | Some e => <[record_key r := e]> (pg_set p)
  | None => delete (record_key r) (pg_set p)
  end.
Proof.
  intros Hb. unfold apply_record, tag. fold (is_tombstone r). cbn [snd].
  assert (is_tombstone r = true -> entry_bytes delta r = None) as Ht
    by (unfold entry_bytes; by intros ->).
  destruct (is_tombstone r).
  - rewrite (Ht eq_refl). by destruct (pg_set p !! record_key r).
  - destruct (Hb eq_refl) as [data ->]. by destruct (pg_set p !! record_key r).
Qed.

Lemma apply_records_overlay delta rs p :
  NoDup (record_key <$> rs) ->
  Forall (fun r => is_tombstone r = false -> is_Some (entry_bytes delta r)) rs ->
  pg_set (fold_left (apply_record delta) rs p) =
  overlay (pg_set p) (list_to_map (tag delta <$> rs)).
Proof.
  revert p. induction rs as [|r rs IH]; intros p Hnd Hb; cbn [fold_left].
  - apply map_eq. intros k. rewrite lookup_overlay. cbn. by rewrite lookup_empty.
  - rewrite fmap_cons in Hnd. apply NoDup_cons in Hnd as [Hr Hnd].
    apply Forall_cons in Hb as [Hbr Hb]. rewrite IH, apply_record_set by done.
    apply map_eq. intros k. rewrite !lookup_overlay, tags_cons.
    destruct (decide (k = record_key r)) as [->|Hne].
    + rewrite lookup_insert_eq, tags_fresh by done.
      destruct (tag delta r).2; by rewrite ?lookup_insert_eq, ?lookup_delete_eq.
    + rewrite lookup_insert_ne by done. destruct (list_to_map _ !! k); [done|].
      destruct (tag delta r).2; by rewrite ?lookup_insert_ne, ?lookup_delete_ne.
Qed.

(** ** The delta chain *)

(** What the loop requires of a delta whose predecessor has digest [prev]. *)
Record admissible {CR : Crates} (base : Bundle) (prev : bytes) (delta : Bundle) : Prop := {
  ad_type : m_bundle_type (b_manifest delta) = Delta;
  ad_verified : exists r, verify_structure delta = Ok r;
  ad_base : co_base_manifest_digest (m_continuity (b_manifest delta)) =
    Some (manifest_digest (b_manifest_bytes base));
  ad_producer : m_producer_id (b_manifest delta) = m_producer_id (b_manifest base);
  ad_scopes : scope_set delta = scope_set base;
  ad_prev : forall p, co_prev_manifest_digest (m_continuity (b_manifest delta)) = Some p -> p = prev;
}.

Fixpoint chained {CR : Crates} (base : Bundle) (prev : bytes) (deltas : list Bundle) : Prop :=
  match deltas with
  | [] => True
  | d :: deltas =>
      admissible base prev d /\ chained base (manifest_digest (b_manifest_bytes d)) deltas
  end.

Lemma fold_max_ge l a : fold_left N.max l a = N.max a (foldr N.max 0 l).
Proof. revert a. induction l as [|x l IH]; intros a; cbn; [lia|]. rewrite IH. lia. Qed.

Lemma foldr_max_ge (l : list N) x : x ∈ l -> x <= foldr N.max 0 l.
Proof. induction 1; cbn; lia. Qed.

Lemma fold_min_spec l a :
  fold_left N.min l a <= a /\ Forall (fun x => fold_left N.min l a <= x) l /\
  fold_left N.min l a ∈ a :: l.
Proof.
  revert a. induction l as [|x l IH]; intros a; cbn; [split_and!; [done|done|left]|].
  destruct (IH (N.min a x)) as (H1 & H2 & H3). split_and!; [lia|constructor; [lia|done]|].
  apply elem_of_cons in H3 as [H3|H3]; [|set_solver].
  rewrite H3. destruct (N.min_spec a x) as [[_ ->]|[_ ->]]; set_solver.
Qed.

Lemma fold_max_spec l a :
  a <= fold_left N.max l a /\ Forall (fun x => x <= fold_left N.max l a) l /\
  fold_left N.max l a ∈ a :: l.
Proof.
  revert a. induction l as [|x l IH]; intros a; cbn; [split_and!; [done|done|left]|].
  destruct (IH (N.max a x)) as (H1 & H2 & H3). split_and!; [lia|constructor; [lia|done]|].
  apply elem_of_cons in H3 as [H3|H3]; [|set_solver].
  rewrite H3. destruct (N.max_spec a x) as [[_ ->]|[_ ->]]; set_solver.
Qed.

Section chain.
Context {CR : Crates}.

(** The state after an admissible delta. *)
Definition chain_step (s : chain_state) (delta : Bundle) : chain_state :=
  let p := fold_left (apply_record delta) (b_index delta) (mkProgress (ch_set s) 0 0 0) in
  mkChainState (overlay (ch_set s) (tagged delta)) (manifest_digest (b_manifest_bytes delta))
    (N.max (ch_max_epoch s) (max_epoch_of delta))
    (ch_stats s ++ [mkDeltaStat (pg_added p) (pg_replaced p) (pg_removed p)
       (MAX_CHAIN_LENGTH <? co_chain_length (m_continuity (b_manifest delta)))]).

Lemma verified_index b r :
  verify_structure b = Ok r ->
  NoDup (record_key <$> b_index b) /\
  Forall (fun r => is_tombstone r = false -> is_Some (entry_bytes b r)) (b_index b).
Proof.
  intros (m & [] & _)%verify_structure_Ok. split; [by apply (ascending_NoDup key_cmp)|done].
Qed.

Lemma fold_epochs (scopes : list CaScope) e :
  fold_left (fun m scope => N.max m (cs_epoch scope)) scopes e =
  N.max e (foldr N.max 0 (cs_epoch <$> scopes)).
Proof. revert e. induction scopes as [|s l IH]; intros e; cbn; [lia|]. rewrite IH. lia. Qed.

Lemma apply_delta_Ok base s arg s' :
  apply_delta base s arg = Ok s' <->
  admissible base (ch_prev_digest s) arg.2 /\ s' = chain_step s arg.2.
Proof.
  destruct arg as [i d]. cbn [snd]. unfold apply_delta. split.
  - intros H. inv_ok. repeat match goal with
    | E : _ && _ = true |- _ => apply andb_true_iff in E as [? ?]
    | E : bool_decide _ = true |- _ => apply bool_decide_eq_true in E
    end.
    rename select (verify_structure d = _) into Hv. destruct (verified_index _ _ Hv) as [Hnd Hb].
    split.
    + split; eauto. intros p Hp. rewrite Hp in *. inv_ok. by eapply bool_decide_eq_true_1.
    + unfold chain_step. f_equal; [|apply fold_epochs].
      by rewrite apply_records_overlay.
  - intros [[Ht [r Hv] Hb Hp Hs Hprev] ->]. destruct (verified_index _ _ Hv) as [Hnd Hbd].
    rewrite (bool_decide_eq_true_2 _ Ht). cbn [ensure mbind result_bind]. rewrite Hv.
    cbn [mbind result_bind]. rewrite (bool_decide_eq_true_2 _ Hb). cbn [ensure mbind result_bind].
    rewrite (bool_decide_eq_true_2 _ Hp), (bool_decide_eq_true_2 _ Hs).
    cbn [andb ensure mbind result_bind].
    destruct (co_prev_manifest_digest _) as [p|];
      [rewrite (bool_decide_eq_true_2 _ (Hprev p eq_refl))|]; cbn [ensure mbind result_bind].
    all: f_equal; unfold chain_step; f_equal; [by rewrite apply_records_overlay|apply fold_epochs].
Qed.

Lemma fold_chain_Ok base s args s' :
  fold_result (apply_delta base) s args = Ok s' <->
  chained base (ch_prev_digest s) args.*2 /\ s' = foldl chain_step s args.*2.
Proof.
  revert s. induction args as [|arg args IH]; intros s; cbn [fold_result fmap list_fmap chained foldl].
  - split; [by intros [= ->]|by intros [_ ->]].
  - rewrite bind_Ok. split.
    + intros (s1 & [Ha ->]%apply_delta_Ok & [Hc ->]%IH). done.
    + intros [[Ha Hc] ->]. eexists. split; [by apply apply_delta_Ok|]. by apply IH.
Qed.

Definition chain_start (base : Bundle) : chain_state :=
  mkChainState (omap id (tagged base)) (manifest_digest (b_manifest_bytes base))
    (max_epoch_of base) [].

Lemma snd_imap_pair {A} (l : list A) : (imap pair l).*2 = l.
Proof. rewrite fmap_imap. rewrite <- (list_fmap_id l) at 2. by apply imap_const. Qed.

Lemma apply_chain_Ok base deltas s :
  apply_chain base deltas = Ok s <->
  (exists r, verify_structure base = Ok r) /\ m_bundle_type (b_manifest base) = Full /\
  chained base (manifest_digest (b_manifest_bytes base)) deltas /\
  s = foldl chain_step (chain_start base) deltas.
Proof.
  unfold apply_chain. split.
  - intros H. inv_ok.
    repeat match goal with E : bool_decide _ = true |- _ => apply bool_decide_eq_true in E end.
    rename select (verify_structure base = _) into Hv.
    rename select (fold_result _ _ _ = _) into Hf. apply fold_chain_Ok in Hf.
    rewrite snd_imap_pair, retain_base_tagged in Hf by (by eapply verified_index).
    destruct Hf as [Hc ->]. split_and!; eauto.
  - intros ((r & Hv) & Ht & Hc & ->). rewrite Hv, (bool_decide_eq_true_2 _ Ht).
    cbn [ensure mbind result_bind]. apply fold_chain_Ok. rewrite snd_imap_pair.
    rewrite retain_base_tagged by (by eapply verified_index). done.
Qed.

Lemma chain_set deltas s :
  ch_set (foldl chain_step s deltas) = foldl (fun t d => overlay t (tagged d)) (ch_set s) deltas.
Proof. revert s. induction deltas as [|d deltas IH]; intros s; cbn [foldl]; [done|]. by rewrite IH. Qed.

Lemma chain_epoch deltas s :
  ch_max_epoch (foldl chain_step s deltas) =
  N.max (ch_max_epoch s) (foldr N.max 0 (max_epoch_of <$> deltas)).
Proof.
  revert s. induction deltas as [|d deltas IH]; intros s; cbn [foldl]; [cbn; lia|].
  rewrite IH. cbn. lia.
Qed.

Lemma chain_prev deltas s :
  length (ch_prev_digest s) = 32%nat -> Sha256Spec ->
  length (ch_prev_digest (foldl chain_step s deltas)) = 32%nat.
Proof.
  intros Hs SH. revert s Hs. induction deltas as [|d deltas IH]; intros s Hs; cbn [foldl]; [done|].
  apply IH. apply sha256_length.
Qed.
End chain.

(** ** The materialised bundle *)

Definition total_records (base : Bundle) (deltas : list Bundle) : nat :=
  length (flat_map b_index (base :: deltas)).

(** [e] is a payload of record [r] of bundle [b]. *)
Definition source_of (b : Bundle) (r : IndexRecord) (k : EntryKey) (e : RetainedEntry) : Prop :=
  r ∈ b_index b /\ record_key r = k /\ entry_bytes b r = Some (payload_of e) /\
  e.2 = m_window (b_manifest b).

Lemma tagged_source b k e : tagged b !! k = Some (Some e) -> exists r, source_of b r k e.
Proof.
  unfold tagged. intros Hk%elem_of_list_to_map_2. apply list_elem_of_fmap in Hk as (r & Heq & Hr).
  unfold tag in Heq. injection Heq as -> He. exists r. unfold source_of.
  destruct (entry_bytes b r) as [data|]; [|done]. injection He as ->. done.
Qed.

(** Every retained entry is a record of the base or of a delta. *)
Lemma materialized_source base deltas k e :
  materialized base deltas !! k = Some e ->
  exists b r, b ∈ base :: deltas /\ source_of b r k e.
Proof.
  unfold materialized. induction deltas as [|d deltas IH] using rev_ind.
  - cbn. rewrite lookup_omap. destruct (tagged base !! k) as [[e'|]|] eqn:E; [|done..].
    cbn. intros [= ->]. apply tagged_source in E as [r Hr]. exists base, r. split; [left|done].
  - rewrite foldl_app. cbn [foldl]. rewrite lookup_overlay.
    destruct (tagged d !! k) as [[e'|]|] eqn:E; [|done|].
    + intros [= ->]. apply tagged_source in E as [r Hr]. exists d, r. split; [set_solver|done].
    + intros (b & r & Hb & Hs)%IH. exists b, r. split; [set_solver|done].
Qed.

Lemma elem_of_flat_map_index r b (bs : list Bundle) :
  b ∈ bs -> r ∈ b_index b -> r ∈ flat_map b_index bs.
Proof. rewrite !list_elem_of_In, in_flat_map. eauto. Qed.

Lemma size_materialized base deltas :
  (size (materialized base deltas) <= total_records base deltas)%nat.
Proof.
  unfold total_records. rewrite <- (length_fmap record_key (flat_map _ _)).
  assert (size (materialized base deltas) = length (map_to_list (materialized base deltas)).*1) as ->
    by (by rewrite length_fmap, length_map_to_list).
  apply submseteq_length, NoDup_submseteq; [apply NoDup_fst_map_to_list|].
  intros k ([k' e] & -> & (b & r & Hb & Hr & <- & _)%elem_of_map_to_list%materialized_source)%list_elem_of_fmap.
  cbn [fst]. apply (list_elem_of_fmap_2 record_key). by apply (elem_of_flat_map_index r b).
Qed.

(** The builder's entries are the working set, in key order. *)
Definition retained_pending (kv : EntryKey * RetainedEntry) : pending :=
  (mkIndexRecord kv.1.1 0 (as_u32 (len (payload_of kv.2))) flags_empty kv.1.2, payload_of kv.2).

Lemma add_retained_fold l bb :
  fold_left add_retained l bb =
  mkBundleBuilder (bb_manifest bb) (bb_entries bb ++ (retained_pending <$> l)).
Proof.
  revert bb. induction l as [|kv l IH]; intros [m es]; cbn [fold_left fmap list_fmap].
  - by rewrite app_nil_r.
  - rewrite IH. cbn. by rewrite <- app_assoc.
Qed.

Lemma in_key_order_perm ws : in_key_order ws ≡ₚ map_to_list ws.
Proof. apply sort_by_key_perm. Qed.

Lemma elem_of_in_key_order ws k e : (k, e) ∈ in_key_order ws <-> ws !! k = Some e.
Proof. by rewrite in_key_order_perm, elem_of_map_to_list. Qed.

Lemma retained_keys ws : (fun e => record_key e.1) <$> (retained_pending <$> in_key_order ws) =
  (in_key_order ws).*1.
Proof. rewrite <- list_fmap_compose. apply list_fmap_ext. by intros i [[] e]. Qed.

Lemma retained_NoDup ws : NoDup (in_key_order ws).*1.
Proof. rewrite in_key_order_perm. apply NoDup_fst_map_to_list. Qed.

Lemma retained_entry_map ws :
  entry_map (retained_pending <$> in_key_order ws) = (fun e => Some (payload_of e)) <$> ws.
Proof.
  unfold entry_map. rewrite <- list_fmap_compose.
  assert (((fun e => (record_key e.1, pending_value e)) ∘ retained_pending) <$> in_key_order ws =
    prod_map id (fun e => Some (payload_of e)) <$> in_key_order ws) as ->.
  { apply list_fmap_ext. by intros i [[] e]. }
  rewrite list_to_map_fmap. f_equal.
  rewrite <- (list_to_map_to_list ws) at 2. apply list_to_map_proper; [apply retained_NoDup|].
  apply in_key_order_perm.
Qed.

Lemma retained_total (l : list (EntryKey * RetainedEntry)) :
  Forall (fun kv => len (payload_of kv.2) < u32_lim) l ->
  payload_total (retained_pending <$> l) <= len l * u32_lim.
Proof.
  unfold payload_total. induction 1 as [|kv l Hkv Hl IH]; [done|].
  cbn [fmap list_fmap foldr retained_pending snd]. rewrite len_cons. fold (list_fmap _ _ retained_pending l).
  change (list_fmap _ _ retained_pending l) with (retained_pending <$> l). lia.
Qed.

(** ** The merged window *)

Lemma merged_window_Ok bw ws w :
  merged_window bw ws = Ok w -> ws <> [] ->
  w_produced_at w < w_next_update_min w /\ w_next_update_max w = w_next_update_min w /\
  Forall (fun x => w_this_update_min w <= w_this_update_min x /\
    w_produced_at x <= w_produced_at w /\ w_next_update_max w <= w_next_update_min x /\
    inconsistent x = false) ws /\
  (exists x y z, x ∈ ws /\ y ∈ ws /\ z ∈ ws /\ w_this_update_min w = w_this_update_min x /\
    w_produced_at w = w_produced_at y /\ w_next_update_min w = w_next_update_min z).
Proof.
  destruct ws as [|x ws]; [done|]. unfold merged_window. intros H _. inv_ok.
  rename select (negb (existsb _ _) = true) into Hc. rename select (negb (_ <=? _) = true) into Ho.
  apply negb_true_iff, N.leb_gt in Ho. apply negb_true_iff in Hc.
  assert (Forall (fun x => inconsistent x = false) (x :: ws)) as Hinc.
  { apply Forall_forall. intros y Hy. apply not_true_iff_false. intros Ht.
    apply not_true_iff_false in Hc. apply Hc, existsb_exists. exists y.
    by rewrite <- list_elem_of_In. }
  destruct (fold_min_spec (w_this_update_min <$> ws) (w_this_update_min x)) as (A1 & A2 & A3).
  destruct (fold_max_spec (w_produced_at <$> ws) (w_produced_at x)) as (B1 & B2 & B3).
  destruct (fold_min_spec (w_next_update_min <$> ws) (w_next_update_min x)) as (C1 & C2 & C3).
  cbn [w_this_update_min w_produced_at w_next_update_min w_next_update_max].
  split_and!; [done|done| |].
  - rewrite Forall_forall in A2. rewrite Forall_forall in B2. rewrite Forall_forall in C2.
    rewrite Forall_forall in Hinc. apply Forall_forall. intros y Hy. split_and!; [..|by apply Hinc].
    all: apply elem_of_cons in Hy as [->|Hy]; [done|].
    + by apply A2, list_elem_of_fmap_2.
    + by apply B2, list_elem_of_fmap_2.
    + by apply C2, list_elem_of_fmap_2.
  - rewrite <- fmap_cons in A3, B3, C3.
    apply list_elem_of_fmap in A3 as (a & -> & Ha), B3 as (b & -> & Hb), C3 as (c & -> & Hc').
    by exists a, b, c.
Qed.

Lemma merged_window_wf bw ws w :
  Window_wf bw -> Forall Window_wf ws -> merged_window bw ws = Ok w -> Window_wf w.
Proof.
  intros Hbw Hws H. destruct ws as [|x ws]; [cbn in H; by simplify_eq|].
  destruct (merged_window_Ok _ _ _ H ltac:(done)) as (_ & Hm & _ & (a & b & c & Ha & Hb & Hc & E1 & E2 & E3)).
  rewrite Forall_forall in Hws. apply Hws in Ha, Hb, Hc. destruct Ha, Hb, Hc.
  split; rewrite ?Hm, ?E1, ?E2, ?E3; done.
Qed.

(** ** Results *)

(** A bundle that was read from a file. *)
Definition loaded {CR : Crates} (b : Bundle) : Prop := exists file, from_bytes file = Ok b.

Section apply_props.
Context {CR : Crates} {SH : Sha256Spec} {UU : UuidSpec} {CB : CiboriumSpec}.

Lemma loaded_record b r : loaded b -> r ∈ b_index b -> IndexRecord_wf r.
Proof.
  intros (file & [_ _ _ _ _ _ (ib & Hi & _) _]%from_bytes_Ok) Hr.
  apply index_encodes_wf in Hi. rewrite Forall_forall in Hi. by apply Hi.
Qed.

Lemma loaded_typed b : loaded b -> Manifest_typed (b_manifest b).
Proof. intros (file & []%from_bytes_Ok). by eapply from_cbor_Ok_typed. Qed.

Lemma entry_bytes_length b r p : entry_bytes b r = Some p -> len p = ir_data_length r.
Proof.
  unfold entry_bytes. destruct (is_tombstone r); [done|].
  intros (o & [<- _]%try_usize_Some & H)%bind_Some.
  apply bind_Some in H as (n & [<- _]%try_usize_Some & H).
  apply bind_Some in H as (stop & [-> _]%checked_add_Some & H).
  apply slice_get_len in H. lia.
Qed.

(** The facts about retained entries that make the result buildable. *)
Lemma materialized_typed base deltas k e :
  loaded base -> Forall loaded deltas -> materialized base deltas !! k = Some e ->
  length k.1 = 32%nat /\ k.2 < u16_lim /\ len (payload_of e) < u32_lim /\ Window_wf e.2.
Proof.
  intros Hb Hd (b & r & Hin & Hr & <- & Hp & Hw)%materialized_source.
  assert (loaded b) as Hl.
  { apply elem_of_cons in Hin as [->|Hin]; [done|]. rewrite Forall_forall in Hd. by apply Hd. }
  pose proof (loaded_record _ _ Hl Hr) as []. apply entry_bytes_length in Hp.
  rewrite Hw, Hp. split_and!; [done..|]. by destruct (loaded_typed _ Hl).
Qed.

Definition apply_builder (base : Bundle) (s : chain_state) (epoch : N) (w : Window) :
    BundleBuilder :=
  mkBundleBuilder (materialized_manifest base (ch_prev_digest s) epoch w)
    (retained_pending <$> in_key_order (ch_set s)).

Lemma apply_sealed_Ok base deltas seal_fn r :
  apply_sealed base deltas seal_fn = Ok r ->
  exists s w, apply_chain base deltas = Ok s /\ ch_max_epoch s + 1 < u64_lim /\
    merged_window (m_window (b_manifest base)) ((fun kv => kv.2.2) <$> in_key_order (ch_set s)) = Ok w /\
    build (apply_builder base s (ch_max_epoch s + 1) w) seal_fn = Ok (ar_bytes r) /\
    ar_entry_count r = size (ch_set s) /\ ar_final_epoch r = ch_max_epoch s + 1 /\
    ar_deltas r = ch_stats s.
Proof.
  unfold apply_sealed. intros H. inv_ok.
  rename select (checked_add _ _ = _) into Hc. apply checked_add_Some in Hc as [-> Hc].
  rename select (build _ _ = _) into Hb. rewrite add_retained_fold in Hb. cbn in Hb.
  eexists _, _. split_and!; done.
Qed.

Lemma apply_chain_facts base deltas s :
  apply_chain base deltas = Ok s ->
  ch_set s = materialized base deltas /\ length (ch_prev_digest s) = 32%nat /\
  ch_prev_digest s = manifest_digest (b_manifest_bytes (List.last deltas base)) /\
  ch_max_epoch s = N.max (max_epoch_of base) (foldr N.max 0 (max_epoch_of <$> deltas)).
Proof.
  intros (_ & _ & _ & ->)%apply_chain_Ok. rewrite chain_set, chain_epoch. split_and!; try done.
  - by apply chain_prev; [apply sha256_length|].
  - destruct deltas as [|d deltas] using rev_ind; [done|]. by rewrite foldl_app, last_last.
Qed.

Lemma apply_buildable base deltas s epoch w seal :
  loaded base -> Forall loaded deltas -> Manifest_wf (b_manifest base) ->
  N.of_nat (total_records base deltas) < 2 ^ 29 ->
  apply_chain base deltas = Ok s -> epoch < u64_lim ->
  merged_window (m_window (b_manifest base)) ((fun kv => kv.2.2) <$> in_key_order (ch_set s)) = Ok w ->
  len (b_manifest_bytes (built (apply_builder base s epoch w) seal)) < u32_lim ->
  len seal < u32_lim ->
  ch_set s = materialized base deltas /\ buildable (apply_builder base s epoch w) seal.
Proof.
  intros Hb Hds Hm Htot Hch He Hw Hml Hsl.
  destruct (apply_chain_facts _ _ _ Hch) as (Hset & Hprev & _). split; [done|].
  rewrite Hset in Hw.
  assert (forall kv, kv ∈ in_key_order (materialized base deltas) ->
    length kv.1.1 = 32%nat /\ kv.1.2 < u16_lim /\ len (payload_of kv.2) < u32_lim /\
    Window_wf kv.2.2) as Hty.
  { intros [k e] Hk%elem_of_in_key_order. by eapply materialized_typed. }
  assert (len (in_key_order (materialized base deltas)) < 2 ^ 29) as Hlen.
  { unfold len. rewrite in_key_order_perm, length_map_to_list.
    pose proof (size_materialized base deltas). lia. }
  split; cbn [apply_builder bb_entries bb_manifest]; rewrite ?Hset; try done.
  - destruct Hm as [[] ? ?]. split; [split|..]; cbn [materialized_manifest m_ca_scopes m_window
      m_continuity m_shard m_compression m_extensions m_producer_id m_entry_count m_integrity
      m_format_version m_bundle_id m_created_at]; try done.
    + apply Forall_fmap. by apply Forall_true.
    + eapply merged_window_wf; [by destruct (loaded_typed _ Hb)| |exact Hw].
      apply Forall_fmap, Forall_forall. intros kv Hkv. by apply Hty.
  - unfold builder_wf. cbn [apply_builder bb_entries]. rewrite Hset.
    apply Forall_fmap, Forall_forall. intros kv Hkv. by destruct (Hty kv Hkv) as (? & ? & ? & _).
  - rewrite retained_keys. apply retained_NoDup.
  - intros e1 e2 (kv & -> & _)%list_elem_of_fmap. done.
  - unfold len in *. rewrite length_fmap. lia.
  - eapply N.le_lt_trans; [apply retained_total|].
    + apply Forall_forall. intros kv Hkv. by apply Hty.
    + unfold u32_lim. lia.
Qed.

Lemma build_seal bb seal_fn file :
  build bb seal_fn = Ok file ->
  exists seal, seal_fn (b_manifest_bytes (built bb seal)) = Ok seal.
Proof. unfold build. intros H. inv_ok. rename select (seal_fn _ = _) into Hs. by eexists. Qed.

(** Reading the materialised file back. *)
Lemma apply_sealed_read base deltas seal_fn r :
  loaded base -> Forall loaded deltas -> Manifest_wf (b_manifest base) ->
  N.of_nat (total_records base deltas) < 2 ^ 29 ->
  apply_sealed base deltas seal_fn = Ok r ->
  exists s w seal, apply_chain base deltas = Ok s /\ ch_set s = materialized base deltas /\
    merged_window (m_window (b_manifest base))
      ((fun kv => kv.2.2) <$> in_key_order (ch_set s)) = Ok w /\
    ar_final_epoch r = ch_max_epoch s + 1 /\ ar_entry_count r = size (ch_set s) /\
    let b := built (apply_builder base s (ch_max_epoch s + 1) w) seal in
    seal_fn (b_manifest_bytes b) = Ok seal /\
    (len (b_manifest_bytes b) < u32_lim -> len seal < u32_lim ->
     buildable (apply_builder base s (ch_max_epoch s + 1) w) seal /\
     from_bytes (ar_bytes r) = Ok (with_header b (compact_header b))).
Proof.
  intros Hb Hds Hm Htot (s & w & Hch & He & Hw & Hbuild & Hcount & Hep & _)%apply_sealed_Ok.
  destruct (build_seal _ _ _ Hbuild) as (seal & Hs).
  exists s, w, seal. destruct (apply_chain_facts _ _ _ Hch) as (Hset & _ & _).
  cbv zeta. do 5 (split; [assumption|]). split; [exact Hs|]. intros Hml Hsl.
  destruct (apply_buildable base deltas s _ w seal Hb Hds Hm Htot Hch He Hw Hml Hsl) as [_ Hbu].
  split; [exact Hbu|]. exact (build_read _ _ _ _ Hbu Hs Hbuild).
Qed.

(** The delta chain is accepted exactly when the base verifies and is a full
    bundle and every delta verifies, is a delta on this base by digest, has the
    producer and the CA scopes of the base and, if it names a predecessor, names
    the bundle before it. *)
Theorem apply_chain_iff base deltas :
  (exists s, apply_chain base deltas = Ok s) <->
  (exists r, verify_structure base = Ok r) /\ m_bundle_type (b_manifest base) = Full /\
  chained base (manifest_digest (b_manifest_bytes base)) deltas.
Proof.
  split.
  - intros (s & (H1 & H2 & H3 & _)%apply_chain_Ok). done.
  - intros (H1 & H2 & H3). eexists. by apply apply_chain_Ok.
Qed.

(** C29: materialising a chain computes the overlay of the bundles: the file
    produced parses, and it stores exactly the payload of the last bundle of the
    chain that has a record for the key, except where that record is a tombstone;
    the reported entry count is their number. *)
Theorem apply_sealed_contents base deltas seal_fn r :
  loaded base -> Forall loaded deltas -> Manifest_wf (b_manifest base) ->
  N.of_nat (total_records base deltas) < 2 ^ 29 ->
  apply_sealed base deltas seal_fn = Ok r ->
  ar_entry_count r = size (merged_entries base deltas) /\
  exists manifest_bytes seal, seal_fn manifest_bytes = Ok seal /\
    (len manifest_bytes < u32_lim -> len seal < u32_lim ->
     exists b, from_bytes (ar_bytes r) = Ok b /\ b_manifest_bytes b = manifest_bytes /\
       b_seal_bytes b = seal /\ bundle_map b = Some <$> merged_entries base deltas).
Proof.
  intros Hb Hds Hm Htot Hr.
  destruct (apply_sealed_read _ _ _ _ Hb Hds Hm Htot Hr)
    as (s & w & seal & Hch & Hset & Hw & _ & Hcount & Hs & Hread).
  split; [by rewrite <- materialized_payloads, map_size_fmap, Hcount, Hset|].
  eexists _, seal. split; [exact Hs|]. intros Hml Hsl. destruct (Hread Hml Hsl) as [Hbu Hfile].
  eexists. split; [exact Hfile|]. split_and!; [done..|].
  etrans; [exact (built_map _ _ Hbu)|]. cbn [apply_builder bb_entries].
  by rewrite retained_entry_map, Hset, <- materialized_payloads, <- map_fmap_compose.
Qed.

(** A materialised bundle is newer than and valid only inside everything it
    was made from: its epoch, set on all scopes, exceeds every epoch of the base
    and of the deltas, its continuity names the last bundle of the chain, and
    when entries are retained its window starts after the latest production and
    ends before the earliest expiry of the bundles the entries come from. *)
Theorem apply_sealed_envelope base deltas seal_fn r :
  loaded base -> Forall loaded deltas -> Manifest_wf (b_manifest base) ->
  N.of_nat (total_records base deltas) < 2 ^ 29 ->
  apply_sealed base deltas seal_fn = Ok r ->
  exists manifest_bytes seal, seal_fn manifest_bytes = Ok seal /\
    (len manifest_bytes < u32_lim -> len seal < u32_lim ->
     exists b, from_bytes (ar_bytes r) = Ok b /\
       let m := b_manifest b in
       m_bundle_type m = Full /\
       m_continuity m =
         mkContinuity (Some (manifest_digest (b_manifest_bytes (List.last deltas base)))) None 0 /\
       Forall (fun sc => cs_epoch sc = ar_final_epoch r) (m_ca_scopes m) /\
       (forall x sc, x ∈ base :: deltas -> sc ∈ m_ca_scopes (b_manifest x) ->
          cs_epoch sc < ar_final_epoch r) /\
       (forall k e, materialized base deltas !! k = Some e ->
          w_produced_at e.2 <= w_produced_at (m_window m) /\
          w_this_update_min (m_window m) <= w_this_update_min e.2 /\
          w_next_update_max (m_window m) <= w_next_update_min e.2 /\
          w_produced_at (m_window m) < w_next_update_min (m_window m))).
Proof.
  intros Hb Hds Hm Htot Hr.
  destruct (apply_sealed_read _ _ _ _ Hb Hds Hm Htot Hr)
    as (s & w & seal & Hch & Hset & Hw & Hep & _ & Hs & Hread).
  destruct (apply_chain_facts _ _ _ Hch) as (_ & _ & Hprev & Hmax).
  eexists _, seal. split; [exact Hs|]. intros Hml Hsl. destruct (Hread Hml Hsl) as [_ Hfile].
  eexists. split; [exact Hfile|]. cbv zeta.
  cbn [with_header built b_manifest apply_builder bb_manifest complete_manifest materialized_manifest
    m_bundle_type m_continuity m_ca_scopes m_window].
  split_and!; [done|by rewrite Hprev| | |].
  - apply Forall_fmap, Forall_true. intros sc. by rewrite Hep.
  - intros x sc Hx Hsc. rewrite Hep, Hmax.
    assert (cs_epoch sc <= max_epoch_of x) as Hle by (by apply foldr_max_ge, list_elem_of_fmap_2).
    apply elem_of_cons in Hx as [->|Hx]; [lia|].
    pose proof (foldr_max_ge (max_epoch_of <$> deltas) (max_epoch_of x)
      (list_elem_of_fmap_2 _ _ _ Hx)). lia.
  - rewrite Hset in Hw. intros k e Hk%elem_of_in_key_order.
    assert (e.2 ∈ (fun kv : EntryKey * RetainedEntry => kv.2.2) <$>
      in_key_order (materialized base deltas)) as Hin
      by (exact (list_elem_of_fmap_2 (fun kv : EntryKey * RetainedEntry => kv.2.2) _ _ Hk)).
    destruct (merged_window_Ok _ _ _ Hw) as (Hlt & Heq & Hall & _).
    { intros E. rewrite E in Hin. by apply not_elem_of_nil in Hin. }
    rewrite Forall_forall in Hall. destruct (Hall _ Hin) as (? & ? & ? & _). done.
Qed.
End apply_props.

(** ** Diff *)

Section diff_props.
Context {CR : Crates}.

Lemma elem_of_index_keys b k : k ∈ index_keys b <-> is_Some (bundle_map b !! k).
Proof.
  unfold index_keys. rewrite elem_of_list_to_set. split.
  - intros Hk. apply not_eq_None_Some. by rewrite bundle_map_None; intros ?.
  - intros [p Hp]. destruct (decide (k ∈ record_key <$> b_index b)) as [|Hn]; [done|].
    apply bundle_map_None in Hn. congruence.
Qed.

Lemma size_split (X Y : gset EntryKey) : size X = (size (X ∖ Y) + size (X ∩ Y))%nat.
Proof.
  rewrite <- size_union by (apply elem_of_disjoint; intros k; set_unfold; naive_solver).
  f_equal. apply leibniz_equiv. intros k. set_unfold. destruct (decide (k ∈ Y)); naive_solver.
Qed.

Lemma find_entry_map b k p :
  validate_sort_order (b_index b) = Ok tt -> bundle_map b !! k = Some p -> find_entry b k = p.
Proof.
  intros Hs%validate_sort_order_Ok (r & Hr & <- & <-)%bundle_map_Some; [|done].
  apply list_elem_of_lookup in Hr as [i Hi]. unfold find_entry, record_key. cbn [fst snd].
  rewrite (proj2 (bsd_Some (b_index b) _ _ i Hs)); [|by exists r].
  cbn. by rewrite entry_at_bytes, Hi.
Qed.

(** The diff of two bundles with sorted indexes partitions their keys: added
    are those only the second stores, removed those only the first stores,
    changed those both store with different payloads, and the unchanged count is
    the number of the rest, so the entry counts add up on both sides. *)
Theorem diff_exact a b :
  validate_sort_order (b_index a) = Ok tt -> validate_sort_order (b_index b) = Ok tt ->
  let d := diff a b in
  (forall k, k ∈ df_added d <-> bundle_map a !! k = None /\ is_Some (bundle_map b !! k)) /\
  (forall k, k ∈ df_removed d <-> is_Some (bundle_map a !! k) /\ bundle_map b !! k = None) /\
  (forall k, k ∈ df_changed d <->
     exists p q, bundle_map a !! k = Some p /\ bundle_map b !! k = Some q /\ p <> q) /\
  df_a_entry_count d = (size (df_removed d) + size (df_changed d) + df_unchanged d)%nat /\
  df_b_entry_count d = (size (df_added d) + size (df_changed d) + df_unchanged d)%nat.
Proof.
  intros Ha Hb. cbv zeta. unfold diff.
  cbn [df_added df_removed df_changed df_unchanged df_a_entry_count df_b_entry_count].
  assert (forall x, validate_sort_order (b_index x) = Ok tt -> length (b_index x) = size (index_keys x)) as Hsz.
  { intros x Hx%validate_sort_order_Ok. unfold index_keys.
    rewrite size_list_to_set by (by apply (ascending_NoDup key_cmp)). by rewrite length_fmap. }
  set (common := index_keys a ∩ index_keys b).
  assert (size (filter (fun k => find_entry a k <> find_entry b k) common) +
    size (filter (fun k => find_entry a k = find_entry b k) common) = size common)%nat as Hpart.
  { rewrite <- size_union by (apply elem_of_disjoint; intros k; rewrite !elem_of_filter; naive_solver). f_equal.
    apply leibniz_equiv. intros k. rewrite elem_of_union, !elem_of_filter.
    destruct (decide (find_entry a k = find_entry b k)); naive_solver. }
  split_and!.
  - intros k. rewrite elem_of_difference, !elem_of_index_keys, eq_None_not_Some. naive_solver.
  - intros k. rewrite elem_of_difference, !elem_of_index_keys, eq_None_not_Some. naive_solver.
  - intros k. rewrite elem_of_filter. unfold common. rewrite elem_of_intersection, !elem_of_index_keys.
    split.
    + intros (Hne & [p Hp] & [q Hq]). exists p, q. split_and!; [done..|].
      by rewrite (find_entry_map a k p Ha Hp), (find_entry_map b k q Hb Hq) in Hne.
    + intros (p & q & Hp & Hq & Hne).
      rewrite (find_entry_map a k p Ha Hp), (find_entry_map b k q Hb Hq). eauto.
  - rewrite (Hsz a Ha), <- Nat.add_assoc, Hpart. apply size_split.
  - rewrite (Hsz b Hb), <- Nat.add_assoc, Hpart. unfold common.
    rewrite (intersection_comm_L (index_keys a)). apply size_split.
Qed.
End diff_props.

(** ** Order of unlinked deltas *)

(** A delta that names no predecessor is accepted anywhere in a chain: two such
    deltas on one base are accepted in either order. *)
Theorem unlinked_deltas_commute {CR : Crates} base d1 d2 p1 p2 :
  admissible base p1 d1 -> admissible base p2 d2 ->
  co_prev_manifest_digest (m_continuity (b_manifest d1)) = None ->
  co_prev_manifest_digest (m_continuity (b_manifest d2)) = None ->
  chained base (manifest_digest (b_manifest_bytes base)) [d1; d2] /\
  chained base (manifest_digest (b_manifest_bytes base)) [d2; d1].
Proof.
  intros [] [] H1 H2. split; (split; [|split]; [..|done]); split; try done; congruence.
Qed.

(** ** Witnesses *)

Definition seal_sample : bytes := [x30; x82].
Definition reread (bb : BundleBuilder) : Bundle :=
  with_header (@built Toy.crates bb seal_sample) (compact_header (@built Toy.crates bb seal_sample)).
Definition sample_base : Bundle := Eval vm_compute in reread sample_builder.

(** A delta on [sample_base]: one replacement, one tombstone, one addition. *)
Definition delta_manifest : Manifest :=
  let m := sample_manifest in
  mkManifest (m_format_version m) (m_bundle_id m) (m_producer_id m) (m_created_at m) Delta
    [with_epoch 9 sample_scope] (mkWindow 1100 1050 1900 2500) (m_integrity m) 0
    (mkContinuity (Some (@manifest_digest Toy.crates (b_manifest_bytes sample_base)))
       (Some (@manifest_digest Toy.crates (b_manifest_bytes sample_base))) 1)
    None None None.

Definition delta_builder : BundleBuilder :=
  add_entry
    (add_tombstone
      (add_entry_with_discriminator (new delta_manifest) (replicate 32 x33) 3 [x09])
      (replicate 32 x11) 0)
    (replicate 32 x55) [x0a; x0b].
Definition sample_delta : Bundle := Eval vm_compute in reread delta_builder.

Definition applied_or_empty (r : ahu_result ApplyResult) : ApplyResult :=
  match r with Ok r => r | Err _ => mkApplyResult [] 0 0 [] end.
Definition sample_applied : ApplyResult := Eval vm_compute in
  applied_or_empty (@apply_sealed Toy.crates sample_base [sample_delta] toy_seal).

Lemma sample_base_wf : Manifest_wf (b_manifest sample_base).
Proof.
  assert (reread sample_builder = sample_base) as <- by (vm_compute; reflexivity).
  apply (@built_manifest_wf Toy.crates Toy.sha256_spec sample_builder seal_sample),
    sample_buildable.
Qed.

Lemma sample_loaded : @loaded Toy.crates sample_base /\ @loaded Toy.crates sample_delta.
Proof.
  split.
  - exists (match @build Toy.crates sample_builder toy_seal with Ok f => f | Err _ => [] end).
    vm_compute. reflexivity.
  - exists (match @build Toy.crates delta_builder toy_seal with Ok f => f | Err _ => [] end).
    vm_compute. reflexivity.
Qed.

Lemma sample_apply_Ok :
  @apply_sealed Toy.crates sample_base [sample_delta] toy_seal = Ok sample_applied.
Proof. vm_compute. reflexivity. Qed.

Lemma apply_sealed_contents_witness :
  ar_entry_count sample_applied = size (merged_entries sample_base [sample_delta]) /\
  exists manifest_bytes seal, toy_seal manifest_bytes = Ok seal /\
    (len manifest_bytes < u32_lim -> len seal < u32_lim ->
     exists b, @from_bytes Toy.crates (ar_bytes sample_applied) = Ok b /\
       b_manifest_bytes b = manifest_bytes /\ b_seal_bytes b = seal /\
       bundle_map b = Some <$> merged_entries sample_base [sample_delta]).
Proof.
  destruct sample_loaded as [Hb Hd].
  apply (@apply_sealed_contents Toy.crates Toy.sha256_spec Toy.uuid_spec Toy.ciborium_spec
    sample_base [sample_delta] toy_seal sample_applied Hb).
  - by constructor.
  - exact sample_base_wf.
  - vm_compute. reflexivity.
  - exact sample_apply_Ok.
Defined.

Lemma apply_sealed_envelope_witness :
  exists manifest_bytes seal, toy_seal manifest_bytes = Ok seal /\
    (len manifest_bytes < u32_lim -> len seal < u32_lim ->
     exists b, @from_bytes Toy.crates (ar_bytes sample_applied) = Ok b /\
       forall sc, sc ∈ m_ca_scopes (b_manifest sample_delta) ->
         cs_epoch sc < ar_final_epoch sample_applied).
Proof.
  destruct sample_loaded as [Hb Hd].
  destruct (@apply_sealed_envelope Toy.crates Toy.sha256_spec Toy.uuid_spec Toy.ciborium_spec
    sample_base [sample_delta] toy_seal sample_applied Hb) as (mb & seal & Hs & H).
  - by constructor.
  - exact sample_base_wf.
  - vm_compute. reflexivity.
  - exact sample_apply_Ok.
  - exists mb, seal. split; [exact Hs|]. intros H1 H2.
    destruct (H H1 H2) as (b & Hf & _ & _ & _ & Hep & _). exists b. split; [exact Hf|].
    intros sc. apply Hep. right. left.
Defined.

Lemma diff_exact_witness :
  (replicate 32 x55, 0) ∈ df_added (diff sample_base sample_delta) /\
  df_a_entry_count (diff sample_base sample_delta) =
    (size (df_removed (diff sample_base sample_delta)) +
     size (df_changed (diff sample_base sample_delta)) +
     df_unchanged (diff sample_base sample_delta))%nat.
Proof.
  destruct (@diff_exact Toy.crates sample_base sample_delta) as (Ha & _ & _ & Hc & _).
  - vm_compute. reflexivity.
  - vm_compute. reflexivity.
  - split; [|exact Hc]. apply Ha. split; [vm_compute; reflexivity|].
    eexists. vm_compute. reflexivity.
Defined.
