(* ===== verification/Seal.v ===== *)
(** * Seal: authentication of the CMS seal of a bundle (ahu/src/seal.rs)

    [verify_seal] and the two trust policies built on it, explicit signer pins
    and CA anchors.  The decoders of the crates [cms], [der] and [x509-cert]
    and the signature schemes of [p256] and [ml-dsa] are parameters.  Main
    results: what a successful verification establishes about the signer under
    each policy, and that one seal never authenticates two manifests. *)

From stdpp Require Import base tactics list gmap strings.
From Stdlib Require Import NArith Lia.
From S2P Require Import Prelude Crates AhuError.
Local Open Scope N_scope.

(** ** Data of the crates [cms], [spki] and [x509-cert]

    The fields the code reads.  Object identifiers are dotted decimals; names,
    serial numbers and undecoded values are their encodings. *)

Record AlgorithmIdentifier : Type := mkAlgorithmIdentifier {
  ai_oid : string;
  ai_parameters : option bytes;
}.
#[export] Instance AlgorithmIdentifier_eq_dec : EqDecision AlgorithmIdentifier.
Proof. solve_decision. Defined.

Record SubjectPublicKeyInfo : Type := mkSubjectPublicKeyInfo {
  pk_algorithm : AlgorithmIdentifier;
  pk_subject_public_key : option bytes;
}.

Record KeyUsage : Type := mkKeyUsage {
  ku_digital_signature : bool;
  ku_key_cert_sign : bool;
}.

Record Attribute : Type := mkAttribute {
  at_oid : string;
  at_values : list bytes;
}.

Inductive SignerIdentifier : Type :=
| IssuerAndSerialNumber (issuer serial_number : bytes)
| SubjectKeyIdentifier (id : bytes).

Record SignerInfo : Type := mkSignerInfo {
  si_sid : SignerIdentifier;
  si_digest_alg : string;
  si_signed_attrs : option (list Attribute);
  si_signature_algorithm : string;
  si_signature : bytes;
}.

Record ContentInfo : Type := mkContentInfo {
  ci_content_type : string;
  ci_content : bytes;
}.

Inductive MlDsa := MlDsa44 | MlDsa65 | MlDsa87.

(** The crates.  [SignedData] is polymorphic in the certificates it carries;
    a certificate choice that is not a certificate is [None]. *)
Record SignedData (Certificate : Type) : Type := mkSignedData {
  sd_digest_algorithms : list string;
  sd_econtent_type : string;
  sd_econtent : option bytes;
  sd_certificates : option (list (option Certificate));
  sd_signer_infos : list SignerInfo;
}.
Arguments mkSignedData {_}.
Arguments sd_digest_algorithms {_}.
Arguments sd_econtent_type {_}.
Arguments sd_econtent {_}.
Arguments sd_certificates {_}.
Arguments sd_signer_infos {_}.

Class SealCrates := {
  (** [x509_cert::Certificate] *)
  Certificate : Type;
  Certificate_eq_dec :: EqDecision Certificate;
  cert_from_der : bytes -> result string Certificate;
  cert_from_pem : bytes -> result string Certificate;
  cert_to_der : Certificate -> result string bytes;
  tbs_to_der : Certificate -> result string bytes;
  tbs_issuer : Certificate -> bytes;
  tbs_subject : Certificate -> bytes;
  tbs_subject_text : Certificate -> string;
  tbs_serial_number : Certificate -> bytes;
  tbs_not_before : Certificate -> N;
  tbs_not_after : Certificate -> N;
  (** the identifiers of the extensions *)
  tbs_extensions : Certificate -> option (list string);
  get_key_usage : Certificate -> result string (option KeyUsage);
  (** the [ca] flag of the basic constraints *)
  get_basic_constraints : Certificate -> result string (option bool);
  get_subject_key_id : Certificate -> result string (option bytes);
  tbs_signature : Certificate -> AlgorithmIdentifier;
  tbs_spki : Certificate -> SubjectPublicKeyInfo;
  cert_signature_algorithm : Certificate -> AlgorithmIdentifier;
  cert_signature : Certificate -> option bytes;
  (** [cms] and [der] *)
  content_info_from_der : bytes -> result string ContentInfo;
  decode_signed_data : bytes -> result string (SignedData Certificate);
  decode_oid : bytes -> result string string;
  decode_octet_string : bytes -> result string bytes;
  signed_attrs_to_der : list Attribute -> result string bytes;
  (** [p256::ecdsa] *)
  P256Key : Type;
  P256Signature : Type;
  p256_from_sec1_bytes : bytes -> result string P256Key;
  p256_signature_from_bytes : bytes -> result string P256Signature;
  p256_verify_prehash : P256Key -> bytes -> P256Signature -> bool;
  (** [ml_dsa] *)
  MlKey : Type;
  MlSignature : Type;
  ml_dsa_key : MlDsa -> bytes -> option MlKey;
  ml_dsa_signature : MlDsa -> bytes -> option MlSignature;
  ml_dsa_verify : MlDsa -> MlKey -> bytes -> MlSignature -> bool;
}.

Definition ID_SIGNED_DATA : string := "1.2.840.113549.1.7.2".
Definition ID_MESSAGE_DIGEST : string := "1.2.840.113549.1.9.4".
Definition ID_SHA256 : string := "2.16.840.1.101.3.4.2.1".
Definition ID_DATA : string := "1.2.840.113549.1.7.1".
Definition ID_CONTENT_TYPE : string := "1.2.840.113549.1.9.3".
Definition ID_ECDSA_SHA256_V : string := "1.2.840.10045.4.3.2".
Definition ID_ML_DSA_44_V : string := "2.16.840.1.101.3.4.3.17".
Definition ID_ML_DSA_65_V : string := "2.16.840.1.101.3.4.3.18".
Definition ID_ML_DSA_87_V : string := "2.16.840.1.101.3.4.3.19".
Definition ID_EC_PUBLIC_KEY : string := "1.2.840.10045.2.1".
Definition ID_P256 : string := "1.2.840.10045.3.1.7".

Record SealVerification : Type := mkSealVerification {
  sv_signature_valid : bool;
  sv_digest_matches : bool;
  sv_signer_subject : string;
  sv_signer_sha256 : string;
}.

Definition seal_error (reason : string) : AhuError := SealInvalid reason.

Section seal.
Context {CR : Crates} {SC : SealCrates}.
Implicit Types (cert : Certificate) (sd : SignedData Certificate).

(** [.map_err(|e| AhuError::SealInvalid(..))]. *)
Definition sealed {A} (r : result string A) : ahu_result A := map_err seal_error r.

(** ** Signatures *)

Definition verify_ecdsa_seal (attrs_der sig_bytes pub_key_bytes : bytes) : ahu_result bool :=
  let attrs_hash := sha256 attrs_der in
  verifying_key ← sealed (p256_from_sec1_bytes pub_key_bytes);
  signature ← sealed (p256_signature_from_bytes sig_bytes);
  Ok (p256_verify_prehash verifying_key attrs_hash signature).

Definition verify_ml_dsa_seal (P : MlDsa) (attrs_der sig_bytes pub_key_bytes : bytes) :
    ahu_result bool :=
  vk ← ok_or (ml_dsa_key P pub_key_bytes) (seal_error "invalid ML-DSA public key size");
  sig ← ok_or (ml_dsa_signature P sig_bytes) (seal_error "invalid ML-DSA signature");
  Ok (ml_dsa_verify P vk attrs_der sig).

Definition decoded_oid (p : bytes) : option string := to_option (decode_oid p).

Definition verify_bytes (bytes sig_bytes : bytes) (sig_alg_oid : string) cert : ahu_result bool :=
  let spki := tbs_spki cert in
  pub_key_bytes ← ok_or (pk_subject_public_key spki) (seal_error "no public key bits");
  let key_alg := ai_oid (pk_algorithm spki) in
  if String.eqb sig_alg_oid ID_ECDSA_SHA256_V then
    if negb (String.eqb key_alg ID_EC_PUBLIC_KEY) ||
       negb (bool_decide (ai_parameters (pk_algorithm spki) ≫= decoded_oid = Some ID_P256))
    then Err (seal_error "expected P-256 key algorithm")
    else verify_ecdsa_seal bytes sig_bytes pub_key_bytes
  else if String.eqb sig_alg_oid ID_ML_DSA_44_V && String.eqb key_alg sig_alg_oid then
    verify_ml_dsa_seal MlDsa44 bytes sig_bytes pub_key_bytes
  else if String.eqb sig_alg_oid ID_ML_DSA_65_V && String.eqb key_alg sig_alg_oid then
    verify_ml_dsa_seal MlDsa65 bytes sig_bytes pub_key_bytes
  else if String.eqb sig_alg_oid ID_ML_DSA_87_V && String.eqb key_alg sig_alg_oid then
    verify_ml_dsa_seal MlDsa87 bytes sig_bytes pub_key_bytes
  else Err (seal_error "unsupported/mismatched signature algorithm").

Definition verify_signature (signer_info : SignerInfo) cert : ahu_result bool :=
  signed_attrs ← ok_or (si_signed_attrs signer_info) (seal_error "no signed attrs for verification");
  attrs_der ← sealed (signed_attrs_to_der signed_attrs);
  verify_bytes attrs_der (si_signature signer_info) (si_signature_algorithm signer_info) cert.

(** ** The seal *)

(** The only value of the only attribute with this identifier. *)
Definition attributes (attrs : list Attribute) (oid : string) : list Attribute :=
  List.filter (fun a => String.eqb (at_oid a) oid) attrs.

Definition verify_message_digest (signer_info : SignerInfo) (expected_digest : bytes) :
    ahu_result bool :=
  attrs ← ok_or (si_signed_attrs signer_info) (seal_error "no signed attributes");
  match attributes attrs ID_MESSAGE_DIGEST with
  | [a] =>
      match at_values a with
      | [v] => octet ← sealed (decode_octet_string v); Ok (bool_decide (octet = expected_digest))
      | _ => Err (seal_error "exactly one message-digest value required")
      end
  | _ => Err (seal_error "exactly one message-digest value required")
  end.

Definition matches_sid (sid : SignerIdentifier) cert : bool :=
  match sid with
  | IssuerAndSerialNumber issuer serial =>
      bool_decide (issuer = tbs_issuer cert) && bool_decide (serial = tbs_serial_number cert)
  | SubjectKeyIdentifier id => bool_decide (to_option (get_subject_key_id cert) = Some (Some id))
  end.

(** One step of the loop over the certificates; the state is [found]. *)
Definition consider_cert (sid : SignerIdentifier) (found : option Certificate)
    (choice : option Certificate) : ahu_result (option Certificate) :=
  match choice with
  | Some cert =>
      if matches_sid sid cert then
        match found with
        | Some _ => Err (seal_error "ambiguous signer certificate")
        | None => Ok (Some cert)
        end
      else Ok found
  | None => Ok found
  end.

Definition extract_signer_cert sd : ahu_result Certificate :=
  signer ← ok_or (head (sd_signer_infos sd)) (seal_error "missing signer");
  certs ← ok_or (sd_certificates sd) (seal_error "missing certificates");
  found ← fold_result (consider_cert (si_sid signer)) None certs;
  ok_or found (seal_error "signer identifier has no matching certificate").

(** The content-type attribute is the data content type. *)
Definition content_type_ok (attrs : list Attribute) : bool :=
  match attributes attrs ID_CONTENT_TYPE with
  | [a] => match at_values a with
           | [v] => bool_decide (decoded_oid v = Some ID_DATA)
           | _ => false
           end
  | _ => false
  end.

Definition verify_seal (manifest_bytes seal_bytes : bytes) : ahu_result SealVerification :=
  ensure (negb (bool_decide (seal_bytes = []))) (seal_error "seal section is empty") ;;
  content_info ← sealed (content_info_from_der seal_bytes);
  ensure (String.eqb (ci_content_type content_info) ID_SIGNED_DATA)
    (seal_error "unexpected content type") ;;
  signed_data ← sealed (decode_signed_data (ci_content content_info));
  match sd_signer_infos signed_data with
  | [signer_info] =>
      ensure (String.eqb (si_digest_alg signer_info) ID_SHA256 &&
              bool_decide (sd_digest_algorithms signed_data = [ID_SHA256]))
        (seal_error "only SHA-256 digest attributes are supported") ;;
      ensure (String.eqb (sd_econtent_type signed_data) ID_DATA &&
              bool_decide (sd_econtent signed_data = None))
        (seal_error "expected detached CMS data content") ;;
      attrs ← ok_or (si_signed_attrs signer_info) (seal_error "missing signed attributes");
      ensure (content_type_ok attrs) (seal_error "invalid content-type attribute") ;;
      let manifest_digest := sha256 manifest_bytes in
      digest_matches ← verify_message_digest signer_info manifest_digest;
      ensure digest_matches (seal_error "message-digest attribute does not match manifest hash") ;;
      cert ← extract_signer_cert signed_data;
      signature_valid ← verify_signature signer_info cert;
      ensure signature_valid (seal_error "invalid CMS signature") ;;
      der ← sealed (cert_to_der cert);
      Ok (mkSealVerification signature_valid digest_matches (tbs_subject_text cert)
            (hex_encode (sha256 der)))
  | _ => Err (seal_error "exactly one signer is required")
  end.

(** ** Trust policies *)

Definition supported_extensions : list string :=
  ["2.5.29.14"; "2.5.29.15"; "2.5.29.19"; "2.5.29.35"]%string.

(** One step of the loop over the extensions; the state is [seen]. *)
Definition check_extension (seen : gset string) (oid : string) : ahu_result (gset string) :=
  ensure (negb (bool_decide (oid ∈ seen))) (seal_error "duplicate certificate extension") ;;
  ensure (bool_decide (oid ∈ supported_extensions))
    (seal_error "unsupported seal certificate extension") ;;
  Ok (seen ∪ {[oid]}).

Definition validate_cert_profile cert (now : N) (ca : bool) : ahu_result unit :=
  ensure (negb ((now <? tbs_not_before cert) || (tbs_not_after cert <=? now)))
    (seal_error "certificate outside validity period") ;;
  match tbs_extensions cert with
  | Some exts => fold_result check_extension ∅ exts ;; Ok tt
  | None => Ok tt
  end ;;
  usage ← sealed (get_key_usage cert);
  match usage with
  | Some ku => ensure (if ca then ku_key_cert_sign ku else ku_digital_signature ku)
                 (seal_error "certificate key usage does not permit operation")
  | None => Ok tt
  end ;;
  if ca then
    bc ← sealed (get_basic_constraints cert);
    ensure (bool_decide (bc = Some true)) (seal_error "trust anchor must be a CA certificate")
  else Ok tt.

(** The certificate of the signer, decoded from the seal again. *)
Definition signer_of (seal : bytes) : ahu_result Certificate :=
  ci ← sealed (content_info_from_der seal);
  sd ← sealed (decode_signed_data (ci_content ci));
  extract_signer_cert sd.

(** The loop over the anchors of [verify_seal_with_anchors]. *)
Fixpoint find_issuer (signer : Certificate) (verification : SealVerification)
    (anchors : list Certificate) : ahu_result SealVerification :=
  match anchors with
  | [] => Err (seal_error "signer is not directly issued by a configured CA trust anchor")
  | anchor :: anchors =>
      if bool_decide (signer = anchor) then Ok verification else
      if negb (bool_decide (tbs_issuer signer = tbs_subject anchor))
      then find_issuer signer verification anchors else
      ensure (bool_decide (cert_signature_algorithm signer = tbs_signature signer))
        (seal_error "certificate signature algorithms disagree") ;;
      bytes ← sealed (tbs_to_der signer);
      sig ← ok_or (cert_signature signer) (seal_error "invalid certificate signature bits");
      valid ← verify_bytes bytes sig (ai_oid (cert_signature_algorithm signer)) anchor;
      if valid : bool then Ok verification else find_issuer signer verification anchors
  end.

Definition verify_seal_with_anchors (manifest seal : bytes) (anchors_der : list bytes) (now : N) :
    ahu_result SealVerification :=
  verification ← verify_seal manifest seal;
  signer ← signer_of seal;
  validate_cert_profile signer now false ;;
  ensure (negb (bool_decide (anchors_der = []))) (seal_error "no trust anchors") ;;
  anchors ← mapM (fun der => sealed (cert_from_der der)) anchors_der;
  for_each (fun anchor => validate_cert_profile anchor now true) anchors ;;
  find_issuer signer verification anchors.

Definition verify_seal_with_pins (manifest seal : bytes) (pins_der : list bytes) (now : N) :
    ahu_result SealVerification :=
  verification ← verify_seal manifest seal;
  signer ← signer_of seal;
  validate_cert_profile signer now false ;;
  signer_der ← sealed (cert_to_der signer);
  pins ← mapM (fun pin => sealed (cert ← cert_from_der pin; cert_to_der cert)) pins_der;
  ensure (bool_decide (signer_der ∈ pins))
    (seal_error "signer certificate does not match an explicit pin") ;;
  Ok verification.
End seal.

(** ** What verification establishes *)

Section spec.
Context {CR : Crates} {SC : SealCrates}.
Implicit Types (cert : Certificate) (sd : SignedData Certificate).

Definition ml_dsa_oid (P : MlDsa) : string :=
  match P with
  | MlDsa44 => ID_ML_DSA_44_V | MlDsa65 => ID_ML_DSA_65_V | MlDsa87 => ID_ML_DSA_87_V
  end.

(** [msg] carries a signature by the key in [cert], under the algorithm [alg]
    that the key is for. *)
Inductive signed_by cert (alg : string) (msg sig : bytes) : Prop :=
| by_ecdsa key_bytes params key s :
    alg = ID_ECDSA_SHA256_V ->
    tbs_spki cert =
      mkSubjectPublicKeyInfo (mkAlgorithmIdentifier ID_EC_PUBLIC_KEY (Some params)) (Some key_bytes) ->
    decode_oid params = Ok ID_P256 ->
    p256_from_sec1_bytes key_bytes = Ok key -> p256_signature_from_bytes sig = Ok s ->
    p256_verify_prehash key (sha256 msg) s = true ->
    signed_by cert alg msg sig
| by_ml_dsa P key_bytes params key s :
    alg = ml_dsa_oid P ->
    tbs_spki cert = mkSubjectPublicKeyInfo (mkAlgorithmIdentifier alg params) (Some key_bytes) ->
    ml_dsa_key P key_bytes = Some key -> ml_dsa_signature P sig = Some s ->
    ml_dsa_verify P key msg s = true ->
    signed_by cert alg msg sig.

Definition only_value (attrs : list Attribute) (oid : string) (v : bytes) : Prop :=
  exists a, attributes attrs oid = [a] /\ at_values a = [v].

(** [cert] is the only certificate the signer identifier selects. *)
Definition only_signer (sid : SignerIdentifier) (certs : list (option Certificate)) cert : Prop :=
  exists l1 l2, certs = l1 ++ Some cert :: l2 /\ matches_sid sid cert = true /\
    Forall (fun o => forall c, o = Some c -> matches_sid sid c = false) (l1 ++ l2).

Definition identifies_signer sd cert : Prop :=
  exists si rest certs, sd_signer_infos sd = si :: rest /\ sd_certificates sd = Some certs /\
    only_signer (si_sid si) certs cert.

(** A detached CMS signature by [cert], and nobody else, on the manifest. *)
Definition seal_authentic (manifest seal : bytes) cert : Prop :=
  exists ci sd si attrs attrs_der digest content_type,
    content_info_from_der seal = Ok ci /\ ci_content_type ci = ID_SIGNED_DATA /\
    decode_signed_data (ci_content ci) = Ok sd /\ sd_signer_infos sd = [si] /\
    (si_digest_alg si = ID_SHA256 /\ sd_digest_algorithms sd = [ID_SHA256]) /\
    (sd_econtent_type sd = ID_DATA /\ sd_econtent sd = None) /\
    si_signed_attrs si = Some attrs /\
    (only_value attrs ID_CONTENT_TYPE content_type /\ decode_oid content_type = Ok ID_DATA) /\
    (only_value attrs ID_MESSAGE_DIGEST digest /\ decode_octet_string digest = Ok (sha256 manifest)) /\
    identifies_signer sd cert /\ signed_attrs_to_der attrs = Ok attrs_der /\
    signed_by cert (si_signature_algorithm si) attrs_der (si_signature si).

(** The certificate may be used at [now], as a CA or as a signer. *)
Record profile_ok cert (now : N) (ca : bool) : Prop := {
  po_validity : tbs_not_before cert <= now < tbs_not_after cert;
  po_extensions exts : tbs_extensions cert = Some exts ->
    NoDup exts /\ Forall (fun oid => oid ∈ supported_extensions) exts;
  po_usage : exists usage, get_key_usage cert = Ok usage /\
    forall ku, usage = Some ku -> (if ca then ku_key_cert_sign ku else ku_digital_signature ku) = true;
  po_ca : ca = true -> get_basic_constraints cert = Ok (Some true);
}.

(** [anchor] signed the certificate [cert]. *)
Definition issued_by cert anchor : Prop :=
  tbs_issuer cert = tbs_subject anchor /\ cert_signature_algorithm cert = tbs_signature cert /\
  exists der sig, tbs_to_der cert = Ok der /\ cert_signature cert = Some sig /\
    signed_by anchor (ai_oid (cert_signature_algorithm cert)) der sig.

(** What a verification reports of a seal by [cert]. *)
Definition reports (v : SealVerification) cert : Prop :=
  exists der, cert_to_der cert = Ok der /\
    v = mkSealVerification true true (tbs_subject_text cert) (hex_encode (sha256 der)).
End spec.

(** ** Proofs *)

Section seal_props.
Context {CR : Crates} {SC : SealCrates}.
Implicit Types (cert : Certificate) (sd : SignedData Certificate).

Lemma sealed_Ok {A} (r : result string A) a : sealed r = Ok a <-> r = Ok a.
Proof. apply map_err_Ok. Qed.

Lemma verify_ecdsa_seal_true msg sig kb :
  verify_ecdsa_seal msg sig kb = Ok true <->
  exists key s, p256_from_sec1_bytes kb = Ok key /\ p256_signature_from_bytes sig = Ok s /\
    p256_verify_prehash key (sha256 msg) s = true.
Proof.
  unfold verify_ecdsa_seal. split.
  - intros (key & Hk%sealed_Ok & (s & Hs%sealed_Ok & [= Hv])%bind_Ok)%bind_Ok. eauto.
  - intros (key & s & -> & -> & Hv). cbn. by rewrite Hv.
Qed.

Lemma verify_ml_dsa_seal_true P msg sig kb :
  verify_ml_dsa_seal P msg sig kb = Ok true <->
  exists key s, ml_dsa_key P kb = Some key /\ ml_dsa_signature P sig = Some s /\
    ml_dsa_verify P key msg s = true.
Proof.
  unfold verify_ml_dsa_seal. split.
  - intros (key & Hk%ok_or_Ok & (s & Hs%ok_or_Ok & [= Hv])%bind_Ok)%bind_Ok. eauto.
  - intros (key & s & -> & -> & Hv). cbn. by rewrite Hv.
Qed.

Lemma to_option_Some {E A} (r : result E A) a : to_option r = Some a <-> r = Ok a.
Proof. destruct r; cbn; split; congruence. Qed.

Lemma verify_bytes_true msg sig alg cert :
  verify_bytes msg sig alg cert = Ok true <-> signed_by cert alg msg sig.
Proof.
  unfold verify_bytes. destruct (tbs_spki cert) as [[ka params] pk] eqn:Hs. cbn. split.
  - intros (kb & ->%ok_or_Ok & H)%bind_Ok.
    destruct (String.eqb_spec alg ID_ECDSA_SHA256_V) as [->|_].
    { destruct (String.eqb_spec ka ID_EC_PUBLIC_KEY) as [->|]; [|done]. cbn in H.
      case_bool_decide as Hp; [|done]. cbn in H.
      apply verify_ecdsa_seal_true in H as (key & s & ? & ? & ?).
      destruct params as [params|]; [|done]. apply to_option_Some in Hp.
      by eapply by_ecdsa. }
    repeat match type of H with
    | (if String.eqb alg ?o && String.eqb ka alg then _ else _) = _ =>
        destruct (String.eqb_spec alg o) as [->|_];
        [destruct (String.eqb_spec ka o) as [->|_]|]; cbn [andb] in H
    end; try done;
      apply verify_ml_dsa_seal_true in H as (key & s & ? & ? & ?);
      [by eapply (by_ml_dsa _ _ _ _ MlDsa44)|by eapply (by_ml_dsa _ _ _ _ MlDsa65)|
       by eapply (by_ml_dsa _ _ _ _ MlDsa87)].
  - intros [kb p key s -> E Hp Hk Hsig Hv|P kb p key s -> E Hk Hsig Hv]; rewrite Hs in E;
      injection E as -> -> ->; cbn.
    + rewrite bool_decide_eq_true_2 by (cbn; unfold decoded_oid; by rewrite Hp).
      apply verify_ecdsa_seal_true. eauto.
    + destruct P; cbn; apply verify_ml_dsa_seal_true; eauto.
Qed.

Lemma verify_message_digest_true si attrs d :
  si_signed_attrs si = Some attrs ->
  verify_message_digest si d = Ok true <->
  exists v, only_value attrs ID_MESSAGE_DIGEST v /\ decode_octet_string v = Ok d.
Proof.
  intros Ha. unfold verify_message_digest, only_value. rewrite Ha. cbn. split.
  - destruct (attributes attrs _) as [|a [|]]; try done.
    destruct (at_values a) as [|v [|]] eqn:Hv; try done.
    intros (o & Ho%sealed_Ok & [= ->%bool_decide_eq_true])%bind_Ok. eauto.
  - intros (v & (a & -> & ->) & Hd). rewrite Hd. cbn. by rewrite bool_decide_eq_true_2.
Qed.

Lemma content_type_ok_true attrs :
  content_type_ok attrs = true <->
  exists v, only_value attrs ID_CONTENT_TYPE v /\ decode_oid v = Ok ID_DATA.
Proof.
  unfold content_type_ok, only_value, decoded_oid. split.
  - destruct (attributes attrs _) as [|a [|]]; try done.
    destruct (at_values a) as [|v [|]] eqn:Hv; try done.
    intros Ho%bool_decide_eq_true%to_option_Some. eauto.
  - intros (v & (a & -> & ->) & Hd). rewrite Hd. by apply bool_decide_eq_true.
Qed.

Lemma consider_certs_found sid certs c c' :
  fold_result (consider_cert sid) (Some c) certs = Ok (Some c') <->
  c' = c /\ Forall (fun o => forall c, o = Some c -> matches_sid sid c = false) certs.
Proof.
  induction certs as [|[x|] certs IH]; cbn.
  - split; [by intros [= ->]|by intros [-> _]].
  - destruct (matches_sid sid x) eqn:Hx; cbn.
    + split; [done|]. intros [_ H]. inversion H as [|? ? H0]. rewrite (H0 x) in Hx; done.
    + rewrite IH, Forall_cons. naive_solver.
  - rewrite IH, Forall_cons. naive_solver.
Qed.

Lemma consider_certs sid certs c :
  fold_result (consider_cert sid) None certs = Ok (Some c) <-> only_signer sid certs c.
Proof.
  unfold only_signer. induction certs as [|o certs IH]; cbn.
  - split; [done|]. intros ([] & ? & ? & _); done.
  - assert (forall o', (o' = None \/ exists x, o' = Some x /\ matches_sid sid x = false) ->
      (exists l1 l2, certs = l1 ++ Some c :: l2 /\ matches_sid sid c = true /\
        Forall (fun o => forall c, o = Some c -> matches_sid sid c = false) (l1 ++ l2)) <->
      (exists l1 l2, o' :: certs = l1 ++ Some c :: l2 /\ matches_sid sid c = true /\
        Forall (fun o => forall c, o = Some c -> matches_sid sid c = false) (l1 ++ l2))) as Hskip.
    { intros o' Ho. split.
      - intros (l1 & l2 & -> & Hm & Hf). exists (o' :: l1), l2. split_and!; try done.
        constructor; [|done]. intros x ->. destruct Ho as [|(y & [= <-] & Hy)]; done.
      - intros ([|o1 l1] & l2 & [= -> Hc] & Hm & Hf).
        + destruct Ho as [|(x & [= <-] & Hx)]; [done|congruence].
        + inversion Hf. eauto. }
    destruct o as [x|]; cbn; [|rewrite IH; apply Hskip; by left].
    destruct (matches_sid sid x) eqn:Hx; cbn; [|rewrite IH; apply Hskip; right; eauto].
    rewrite consider_certs_found. split.
    + intros [-> Hf]. by exists [], certs.
    + intros ([|o1 l1] & l2 & [= He ->] & Hm & Hf); [by subst|].
      inversion Hf as [|? ? H0]. rewrite (H0 x) in Hx; done.
Qed.

Lemma extract_signer_cert_Ok sd cert : extract_signer_cert sd = Ok cert <-> identifies_signer sd cert.
Proof.
  unfold extract_signer_cert, identifies_signer. split.
  - intros (si & Hsi%ok_or_Ok & (certs & Hc%ok_or_Ok & (f & Hf & ->%ok_or_Ok)%bind_Ok)%bind_Ok)%bind_Ok.
    destruct (sd_signer_infos sd) as [|si' rest]; [done|]. injection Hsi as ->.
    exists si, rest, certs. split_and!; try done. by apply consider_certs.
  - intros (si & rest & certs & -> & -> & Hf%consider_certs). cbn. by rewrite Hf.
Qed.

Lemma verify_signature_true si attrs cert :
  si_signed_attrs si = Some attrs ->
  verify_signature si cert = Ok true <->
  exists der, signed_attrs_to_der attrs = Ok der /\
    signed_by cert (si_signature_algorithm si) der (si_signature si).
Proof.
  intros Ha. unfold verify_signature. rewrite Ha. cbn. split.
  - intros (der & Hd%sealed_Ok & Hv%verify_bytes_true)%bind_Ok. eauto.
  - intros (der & -> & Hv%verify_bytes_true). done.
Qed.

Lemma verify_seal_Ok manifest seal v :
  verify_seal manifest seal = Ok v <->
  seal <> [] /\ exists cert, seal_authentic manifest seal cert /\ reports v cert.
Proof.
  unfold verify_seal, seal_authentic, reports. split.
  - intros ([] & Hne%ensure_Ok & (ci & Hci%sealed_Ok & ([] & Hct%ensure_Ok &
      (sd & Hsd%sealed_Ok & H)%bind_Ok)%bind_Ok)%bind_Ok)%bind_Ok.
    apply String.eqb_eq in Hct. rewrite negb_true_iff, bool_decide_eq_false in Hne.
    destruct (sd_signer_infos sd) as [|si [|]] eqn:Hsi; try done.
    apply bind_Ok in H as ([] & [Hda%String.eqb_eq Hdas%bool_decide_eq_true]%ensure_Ok%andb_prop &
      ([] & [Het%String.eqb_eq Hec%bool_decide_eq_true]%ensure_Ok%andb_prop &
      (attrs & Hat%ok_or_Ok & ([] & Hc%ensure_Ok & (dm & Hdm &
      ([] & ->%ensure_Ok & (cert & Hcert%extract_signer_cert_Ok & (sv & Hsv &
      ([] & ->%ensure_Ok & (der & Hder%sealed_Ok & [= <-])%bind_Ok)%bind_Ok)%bind_Ok)%bind_Ok
      )%bind_Ok)%bind_Ok)%bind_Ok)%bind_Ok)%bind_Ok).
    apply content_type_ok_true in Hc as (cv & ? & ?).
    apply (verify_message_digest_true _ attrs) in Hdm as (dv & ? & ?); [|done].
    apply (verify_signature_true _ attrs) in Hsv as (ad & Had & Hsig); [|done].
    split; [done|]. exists cert. split; [|eauto].
    exists ci, sd, si, attrs, ad, dv, cv. by split_and!.
  - intros (Hne & cert & (ci & sd & si & attrs & ad & dv & cv & Hci & Hct & Hsd & Hsi & [Hda Hdas] &
      [Het Hec] & Hat & Hcv & Hdv & Hcert%extract_signer_cert_Ok & Had & Hsig) & (der & Hder & ->)).
    rewrite bool_decide_eq_false_2 by done. cbn. rewrite Hci. cbn. rewrite Hct. cbn.
    rewrite Hsd. cbn. rewrite Hsi, Hda, Hdas, Het, Hec. cbn. rewrite Hat. cbn.
    rewrite (proj2 (content_type_ok_true attrs)) by eauto. cbn.
    rewrite (proj2 (verify_message_digest_true _ attrs _ Hat)) by eauto. cbn.
    rewrite Hcert. cbn. rewrite (proj2 (verify_signature_true _ attrs _ Hat)) by eauto. cbn.
    by rewrite Hder.
Qed.

Lemma check_extension_Ok seen oid seen' :
  check_extension seen oid = Ok seen' <->
  seen' = (seen ∪ {[oid]}) /\ (oid ∉ seen) /\ oid ∈ supported_extensions.
Proof.
  unfold check_extension. rewrite bind_Ok. split.
  - intros ([] & Hn%ensure_Ok & ([] & Hs%ensure_Ok%bool_decide_eq_true & [= <-])%bind_Ok).
    by rewrite negb_true_iff, bool_decide_eq_false in Hn.
  - intros (-> & Hn & Hs). exists tt. rewrite (bool_decide_eq_false_2 _ Hn). split; [done|].
    by rewrite (bool_decide_eq_true_2 _ Hs).
Qed.

Lemma validate_cert_profile_Ok cert now ca :
  validate_cert_profile cert now ca = Ok tt <-> profile_ok cert now ca.
Proof.
  assert (forall exts, (fold_result check_extension ∅ exts ;; Ok tt) = Ok tt <->
    NoDup exts /\ Forall (fun oid => oid ∈ supported_extensions) exts) as Hexts.
  { intros exts. rewrite <- (list_fmap_id exts) at 2.
    rewrite <- (unique_fold_start id _ _ check_extension_Ok), bind_Ok. naive_solver. }
  unfold validate_cert_profile. split.
  - intros ([] & Hv%ensure_Ok & ([] & He & (usage & Hu%sealed_Ok & ([] & Hk & Hca)%bind_Ok)%bind_Ok
      )%bind_Ok)%bind_Ok.
    rewrite negb_true_iff, orb_false_iff, N.ltb_ge, N.leb_gt in Hv. constructor; [done|..].
    + intros exts E. rewrite E in He. by apply Hexts.
    + exists usage. split; [done|]. intros ku ->. by apply ensure_Ok in Hk.
    + intros ->. apply bind_Ok in Hca as (bc & Hb%sealed_Ok & ->%ensure_Ok%bool_decide_eq_true). done.
  - intros [Hv He (usage & Hu & Hk) Hca].
    assert (negb ((now <? tbs_not_before cert) || (tbs_not_after cert <=? now)) = true) as ->
      by (rewrite negb_true_iff, orb_false_iff, N.ltb_ge, N.leb_gt; lia). cbn.
    assert (match tbs_extensions cert with
      | Some exts => fold_result check_extension ∅ exts ;; Ok tt | None => Ok tt end = Ok tt) as ->.
    { destruct (tbs_extensions cert) as [exts|]; [|done]. apply Hexts. by apply He. }
    cbn. rewrite Hu. cbn. destruct usage as [ku|]; cbn; [rewrite (Hk ku eq_refl); cbn|].
    all: destruct ca; [|done]; rewrite Hca by done; cbn; by rewrite bool_decide_eq_true_2.
Qed.

Lemma find_issuer_Ok signer v anchors v' :
  find_issuer signer v anchors = Ok v' ->
  v' = v /\ exists anchor, anchor ∈ anchors /\ (signer = anchor \/ issued_by signer anchor).
Proof.
  induction anchors as [|a anchors IH]; cbn; [done|].
  case_bool_decide as Ha; [intros [= <-]; split; [done|]; exists a; split; [by left|by left]|].
  assert (forall (P : Prop), (P -> v' = v /\ exists anchor, anchor ∈ anchors /\
    (signer = anchor \/ issued_by signer anchor)) -> P ->
    v' = v /\ exists anchor, anchor ∈ a :: anchors /\ (signer = anchor \/ issued_by signer anchor))
    as Hlater.
  { intros P HP p. destruct (HP p) as (-> & x & Hin & Hx). split; [done|]. exists x. split; [by right|done]. }
  case_bool_decide as Hi; cbn; [|by apply Hlater].
  intros ([] & Hal%ensure_Ok%bool_decide_eq_true & (der & Hd%sealed_Ok & (sig & Hs%ok_or_Ok &
    (valid & Hv & H)%bind_Ok)%bind_Ok)%bind_Ok)%bind_Ok.
  destruct valid; [|by eapply Hlater in H].
  injection H as <-. split; [done|]. exists a. split; [by left|]. right.
  split_and!; try done. exists der, sig. split_and!; try done. by apply verify_bytes_true.
Qed.

Lemma signer_of_authentic manifest seal cert signer :
  seal_authentic manifest seal cert -> signer_of seal = Ok signer -> signer = cert.
Proof.
  intros (ci & sd & si & attrs & ad & dv & cv & Hci & _ & Hsd & _ & _ & _ & _ & _ & _ &
    Hc%extract_signer_cert_Ok & _) Hs.
  unfold signer_of in Hs. rewrite Hci in Hs. cbn in Hs. rewrite Hsd in Hs. cbn in Hs. congruence.
Qed.

Lemma authentic_signer_of manifest seal cert :
  seal_authentic manifest seal cert -> signer_of seal = Ok cert.
Proof.
  intros (ci & sd & si & attrs & ad & dv & cv & Hci & _ & Hsd & _ & _ & _ & _ & _ & _ &
    Hc%extract_signer_cert_Ok & _).
  unfold signer_of. rewrite Hci. cbn. by rewrite Hsd.
Qed.

(** The pins as the code compares them: decoded and encoded again. *)
Definition normalized (pin der : bytes) : Prop :=
  exists cert, cert_from_der pin = Ok cert /\ cert_to_der cert = Ok der.

Lemma normalized_pins pins_der pins :
  mapM (fun pin => sealed (cert ← cert_from_der pin; cert_to_der cert)) pins_der = Ok pins <->
  Forall2 normalized pins_der pins.
Proof.
  rewrite mapM_Ok. split; intros Hf; (eapply Forall2_impl; [exact Hf|]);
    intros pin der; unfold normalized; by rewrite sealed_Ok, bind_Ok.
Qed.

Lemma verify_seal_with_pins_spec manifest seal pins_der now v :
  verify_seal_with_pins manifest seal pins_der now = Ok v <->
  seal <> [] /\ exists cert der pins,
    seal_authentic manifest seal cert /\ profile_ok cert now false /\
    cert_to_der cert = Ok der /\ Forall2 normalized pins_der pins /\ der ∈ pins /\
    v = mkSealVerification true true (tbs_subject_text cert) (hex_encode (sha256 der)).
Proof.
  unfold verify_seal_with_pins. split.
  - intros (v' & (Hne & cert & Ha & (der & Hd & ->))%verify_seal_Ok & (c' & Hs & H)%bind_Ok)%bind_Ok.
    eapply signer_of_authentic in Hs as ?; [|done]. subst c'.
    apply bind_Ok in H as ([] & Hp%validate_cert_profile_Ok & (d' & Hd'%sealed_Ok &
      (pins & Hpins%normalized_pins & ([] & Hin%ensure_Ok%bool_decide_eq_true & [= <-])%bind_Ok
      )%bind_Ok)%bind_Ok).
    assert (d' = der) as -> by congruence. split; [done|]. by exists cert, der, pins.
  - intros (Hne & cert & der & pins & Ha & Hp & Hd & Hpins%normalized_pins & Hin & ->).
    assert (verify_seal manifest seal =
      Ok (mkSealVerification true true (tbs_subject_text cert) (hex_encode (sha256 der)))) as ->.
    { apply verify_seal_Ok. split; [done|]. exists cert. split; [done|]. by exists der. }
    cbn. rewrite (authentic_signer_of _ _ _ Ha). cbn.
    rewrite (proj2 (validate_cert_profile_Ok cert now false) Hp). cbn. rewrite Hd. cbn.
    rewrite Hpins. cbn. by rewrite (bool_decide_eq_true_2 _ Hin).
Qed.

(** Verification against explicit pins succeeds exactly when the seal is a
    detached CMS signature on this manifest by one identified certificate, the
    certificate is within its validity and profile as a signer, all pins are
    certificates, and the signer is one of them; the reported fingerprint is
    the signer's. *)
Theorem verify_seal_with_pins_iff manifest seal pins_der now v :
  verify_seal_with_pins manifest seal pins_der now = Ok v <->
  seal <> [] /\ exists cert der pins,
    seal_authentic manifest seal cert /\ profile_ok cert now false /\
    cert_to_der cert = Ok der /\ Forall2 normalized pins_der pins /\ der ∈ pins /\
    v = mkSealVerification true true (tbs_subject_text cert) (hex_encode (sha256 der)).
Proof. apply verify_seal_with_pins_spec. Qed.

Lemma verify_seal_with_pins_Ok manifest seal pins_der now v :
  verify_seal_with_pins manifest seal pins_der now = Ok v -> verify_seal manifest seal = Ok v.
Proof. unfold verify_seal_with_pins. intros H. inv_ok. done. Qed.

Lemma verify_seal_with_anchors_Ok manifest seal anchors_der now v :
  verify_seal_with_anchors manifest seal anchors_der now = Ok v -> verify_seal manifest seal = Ok v.
Proof.
  unfold verify_seal_with_anchors. intros H. inv_ok.
  match goal with Hf : find_issuer _ _ _ = _ |- _ => by apply find_issuer_Ok in Hf as [-> _] end.
Qed.

Lemma verify_seal_with_anchors_spec manifest seal anchors_der now v :
  verify_seal_with_anchors manifest seal anchors_der now = Ok v ->
  exists cert anchor anchors,
    seal_authentic manifest seal cert /\ profile_ok cert now false /\ reports v cert /\
    Forall2 (fun der a => cert_from_der der = Ok a) anchors_der anchors /\
    Forall (fun a => profile_ok a now true) anchors /\
    anchor ∈ anchors /\ (cert = anchor \/ issued_by cert anchor).
Proof.
  unfold verify_seal_with_anchors.
  intros (v' & (Hne & cert & Ha & Hr)%verify_seal_Ok & (c' & Hs & H)%bind_Ok)%bind_Ok.
  eapply signer_of_authentic in Hs as ?; [|done]. subst c'.
  apply bind_Ok in H as ([] & Hp%validate_cert_profile_Ok & ([] & _ &
    (anchors & Han%mapM_Ok & ([] & Hall%for_each_Ok & (-> & a & Hin & Hi)%find_issuer_Ok)%bind_Ok
    )%bind_Ok)%bind_Ok).
  exists cert, a, anchors. split_and!; try done.
  - eapply Forall2_impl; [done|]. intros x y. by rewrite sealed_Ok.
  - eapply Forall_impl; [done|]. intros x. apply validate_cert_profile_Ok.
Qed.

(** C22: a seal accepted against CA anchors is a detached CMS signature on this
    manifest by one identified certificate that is within its validity and
    profile, and that certificate is a configured anchor or carries the
    signature of one; every configured anchor is a CA certificate within its
    validity. *)
Theorem verify_seal_with_anchors_sound manifest seal anchors_der now v :
  verify_seal_with_anchors manifest seal anchors_der now = Ok v ->
  exists cert anchor anchors,
    seal_authentic manifest seal cert /\ profile_ok cert now false /\ reports v cert /\
    Forall2 (fun der a => cert_from_der der = Ok a) anchors_der anchors /\
    Forall (fun a => profile_ok a now true) anchors /\
    anchor ∈ anchors /\ (cert = anchor \/ issued_by cert anchor).
Proof. apply verify_seal_with_anchors_spec. Qed.

(** One manifest digest is signed in one seal. *)
Lemma seal_authentic_digest m1 m2 seal c1 c2 :
  seal_authentic m1 seal c1 -> seal_authentic m2 seal c2 -> sha256 m1 = sha256 m2 /\ c1 = c2.
Proof.
  intros A1 A2. split.
  - destruct A1 as (ci & sd & si & at1 & ? & d & ? & Hci & _ & Hsd & Hsi & _ & _ & Hat & _ &
      [(a & Ha & Hv) Hd] & _), A2 as (ci' & sd' & si' & at2 & ? & d' & ? & Hci' & _ & Hsd' & Hsi' &
      _ & _ & Hat' & _ & [(a' & Ha' & Hv') Hd'] & _).
    simplify_eq. congruence.
  - apply authentic_signer_of in A1. by eapply signer_of_authentic in A1.
Qed.

Definition accepted_under_some_policy (manifest seal : bytes) (v : SealVerification) : Prop :=
  exists certs now, verify_seal_with_pins manifest seal certs now = Ok v \/
                    verify_seal_with_anchors manifest seal certs now = Ok v.

Lemma accepted_seal manifest seal v :
  accepted_under_some_policy manifest seal v -> verify_seal manifest seal = Ok v.
Proof.
  intros (certs & now & [H|H]); [by eapply verify_seal_with_pins_Ok|by eapply verify_seal_with_anchors_Ok].
Qed.

(** A seal cannot be moved to another manifest: whatever trust policy
    accepts it, two manifests accepted under one seal have the same SHA-256
    digest, and the same signer is reported. *)
Theorem seal_binds_manifest m1 m2 seal v1 v2 :
  accepted_under_some_policy m1 seal v1 -> accepted_under_some_policy m2 seal v2 ->
  sha256 m1 = sha256 m2 /\ v1 = v2.
Proof.
  intros (_ & c1 & A1 & d1 & Hd1 & ->)%accepted_seal%verify_seal_Ok
    (_ & c2 & A2 & d2 & Hd2 & ->)%accepted_seal%verify_seal_Ok.
  destruct (seal_authentic_digest _ _ _ _ _ A1 A2) as [? <-]. split; [done|]. congruence.
Qed.
End seal_props.

(** ** A concrete instance

    Two certificates, the root [1] and the signer [2] it issued; a signature is
    the key followed by the hash. *)
Module ToySeal.

Definition der (c : N) : bytes := [byte_of_N c].
Definition of_der (b : bytes) : result string N :=
  match b with [x] => Ok (Byte.to_N x) | _ => Err "not a certificate"%string end.
Definition p256 : AlgorithmIdentifier := mkAlgorithmIdentifier ID_EC_PUBLIC_KEY (Some [x07]).
Definition ecdsa : AlgorithmIdentifier := mkAlgorithmIdentifier ID_ECDSA_SHA256_V None.
Definition sign (c : N) (msg : bytes) : bytes := der c ++ Toy.digest msg.

(** The seal is the digest of the manifest followed by the signature. *)
Definition signed_data (b : bytes) : SignedData N :=
  mkSignedData [ID_SHA256] ID_DATA None (Some [Some 1; None; Some 2])
    [mkSignerInfo (IssuerAndSerialNumber (der 1) (der 2)) ID_SHA256
       (Some [mkAttribute ID_CONTENT_TYPE [[x01]]; mkAttribute ID_MESSAGE_DIGEST [take 32 b]])
       ID_ECDSA_SHA256_V (drop 32 b)].

#[export] Instance seal_crates : SealCrates := {
  Certificate := N;
  cert_from_der := of_der;
  cert_from_pem := of_der;
  cert_to_der c := Ok (der c);
  tbs_to_der c := Ok (der c);
  tbs_issuer _ := der 1;
  tbs_subject := der;
  tbs_subject_text c := "CN=" +:+ Toy.to_hex (der c);
  tbs_serial_number := der;
  tbs_not_before _ := 100;
  tbs_not_after _ := 200;
  tbs_extensions _ := Some ["2.5.29.15"; "2.5.29.19"]%string;
  get_key_usage c := Ok (Some (mkKeyUsage (c =? 2) (c =? 1)));
  get_basic_constraints c := Ok (Some (c =? 1));
  get_subject_key_id _ := Ok None;
  tbs_signature _ := ecdsa;
  tbs_spki c := mkSubjectPublicKeyInfo p256 (Some (der c));
  cert_signature_algorithm _ := ecdsa;
  cert_signature c := Some (sign 1 (der c));
  content_info_from_der b := Ok (mkContentInfo ID_SIGNED_DATA b);
  decode_signed_data b := Ok (signed_data b);
  decode_oid b := match b with [x01] => Ok ID_DATA | _ => Ok ID_P256 end;
  decode_octet_string b := Ok b;
  signed_attrs_to_der attrs := Ok (concat (concat (at_values <$> attrs)));
  P256Key := bytes;
  P256Signature := bytes;
  p256_from_sec1_bytes b := Ok b;
  p256_signature_from_bytes b := Ok b;
  p256_verify_prehash k h s := bool_decide (s = k ++ h);
  MlKey := bytes;
  MlSignature := bytes;
  ml_dsa_key _ b := Some b;
  ml_dsa_signature _ b := Some b;
  ml_dsa_verify _ k m s := bool_decide (s = k ++ m);
}.

(** The seal of the signer [2] on a manifest. *)
Definition seal_for (manifest : bytes) : bytes :=
  Toy.digest manifest ++ sign 2 ([x01] ++ Toy.digest manifest).
End ToySeal.

Definition toy_verification : SealVerification :=
  mkSealVerification true true "CN=02" (Toy.to_hex (Toy.digest (ToySeal.der 2))).

Lemma verify_seal_with_anchors_sound_witness :
  exists cert anchor, @seal_authentic Toy.crates ToySeal.seal_crates [x0a; x0b]
    (ToySeal.seal_for [x0a; x0b]) cert /\
    (cert = anchor \/ @issued_by Toy.crates ToySeal.seal_crates cert anchor).
Proof.
  destruct (@verify_seal_with_anchors_sound Toy.crates ToySeal.seal_crates [x0a; x0b]
    (ToySeal.seal_for [x0a; x0b]) [ToySeal.der 1] 150 toy_verification)
    as (cert & anchor & anchors & Ha & _ & _ & _ & _ & _ & Hi).
  - vm_compute. reflexivity.
  - by exists cert, anchor.
Defined.

Lemma seal_binds_manifest_witness :
  Toy.digest [x0a; x0b] = Toy.digest [x0a; x0b] /\ toy_verification = toy_verification.
Proof.
  apply (@seal_binds_manifest Toy.crates ToySeal.seal_crates [x0a; x0b] [x0a; x0b]
    (ToySeal.seal_for [x0a; x0b])).
  - exists [ToySeal.der 2], 150. left. vm_compute. reflexivity.
  - exists [ToySeal.der 1], 150. right. vm_compute. reflexivity.
Defined.
