(* ===== verification/CoreError.v ===== *)
(** * CoreError: the error type of the crate hoike-core (hoike-core/src/error.rs) *)

From stdpp Require Import base strings.
From S2P Require Import Prelude AhuError.

(** File-system paths, as their components; [[]] is the current directory. *)
Abbreviation path := (list string).

(** The variants of [CoreError].  The text of a message is kept as far as it
    tells cases apart; what [Display] adds from paths and I/O errors is not. *)
Inductive CoreError : Type :=
| EmptyRequest
| RequestTooLarge (size max : N)
| EmptyRequestList
| DerParse (context detail : string)
| GetDecode (detail : string)
| NoMatchingScope
| CoreBundle (e : AhuError)
| Config (reason : string)
| CoreEpochRollback (scope : string) (epoch high_water : N)
| EpochJumpTooLarge (scope : string) (epoch high_water jump max_jump : N)
| CoreForkDetected (scope : string)
| StateStoreError (reason : string)
| StateLock (reason : string)
| DurabilityUncertain (p : path) (reason : string)
| CoreIo (e : IoError).

(** [pub type Result<T> = std::result::Result<T, CoreError>]. *)
Abbreviation core_result := (result CoreError).
