(* ===== verification/Storage.v ===== *)
(** * Storage: the file system, atomic replacement and the writer lock
    (hoike-core/src/storage.rs)

    A model of the file system with crashes, and the two primitives built on
    it: [write_atomic] and [StateDirectoryLock::acquire].  Main results: a
    replacement is all or nothing in the presence of failures and of a crash
    at any system call, and two live guards never protect the same directory. *)

From stdpp Require Import base tactics list gmap strings pretty.
From Stdlib Require Import NArith Lia.
From S2P Require Import Prelude Crates AhuError CoreError.

(** ** The file system

    [w_files] is what programs see.  [w_synced] are the files whose contents
    were flushed since they last changed, and [w_durable] is what the disk
    holds for certain.  [w_events] decides the outcome of each system call, and
    [w_clock] are the readings of the system clock to come. *)

Inductive event := Succeeds | Fails (k : nat) | Crashes (k : nat).

Record World : Type := mkWorld {
  w_files : gmap path bytes;
  w_dirs : gset path;
  w_synced : gset path;
  w_durable : gmap path bytes;
  w_locks : gset path;
  w_resolve : path -> path;
  w_pid : N;
  w_counter : N;
  w_clock : list (option N);
  w_events : list event;
}.

Definition set_files f w := mkWorld (f (w_files w)) (w_dirs w) (w_synced w) (w_durable w)
  (w_locks w) (w_resolve w) (w_pid w) (w_counter w) (w_clock w) (w_events w).
Definition set_dirs f w := mkWorld (w_files w) (f (w_dirs w)) (w_synced w) (w_durable w)
  (w_locks w) (w_resolve w) (w_pid w) (w_counter w) (w_clock w) (w_events w).
Definition set_synced f w := mkWorld (w_files w) (w_dirs w) (f (w_synced w)) (w_durable w)
  (w_locks w) (w_resolve w) (w_pid w) (w_counter w) (w_clock w) (w_events w).
Definition set_durable f w := mkWorld (w_files w) (w_dirs w) (w_synced w) (f (w_durable w))
  (w_locks w) (w_resolve w) (w_pid w) (w_counter w) (w_clock w) (w_events w).
Definition set_locks f w := mkWorld (w_files w) (w_dirs w) (w_synced w) (w_durable w)
  (f (w_locks w)) (w_resolve w) (w_pid w) (w_counter w) (w_clock w) (w_events w).
Definition set_counter f w := mkWorld (w_files w) (w_dirs w) (w_synced w) (w_durable w)
  (w_locks w) (w_resolve w) (w_pid w) (f (w_counter w)) (w_clock w) (w_events w).
Definition set_clock c w := mkWorld (w_files w) (w_dirs w) (w_synced w) (w_durable w)
  (w_locks w) (w_resolve w) (w_pid w) (w_counter w) c (w_events w).
Definition set_events evs w := mkWorld (w_files w) (w_dirs w) (w_synced w) (w_durable w)
  (w_locks w) (w_resolve w) (w_pid w) (w_counter w) (w_clock w) evs.

(** ** Effectful computations: a result, an error, or a crash of the machine *)

Inductive outcome (E A : Type) : Type :=
| Done (a : A)
| Failed (e : E)
| Crashed.
Arguments Done {E A} a.
Arguments Failed {E A} e.
Arguments Crashed {E A}.

Definition io (E A : Type) : Type := World -> outcome E A * World.

#[export] Instance io_ret {E} : MRet (io E) := fun A a w => (Done a, w).
#[export] Instance io_bind {E} : MBind (io E) := fun A B f m w =>
  match m w with
  | (Done a, w) => f a w
  | (Failed e, w) => (Failed e, w)
  | (Crashed, w) => (Crashed, w)
  end.

Definition io_fail {E A} (e : E) : io E A := fun w => (Failed e, w).

(** A pure result among effects. *)
Definition io_lift {E A} (r : result E A) : io E A :=
  match r with Ok a => mret a | Err e => io_fail e end.

Definition io_map_err {E F A} (f : E -> F) (m : io E A) : io F A := fun w =>
  match m w with
  | (Done a, w) => (Done a, w)
  | (Failed e, w) => (Failed (f e), w)
  | (Crashed, w) => (Crashed, w)
  end.

(** The error as a value: [match m { Ok.. , Err.. }].  A crash is not caught. *)
Definition io_try {E F A} (m : io E A) : io F (result E A) := fun w =>
  match m w with
  | (Done a, w) => (Done (Ok a), w)
  | (Failed e, w) => (Done (Err e), w)
  | (Crashed, w) => (Crashed, w)
  end.

Fixpoint io_for_each {E A} (f : A -> io E unit) (l : list A) : io E unit :=
  match l with
  | [] => mret tt
  | x :: l => f x ;; io_for_each f l
  end.

Fixpoint io_fold {E A S} (f : S -> A -> io E S) (s : S) (l : list A) : io E S :=
  match l with
  | [] => mret s
  | x :: l => s' ← f s x; io_fold f s' l
  end.

(** ** System calls *)

(** [act] is the call when it is allowed to proceed; an injected failure
    leaves [on_fail], a crash during the call leaves [on_crash]. *)
Definition syscall {A} (act : World -> outcome IoError A * World)
    (on_fail on_crash : nat -> World -> World) : io IoError A := fun w =>
  match w_events w with
  | [] => act w
  | ev :: evs =>
      let w := set_events evs w in
      match ev with
      | Succeeds => act w
      | Fails k => (Failed (IoOther "I/O error"), on_fail k w)
      | Crashes k => (Crashed, on_crash k w)
      end
  end.

Definition unchanged (k : nat) (w : World) : World := w.

Definition not_found : IoError := IoOther "not found".

Definition parent_dir (p : path) : path := removelast p.

Definition ancestors (p : path) : gset path :=
  list_to_set ((fun n => take n p) <$> seq 0 (S (length p))).

Definition create_dir_all (p : path) : io IoError unit :=
  syscall (fun w => (Done tt, set_dirs (fun ds => ds ∪ ancestors p) w)) unchanged unchanged.

(** A file's contents changed: they are no longer flushed. *)
Definition put_file (p : path) (b : bytes) (w : World) : World :=
  set_synced (fun s => s ∖ {[p]}) (set_files <[p := b]> w).

(** [OpenOptions::new().write(true).create_new(true)]. *)
Definition create_new (p : path) : io IoError unit :=
  syscall (fun w =>
    match w_files w !! p with
    | Some _ => (Failed (IoOther "already exists"), w)
    | None => (Done tt, put_file p [] w)
    end) unchanged unchanged.

Definition contents (w : World) (p : path) : bytes := default [] (w_files w !! p).

(** [write_all]: a failure or a crash may leave any prefix. *)
Definition write_all (p : path) (b : bytes) : io IoError unit :=
  let partial k w := put_file p (contents w p ++ take k b) w in
  syscall (fun w => (Done tt, put_file p (contents w p ++ b) w)) partial partial.

Definition sync_all (p : path) : io IoError unit :=
  syscall (fun w => (Done tt, set_synced (fun s => s ∪ {[p]}) w)) unchanged unchanged.

Definition do_rename (a b : path) (w : World) : World :=
  set_synced (fun s => if decide (a ∈ s) then (s ∖ {[a]}) ∪ {[b]} else (s ∖ {[a]}) ∖ {[b]})
    (set_files (fun fs => <[b := contents w a]> (delete a fs)) w).

(** [rename] is atomic: a crash leaves it done or not done. *)
Definition rename (a b : path) : io IoError unit :=
  syscall (fun w =>
    match w_files w !! a with
    | Some _ => (Done tt, do_rename a b w)
    | None => (Failed not_found, w)
    end) unchanged
    (fun k w => match k, w_files w !! a with S _, Some _ => do_rename a b w | _, _ => w end).

(** Flushing a directory makes its entries, with flushed contents, durable. *)
Definition do_sync_dir (d : path) (w : World) : World :=
  set_durable (fun dur =>
    filter (fun '(p, _) => parent_dir p <> d) dur ∪
    filter (fun '(p, _) => parent_dir p = d /\ p ∈ w_synced w) (w_files w)) w.

Definition sync_dir (d : path) : io IoError unit :=
  syscall (fun w => (Done tt, do_sync_dir d w)) unchanged unchanged.

Definition remove_file (p : path) : io IoError unit :=
  syscall (fun w =>
    match w_files w !! p with
    | Some _ => (Done tt, set_synced (fun s => s ∖ {[p]}) (set_files (delete p) w))
    | None => (Failed not_found, w)
    end) unchanged unchanged.

Definition read_file (p : path) : io IoError bytes :=
  syscall (fun w => match w_files w !! p with
                    | Some b => (Done b, w)
                    | None => (Failed not_found, w)
                    end) unchanged unchanged.

Definition present (w : World) (p : path) : bool :=
  bool_decide (is_Some (w_files w !! p)) || bool_decide (p ∈ w_dirs w).

(** [Path::exists]: false also when the query fails. *)
Definition path_exists {E} (p : path) : io E bool := fun w =>
  match io_try (E := IoError) (F := E) (syscall (fun w => (Done (present w p), w)) unchanged unchanged) w with
  | (Done (Ok b), w) => (Done b, w)
  | (Done (Err _), w) => (Done false, w)
  | (Failed e, w) => (Failed e, w)
  | (Crashed, w) => (Crashed, w)
  end.

(** [read_dir]: the paths of the entries, in no particular order. *)
Definition dir_entries (w : World) (d : path) : list path :=
  elements (filter (fun p => p <> [] /\ parent_dir p = d) (dom (w_files w) ∪ w_dirs w)).
Definition read_dir (d : path) : io IoError (list path) :=
  syscall (fun w => if decide (d ∈ w_dirs w) then (Done (dir_entries w d), w)
                    else (Failed not_found, w)) unchanged unchanged.

Definition canonicalize (p : path) : io IoError path :=
  syscall (fun w => if present w p then (Done (w_resolve w p), w) else (Failed not_found, w))
    unchanged unchanged.

(** [SystemTime::now().duration_since(UNIX_EPOCH)] in seconds; [None] is a clock
    set before the epoch. *)
Definition read_clock {E} : io E (option N) := fun w =>
  match w_clock w with
  | [] => (Done None, w)
  | t :: ts => (Done t, set_clock ts w)
  end.

(** ** [write_atomic] *)

Definition tmp_name (pid n : N) : string :=
  ".hoike-" +:+ pretty pid +:+ "-" +:+ pretty n +:+ ".tmp".

(** [COUNTER.fetch_add] and [process::id]. *)
Definition next_tmp {E} : io E string := fun w =>
  (Done (tmp_name (w_pid w) (w_counter w)), set_counter N.succ w).

Definition write_atomic (p : path) (b : bytes) : io CoreError unit :=
  let parent := parent_dir p in
  io_map_err (fun _ => StateStoreError "cannot create directory") (create_dir_all parent) ;;
  name ← next_tmp;
  let tmp := parent ++ [name] in
  result ← io_try (
    io_map_err CoreIo (create_new tmp) ;;
    io_map_err CoreIo (write_all tmp b) ;;
    io_map_err CoreIo (sync_all tmp) ;;
    io_map_err CoreIo (rename tmp p) ;;
    dir_fsync ← io_try (sync_dir parent);
    match dir_fsync with
    | Err _ => io_fail (DurabilityUncertain p "directory fsync failed after replacing the file")
    | Ok _ => mret tt
    end);
  match result with
  | Err e => io_try (E := IoError) (remove_file tmp) ;; io_fail e
  | Ok _ => mret tt
  end.

(** ** The writer lock *)

Definition WRITER_LOCK_FILE : string := ".writer.lock".

(** [StateDirectoryLock]: the open lock file and the canonical directory. *)
Record StateDirectoryLock : Type := mkStateDirectoryLock {
  sdl_file : path;
  sdl_state_dir : path;
}.

Definition open_lock_file (p : path) : io IoError unit :=
  syscall (fun w => match w_files w !! p with
                    | Some _ => (Done tt, w)
                    | None => (Done tt, put_file p [] w)
                    end) unchanged unchanged.

(** [flock(.., NonBlockingLockExclusive)]: [EAGAIN] while the lock is held. *)
Definition lock_exclusive (p : path) : io CoreError unit :=
  io_map_err (fun e => match e with
    | WouldBlock => StateLock "another writer process holds the state directory lock"
    | _ => StateLock "failed to lock"
    end)
    (syscall (fun w => if decide (p ∈ w_locks w) then (Failed WouldBlock, w)
                       else (Done tt, set_locks (fun ls => ls ∪ {[p]}) w)) unchanged unchanged).

(** [StateDirectoryLock::acquire]. *)
Definition acquire (state_dir : path) : io CoreError StateDirectoryLock :=
  io_map_err (fun _ => StateLock "failed to create state directory") (create_dir_all state_dir) ;;
  canonical ← io_map_err (fun _ => StateLock "failed to resolve state directory")
                (canonicalize state_dir);
  let lock_path := canonical ++ [WRITER_LOCK_FILE] in
  io_map_err (fun _ => StateLock "failed to open writer lock") (open_lock_file lock_path) ;;
  lock_exclusive lock_path ;;
  mret (mkStateDirectoryLock lock_path canonical).

(** Dropping the guard closes the file and releases the kernel lock. *)
Definition drop_lock (g : StateDirectoryLock) (w : World) : World :=
  set_locks (fun ls => ls ∖ {[sdl_file g]}) w.

(** ** Reasoning about effects *)

Definition io_spec {E A} (m : io E A) (w : World) (Q : outcome E A -> World -> Prop) : Prop :=
  Q (m w).1 (m w).2.

Section io_rules.
Context {E F A B : Type}.

Lemma io_spec_ret (a : A) w (Q : outcome E A -> World -> Prop) :
  Q (Done a) w -> io_spec (mret a) w Q.
Proof. done. Qed.

Lemma io_spec_bind (m : io E A) (f : A -> io E B) w Q :
  io_spec m w (fun o w' =>
    match o with
    | Done a => io_spec (f a) w' Q
    | Failed e => Q (Failed e) w'
    | Crashed => Q Crashed w'
    end) -> io_spec (m ≫= f) w Q.
Proof.
  unfold io_spec, mbind, io_bind. destruct (m w) as [[a|e|] w']; done.
Qed.

Lemma io_spec_map_err (f : E -> F) (m : io E A) w Q :
  io_spec m w (fun o w' =>
    match o with Done a => Q (Done a) w' | Failed e => Q (Failed (f e)) w' | Crashed => Q Crashed w' end) ->
  io_spec (io_map_err f m) w Q.
Proof. unfold io_spec, io_map_err. destruct (m w) as [[a|e|] w']; done. Qed.

Lemma io_spec_try (m : io E A) w (Q : outcome F (result E A) -> World -> Prop) :
  io_spec m w (fun o w' =>
    match o with
    | Done a => Q (Done (Ok a)) w'
    | Failed e => Q (Done (Err e)) w'
    | Crashed => Q Crashed w'
    end) -> io_spec (io_try m) w Q.
Proof. unfold io_spec, io_try. destruct (m w) as [[a|e|] w']; done. Qed.

Lemma io_spec_mono (m : io E A) w (P Q : outcome E A -> World -> Prop) :
  io_spec m w P -> (forall o w', P o w' -> Q o w') -> io_spec m w Q.
Proof. unfold io_spec. eauto. Qed.

Lemma io_spec_and (m : io E A) w (P Q : outcome E A -> World -> Prop) :
  io_spec m w P -> io_spec m w Q -> io_spec m w (fun o w' => P o w' /\ Q o w').
Proof. done. Qed.

Lemma io_spec_forall {X} (m : io E A) w (P : X -> Prop) (Q : X -> outcome E A -> World -> Prop) :
  (forall x, P x -> io_spec m w (Q x)) -> io_spec m w (fun o w' => forall x, P x -> Q x o w').
Proof. done. Qed.
End io_rules.

Lemma set_events_id w : set_events (w_events w) w = w.
Proof. by destruct w. Qed.

Lemma io_spec_syscall {A} act on_fail on_crash w (Q : outcome IoError A -> World -> Prop) :
  (forall evs, Q (act (set_events evs w)).1 (act (set_events evs w)).2) ->
  (forall k evs, Q (Failed (IoOther "I/O error")) (on_fail k (set_events evs w))) ->
  (forall k evs, Q Crashed (on_crash k (set_events evs w))) ->
  io_spec (syscall act on_fail on_crash) w Q.
Proof.
  intros Ha Hf Hc. unfold io_spec, syscall. destruct (w_events w) as [|[] evs] eqn:E; cbn; try done.
  specialize (Ha (w_events w)). by rewrite set_events_id in Ha.
Qed.

(** ** Crashes *)

(** The file at [p] is flushed and its directory entry is on disk. *)
Definition stable (w : World) (p : path) : Prop :=
  w_durable w !! p = w_files w !! p /\ (is_Some (w_files w !! p) -> p ∈ w_synced w).

(** The contents a restart may find at [p]: what is durable, what was visible
    if it was flushed, and anything at all if it was not. *)
Definition after_crash (w : World) (p : path) (c : option bytes) : Prop :=
  c = w_durable w !! p \/
  (c = w_files w !! p /\ (is_Some c -> p ∈ w_synced w)) \/
  (is_Some c /\ is_Some (w_files w !! p) /\ p ∉ w_synced w).

Lemma stable_after_crash w p c : stable w p -> after_crash w p c -> c = w_files w !! p.
Proof. intros [Hd Hs] [->|[[-> _]|(_ & Hf & Hn)]]; [done|done|]. by destruct Hn; apply Hs. Qed.

(** Everything except [t] is as it was. *)
Definition only_at (t : path) (w w' : World) : Prop :=
  w_durable w' = w_durable w /\
  forall q, q <> t -> w_files w' !! q = w_files w !! q /\ (q ∈ w_synced w' <-> q ∈ w_synced w).

Lemma only_at_refl t w : only_at t w w.
Proof. split; [done|]. by intros. Qed.

Lemma only_at_same t w w' :
  w_files w' = w_files w -> w_synced w' = w_synced w -> w_durable w' = w_durable w ->
  only_at t w w'.
Proof. intros Hf Hs Hd. split; [done|]. intros q _. by rewrite Hf, Hs. Qed.

Lemma only_at_trans t w1 w2 w3 : only_at t w1 w2 -> only_at t w2 w3 -> only_at t w1 w3.
Proof.
  intros [D1 H1] [D2 H2]. split; [congruence|]. intros q Hq.
  destruct (H1 q Hq), (H2 q Hq). split; [congruence|]. naive_solver.
Qed.

Lemma only_at_stable t w w' q : only_at t w w' -> q <> t -> stable w q -> stable w' q.
Proof. intros [Hd H] Hq [S1 S2]. destruct (H q Hq) as [Hf Hs]. split; rewrite ?Hd, ?Hf, ?Hs; done. Qed.

(** ** The steps of a replacement *)

Lemma only_at_put t b evs w : only_at t w (put_file t b (set_events evs w)).
Proof. split; [done|]. intros q Hq. cbn. rewrite lookup_insert_ne by done. set_solver. Qed.

Lemma create_dir_all_spec t d w :
  io_spec (create_dir_all d) w (fun _ w' => only_at t w w').
Proof. apply io_spec_syscall; intros; by apply only_at_same. Qed.

Lemma create_new_spec t w :
  io_spec (create_new t) w (fun o w' => only_at t w w' /\
    (o = Done tt -> w_files w' !! t = Some [])).
Proof.
  apply io_spec_syscall; intros; [|split; [by apply only_at_same|done]..].
  cbn. destruct (w_files w !! t); [split; [by apply only_at_same|done]|].
  split; [apply only_at_put|]. intros _. cbn. by rewrite lookup_insert_eq.
Qed.

Lemma write_all_spec t b w :
  w_files w !! t = Some [] ->
  io_spec (write_all t b) w (fun o w' => only_at t w w' /\
    (o = Done tt -> w_files w' !! t = Some b)).
Proof.
  intros Ht. unfold write_all. apply io_spec_syscall; intros; split; try done; try apply only_at_put.
  intros _. cbn. unfold contents. cbn. by rewrite lookup_insert_eq, Ht.
Qed.

Lemma sync_all_spec t b w :
  w_files w !! t = Some b ->
  io_spec (sync_all t) w (fun o w' => only_at t w w' /\
    (o = Done tt -> w_files w' !! t = Some b /\ t ∈ w_synced w')).
Proof.
  intros Ht. apply io_spec_syscall; intros; split; try done; try by apply only_at_same.
  - split; [done|]. intros q Hq. cbn. set_solver.
  - intros _. cbn. split; [done|set_solver].
Qed.

Lemma remove_file_spec t w : io_spec (remove_file t) w (fun _ w' => only_at t w w').
Proof.
  apply io_spec_syscall; intros; try by apply only_at_same.
  cbn. destruct (w_files w !! t); [|by apply only_at_same].
  split; [done|]. intros q Hq. cbn. rewrite lookup_delete_ne by done. set_solver.
Qed.

(** The file at [p] now holds [b], flushed but with the old entry on disk. *)
Definition replaced (t p : path) (b : bytes) (w w' : World) : Prop :=
  w_durable w' = w_durable w /\ w_files w' !! p = Some b /\ p ∈ w_synced w' /\
  forall q, q <> t -> q <> p -> w_files w' !! q = w_files w !! q /\ (q ∈ w_synced w' <-> q ∈ w_synced w).

Lemma do_rename_replaced t p b w w' :
  t <> p -> only_at t w w' -> w_files w' !! t = Some b -> t ∈ w_synced w' ->
  replaced t p b w (do_rename t p w').
Proof.
  intros Hne [Hd H] Ht Hs. unfold do_rename, contents. rewrite Ht. cbn. split_and!.
  - done.
  - cbn. by rewrite lookup_insert_eq.
  - cbn. rewrite decide_True by done. set_solver.
  - intros q Hq Hqp. destruct (H q Hq) as [Hf Hsy]. cbn.
    rewrite lookup_insert_ne, lookup_delete_ne by done. rewrite decide_True by done.
    split; [done|]. rewrite <- Hsy. set_solver.
Qed.

Lemma rename_spec t p b w w0 :
  t <> p -> only_at t w0 w -> w_files w !! t = Some b -> t ∈ w_synced w ->
  io_spec (rename t p) w (fun o w' =>
    match o with
    | Done _ => replaced t p b w0 w'
    | Failed _ => only_at t w0 w'
    | Crashed => only_at t w0 w' \/ replaced t p b w0 w'
    end).
Proof.
  intros Hne Ho Ht Hs. apply io_spec_syscall; intros; cbn; try done.
  - rewrite Ht. by apply do_rename_replaced.
  - rewrite Ht. destruct k; [by left|]. right. by apply do_rename_replaced.
Qed.

Lemma do_sync_dir_durable d w q :
  w_durable (do_sync_dir d w) !! q =
  if decide (parent_dir q = d) then
    (if decide (q ∈ w_synced w) then w_files w !! q else None)
  else w_durable w !! q.
Proof.
  cbn. rewrite lookup_union, !map_lookup_filter.
  destruct (decide (parent_dir q = d)) as [Hp|Hp].
  - destruct (w_durable w !! q); cbn; rewrite ?option_guard_False by tauto; cbn.
    all: destruct (w_files w !! q) eqn:E; cbn; case_decide as Hs;
      rewrite ?option_guard_True, ?option_guard_False by tauto; done.
  - destruct (w_durable w !! q); cbn; rewrite ?option_guard_True by tauto; cbn;
      destruct (w_files w !! q); cbn; rewrite ?option_guard_False by tauto; done.
Qed.

Lemma do_sync_dir_stable d w q : stable w q -> stable (do_sync_dir d w) q.
Proof.
  intros [Hd Hs]. split; [|done]. rewrite do_sync_dir_durable. cbn.
  case_decide; [|done]. case_decide as Hq; [done|].
  destruct (w_files w !! q) eqn:E; [|done]. by destruct Hq; apply Hs.
Qed.

(** Names the temporary files of [write_atomic] may have. *)
Definition tmp_path (p : path) : Prop := exists d pid n, p = d ++ [tmp_name pid n].

(** The effect of a replacement of [p] by [b] on the rest of the file system. *)
Definition untouched (p : path) (w w' : World) : Prop :=
  forall q, q <> p -> ~ tmp_path q ->
    w_files w' !! q = w_files w !! q /\ (stable w q -> stable w' q).

(** The effect on [p], by outcome. *)
Definition replacement (p : path) (b : bytes) (w : World) (o : outcome CoreError unit)
    (w' : World) : Prop :=
  match o with
  | Done _ => w_files w' !! p = Some b /\ stable w' p
  | Failed (DurabilityUncertain _ _) => w_files w' !! p = Some b /\
      forall c, stable w p -> after_crash w' p c -> c = w_files w !! p \/ c = Some b
  | Failed _ => w_files w' !! p = w_files w !! p /\ (stable w p -> stable w' p)
  | Crashed => forall c, stable w p -> after_crash w' p c -> c = w_files w !! p \/ c = Some b
  end.

Lemma only_at_untouched t p w w' : tmp_path t -> only_at t w w' -> untouched p w w'.
Proof.
  intros Ht Ho q _ Hq. assert (q <> t) as Hne by congruence.
  split; [by apply Ho|]. by eapply only_at_stable.
Qed.

Lemma only_at_replacement t p b w o w' :
  t <> p -> only_at t w w' ->
  (o = Crashed \/ exists e, o = Failed e /\ forall q r, e <> DurabilityUncertain q r) ->
  replacement p b w o w'.
Proof.
  intros Hne Ho Hcase. assert (w_files w' !! p = w_files w !! p) as Hf by (by apply Ho).
  assert (stable w p -> stable w' p) as Hst by (by eapply only_at_stable).
  destruct Hcase as [->|(e & -> & He)]; cbn.
  - intros c Hp Hc. left. rewrite <- Hf. by apply stable_after_crash; [apply Hst|].
  - destruct e; try done. by edestruct He.
Qed.

Lemma replaced_after_crash t p b w w' c :
  replaced t p b w w' -> stable w p -> after_crash w' p c -> c = w_files w !! p \/ c = Some b.
Proof.
  intros (Hd & Hf & Hs & _) [Hsd _] [->|[[-> _]|(_ & _ & Hn)]]; [left|right|done]; congruence.
Qed.

Lemma replaced_untouched t p b w w' : tmp_path t -> replaced t p b w w' -> untouched p w w'.
Proof.
  intros Ht (Hd & _ & _ & H) q Hqp Hq. destruct (H q) as [Hf Hs]; [congruence|done|].
  split; [done|]. intros [S1 S2]. split; rewrite ?Hd, ?Hf, ?Hs; done.
Qed.

Lemma sync_dir_spec t p b w w' :
  tmp_path t -> replaced t p b w w' ->
  io_spec (sync_dir (parent_dir p)) w' (fun o w'' => untouched p w w'' /\
    match o with
    | Done _ => w_files w'' !! p = Some b /\ stable w'' p
    | _ => replaced t p b w w''
    end).
Proof.
  intros Ht Hr. pose proof (replaced_untouched _ _ _ _ _ Ht Hr) as Hu.
  apply io_spec_syscall; intros; cbn [fst snd]; [|done..].
  split.
  - intros q Hqp Hq. destruct (Hu q Hqp Hq) as [Hf Hst]. split; [done|].
    intros Hs%Hst. exact (do_sync_dir_stable (parent_dir p) (set_events evs w') q Hs).
  - destruct Hr as (Hd & Hf & Hs & _). split; [done|]. split; [|done].
    rewrite do_sync_dir_durable. rewrite decide_True by done. by rewrite decide_True.
Qed.

Lemma remove_after t p b w o w' :
  tmp_path t -> t <> p -> replacement p b w o w' -> untouched p w w' ->
  io_spec (io_try (E := IoError) (F := CoreError) (remove_file t)) w' (fun o' w'' =>
    (forall e, o' <> Failed e) /\ untouched p w w'' /\
    (o' <> Crashed -> replacement p b w o w'') /\
    (o' = Crashed -> o <> Done tt -> replacement p b w Crashed w'')).
Proof.
  intros Ht Hne Hr Hu. apply io_spec_try. eapply io_spec_mono; [apply remove_file_spec|].
  intros o' w'' Ho. assert (untouched p w w'') as Hu'.
  { intros q Hqp Hq. destruct (Hu q Hqp Hq) as [Hf Hs].
    destruct (only_at_untouched t p _ _ Ht Ho q Hqp Hq) as [Hf' Hs']. split; [congruence|tauto]. }
  assert (forall c, after_crash w'' p c -> after_crash w' p c) as Hac.
  { destruct Ho as [Hd H]. destruct (H p) as [Hf Hs]; [done|]. intros c.
    unfold after_crash. by rewrite Hd, Hf, Hs. }
  assert (w_files w'' !! p = w_files w' !! p) as Hf by (by apply Ho).
  assert (stable w' p -> stable w'' p) as Hst by (apply (only_at_stable t w' w'' p Ho); congruence).
  assert (replacement p b w o w'' /\ (o <> Done tt -> replacement p b w Crashed w'')) as [H1 H2].
  { unfold replacement in *. destruct o as [[]|e|].
    - destruct Hr as [Hr1 Hr2]. split; [|done]. split; [congruence|by apply Hst].
    - assert ((forall q r, e <> DurabilityUncertain q r) -> w_files w' !! p = w_files w !! p ->
        (stable w p -> stable w' p) ->
        forall c, stable w p -> after_crash w'' p c -> c = w_files w !! p \/ c = Some b) as Hplain.
      { intros _ E1 E2 c Hp Hc. left. rewrite <- E1, <- Hf. apply stable_after_crash; tauto. }
      rewrite Hf. destruct e; destruct Hr as [Hr1 Hr2];
        (split; [split; [done|]; first [by intros Hp; apply Hst, Hr2 | by intros c Hp Hc; apply Hr2, Hac]|]);
        intros _; first [by apply Hplain | by intros c Hp Hc; apply Hr2, Hac].
    - split; [|intros _]; intros c Hp Hc; (apply Hr; [done|by apply Hac]). }
  destruct o'; split_and!; try done; intros; by apply H2.
Qed.

Lemma tmp_path_snoc d pid n : tmp_path (d ++ [tmp_name pid n]).
Proof. by exists d, pid, n. Qed.

(** The closure of [write_atomic]: create, write, flush, rename, flush the directory. *)
Lemma replace_steps_spec t p b w :
  tmp_path t -> t <> p ->
  io_spec (io_map_err CoreIo (create_new t) ;;
    io_map_err CoreIo (write_all t b) ;;
    io_map_err CoreIo (sync_all t) ;;
    io_map_err CoreIo (rename t p) ;;
    dir_fsync ← io_try (sync_dir (parent_dir p));
    match dir_fsync with
    | Err _ => io_fail (DurabilityUncertain p "directory fsync failed after replacing the file")
    | Ok _ => mret tt
    end) w (fun o w' => untouched p w w' /\ replacement p b w o w').
Proof.
  intros Ht Hne.
  assert (forall e w', only_at t w w' ->
    untouched p w w' /\ replacement p b w (Failed (CoreIo e)) w') as Hfail.
  { intros e w' Ho. split; [by eapply only_at_untouched|].
    eapply only_at_replacement; [done|done|]. right. by eexists. }
  assert (forall w', only_at t w w' -> untouched p w w' /\ replacement p b w Crashed w') as Hcrash.
  { intros w' Ho. split; [by eapply only_at_untouched|].
    eapply only_at_replacement; [done|done|by left]. }
  apply io_spec_bind, io_spec_map_err. eapply io_spec_mono; [apply create_new_spec|].
  intros [[]|e|] w1 [Ho1 Hf1]; [|by apply Hfail|by apply Hcrash].
  apply io_spec_bind, io_spec_map_err. eapply io_spec_mono; [by apply write_all_spec, Hf1|].
  intros [[]|e|] w2 [Ho2 Hf2]; pose proof (only_at_trans _ _ _ _ Ho1 Ho2) as Ho2';
    [|by apply Hfail|by apply Hcrash].
  apply io_spec_bind, io_spec_map_err. eapply io_spec_mono; [by apply (sync_all_spec t b), Hf2|].
  intros [[]|e|] w3 [Ho3 Hf3]; pose proof (only_at_trans _ _ _ _ Ho2' Ho3) as Ho3';
    [|by apply Hfail|by apply Hcrash].
  destruct (Hf3 eq_refl) as [Hf3' Hs3].
  apply io_spec_bind, io_spec_map_err. eapply io_spec_mono; [by apply (rename_spec t p b _ w)|].
  intros [[]|e|] w4 H4; [|by apply Hfail|].
  2: { destruct H4 as [H4|H4]; [by apply Hcrash|]. split; [by eapply replaced_untouched|].
       intros c. by eapply replaced_after_crash. }
  apply io_spec_bind, io_spec_try. eapply io_spec_mono; [by apply (sync_dir_spec t p b w)|].
  intros [[]|e|] w5 [Hu5 H5]; (split; [done|]).
  - done.
  - destruct H5 as (Hd & Hf & Hs & Hq). cbn. split; [done|]. intros c.
    by apply (replaced_after_crash t p b w w5).
  - intros c. by eapply replaced_after_crash.
Qed.

Lemma write_atomic_spec p b w :
  ~ tmp_path p ->
  io_spec (write_atomic p b) w (fun o w' => untouched p w w' /\ replacement p b w o w').
Proof.
  intros Hp. unfold write_atomic.
  set (t := parent_dir p ++ [tmp_name (w_pid w) (w_counter w)]).
  assert (tmp_path t) as Ht by apply tmp_path_snoc.
  assert (t <> p) as Hne by congruence.
  apply io_spec_bind, io_spec_map_err, io_spec_syscall; intros; cbn [fst snd].
  - apply io_spec_bind. unfold next_tmp, io_spec at 1. cbn [fst snd].
    match goal with |- io_spec _ ?w0 _ => set (w1 := w0) end.
    assert (only_at t w w1) as Hw1 by (by apply only_at_same).
    assert (w_files w1 = w_files w) as Hf1 by done.
    change (tmp_name _ _) with (tmp_name (w_pid w) (w_counter w)). fold t.
    apply io_spec_bind, io_spec_try. eapply io_spec_mono; [by apply (replace_steps_spec t p b)|].
    assert (forall w', untouched p w1 w' -> untouched p w w') as Hu.
    { intros w' H q Hq Hqt. destruct (H q Hq Hqt) as [E1 E2]. by rewrite Hf1 in E1. }
    assert (forall o w', replacement p b w1 o w' -> replacement p b w o w') as Hrep.
    { intros o w'. unfold replacement, stable, after_crash. done. }
    intros [[]|e|] w2 [Hu2 Hr2].
    + split; [by apply Hu|by apply Hrep].
    + apply io_spec_bind. eapply io_spec_mono; [by apply (remove_after t p b w1 (Failed e))|].
      intros o w3 (Hnf & Hu3 & H1 & H2). destruct o as [r|e'|]; [|by destruct (Hnf e')|].
      * split; [by apply Hu|]. apply Hrep. by apply H1.
      * split; [by apply Hu|]. apply Hrep. by apply H2.
    + split; [by apply Hu|by apply Hrep].
  - split; [by apply (only_at_untouched t); [|apply only_at_same]|].
    apply (only_at_replacement t); [done|by apply only_at_same|]. right. by eexists.
  - split; [by apply (only_at_untouched t); [|apply only_at_same]|].
    apply (only_at_replacement t); [done|by apply only_at_same|]. by left.
Qed.

(** C16: atomic replacement is all or nothing, whatever system call fails or is
    interrupted by a crash.  Success means the new contents are visible and
    durable; an error other than "durability uncertain" means the old contents
    are still there; after "durability uncertain", or a crash at any point, a
    restart finds the complete old or the complete new contents and never a
    mixture; and no other file is affected. *)
Theorem write_atomic_all_or_nothing p b w :
  ~ tmp_path p -> stable w p ->
  let '(o, w') := write_atomic p b w in
  (match o with
   | Done _ => w_files w' !! p = Some b /\ forall c, after_crash w' p c -> c = Some b
   | Failed (DurabilityUncertain _ _) => w_files w' !! p = Some b /\
       forall c, after_crash w' p c -> c = w_files w !! p \/ c = Some b
   | Failed _ => w_files w' !! p = w_files w !! p /\
       forall c, after_crash w' p c -> c = w_files w !! p
   | Crashed => forall c, after_crash w' p c -> c = w_files w !! p \/ c = Some b
   end) /\
  forall q, q <> p -> ~ tmp_path q -> w_files w' !! q = w_files w !! q.
Proof.
  intros Hp Hst. pose proof (write_atomic_spec p b w Hp) as H. unfold io_spec in H.
  destruct (write_atomic p b w) as [o w']. cbn in H. destruct H as [Hu Hr]. split.
  - assert (w_files w' !! p = w_files w !! p -> (stable w p -> stable w' p) ->
      w_files w' !! p = w_files w !! p /\ forall c, after_crash w' p c -> c = w_files w !! p) as Hold.
    { intros E HS. split; [done|]. intros c Hc. rewrite <- E. apply stable_after_crash; [tauto|done]. }
    destruct o as [[]|e|]; cbn in Hr.
    + destruct Hr as [Hf Hs]. split; [done|]. intros c Hc. rewrite <- Hf.
      by apply stable_after_crash.
    + destruct e; try (destruct Hr; apply Hold; done). destruct Hr as [Hf Hc]. split; [done|].
      intros c. by apply Hc.
    + intros c. by apply Hr.
  - intros q Hq Hqt. by apply Hu.
Qed.

(** ** Mutual exclusion of writers *)

Lemma acquire_spec d w :
  io_spec (acquire d) w (fun o w' =>
    match o with
    | Done g => sdl_file g = sdl_state_dir g ++ [WRITER_LOCK_FILE] /\
        (sdl_file g ∉ w_locks w) /\ w_locks w' = w_locks w ∪ {[sdl_file g]}
    | Failed e => w_locks w' = w_locks w /\ exists r, e = StateLock r
    | Crashed => w_locks w' = w_locks w
    end).
Proof.
  unfold acquire. apply io_spec_bind, io_spec_map_err, io_spec_syscall; intros; cbn [fst snd];
    [|by eauto..].
  apply io_spec_bind, io_spec_map_err, io_spec_syscall; intros; [|by cbn; eauto..].
  destruct (present _ d); cbn [fst snd]; [|by cbn; eauto].
  apply io_spec_bind, io_spec_map_err, io_spec_syscall; intros; [|by cbn; eauto..].
  match goal with |- match (match ?x with _ => _ end).1 with _ => _ end => destruct x end; cbn [fst snd].
  all: apply io_spec_bind; unfold lock_exclusive; apply io_spec_map_err, io_spec_syscall; intros;
    [|by cbn; eauto..]; case_decide; cbn [fst snd]; [by cbn; eauto|]; by apply io_spec_ret.
Qed.

(** Processes that take and drop writer locks, and do anything else between. *)
Inductive lock_step : World * list StateDirectoryLock -> World * list StateDirectoryLock -> Prop :=
| step_acquired d w g w' gs :
    acquire d w = (Done g, w') -> lock_step (w, gs) (w', g :: gs)
| step_refused d w o w' gs :
    acquire d w = (o, w') -> (forall g, o <> Done g) -> lock_step (w, gs) (w', gs)
| step_dropped g gs1 gs2 w :
    lock_step (w, gs1 ++ g :: gs2) (drop_lock g w, gs1 ++ gs2)
| step_other w w' gs : w_locks w' = w_locks w -> lock_step (w, gs) (w', gs).

(** Every live guard holds the lock file of its directory; no two share one. *)
Definition locks_inv (s : World * list StateDirectoryLock) : Prop :=
  Forall (fun g => sdl_file g = sdl_state_dir g ++ [WRITER_LOCK_FILE] /\
    sdl_file g ∈ w_locks s.1) s.2 /\ NoDup (sdl_file <$> s.2).

Lemma lock_step_inv s s' : locks_inv s -> lock_step s s' -> locks_inv s'.
Proof.
  intros [Hf Hnd] Hstep. destruct Hstep as [d w g w' gs H|d w o w' gs H Hno|g gs1 gs2 w|w w' gs H];
    unfold locks_inv in *; cbn [fst snd] in *.
  - pose proof (acquire_spec d w) as Hs. unfold io_spec in Hs. rewrite H in Hs. cbn in Hs.
    destruct Hs as (Hg & Hnew & Hl). split.
    + constructor; [split; [done|set_solver]|]. eapply Forall_impl; [done|]. set_solver.
    + rewrite fmap_cons. constructor; [|done]. intros (g' & Heq & Hin)%list_elem_of_fmap.
      rewrite Forall_forall in Hf. destruct (Hf g' Hin). congruence.
  - pose proof (acquire_spec d w) as Hs. unfold io_spec in Hs. rewrite H in Hs. cbn in Hs.
    assert (w_locks w' = w_locks w) as -> by (destruct o; naive_solver). done.
  - rewrite fmap_app, fmap_cons in *. apply NoDup_app in Hnd as (N1 & N12 & [Hg N2]%NoDup_cons).
    split.
    + apply Forall_app in Hf as [F1 [_ F2]%Forall_cons]. apply Forall_app.
      split; apply Forall_forall; intros x Hx; rewrite Forall_forall in F1, F2;
        (assert (sdl_file x <> sdl_file g) as Hne;
          [|split; [naive_solver|cbn; specialize (F1 x); specialize (F2 x); set_solver]]).
      * intros E. apply (N12 (sdl_file x)); [by apply list_elem_of_fmap_2|]. rewrite E. left.
      * intros E. apply Hg. rewrite <- E. by apply list_elem_of_fmap_2.
    + apply NoDup_app. split_and!; [done| |done]. intros x Hx1 Hx2. by apply (N12 x); [|right].
  - by rewrite H.
Qed.

(** C37: one writer per state directory: in every state reachable by acquiring,
    being refused, dropping and anything that leaves the locks alone, the live
    guards protect pairwise different canonical directories; and a directory
    that is protected refuses the next writer with a lock error instead of
    blocking or succeeding. *)
Theorem one_writer_per_directory w0 w gs :
  rtc lock_step (w0, []) (w, gs) ->
  NoDup (sdl_state_dir <$> gs) /\
  forall d, match (acquire d w).1 with
            | Done g => sdl_state_dir g ∉ (sdl_state_dir <$> gs)
            | Failed e => exists reason, e = StateLock reason
            | Crashed => True
            end.
Proof.
  intros Hr. assert (locks_inv (w, gs)) as [Hf Hnd].
  { assert (forall s s', rtc lock_step s s' -> locks_inv s -> locks_inv s') as Hind.
    { induction 1 as [|s1 s2 s3 Hs _ IH]; [done|]. intros Hi. by apply IH; eapply lock_step_inv. }
    eapply Hind; [done|]. split; constructor. }
  cbn [fst snd] in *. split.
  - clear Hr. induction Hf as [|g gs [Hg _] Hf IH]; [constructor|]. rewrite fmap_cons in *.
    apply NoDup_cons in Hnd as [Hn Hnd]. constructor; [|by apply IH].
    intros (g' & Heq & Hin)%list_elem_of_fmap. apply Hn.
    rewrite Forall_forall in Hf. destruct (Hf g' Hin) as [Hg' _].
    rewrite Hg, Heq, <- Hg'. by apply list_elem_of_fmap_2.
  - intros d. pose proof (acquire_spec d w) as Hs. unfold io_spec in Hs.
    destruct (acquire d w) as [[g|e|] w']; cbn in Hs |- *; [|by destruct Hs|done].
    destruct Hs as (Hg & Hnew & _). intros (g' & Heq & Hin)%list_elem_of_fmap.
    rewrite Forall_forall in Hf. destruct (Hf g' Hin) as [Hg' Hl]. congruence.
Qed.

(** ** Inversion of successful effects *)

Lemma io_bind_Done {E A B} (m : io E A) (f : A -> io E B) w b w' :
  (m ≫= f) w = (Done b, w') <-> exists a w1, m w = (Done a, w1) /\ f a w1 = (Done b, w').
Proof. unfold mbind, io_bind. destruct (m w) as [[a|e|] w1]; naive_solver. Qed.

Lemma io_map_err_Done {E F A} (f : E -> F) (m : io E A) w a w' :
  io_map_err f m w = (Done a, w') <-> m w = (Done a, w').
Proof. unfold io_map_err. destruct (m w) as [[b|e|] w1]; naive_solver. Qed.

Lemma io_lift_Done {E A} (r : result E A) w a w' :
  io_lift r w = (Done a, w') <-> r = Ok a /\ w' = w.
Proof. destruct r; cbn; unfold mret, io_ret, io_fail; naive_solver. Qed.

Lemma io_ret_Done {E A} (a b : A) w w' :
  @mret (io E) _ _ a w = (Done b, w') <-> b = a /\ w' = w.
Proof. unfold mret, io_ret. naive_solver. Qed.

Lemma io_try_Done {E F A} (m : io E A) w r w' :
  io_try (F := F) m w = (Done r, w') ->
  match r with Ok a => m w = (Done a, w') | Err e => m w = (Failed e, w') end.
Proof. unfold io_try. destruct (m w) as [[a|e|] w1]; intros [= <- <-]; done. Qed.

Ltac inv_io :=
  repeat match goal with
  | H : (_ ≫= _) _ = (Done _, _) |- _ =>
      let a := fresh "v" in let w1 := fresh "w" in let H1 := fresh "H" in let H2 := fresh "H" in
      apply io_bind_Done in H as (a & w1 & H1 & H2)
  | H : io_map_err _ _ _ = (Done _, _) |- _ => apply io_map_err_Done in H
  | H : io_lift _ _ = (Done _, _) |- _ => apply io_lift_Done in H as [H ->]
  | H : mret _ _ = (Done _, _) |- _ =>
      first [ apply io_ret_Done in H as [-> ->]
            | apply io_ret_Done in H as [H ->]; inversion H; subst; clear H ]
  | H : io_fail _ _ = (Done _, _) |- _ => discriminate H
  | H : unit |- _ => destruct H
  end; inv_ok.

(** The same files on the same disk. *)
Record same_files (w w' : World) : Prop := {
  sf_files : w_files w' = w_files w;
  sf_synced : w_synced w' = w_synced w;
  sf_durable : w_durable w' = w_durable w;
}.

#[export] Instance same_files_preorder : PreOrder same_files.
Proof. split; [done|]. intros w1 w2 w3 [] []. split; congruence. Qed.

Lemma same_files_stable w w' p : same_files w w' -> stable w p -> stable w' p.
Proof. intros [Hf Hs Hd]. unfold stable. by rewrite Hf, Hs, Hd. Qed.

Lemma same_files_after_crash w w' p c : same_files w w' -> after_crash w' p c -> after_crash w p c.
Proof. intros [Hf Hs Hd]. unfold after_crash. by rewrite Hf, Hs, Hd. Qed.

Lemma same_files_untouched p w0 w1 w2 :
  same_files w0 w1 -> untouched p w1 w2 -> untouched p w0 w2.
Proof.
  intros Hs Hu q Hq Hqt. destruct (Hu q Hq Hqt) as [Hf Hst]. destruct (Hs) as [E _ _].
  rewrite <- E. split; [done|]. intros. by apply Hst; eapply same_files_stable.
Qed.

Lemma same_files_replacement p b w0 w1 o w2 :
  same_files w0 w1 -> replacement p b w1 o w2 -> replacement p b w0 o w2.
Proof.
  intros [E1 E2 E3]. unfold replacement, stable, after_crash. rewrite E1, E2, E3. done.
Qed.

Lemma create_dir_all_same d w : io_spec (create_dir_all d) w (fun _ w' => same_files w w').
Proof. by apply io_spec_syscall. Qed.

Lemma read_file_spec p w :
  io_spec (read_file p) w (fun o w' => same_files w w' /\
    forall b, o = Done b -> w_files w !! p = Some b).
Proof.
  apply io_spec_syscall; intros; cbn; [|done..].
  by destruct (w_files w !! p); cbn; [|done]; split; [|naive_solver].
Qed.

Lemma path_exists_spec {E} p w :
  io_spec (path_exists (E := E) p) w (fun o w' => same_files w w' /\ (forall e, o <> Failed e) /\
    (o = Done true -> present w p = true)).
Proof.
  unfold io_spec, path_exists.
  assert (io_spec (io_try (E := IoError) (F := E)
    (syscall (fun w => (Done (present w p), w)) unchanged unchanged)) w
    (fun o w' => same_files w w' /\ (forall e, o <> Failed e) /\
       (o = Done (Ok true) -> present w p = true))) as H.
  { apply io_spec_try, io_spec_syscall; intros; cbn; split_and!; try done. naive_solver. }
  unfold io_spec in H. destruct (io_try _ w) as [[[[]|]|e|] w']; cbn in *; naive_solver.
Qed.

Lemma read_dir_spec d w :
  io_spec (read_dir d) w (fun o w' => same_files w w' /\
    forall l, o = Done l -> forall p, p ∈ l -> parent_dir p = d).
Proof.
  apply io_spec_syscall; intros; cbn; [|done..].
  case_decide; cbn; split; try done. intros l [= <-] p Hp.
  unfold dir_entries in Hp. apply elem_of_elements, elem_of_filter in Hp. by destruct Hp as [[_ ?] _].
Qed.

(** ** Computations that only read *)

Definition reads_only {E A} (m : io E A) : Prop :=
  forall w, io_spec m w (fun _ w' => same_files w w').

Section reads.
Context {E F A B : Type}.

Lemma reads_ret (a : A) : reads_only (E := E) (mret a).
Proof. by intros w. Qed.
Lemma reads_fail (e : E) : reads_only (A := A) (io_fail e).
Proof. by intros w. Qed.
Lemma reads_lift (r : result E A) : reads_only (io_lift r).
Proof. by intros w; destruct r. Qed.
Lemma reads_bind (m : io E A) (f : A -> io E B) :
  reads_only m -> (forall a, reads_only (f a)) -> reads_only (m ≫= f).
Proof.
  intros Hm Hf w. apply io_spec_bind. eapply io_spec_mono; [apply Hm|].
  intros [a|e|] w1 H1; try done. eapply io_spec_mono; [apply Hf|].
  intros o w2 H2. cbn in *. by etrans.
Qed.
Lemma reads_map_err (f : E -> F) (m : io E A) : reads_only m -> reads_only (io_map_err f m).
Proof. intros Hm w. apply io_spec_map_err. eapply io_spec_mono; [apply Hm|]. by intros [a|e|]. Qed.
Lemma reads_try (m : io E A) : reads_only m -> reads_only (io_try (F := F) m).
Proof. intros Hm w. apply io_spec_try. eapply io_spec_mono; [apply Hm|]. by intros [a|e|]. Qed.
Lemma reads_clock : reads_only (E := E) read_clock.
Proof. intros w. unfold io_spec, read_clock. by destruct (w_clock w). Qed.
Lemma reads_path_exists p : reads_only (E := E) (path_exists p).
Proof. intros w. eapply io_spec_mono; [apply path_exists_spec|]. by intros o w' [? _]. Qed.
Lemma reads_Done (m : io E A) w a w' : reads_only m -> m w = (Done a, w') -> same_files w w'.
Proof. intros Hm Hw. specialize (Hm w). unfold io_spec in Hm. by rewrite Hw in Hm. Qed.
End reads.

Lemma reads_for_each {E A} (f : A -> io E unit) l : (forall a, reads_only (f a)) -> reads_only (io_for_each f l).
Proof.
  intros Hf. induction l as [|x l IH]; cbn; [by intros w|]. apply reads_bind; [apply Hf|by intros _].
Qed.
Lemma reads_fold {E A S} (f : S -> A -> io E S) s l :
  (forall s a, reads_only (f s a)) -> reads_only (io_fold f s l).
Proof.
  intros Hf. revert s. induction l as [|x l IH]; intros s; cbn; [by intros w|].
  apply reads_bind; [by apply Hf|]. intros s1. apply IH.
Qed.

Lemma reads_file p : reads_only (read_file p).
Proof. intros w. eapply io_spec_mono; [apply read_file_spec|]. by intros o w' [? _]. Qed.
Lemma reads_dir d : reads_only (read_dir d).
Proof. intros w. eapply io_spec_mono; [apply read_dir_spec|]. by intros o w' [? _]. Qed.
Lemma reads_canonicalize p : reads_only (canonicalize p).
Proof. intros w. apply io_spec_syscall; intros; cbn; try done. by destruct (present _ p). Qed.
Lemma read_file_Done p w b w' :
  read_file p w = (Done b, w') -> w_files w !! p = Some b /\ same_files w w'.
Proof.
  intros Hr. pose proof (read_file_spec p w) as [Hs Hf]. rewrite Hr in Hs, Hf. split; [by apply Hf|done].
Qed.

#[export] Hint Resolve reads_ret reads_fail reads_lift reads_bind reads_map_err reads_try
  reads_for_each reads_fold reads_clock reads_path_exists reads_file reads_dir
  reads_canonicalize : hoike.

(** ** Computations that consume clock readings in order *)

Definition ticks {E A} (m : io E A) : Prop := forall w, w_clock (m w).2 `suffix_of` w_clock w.

Section ticks.
Context {E F A B : Type}.

Lemma ticks_ret (a : A) : ticks (E := E) (mret a).
Proof. by intros w. Qed.
Lemma ticks_fail (e : E) : ticks (A := A) (io_fail e).
Proof. by intros w. Qed.
Lemma ticks_lift (r : result E A) : ticks (io_lift r).
Proof. by intros w; destruct r. Qed.
Lemma ticks_bind (m : io E A) (f : A -> io E B) :
  ticks m -> (forall a, ticks (f a)) -> ticks (m ≫= f).
Proof.
  intros Hm Hf w. specialize (Hm w). unfold mbind, io_bind.
  destruct (m w) as [[a|e|] w1]; cbn in *; [|done|done]. etrans; [apply Hf|done].
Qed.
Lemma ticks_map_err (f : E -> F) (m : io E A) : ticks m -> ticks (io_map_err f m).
Proof. intros Hm w. specialize (Hm w). unfold io_map_err. by destruct (m w) as [[a|e|] w1]. Qed.
Lemma ticks_try (m : io E A) : ticks m -> ticks (io_try (F := F) m).
Proof. intros Hm w. specialize (Hm w). unfold io_try. by destruct (m w) as [[a|e|] w1]. Qed.
Lemma ticks_clock : ticks (E := E) read_clock.
Proof.
  intros w. unfold read_clock. destruct (w_clock w) as [|t ts] eqn:E1; cbn; [by rewrite E1|].
  by apply suffix_cons_r.
Qed.
Lemma ticks_Done (m : io E A) w a w' : ticks m -> m w = (Done a, w') -> w_clock w' `suffix_of` w_clock w.
Proof. intros Hm Hw. specialize (Hm w). by rewrite Hw in Hm. Qed.
End ticks.
Lemma ticks_file p : ticks (read_file p).
Proof.
  intros w. unfold read_file, syscall. destruct (w_events w) as [|[] evs]; cbn; try done;
    by destruct (w_files w !! p).
Qed.
Lemma ticks_for_each {E A} (f : A -> io E unit) l : (forall a, ticks (f a)) -> ticks (io_for_each f l).
Proof.
  intros Hf. induction l as [|x l IH]; cbn; [by intros w|]. apply ticks_bind; [apply Hf|by intros _].
Qed.
(** A call that does not read the clock. *)
Lemma ticks_syscall {A} act (on_fail on_crash : nat -> World -> World) :
  (forall w, w_clock (act w : outcome IoError A * World).2 = w_clock w) ->
  (forall k w, w_clock (on_fail k w) = w_clock w) -> (forall k w, w_clock (on_crash k w) = w_clock w) ->
  ticks (syscall act on_fail on_crash).
Proof. intros Ha Hf Hc w. unfold syscall. destruct (w_events w) as [|[] evs]; cbn; by rewrite ?Ha, ?Hf, ?Hc. Qed.
Lemma ticks_create_dir d : ticks (create_dir_all d).
Proof. by apply ticks_syscall. Qed.
Lemma ticks_create_new p : ticks (create_new p).
Proof. apply ticks_syscall; [|done..]. intros w. by destruct (w_files w !! p). Qed.
Lemma ticks_write_all p b : ticks (write_all p b).
Proof. by apply ticks_syscall. Qed.
Lemma ticks_sync_all p : ticks (sync_all p).
Proof. by apply ticks_syscall. Qed.
Lemma ticks_rename p q : ticks (rename p q).
Proof.
  apply ticks_syscall; [|done|].
  - intros w. by destruct (w_files w !! p).
  - intros [|k] w; [done|]. by destruct (w_files w !! p).
Qed.
Lemma ticks_sync_dir d : ticks (sync_dir d).
Proof. by apply ticks_syscall. Qed.
Lemma ticks_remove_file p : ticks (remove_file p).
Proof. apply ticks_syscall; [|done..]. intros w. by destruct (w_files w !! p). Qed.
#[export] Hint Resolve ticks_try ticks_create_dir ticks_create_new ticks_write_all ticks_sync_all ticks_rename
  ticks_sync_dir ticks_remove_file : hoike.
#[export] Hint Resolve ticks_ret ticks_fail ticks_lift ticks_bind ticks_map_err ticks_clock
  ticks_file ticks_for_each : hoike.

Lemma read_clock_Some {E} w t w' :
  read_clock (E := E) w = (Done (Some t), w') -> w_clock w = Some t :: w_clock w'.
Proof. unfold read_clock. destruct (w_clock w) as [|x ts]; [done|]. by intros [= -> <-]. Qed.

(** Neither the files nor the order of the clock readings are affected. *)
Record passive {E A} (m : io E A) : Prop := { pa_reads : reads_only m; pa_ticks : ticks m }.

Lemma passive_Done {E A} (m : io E A) w a w' :
  passive m -> m w = (Done a, w') -> same_files w w' /\ w_clock w' `suffix_of` w_clock w.
Proof. intros [Hr Ht] H. split; [by eapply reads_Done|by eapply ticks_Done]. Qed.

(** ** Computations that keep a file

    Whatever the outcome, the file at [q] is as it was and as safe as it was;
    and a result satisfies [P]. *)

Definition kept (q : path) (w w' : World) : Prop :=
  w_files w' !! q = w_files w !! q /\ (stable w q -> stable w' q).

#[export] Instance kept_preorder q : PreOrder (kept q).
Proof.
  split; [done|]. intros w1 w2 w3 [E1 S1] [E2 S2]. split; [congruence|]. intros H. by apply S2, S1.
Qed.

Lemma same_files_kept q w w' : same_files w w' -> kept q w w'.
Proof. intros Hs. split; [by destruct Hs as [-> _ _]|]. by apply same_files_stable. Qed.

Lemma untouched_kept p q w w' : q <> p -> ~ tmp_path q -> untouched p w w' -> kept q w w'.
Proof. intros Hq Ht Hu. by apply Hu. Qed.

Definition keeping {E A} (q : path) (m : io E A) (P : A -> Prop) : Prop :=
  forall w, io_spec m w (fun o w' => kept q w w' /\ forall a, o = Done a -> P a).

Section keeping_rules.
Context {E A B : Type}.

Lemma keeping_ret q (a : A) (P : A -> Prop) : P a -> keeping (E := E) q (mret a) P.
Proof. intros Ha w. split; [done|]. by intros ? [= <-]. Qed.

Lemma keeping_reads q (m : io E A) : reads_only m -> keeping q m (fun _ => True).
Proof.
  intros Hm w. eapply io_spec_mono; [apply Hm|]. intros o w' Hs. split; [by apply same_files_kept|done].
Qed.

Lemma keeping_mono q (m : io E A) (P Q : A -> Prop) :
  keeping q m P -> (forall a, P a -> Q a) -> keeping q m Q.
Proof.
  intros Hm HPQ w. eapply io_spec_mono; [apply Hm|]. intros o w' [Hk HP]. split; [done|]. auto.
Qed.

Lemma keeping_bind q (m : io E A) (f : A -> io E B) (P : A -> Prop) (Q : B -> Prop) :
  keeping q m P -> (forall a, P a -> keeping q (f a) Q) -> keeping q (m ≫= f) Q.
Proof.
  intros Hm Hf w. apply io_spec_bind. eapply io_spec_mono; [apply Hm|].
  intros [a|e|] w1 [Hk HP]; [|by split..]. eapply io_spec_mono; [by apply Hf, HP|].
  intros o w2 [Hk2 HQ]. split; [by etrans|done].
Qed.
End keeping_rules.

Lemma keeping_fold {E A S} q (f : S -> A -> io E S) (P : S -> Prop) l s :
  (forall s a, P s -> keeping q (f s a) P) -> P s -> keeping q (io_fold f s l) P.
Proof.
  intros Hf. revert s. induction l as [|x l IH]; intros s Hs; cbn [io_fold]; [by apply keeping_ret|].
  eapply keeping_bind; [by apply Hf|done].
Qed.

Lemma keeping_fail {E A} q (e : E) (P : A -> Prop) : keeping q (io_fail e) P.
Proof. by intros w. Qed.
Lemma keeping_map_err {E F A} q (f : E -> F) (m : io E A) P : keeping q m P -> keeping q (io_map_err f m) P.
Proof.
  intros Hm w. apply io_spec_map_err. eapply io_spec_mono; [apply Hm|].
  intros [a|e|] w' [Hk HP]; (split; [done|]); naive_solver.
Qed.
Lemma keeping_try {E F A} q (m : io E A) (P : A -> Prop) (Q : result E A -> Prop) :
  keeping q m P -> (forall a, P a -> Q (Ok a)) -> (forall e, Q (Err e)) -> keeping q (io_try (F := F) m) Q.
Proof.
  intros Hm Ha He w. apply io_spec_try. eapply io_spec_mono; [apply Hm|].
  intros [a|e|] w' [Hk HP]; (split; [done|]); naive_solver.
Qed.

(** A system call on other paths. *)
Lemma keeping_syscall {A} q act (on_fail on_crash : nat -> World -> World) :
  (forall w, kept q w (act w : outcome IoError A * World).2) ->
  (forall k w, kept q w (on_fail k w)) -> (forall k w, kept q w (on_crash k w)) ->
  keeping q (syscall act on_fail on_crash) (fun _ => True).
Proof.
  intros Ha Hf Hc w. apply io_spec_syscall; intros; (split; [|done]).
  - exact (Ha (set_events evs w)).
  - exact (Hf k (set_events evs w)).
  - exact (Hc k (set_events evs w)).
Qed.
Lemma put_file_kept q p b w : q <> p -> kept q w (put_file p b w).
Proof.
  intros Hq. split; cbn; [by rewrite lookup_insert_ne|].
  intros [Hd Hs]. split; cbn; rewrite lookup_insert_ne by done; [done|]. set_solver.
Qed.
Lemma keeping_create_new q p : q <> p -> keeping q (create_new p) (fun _ => True).
Proof.
  intros Hq. apply keeping_syscall; [|done..]. intros w. destruct (w_files w !! p); [done|]. by apply put_file_kept.
Qed.
Lemma keeping_write_all q p b : q <> p -> keeping q (write_all p b) (fun _ => True).
Proof. intros Hq. apply keeping_syscall; intros; by apply put_file_kept. Qed.
Lemma keeping_sync_all q p : keeping q (sync_all p) (fun _ => True).
Proof.
  apply keeping_syscall; [|done..]. intros w. split; [done|]. intros [Hd Hs]. split; cbn; [done|set_solver].
Qed.
Lemma rename_kept q a b w : q <> a -> q <> b -> kept q w (do_rename a b w).
Proof.
  intros Ha Hb. split; cbn; [by rewrite lookup_insert_ne, lookup_delete_ne by done|].
  intros [Hd Hs]. split; cbn; rewrite lookup_insert_ne, lookup_delete_ne by done; [done|].
  intros Hq%Hs. destruct (decide _); set_solver.
Qed.
Lemma keeping_rename q a b : q <> a -> q <> b -> keeping q (rename a b) (fun _ => True).
Proof.
  intros Ha Hb. apply keeping_syscall; [|done|].
  - intros w. destruct (w_files w !! a); [by apply rename_kept|done].
  - intros [|k] w; [done|]. destruct (w_files w !! a); [by apply rename_kept|done].
Qed.
Lemma keeping_sync_dir q d : keeping q (sync_dir d) (fun _ => True).
Proof. apply keeping_syscall; [|done..]. intros w. split; [done|]. apply do_sync_dir_stable. Qed.
Lemma keeping_remove_file q p : q <> p -> keeping q (remove_file p) (fun _ => True).
Proof.
  intros Hq. apply keeping_syscall; [|done..]. intros w. destruct (w_files w !! p); [|done].
  split; cbn; [by rewrite lookup_delete_ne|].
  intros [Hd Hs]. split; cbn; rewrite lookup_delete_ne by done; [done|set_solver].
Qed.
Lemma keeping_create_dir q d : keeping q (create_dir_all d) (fun _ => True).
Proof. by apply keeping_syscall. Qed.
#[export] Hint Resolve keeping_create_new keeping_write_all keeping_sync_all keeping_rename keeping_sync_dir
  keeping_remove_file keeping_create_dir keeping_fail keeping_map_err : hoike.

Lemma keeping_run {E A} q (m : io E A) P w o w' :
  keeping q m P -> m w = (o, w') -> kept q w w'.
Proof. intros Hm Hw. specialize (Hm w). unfold io_spec in Hm. rewrite Hw in Hm. apply Hm. Qed.

(** ** Witnesses *)

Definition is_done {E A} (o : outcome E A) : bool := match o with Done _ => true | _ => false end.

Lemma is_done_inv {E A} (m : io E A) w :
  is_done (m w).1 = true -> exists a w', m w = (Done a, w').
Proof. destruct (m w) as [[a|e|] w']; [eauto|done..]. Qed.

Definition sample_world : World := {|
  w_files := {[ ["srv"; "state.json"] := [x01; x02] ]};
  w_dirs := {[ []; ["srv"] ]};
  w_synced := {[ ["srv"; "state.json"] ]};
  w_durable := {[ ["srv"; "state.json"] := [x01; x02] ]};
  w_locks := ∅; w_resolve := id; w_pid := 7; w_counter := 0; w_clock := [];
  w_events := [] |}%string.

Lemma not_tmp_path d s :
  String.get 0 s <> Some (Ascii.ascii_of_N 46) -> ~ tmp_path (d ++ [s]).
Proof.
  intros Hs (d' & pid & n & Heq). apply app_inj_2 in Heq as [_ Heq]; [|done].
  injection Heq as ->. by apply Hs.
Qed.

(** The write is cut short by a crash while the data is being written. *)
Lemma write_atomic_all_or_nothing_witness :
  let w := set_events [Succeeds; Succeeds; Crashes 1] sample_world in
  let '(o, w') := write_atomic ["srv"; "state.json"]%string [x09; x0a] w in
  o = Crashed /\ forall c, after_crash w' ["srv"; "state.json"]%string c ->
    c = Some [x01; x02] \/ c = Some [x09; x0a].
Proof.
  cbv zeta.
  assert (~ tmp_path ["srv"; "state.json"]%string) as Hp by (by apply (not_tmp_path ["srv"%string])).
  assert (stable (set_events [Succeeds; Succeeds; Crashes 1] sample_world)
    ["srv"; "state.json"]%string) as Hs by (split; [vm_compute; reflexivity|intros _; vm_compute; reflexivity]).
  pose proof (write_atomic_all_or_nothing ["srv"; "state.json"]%string [x09; x0a] _ Hp Hs) as H.
  destruct (write_atomic _ _ _) as [o w'] eqn:E.
  assert (o = Crashed) as -> by (apply (f_equal fst) in E; vm_compute in E; by rewrite <- E).
  split; [reflexivity|]. exact (proj1 H).
Defined.

Lemma one_writer_per_directory_witness :
  NoDup (sdl_state_dir <$> [mkStateDirectoryLock ["srv"; ".writer.lock"] ["srv"]])%string.
Proof.
  destruct (acquire ["srv"]%string sample_world) as [o w] eqn:E.
  assert (o = Done (mkStateDirectoryLock ["srv"; ".writer.lock"] ["srv"])%string) as ->
    by (apply (f_equal fst) in E; vm_compute in E; by rewrite <- E).
  apply (one_writer_per_directory sample_world w).
  eapply rtc_l; [|apply rtc_refl]. eapply step_acquired. exact E.
Defined.
