(* ===== verification/State.v ===== *)
(** * State: the anti-rollback store (hoike-core/src/state.rs)

    The persisted high-water marks, manifest digests and committed snapshot
    references, the checks a bundle has to pass against them, and the staged
    transactions that advance them.  Main results: the marks only rise, what
    the checks accept, and that what was accepted once can never be rolled
    back afterwards. *)

From stdpp Require Import base tactics list gmap strings pretty.
From Stdlib Require Import NArith Lia.
From S2P Require Import Prelude Crates AhuError Header Index Manifest Bundle CoreError Storage.
Local Open Scope N_scope.

Definition MAX_EPOCH_JUMP : N := 10000.

Record PersistedState : Type := mkPersistedState {
  ps_high_water_marks : gmap string N;
  ps_manifest_digests : gmap string string;
  ps_active_bundles : gmap string path;
}.

Definition default_state : PersistedState := mkPersistedState ∅ ∅ ∅.

(** [PersistedState::make_key]. *)
Definition make_key (producer_id issuer_key_hash_hex : string) : string :=
  producer_id +:+ ":" +:+ issuer_key_hash_hex.

Record StateStore : Type := mkStateStore {
  ss_path : path;
  ss_state : PersistedState;
  ss_staged : bool;
}.

(** [serde_json] at type [PersistedState]. *)
Class Json := {
  json_to_vec_pretty : PersistedState -> result string bytes;
  json_from_str : bytes -> result string PersistedState;
}.
Class JsonSpec `{!Json} : Prop := {
  json_from_to s b : json_to_vec_pretty s = Ok b -> json_from_str b = Ok s;
  json_utf8 s b : json_to_vec_pretty s = Ok b -> utf8_valid b = true;
}.

(** ** File names *)

(** [before.after] at the last dot. *)
Fixpoint rsplit_dot (s : string) : option (string * string) :=
  match s with
  | EmptyString => None
  | String c s =>
      match rsplit_dot s with
      | Some (a, b) => Some (String c a, b)
      | None => if Ascii.eqb c (Ascii.ascii_of_N 46) then Some (EmptyString, s) else None
      end
  end.

(** [Path::file_stem] and [Path::extension] of a file name. *)
Definition split_name (s : string) : string * option string :=
  match rsplit_dot s with
  | Some (EmptyString, _) | None => (s, None)
  | Some (stem, ext) => (stem, Some ext)
  end.
Definition file_name (p : path) : option string := last p.
Definition file_stem (p : path) : option string := fst ∘ split_name <$> file_name p.
Definition extension (p : path) : option string := file_name p ≫= snd ∘ split_name.

Definition generations_dir (p : path) : path := parent_dir p ++ ["generations"%string].

(** The name [commit] collects: 64 hexadecimal digits and [.ahu]. *)
Definition is_generated (p : path) : bool :=
  bool_decide (extension p = Some "ahu"%string) &&
  match file_stem p with
  | Some s => (String.length s =? 64)%nat && forallb is_hexdigit (String.list_ascii_of_string s)
  | None => false
  end.

(** The scope shown in messages: [&ikh[..16.min(ikh.len())]]. *)
Definition scope_name (producer_id ikh : string) : string :=
  producer_id +:+ ":" +:+ String.substring 0 16 ikh.

Section state.
Context {CR : Crates} {JS : Json}.
Implicit Types (s : StateStore) (st : PersistedState) (b : Bundle).

Definition with_state s st : StateStore := mkStateStore (ss_path s) st (ss_staged s).

(** ** Queries *)

Definition get_high_water s (producer_id ikh : string) : option N :=
  ps_high_water_marks (ss_state s) !! make_key producer_id ikh.

Definition get_manifest_digest s (producer_id ikh : string) : option bytes :=
  hex_str ← ps_manifest_digests (ss_state s) !! make_key producer_id ikh;
  d ← to_option (hex_decode hex_str);
  if decide (length d = 32%nat) then Some d else None.

(** ** Checks *)

Definition check_rollback_scope s b (scope : CaScope) : core_result unit :=
  let producer_id := m_producer_id (b_manifest b) in
  let manifest_digest := sha256 (b_manifest_bytes b) in
  let ikh := hex_encode (cs_issuer_key_hash scope) in
  match get_high_water s producer_id ikh with
  | Some hw =>
      if cs_epoch scope <? hw
      then Err (CoreEpochRollback (scope_name producer_id ikh) (cs_epoch scope) hw)
      else if (cs_epoch scope =? hw) &&
              negb (bool_decide (get_manifest_digest s producer_id ikh = Some manifest_digest))
      then Err (CoreEpochRollback (scope_name producer_id ikh) (cs_epoch scope) hw)
      else
        let jump := cs_epoch scope - hw in
        if MAX_EPOCH_JUMP <? jump
        then Err (EpochJumpTooLarge (scope_name producer_id ikh) (cs_epoch scope) hw jump
                    MAX_EPOCH_JUMP)
        else Ok tt
  | None => Ok tt
  end.

Definition check_rollback s b : core_result unit :=
  for_each (check_rollback_scope s b) (m_ca_scopes (b_manifest b)).

Definition check_continuity_scope s b (prev_digest : bytes) (scope : CaScope) : core_result unit :=
  let producer_id := m_producer_id (b_manifest b) in
  let ikh := hex_encode (cs_issuer_key_hash scope) in
  match get_manifest_digest s producer_id ikh with
  | Some recorded =>
      let digest := sha256 (b_manifest_bytes b) in
      let identical := bool_decide (get_high_water s producer_id ikh = Some (cs_epoch scope)) &&
                       bool_decide (digest = recorded) in
      if negb identical && negb (bool_decide (prev_digest = recorded))
      then Err (CoreForkDetected (scope_name producer_id ikh))
      else Ok tt
  | None => Ok tt
  end.

Definition check_continuity s b : core_result unit :=
  match co_prev_manifest_digest (m_continuity (b_manifest b)) with
  | Some prev_digest =>
      for_each (check_continuity_scope s b prev_digest) (m_ca_scopes (b_manifest b))
  | None => Ok tt
  end.

(** ** Updates *)

Definition persist s : io CoreError unit :=
  json ← io_lift (map_err (fun _ => StateStoreError "failed to serialize state")
                    (json_to_vec_pretty (ss_state s)));
  write_atomic (ss_path s) json.

(** The record [advance] writes: the mark and the digest together. *)
Definition record_mark st (key : string) (epoch : N) (manifest_digest : bytes) : PersistedState :=
  mkPersistedState (<[key := epoch]> (ps_high_water_marks st))
    (<[key := hex_encode manifest_digest]> (ps_manifest_digests st)) (ps_active_bundles st).

(** [is_none_or(|current| epoch > current)]. *)
Definition is_newer (epoch : N) (current : option N) : bool :=
  match current with Some c => c <? epoch | None => true end.

Definition advance s (producer_id ikh : string) (epoch : N) (manifest_digest : bytes) :
    io CoreError StateStore :=
  let key := make_key producer_id ikh in
  let current := ps_high_water_marks (ss_state s) !! key in
  if is_newer epoch current then
    let next := with_state s (record_mark (ss_state s) key epoch manifest_digest) in
    (if ss_staged s then mret tt else persist next) ;;
    mret next
  else mret s.

Definition advance_from_bundle s b : io CoreError StateStore :=
  let digest := sha256 (b_manifest_bytes b) in
  candidate ← io_fold (fun c scope =>
      advance c (m_producer_id (b_manifest b)) (hex_encode (cs_issuer_key_hash scope))
        (cs_epoch scope) digest)
    (mkStateStore (ss_path s) (ss_state s) true) (m_ca_scopes (b_manifest b));
  (if ss_staged s then mret tt else persist candidate) ;;
  mret (with_state s (ss_state candidate)).

Definition transaction s : StateStore := mkStateStore (ss_path s) (ss_state s) true.

Definition clear_active_bundles s : StateStore :=
  with_state s (mkPersistedState (ps_high_water_marks (ss_state s))
    (ps_manifest_digests (ss_state s)) ∅).

(** The collection of unreferenced generation snapshots after a commit. *)
Definition collect_garbage (st : PersistedState) (p : path) : io CoreError unit :=
  if is_generated p && negb (bool_decide (p ∈ (map_to_list (ps_active_bundles st)).*2))
  then io_try (E := IoError) (remove_file p) ;; mret tt
  else mret tt.

Definition commit s (candidate : StateStore) : io CoreError StateStore :=
  persist candidate ;;
  let s := with_state s (ss_state candidate) in
  files ← io_try (E := IoError) (read_dir (generations_dir (ss_path s)));
  match files with
  | Ok files => io_for_each (collect_garbage (ss_state s)) files
  | Err _ => mret tt
  end ;;
  mret s.

(** [snapshot]: immutable content first, then the reference to it. *)
Definition snapshot s (label : string) b : io CoreError StateStore :=
  bytes ← io_lift (map_err CoreBundle (to_bytes b));
  let digest := hex_encode (sha256 bytes) in
  let dir := generations_dir (ss_path s) in
  io_map_err CoreIo (create_dir_all dir) ;;
  let p := dir ++ [digest +:+ ".ahu"] in
  there ← path_exists p;
  same ← (if there : bool then
            old ← io_map_err CoreIo (read_file p); mret (bool_decide (old = bytes))
          else mret false);
  (if same : bool then mret tt else write_atomic p bytes) ;;
  mret (with_state s (mkPersistedState (ps_high_water_marks (ss_state s))
    (ps_manifest_digests (ss_state s)) (<[label := p]> (ps_active_bundles (ss_state s))))).

(** ** Opening *)

Definition bad_state (what : string) : CoreError := StateStoreError what.

Definition check_digest_record st (kv : string * string) : core_result unit :=
  decoded ← map_err (fun _ => bad_state "manifest digest is not valid hex") (hex_decode kv.2);
  ensure (bool_decide (length decoded = 32%nat)) (bad_state "manifest digest length") ;;
  ensure (bool_decide (is_Some (ps_high_water_marks st !! kv.1)))
    (bad_state "manifest digest has no high-water record").

Definition check_mark_record st (kv : string * N) : core_result unit :=
  ensure (bool_decide (is_Some (ps_manifest_digests st !! kv.1)))
    (bad_state "high-water mark has no manifest digest record").

Definition check_snapshot_scope st b (scope : CaScope) : core_result unit :=
  let key := make_key (m_producer_id (b_manifest b)) (hex_encode (cs_issuer_key_hash scope)) in
  match ps_high_water_marks st !! key with
  | Some hw => if cs_epoch scope <=? hw then Ok tt
               else Err (bad_state "incomplete committed state requires recovery")
  | None => Err (bad_state "incomplete committed state requires recovery")
  end.

(** The pure part of the snapshot loop: digest name, contents, marks. *)
Definition check_snapshot_bytes st (p : path) (contents : bytes) : core_result unit :=
  digest_hex ← ok_or (file_stem p) (bad_state "committed snapshot has a malformed name");
  expected ← map_err (fun _ => bad_state "committed snapshot has a non-digest name")
               (hex_decode digest_hex);
  ensure (bool_decide (sha256 contents = expected))
    (bad_state "committed snapshot does not match its digest name") ;;
  b ← map_err (fun _ => bad_state "committed snapshot is unreadable") (from_bytes contents);
  for_each (check_snapshot_scope st b) (m_ca_scopes (b_manifest b)).

Definition check_snapshot st (kv : string * path) : io CoreError unit :=
  contents ← io_map_err (fun _ => bad_state "committed snapshot is missing") (read_file kv.2);
  io_lift (check_snapshot_bytes st kv.2 contents).

Definition validate_persisted st : io CoreError unit :=
  io_lift (for_each (check_digest_record st) (map_to_list (ps_manifest_digests st))) ;;
  io_lift (for_each (check_mark_record st) (map_to_list (ps_high_water_marks st))) ;;
  io_for_each (check_snapshot st) (map_to_list (ps_active_bundles st)).

(** [StateStore::open]. *)
Definition open_store (p : path) : io CoreError StateStore :=
  contents ← io_map_err (fun _ => bad_state "cannot open state file") (read_file p);
  io_lift (ensure (utf8_valid contents) (bad_state "cannot open state file")) ;;
  st ← io_lift (map_err (fun _ => bad_state "failed to parse state file") (json_from_str contents));
  validate_persisted st ;;
  mret (mkStateStore p st false).

(** [StateStore::initialize]. *)
Definition initialize (p : path) : io CoreError StateStore :=
  there ← path_exists p;
  if there : bool then io_fail (bad_state "refusing to initialize: state file already exists") else
  let dir := parent_dir p in
  dir_there ← path_exists dir;
  (if dir_there : bool then
     entries ← io_map_err (fun _ => bad_state "failed to inspect state directory") (read_dir dir);
     io_for_each (fun e =>
       if bool_decide (file_name e = Some WRITER_LOCK_FILE) then mret tt
       else io_fail (bad_state "refusing to initialize state: directory is not empty")) entries
   else io_map_err (fun _ => bad_state "failed to create state directory") (create_dir_all dir)) ;;
  let store := mkStateStore p default_state false in
  persist store ;;
  mret store.
End state.

(** ** Keys *)

Section keys.
Context {CR : Crates} {HX : HexSpec}.

Lemma string_app_inj_sep (p1 p2 q1 q2 : string) c :
  ~ In c (String.list_ascii_of_string q1) -> ~ In c (String.list_ascii_of_string q2) ->
  p1 +:+ String c q1 = p2 +:+ String c q2 -> p1 = p2 /\ q1 = q2.
Proof.
  intros H1 H2. revert p2. induction p1 as [|a p1 IH]; intros [|a2 p2] Heq; cbn in Heq.
  - by simplify_eq.
  - injection Heq as -> ->. destruct H1. clear.
    induction p2 as [|a p2 IH]; cbn; [by left|by right].
  - injection Heq as -> <-. destruct H2. clear.
    induction p1 as [|a p1 IH]; cbn; [by left|by right].
  - injection Heq as -> Heq. destruct (IH p2 Heq) as [-> ->]. done.
Qed.

Lemma colon_not_hex b : ~ In (Ascii.ascii_of_N 58) (String.list_ascii_of_string (hex_encode b)).
Proof.
  intros Hin. pose proof (hex_encode_digits b) as Hd. rewrite forallb_forall in Hd.
  by specialize (Hd _ Hin).
Qed.

Lemma make_key_hex_inj p1 p2 k1 k2 :
  make_key p1 (hex_encode k1) = make_key p2 (hex_encode k2) -> p1 = p2 /\ k1 = k2.
Proof.
  unfold make_key. intros Heq.
  destruct (string_app_inj_sep p1 p2 (hex_encode k1) (hex_encode k2) (Ascii.ascii_of_N 58))
    as [-> E]; [apply colon_not_hex..|exact Heq|].
  by apply (inj hex_encode) in E.
Qed.

(** The key under which marks are stored separates scopes: no two different
    (producer, issuer key hash) pairs share a key, even when producer names
    contain the separator. *)
Theorem make_key_inj p1 p2 k1 k2 :
  make_key p1 (hex_encode k1) = make_key p2 (hex_encode k2) -> p1 = p2 /\ k1 = k2.
Proof. apply make_key_hex_inj. Qed.
End keys.

(** ** Checks *)

Section check_props.
Context {CR : Crates}.
Implicit Types (s : StateStore) (b : Bundle).

Definition scope_key b (scope : CaScope) : string :=
  make_key (m_producer_id (b_manifest b)) (hex_encode (cs_issuer_key_hash scope)).
Definition mark s b (scope : CaScope) : option N :=
  ps_high_water_marks (ss_state s) !! scope_key b scope.
Definition recorded s b (scope : CaScope) : option bytes :=
  get_manifest_digest s (m_producer_id (b_manifest b)) (hex_encode (cs_issuer_key_hash scope)).

(** A scope that moves its mark forward by an allowed amount, or stands on it
    with the manifest that was recorded there. *)
Definition admits s b (scope : CaScope) : Prop :=
  forall hw, mark s b scope = Some hw ->
    hw <= cs_epoch scope <= hw + MAX_EPOCH_JUMP /\
    (cs_epoch scope = hw -> recorded s b scope = Some (sha256 (b_manifest_bytes b))).

Lemma check_rollback_scope_Ok s b scope :
  check_rollback_scope s b scope = Ok tt <-> admits s b scope.
Proof.
  unfold check_rollback_scope, admits, mark, recorded, get_high_water, scope_key.
  destruct (ps_high_water_marks (ss_state s) !! _) as [hw|]; [|naive_solver].
  destruct (N.ltb_spec (cs_epoch scope) hw); [split; [done|]; intros Ha; destruct (Ha hw eq_refl); lia|].
  destruct (N.eqb_spec (cs_epoch scope) hw) as [E|E]; cbn [andb].
  - case_bool_decide as Hd; cbn [negb].
    + destruct (N.ltb_spec MAX_EPOCH_JUMP (cs_epoch scope - hw)); [unfold MAX_EPOCH_JUMP in *; lia|].
      split; [|done]. intros _ hw' [= <-]. split; [lia|done].
    + split; [done|]. intros Ha. destruct (Ha hw eq_refl) as [_ Hr]. by destruct Hd; apply Hr.
  - destruct (N.ltb_spec MAX_EPOCH_JUMP (cs_epoch scope - hw)).
    + split; [done|]. intros Ha. destruct (Ha hw eq_refl). lia.
    + split; [|done]. intros _ hw' [= <-]. split; [lia|done].
Qed.

Lemma check_rollback_Ok s b u :
  check_rollback s b = Ok u <-> Forall (admits s b) (m_ca_scopes (b_manifest b)).
Proof.
  unfold check_rollback. rewrite for_each_Ok. apply Forall_proper; [|done].
  intros x. apply check_rollback_scope_Ok.
Qed.

(** C38: the rollback check accepts exactly the bundles in which every scope with
    a recorded mark has an epoch at or at most 10000 above the mark, and at the
    mark only with the manifest recorded there (the reload of the same bundle);
    otherwise it fails at the first scope that does not, as a jump when the
    epoch is too far ahead and as a rollback in the other cases. *)
Theorem check_rollback_exact s b :
  match check_rollback s b with
  | Ok _ => Forall (admits s b) (m_ca_scopes (b_manifest b))
  | Err e => exists l1 scope l2 hw, m_ca_scopes (b_manifest b) = l1 ++ scope :: l2 /\
      Forall (admits s b) l1 /\ mark s b scope = Some hw /\
      ((hw + MAX_EPOCH_JUMP < cs_epoch scope /\ exists n, e =
          EpochJumpTooLarge n (cs_epoch scope) hw (cs_epoch scope - hw) MAX_EPOCH_JUMP) \/
       ((cs_epoch scope < hw \/
         cs_epoch scope = hw /\ recorded s b scope <> Some (sha256 (b_manifest_bytes b))) /\
        exists n, e = CoreEpochRollback n (cs_epoch scope) hw))
  end.
Proof.
  destruct (check_rollback s b) as [u|e] eqn:E; [by apply check_rollback_Ok in E|].
  unfold check_rollback in E. apply for_each_Err in E as (l1 & scope & l2 & Hl & Hl1 & He).
  exists l1, scope, l2. unfold check_rollback_scope in He.
  fold (mark s b scope) in He. unfold get_high_water in He. fold (scope_key b scope) (mark s b scope) in He.
  destruct (mark s b scope) as [hw|]; [|done]. exists hw. split; [done|].
  split; [eapply Forall_impl; [exact Hl1|]; intros x; apply check_rollback_scope_Ok|]. split; [done|].
  destruct (N.ltb_spec (cs_epoch scope) hw); [right; injection He as <-; split; [by left|by eexists]|].
  destruct (N.eqb_spec (cs_epoch scope) hw) as [E|E]; cbn [andb] in He.
  - case_bool_decide as Hd; cbn [negb] in He.
    + destruct (N.ltb_spec MAX_EPOCH_JUMP (cs_epoch scope - hw)); [unfold MAX_EPOCH_JUMP in *; lia|done].
    + right. injection He as <-. split; [by right|by eexists].
  - destruct (N.ltb_spec MAX_EPOCH_JUMP (cs_epoch scope - hw)); [|done].
    left. injection He as <-. split; [lia|by eexists].
Qed.

(** The continuity check accepts exactly the bundles that name no predecessor,
    or whose predecessor is the manifest recorded for every scope that has one,
    scopes on which this very bundle is recorded at its epoch excepted. *)
Theorem check_continuity_iff s b :
  check_continuity s b = Ok tt <->
  forall prev scope r, co_prev_manifest_digest (m_continuity (b_manifest b)) = Some prev ->
    scope ∈ m_ca_scopes (b_manifest b) -> recorded s b scope = Some r ->
    prev = r \/ (mark s b scope = Some (cs_epoch scope) /\ r = sha256 (b_manifest_bytes b)).
Proof.
  unfold check_continuity.
  destruct (co_prev_manifest_digest _) as [prev|]; [|by split; [intros _ ???|]].
  rewrite for_each_Ok, Forall_forall.
  assert (forall scope, check_continuity_scope s b prev scope = Ok tt <->
    forall r, recorded s b scope = Some r ->
    prev = r \/ (mark s b scope = Some (cs_epoch scope) /\ r = sha256 (b_manifest_bytes b))) as Hsc.
  { intros scope. unfold check_continuity_scope. fold (recorded s b scope).
    destruct (recorded s b scope) as [r|]; [|naive_solver].
    change (get_high_water s _ _) with (mark s b scope).
    repeat case_bool_decide; cbn; naive_solver. }
  split.
  - intros H prev' scope r [= <-] Hin Hr. by eapply Hsc; [apply H|].
  - intros H scope Hin. apply Hsc. intros r. by apply H.
Qed.
End check_props.

(** ** Advancing *)

Section advance_props.
Context {CR : Crates} {JS : Json}.
Implicit Types (s : StateStore) (st : PersistedState) (b : Bundle).

(** [advance] on the marks and digests alone. *)
Definition advance_state st (key : string) (epoch : N) (digest : bytes) : PersistedState :=
  if is_newer epoch (ps_high_water_marks st !! key) then record_mark st key epoch digest else st.

Definition advanced st b : PersistedState :=
  fold_left (fun st scope =>
    advance_state st (scope_key b scope) (cs_epoch scope) (sha256 (b_manifest_bytes b)))
    (m_ca_scopes (b_manifest b)) st.

Lemma with_state_same s : with_state s (ss_state s) = s.
Proof. by destruct s. Qed.

(** A staged store advances in memory only. *)
Lemma advance_staged s p k e d w :
  ss_staged s = true ->
  advance s p k e d w = (Done (with_state s (advance_state (ss_state s) (make_key p k) e d)), w).
Proof.
  intros Hs. unfold advance, advance_state. destruct (is_newer e _).
  - rewrite Hs. done.
  - by rewrite with_state_same.
Qed.

Lemma advance_loop b (scopes : list CaScope) p st w :
  io_fold (fun c scope =>
      advance c (m_producer_id (b_manifest b)) (hex_encode (cs_issuer_key_hash scope))
        (cs_epoch scope) (sha256 (b_manifest_bytes b)))
    (mkStateStore p st true) scopes w =
  (Done (mkStateStore p (fold_left (fun st scope =>
    advance_state st (scope_key b scope) (cs_epoch scope) (sha256 (b_manifest_bytes b)))
    scopes st) true), w).
Proof.
  revert st. induction scopes as [|scope scopes IH]; intros st; cbn [io_fold fold_left]; [done|].
  unfold mbind, io_bind. rewrite advance_staged by done. apply IH.
Qed.

Lemma advance_from_bundle_eq s b w :
  advance_from_bundle s b w =
  ((if ss_staged s then mret tt else persist (mkStateStore (ss_path s) (advanced (ss_state s) b) true)) ;;
   mret (with_state s (advanced (ss_state s) b))) w.
Proof.
  unfold advance_from_bundle. unfold mbind at 1, io_bind at 1. by rewrite advance_loop.
Qed.

Lemma advance_from_bundle_Done s b w s' w' :
  advance_from_bundle s b w = (Done s', w') -> s' = with_state s (advanced (ss_state s) b).
Proof.
  rewrite advance_from_bundle_eq. unfold mbind, io_bind, mret, io_ret.
  destruct (ss_staged s); [congruence|]. destruct (persist _ w) as [[]]; congruence.
Qed.

Lemma advance_from_bundle_staged s b w :
  ss_staged s = true ->
  advance_from_bundle s b w = (Done (with_state s (advanced (ss_state s) b)), w).
Proof. intros Hs. rewrite advance_from_bundle_eq, Hs. done. Qed.

(** *** Marks rise *)

Definition marks_le st st' : Prop :=
  forall k v, ps_high_water_marks st !! k = Some v ->
    exists v', ps_high_water_marks st' !! k = Some v' /\ v <= v'.

#[export] Instance marks_le_preorder : PreOrder marks_le.
Proof.
  split.
  - intros st k v Hv. by exists v.
  - intros s1 s2 s3 H12 H23 k v Hv. destruct (H12 k v Hv) as (v2 & Hv2 & ?).
    destruct (H23 k v2 Hv2) as (v3 & Hv3 & ?). exists v3. split; [done|lia].
Qed.

Lemma advance_state_le st k e d : marks_le st (advance_state st k e d).
Proof.
  unfold advance_state. destruct (is_newer e _) eqn:En; [|reflexivity].
  intros k' v Hv. cbn. destruct (decide (k = k')) as [->|Hne].
  - rewrite lookup_insert_eq. exists e. rewrite Hv in En. cbn in En. apply N.ltb_lt in En.
    split; [done|lia].
  - rewrite lookup_insert_ne by done. by exists v.
Qed.

Lemma advanced_le st b : marks_le st (advanced st b).
Proof.
  unfold advanced. generalize (m_ca_scopes (b_manifest b)) as l. intros l. revert st.
  induction l as [|scope l IH]; intros st; cbn [fold_left]; [reflexivity|].
  etrans; [apply advance_state_le|apply IH].
Qed.

(** *** Marks and digests are recorded together *)

Definition digest_at st (key : string) : option bytes :=
  hex_str ← ps_manifest_digests st !! key;
  d ← to_option (hex_decode hex_str);
  if decide (length d = 32%nat) then Some d else None.

Lemma recorded_digest_at s b scope : recorded s b scope = digest_at (ss_state s) (scope_key b scope).
Proof. done. Qed.

(** Every mark has a digest of 32 bytes and every digest a mark. *)
Definition paired st : Prop :=
  forall k, is_Some (ps_high_water_marks st !! k) <-> is_Some (digest_at st k).

Section with_specs.
Context {HX : HexSpec} {SH : Sha256Spec}.

Lemma digest_at_record st k k' e (b : bytes) :
  digest_at (record_mark st k e (sha256 b)) k' = if decide (k = k') then Some (sha256 b) else digest_at st k'.
Proof.
  unfold digest_at, record_mark. cbn. case_decide as E.
  - subst. rewrite lookup_insert_eq. cbn. rewrite hex_decode_encode. cbn.
    by rewrite decide_True by apply sha256_length.
  - by rewrite lookup_insert_ne.
Qed.

Lemma mark_record st k k' e d :
  ps_high_water_marks (record_mark st k e d) !! k' =
  if decide (k = k') then Some e else ps_high_water_marks st !! k'.
Proof. cbn. case_decide; [subst; by rewrite lookup_insert_eq|by rewrite lookup_insert_ne]. Qed.

Lemma advance_state_paired st k e (b : bytes) : paired st -> paired (advance_state st k e (sha256 b)).
Proof.
  intros Hp. unfold advance_state. destruct (is_newer e _); [|done]. intros k'.
  rewrite mark_record, digest_at_record. case_decide; [by split; eexists|apply Hp].
Qed.

Lemma advanced_paired st b : paired st -> paired (advanced st b).
Proof.
  unfold advanced. generalize (m_ca_scopes (b_manifest b)) as l. intros l. revert st.
  induction l as [|scope l IH]; intros st Hp; cbn [fold_left]; [done|].
  by apply IH, advance_state_paired.
Qed.

(** *** What was recorded stays covered *)

(** The mark of [key] is at or above [e], and at [e] only with digest [d]. *)
Definition covered st (key : string) (e : N) (d : bytes) : Prop :=
  exists hw, ps_high_water_marks st !! key = Some hw /\ e <= hw /\ (e = hw -> digest_at st key = Some d).

Definition agrees st (key : string) (e : N) (d : bytes) : Prop :=
  ps_high_water_marks st !! key = Some e -> digest_at st key = Some d.

Lemma covered_advance st key e d key' e' (b : bytes) :
  covered st key e d -> covered (advance_state st key' e' (sha256 b)) key e d.
Proof.
  intros (hw & Hhw & Hle & Hd). unfold advance_state.
  destruct (is_newer e' _) eqn:En; [|by exists hw]. unfold covered.
  rewrite mark_record, digest_at_record. case_decide as E; [|by exists hw].
  subst key'. rewrite Hhw in En. cbn in En. apply N.ltb_lt in En.
  exists e'. split_and!; [done|lia|lia].
Qed.

Lemma agrees_advance st key e key' e' (b : bytes) :
  agrees st key e (sha256 b) -> agrees (advance_state st key' e' (sha256 b)) key e (sha256 b).
Proof.
  intros Ha. unfold advance_state. destruct (is_newer e' _); [|done]. unfold agrees.
  rewrite mark_record, digest_at_record. by case_decide.
Qed.

Lemma advance_covers st key e (b : bytes) :
  agrees st key e (sha256 b) -> covered (advance_state st key e (sha256 b)) key e (sha256 b).
Proof.
  intros Ha. unfold advance_state. destruct (is_newer e _) eqn:En.
  - exists e. rewrite mark_record, digest_at_record, !decide_True by done. done.
  - unfold is_newer in En. destruct (ps_high_water_marks st !! key) as [hw|] eqn:Ehw; [|done].
    apply N.ltb_ge in En. exists hw. split_and!; [done|done|]. intros ->. by apply Ha.
Qed.

Lemma advanced_covered st b key e d : covered st key e d -> covered (advanced st b) key e d.
Proof.
  unfold advanced. generalize (m_ca_scopes (b_manifest b)) as l. intros l. revert st.
  induction l as [|scope l IH]; intros st Hc; cbn [fold_left]; [done|].
  by apply IH, covered_advance.
Qed.

Lemma advanced_covers st b :
  Forall (fun sc => agrees st (scope_key b sc) (cs_epoch sc) (sha256 (b_manifest_bytes b)))
    (m_ca_scopes (b_manifest b)) ->
  Forall (fun sc => covered (advanced st b) (scope_key b sc) (cs_epoch sc) (sha256 (b_manifest_bytes b)))
    (m_ca_scopes (b_manifest b)).
Proof.
  unfold advanced. generalize (m_ca_scopes (b_manifest b)) as l. intros l. revert st.
  induction l as [|scope l IH]; intros st Ha; cbn [fold_left]; [constructor|].
  apply Forall_cons in Ha as [Hs Ha]. constructor.
  - apply (advance_covers _ _ _ (b_manifest_bytes b)) in Hs. revert Hs.
    generalize (advance_state st (scope_key b scope) (cs_epoch scope) (sha256 (b_manifest_bytes b))).
    clear IH Ha st. induction l as [|sc l IH]; intros st Hc; cbn [fold_left]; [done|].
    by apply IH, covered_advance.
  - apply IH. eapply Forall_impl; [exact Ha|]. intros x. cbn. apply agrees_advance.
Qed.
End with_specs.
End advance_props.

(** ** Persisting and committing *)

Section commit_props.
Context {CR : Crates} {JS : Json}.
Implicit Types (s c : StateStore) (st : PersistedState) (b : Bundle).

Lemma io_spec_lift {E A} (r : result E A) w (Q : outcome E A -> World -> Prop) :
  match r with Ok a => Q (Done a) w | Err e => Q (Failed e) w end -> io_spec (io_lift r) w Q.
Proof. by destruct r. Qed.

(** The outcome of persisting a store: the replacement of its file, unless the
    state cannot be serialised. *)
Lemma persist_spec s w :
  ~ tmp_path (ss_path s) ->
  io_spec (persist s) w (fun o w' =>
    match json_to_vec_pretty (ss_state s) with
    | Ok json => untouched (ss_path s) w w' /\ replacement (ss_path s) json w o w'
    | Err _ => w' = w /\ exists r, o = Failed (StateStoreError r)
    end).
Proof.
  intros Hp. unfold persist. apply io_spec_bind, io_spec_lift.
  destruct (json_to_vec_pretty (ss_state s)) as [json|e]; cbn [map_err]; [|by eauto].
  by apply write_atomic_spec.
Qed.

(** Nothing but unreferenced generation files changes. *)
Definition keeps (q : path) (w w' : World) : Prop :=
  w_files w' !! q = w_files w !! q /\ (q ∈ w_synced w' <-> q ∈ w_synced w) /\
  w_durable w' = w_durable w.

Definition garbage st (q : path) : Prop :=
  is_generated q = true /\ q ∉ (map_to_list (ps_active_bundles st)).*2.

Lemma keeps_refl q w : keeps q w w.
Proof. by split_and!. Qed.
Lemma keeps_trans q w1 w2 w3 : keeps q w1 w2 -> keeps q w2 w3 -> keeps q w1 w3.
Proof. intros (A1 & A2 & A3) (B1 & B2 & B3). split_and!; [congruence|tauto|congruence]. Qed.
Lemma keeps_same q w w' : same_files w w' -> keeps q w w'.
Proof. intros [Hf Hs Hd]. unfold keeps. by rewrite Hf, Hs, Hd. Qed.
Lemma keeps_stable q w w' : keeps q w w' -> stable w q -> stable w' q.
Proof. intros (Hf & Hs & Hd) [S1 S2]. split; rewrite ?Hf, ?Hd, ?Hs; done. Qed.
Lemma keeps_after_crash q w w' x : keeps q w w' -> after_crash w' q x -> after_crash w q x.
Proof. intros (Hf & Hs & Hd). unfold after_crash. by rewrite Hf, Hs, Hd. Qed.

Lemma collect_garbage_spec st p q w :
  ~ garbage st q ->
  io_spec (collect_garbage st p) w (fun o w' => keeps q w w' /\ forall e, o <> Failed e).
Proof.
  intros Hq. unfold collect_garbage.
  destruct (is_generated p) eqn:Eg; cbn [andb]; [|by apply io_spec_ret; split; [apply keeps_refl|]].
  case_bool_decide as Hin; cbn [negb]; [by apply io_spec_ret; split; [apply keeps_refl|]|].
  apply io_spec_bind, io_spec_try. eapply io_spec_mono; [apply remove_file_spec|].
  intros o w' [Hd H]. assert (q <> p) as Hne by (intros ->; by apply Hq).
  assert (keeps q w w') as Hk by (destruct (H q Hne); by split_and!).
  destruct o; try (by apply io_spec_ret). by split.
Qed.

Lemma collect_all_spec st ps q w :
  ~ garbage st q ->
  io_spec (io_for_each (collect_garbage st) ps) w (fun o w' => keeps q w w' /\ forall e, o <> Failed e).
Proof.
  intros Hq. revert w. induction ps as [|p ps IH]; intros w; cbn [io_for_each].
  - apply io_spec_ret. split; [apply keeps_refl|done].
  - apply io_spec_bind. eapply io_spec_mono; [by apply collect_garbage_spec|].
    intros [[]|e|] w1 [Hk Hn]; [|by destruct (Hn e)|done].
    eapply io_spec_mono; [apply IH|]. intros o w2 [Hk2 Hn2]. split; [by eapply keeps_trans|done].
Qed.

(** The part of [commit] after the descriptor is written. *)
Lemma commit_tail_spec s st q w :
  ~ garbage st q ->
  io_spec (files ← io_try (E := IoError) (read_dir (generations_dir (ss_path s)));
    match files with
    | Ok files => io_for_each (collect_garbage st) files
    | Err _ => mret tt
    end ;; mret (with_state s st)) w
    (fun o w' => keeps q w w' /\ (o = Crashed \/ o = Done (with_state s st))).
Proof.
  intros Hq. apply io_spec_bind, io_spec_try. eapply io_spec_mono; [apply read_dir_spec|].
  intros o w1 [Hs _]. apply (keeps_same q) in Hs.
  destruct o as [files|e|]; [| |by split; [|left]].
  - apply io_spec_bind. eapply io_spec_mono; [by apply (collect_all_spec st files q)|].
    intros [[]|e|] w2 [Hk Hn]; [|by destruct (Hn e)|split; [by eapply keeps_trans|by left]].
    apply io_spec_ret. split; [by eapply keeps_trans|by right].
  - apply io_spec_bind, io_spec_ret, io_spec_ret. split; [done|by right].
Qed.

(** A path that a commit of [c] must not disturb: a referenced snapshot. *)
Lemma referenced_not_garbage st label p :
  ps_active_bundles st !! label = Some p -> ~ garbage st p.
Proof.
  intros Hl [_ Hn]. apply Hn. apply list_elem_of_fmap. exists (label, p).
  by rewrite elem_of_map_to_list.
Qed.

Lemma commit_spec s c w :
  ss_path c = ss_path s -> ~ tmp_path (ss_path s) -> is_generated (ss_path s) = false ->
  io_spec (commit s c) w (fun o w' =>
    (forall q, ~ garbage (ss_state c) q -> q <> ss_path s -> ~ tmp_path q ->
       w_files w' !! q = w_files w !! q /\ (stable w q -> stable w' q)) /\
    match json_to_vec_pretty (ss_state c) with
    | Ok json =>
        match o with
        | Done s' => s' = with_state s (ss_state c) /\ replacement (ss_path s) json w (Done tt) w'
        | Failed e => replacement (ss_path s) json w (Failed e) w'
        | Crashed => replacement (ss_path s) json w Crashed w'
        end
    | Err _ => w' = w /\ exists r, o = Failed (StateStoreError r)
    end).
Proof.
  intros Hpath Hp Hgen. unfold commit. apply io_spec_bind.
  eapply io_spec_mono; [apply persist_spec; by rewrite Hpath|]. rewrite Hpath.
  destruct (json_to_vec_pretty (ss_state c)) as [json|e]; intros o w1 H1.
  2: { destruct H1 as [-> (r & ->)]. split; [done|]. by eauto. }
  destruct H1 as [Hu Hr]. destruct o as [[]|e|]; [|by split; [intros; apply Hu|]..].
  assert (~ garbage (ss_state c) (ss_path s)) as Hgs by (intros [? _]; congruence).
  pose proof (io_spec_forall _ w1 _ _ (fun q Hq => commit_tail_spec s (ss_state c) q w1 Hq)) as T.
  eapply io_spec_mono; [exact T|]. clear T. intros o w2 T. destruct (T _ Hgs) as [K2 Ho]. split.
  - intros q Hg Hq Hqt. destruct (T q Hg) as [K1 _], (Hu q Hq Hqt) as [Hf Hst].
    split; [destruct K1 as (-> & _); done|]. intros. by eapply keeps_stable; [|apply Hst].
  - destruct Hr as [Hjson Hstable]. destruct Ho as [->| ->].
    + intros x _ Hx. right. rewrite <- Hjson. apply stable_after_crash; [done|].
      by eapply keeps_after_crash.
    + split; [done|]. split; [by destruct K2 as (-> & _)|by eapply keeps_stable].
Qed.

(** The descriptor on disk is the old one or one that decodes to [st]. *)
Definition old_or_new (w : World) (p : path) st (content : option bytes) : Prop :=
  content = w_files w !! p \/
  exists json, content = Some json /\ json_from_str json = Ok st.

(** C21: a commit is atomic and durable: whatever fails and wherever the machine
    crashes, a restart finds the old state descriptor or the complete candidate;
    after success it finds the candidate, after an error other than "durability
    uncertain" the old one; and the snapshots the candidate refers to survive
    the collection of old generations. *)
Theorem commit_atomic {JSS : JsonSpec} s c w :
  ss_path c = ss_path s -> ~ tmp_path (ss_path s) -> is_generated (ss_path s) = false ->
  stable w (ss_path s) ->
  let '(o, w') := commit s c w in
  (forall x, after_crash w' (ss_path s) x -> old_or_new w (ss_path s) (ss_state c) x) /\
  match o with
  | Done s' => ss_state s' = ss_state c /\ forall x, after_crash w' (ss_path s) x ->
      exists json, x = Some json /\ json_from_str json = Ok (ss_state c)
  | Failed (DurabilityUncertain _ _) | Crashed => True
  | Failed _ => forall x, after_crash w' (ss_path s) x -> x = w_files w !! ss_path s
  end /\
  (forall label p, ps_active_bundles (ss_state c) !! label = Some p ->
     p <> ss_path s -> ~ tmp_path p -> w_files w' !! p = w_files w !! p).
Proof.
  intros Hpath Hp Hgen Hst. pose proof (commit_spec s c w Hpath Hp Hgen) as H. unfold io_spec in H.
  destruct (commit s c w) as [o w']. cbn [fst snd] in H. destruct H as [Hframe H].
  assert (forall label p, ps_active_bundles (ss_state c) !! label = Some p ->
     p <> ss_path s -> ~ tmp_path p -> w_files w' !! p = w_files w !! p) as Href.
  { intros label p Hl Hne Hpt. by apply Hframe; [eapply referenced_not_garbage|..]. }
  destruct (json_to_vec_pretty (ss_state c)) as [json|e] eqn:Ej.
  2: { destruct H as [-> (r & ->)]. assert (forall x, after_crash w (ss_path s) x ->
         x = w_files w !! ss_path s) as Hx by (intros; by apply stable_after_crash).
       split; [|done]. intros x Hc. left. by apply Hx. }
  pose proof (json_from_to _ _ Ej) as Hj. destruct o as [s'|e|].
  - destruct H as [-> [Hf Hs]]. assert (forall x, after_crash w' (ss_path s) x ->
      exists json, x = Some json /\ json_from_str json = Ok (ss_state c)) as Hx.
    { intros x Hx. exists json. split; [|done]. rewrite <- Hf. by apply stable_after_crash. }
    split_and!; try done. intros x Hc. right. by apply Hx.
  - assert (w_files w' !! ss_path s = w_files w !! ss_path s ->
      (stable w (ss_path s) -> stable w' (ss_path s)) ->
      forall x, after_crash w' (ss_path s) x -> x = w_files w !! ss_path s) as Hplain.
    { intros E1 E2 x Hx. rewrite <- E1. apply stable_after_crash; tauto. }
    destruct e; destruct H as [H1 H2];
      (split; [intros x Hx; first
        [by left; apply Hplain
        |destruct (H2 x Hst Hx) as [->| ->]; [by left|right; by eexists]]|split; [|done]]);
      first [by apply Hplain|done].
  - split_and!; [|done|done]. intros x Hx. destruct (H x Hst Hx) as [->| ->]; [by left|].
    right. by eexists.
Qed.
End commit_props.

(** ** Snapshots and opening *)

Section open_props.
Context {CR : Crates} {JS : Json}.
Implicit Types (s c : StateStore) (st : PersistedState) (b : Bundle).

Definition snapshot_path (p : path) (contents : bytes) : path :=
  generations_dir p ++ [hex_encode (sha256 contents) +:+ ".ahu"].

Definition add_active st (label : string) (p : path) : PersistedState :=
  mkPersistedState (ps_high_water_marks st) (ps_manifest_digests st)
    (<[label := p]> (ps_active_bundles st)).

(** A snapshot either fails or leaves the bundle's bytes in the file named by
    their digest; other files are untouched, and the marks are not changed. *)
Lemma snapshot_spec s label b w contents :
  to_bytes b = Ok contents ->
  let p := snapshot_path (ss_path s) contents in
  ~ tmp_path p ->
  io_spec (snapshot s label b) w (fun o w' => untouched p w w' /\
    forall s', o = Done s' -> w_files w' !! p = Some contents /\
      s' = with_state s (add_active (ss_state s) label p)).
Proof.
  intros Eb p Hp. unfold snapshot. rewrite Eb.
  apply io_spec_bind, io_spec_lift. cbn [map_err]. fold (snapshot_path (ss_path s) contents).
  fold p. apply io_spec_bind, io_spec_map_err. eapply io_spec_mono; [apply create_dir_all_same|].
  intros o w1 S1.
  assert (forall w', same_files w w' -> untouched p w w') as Hsame.
  { intros w' Hs q _ _. split; [by destruct Hs as [-> _ _]|]. by apply same_files_stable. }
  destruct o as [[]|e|]; [|by split; [apply Hsame|]..].
  apply io_spec_bind. eapply io_spec_mono; [apply path_exists_spec|].
  intros o w2 (S2 & Hnf & _). pose proof (transitivity S1 S2) as S12.
  destruct o as [there|e|]; [|by destruct (Hnf e)|by split; [apply Hsame|]].
  apply io_spec_bind.
  assert (forall w3 (same : bool), same_files w w3 ->
    (same = true -> w_files w3 !! p = Some contents) ->
    io_spec ((if same then mret tt else write_atomic p contents) ;;
      mret (with_state s (add_active (ss_state s) label p))) w3 (fun o w' => untouched p w w' /\
        forall s', o = Done s' -> w_files w' !! p = Some contents /\
          s' = with_state s (add_active (ss_state s) label p))) as Htail.
  { intros w3 same S3 Hc. apply io_spec_bind. destruct same.
    - apply io_spec_ret, io_spec_ret. split; [by apply Hsame|]. intros s' [= <-]. by split; [apply Hc|].
    - eapply io_spec_mono; [by apply write_atomic_spec|]. intros o w4 [Hu Hr].
      pose proof (same_files_untouched _ _ _ _ S3 Hu) as Hu'.
      destruct o as [[]|e|]; [|by split..]. apply io_spec_ret. split; [done|].
      intros s' [= <-]. by destruct Hr. }
  destruct there.
  - apply io_spec_bind, io_spec_map_err. eapply io_spec_mono; [apply read_file_spec|].
    intros o w3 [S3 Hr]. pose proof (transitivity S12 S3) as S123.
    destruct o as [old|e|]; [|by split; [apply Hsame|]..].
    apply io_spec_ret, Htail; [done|]. intros ->%bool_decide_eq_true.
    destruct S123 as [-> _ _]. destruct S12 as [<- _ _]. by apply Hr.
  - apply io_spec_ret. by apply (Htail w2 false).
Qed.

Lemma snapshot_Done s label b w s' w' :
  snapshot s label b w = (Done s', w') ->
  exists p, ss_path s' = ss_path s /\ ss_staged s' = ss_staged s /\
    ss_state s' = add_active (ss_state s) label p.
Proof. unfold snapshot. intros H. inv_io. by eexists. Qed.

Lemma io_for_each_lift {A} (f : A -> io CoreError unit) (Q : A -> Prop) l w w' :
  (forall x v v', f x v = (Done tt, v') -> same_files v v' /\ (same_files w v -> Q x)) ->
  io_for_each f l w = (Done tt, w') -> same_files w w' /\ Forall Q l.
Proof.
  intros Hf. assert (forall v, same_files w v -> io_for_each f l v = (Done tt, w') ->
    same_files w w' /\ Forall Q l) as H; [|by apply H].
  induction l as [|x l IH]; intros v Hv; cbn [io_for_each].
  - by intros [_ ->]%io_ret_Done.
  - intros ([] & v1 & H1 & H2)%io_bind_Done. destruct (Hf x v v1 H1) as [Hs HQ].
    destruct (IH v1) as [? ?]; [by etrans|done|]. split; [done|]. constructor; [by apply HQ|done].
Qed.

(** The committed snapshots of [st] are in place: each is named by the digest
    of its contents, parses, and has all its scopes at or below the marks. *)
Definition snapshots_valid st (w : World) : Prop :=
  forall label p, ps_active_bundles st !! label = Some p ->
    exists contents b, w_files w !! p = Some contents /\ from_bytes contents = Ok b /\
      (exists stem, file_stem p = Some stem /\ hex_decode stem = Ok (sha256 contents)) /\
      forall scope, scope ∈ m_ca_scopes (b_manifest b) ->
        exists hw, ps_high_water_marks st !! scope_key b scope = Some hw /\ cs_epoch scope <= hw.

Lemma check_snapshot_bytes_Ok st p contents :
  check_snapshot_bytes st p contents = Ok tt ->
  exists b, from_bytes contents = Ok b /\
    (exists stem, file_stem p = Some stem /\ hex_decode stem = Ok (sha256 contents)) /\
    forall scope, scope ∈ m_ca_scopes (b_manifest b) ->
      exists hw, ps_high_water_marks st !! scope_key b scope = Some hw /\ cs_epoch scope <= hw.
Proof.
  unfold check_snapshot_bytes. intros H. inv_ok.
  rename select (bool_decide _ = true) into Hd. apply bool_decide_eq_true in Hd.
  rename select (from_bytes _ = _) into Hb. eexists. split; [exact Hb|]. split; [by subst; eexists|].
  rename select (for_each _ _ = _) into Hf. apply for_each_Ok in Hf. intros scope Hin.
  rewrite Forall_forall in Hf. specialize (Hf scope Hin). unfold check_snapshot_scope in Hf.
  match type of Hf with (match ?m with _ => _ end = _) => destruct m as [hw|] eqn:E end; [|done].
  destruct (N.leb_spec (cs_epoch scope) hw); [|done]. by exists hw.
Qed.

Lemma Forall_map_to_list {A} (P : string * A -> Prop) (m : gmap string A) :
  Forall P (map_to_list m) <-> forall k v, m !! k = Some v -> P (k, v).
Proof.
  rewrite Forall_forall. split.
  - intros H k v Hk. by apply H, elem_of_map_to_list.
  - intros H [k v] Hk%elem_of_map_to_list. by apply H.
Qed.

Lemma digest_records_paired st :
  for_each (check_digest_record st) (map_to_list (ps_manifest_digests st)) = Ok tt ->
  for_each (check_mark_record st) (map_to_list (ps_high_water_marks st)) = Ok tt ->
  paired st.
Proof.
  rewrite !for_each_Ok, !Forall_map_to_list. intros Hd Hm k. unfold digest_at. split.
  - intros [e He]. specialize (Hm k e He). unfold check_mark_record in Hm. cbn in Hm. inv_ok.
    apply bool_decide_eq_true in Hm as [h Hh]. rewrite Hh. cbn.
    specialize (Hd k h Hh). unfold check_digest_record in Hd. cbn in Hd. inv_ok.
    repeat match goal with E : bool_decide _ = true |- _ => apply bool_decide_eq_true in E end.
    rename select (hex_decode h = _) into Hx. rewrite Hx. cbn. by rewrite decide_True.
  - destruct (ps_manifest_digests st !! k) as [h|] eqn:Hh; [|by intros [? [=]]].
    intros _. specialize (Hd k h Hh). unfold check_digest_record in Hd. cbn in Hd. inv_ok.
    by rename select (bool_decide (is_Some _) = true) into E; apply bool_decide_eq_true in E.
Qed.

(** Opening is strict: a store is opened only from a state file that is there
    and decodes, with marks and 32-byte digests recorded in pairs, and with every
    committed snapshot present, named by its digest, readable and covered by the
    marks; the file system is not changed. *)
Theorem open_store_sound p w s w' :
  open_store p w = (Done s, w') ->
  ss_path s = p /\ ss_staged s = false /\ same_files w w' /\ paired (ss_state s) /\
  snapshots_valid (ss_state s) w /\
  exists json, w_files w !! p = Some json /\ json_from_str json = Ok (ss_state s).
Proof.
  unfold open_store, validate_persisted. intros H. inv_io.
  rename select (read_file p w = _) into Hr. rename v into json.
  pose proof (read_file_spec p w) as Hspec. unfold io_spec in Hspec. rewrite Hr in Hspec.
  cbn [fst snd] in Hspec. destruct Hspec as [S1 Hf]. cbn [ss_path ss_staged ss_state].
  rename select (io_for_each _ _ _ = _) into Hs.
  eapply (io_for_each_lift _ (fun kv => exists contents, w_files w !! kv.2 = Some contents /\
    check_snapshot_bytes _ kv.2 contents = Ok tt)) in Hs as [S2 Hsn].
  2: { intros [label q] v v' Hv. unfold check_snapshot in Hv. inv_io. cbn [snd] in *.
       rename select (read_file q v = _) into Hq.
       pose proof (read_file_spec q v) as Hqs. unfold io_spec in Hqs. rewrite Hq in Hqs.
       cbn [fst snd] in Hqs. destruct Hqs as [Sq Hfq]. split; [done|]. intros Sv.
       eexists. split; [|eassumption]. rewrite <- (sf_files _ _ S1), <- (sf_files _ _ Sv). by apply Hfq. }
  split_and!; [done|done|by etrans|by apply digest_records_paired| |].
  - intros label q Hq. rewrite Forall_map_to_list in Hsn. destruct (Hsn label q Hq) as (c & Hc & Hb).
    apply check_snapshot_bytes_Ok in Hb as (b & ?). exists c, b. naive_solver.
  - exists json. split; [by apply Hf|done].
Qed.
End open_props.

(** ** Histories *)

Section history.
Context {CR : Crates} {JS : Json}.

(** The life of a store: bundles that pass both checks are accepted and
    advance the marks; snapshots, transactions, commits and restarts happen in
    between.  The list holds the bundles accepted so far. *)
Inductive evolves : StateStore -> list Bundle -> Prop :=
| ev_start p : evolves (mkStateStore p default_state false) []
| ev_accept s h b w s' w' :
    evolves s h -> check_rollback s b = Ok tt -> check_continuity s b = Ok tt ->
    advance_from_bundle s b w = (Done s', w') -> evolves s' (b :: h)
| ev_snapshot s h label b w s' w' :
    evolves s h -> snapshot s label b w = (Done s', w') -> evolves s' h
| ev_transaction s h : evolves s h -> evolves (transaction s) h
| ev_clear s h : evolves s h -> evolves (clear_active_bundles s) h
| ev_commit s h base w s' w' :
    evolves s h -> commit base s w = (Done s', w') -> evolves s' h
| ev_restart s h p json w s' w' :
    evolves s h -> json_to_vec_pretty (ss_state s) = Ok json -> w_files w !! p = Some json ->
    open_store p w = (Done s', w') -> evolves s' h.

Lemma commit_Done base c w s' w' :
  commit base c w = (Done s', w') -> ss_state s' = ss_state c.
Proof. unfold commit. intros H. inv_io. done. Qed.

Context {JSS : JsonSpec} {HX : HexSpec} {SH : Sha256Spec}.

Lemma open_store_Done p w s w' :
  open_store p w = (Done s, w') ->
  exists json, w_files w !! p = Some json /\ json_from_str json = Ok (ss_state s).
Proof.
  unfold open_store. intros H. inv_io. rename select (read_file p w = _) into Hr.
  pose proof (read_file_spec p w) as Hspec. unfold io_spec in Hspec. rewrite Hr in Hspec.
  destruct Hspec as [_ Hf]. eexists. split; [by apply Hf|done].
Qed.

Definition history_covered (st : PersistedState) (h : list Bundle) : Prop :=
  forall b scope, b ∈ h -> scope ∈ m_ca_scopes (b_manifest b) ->
    covered st (scope_key b scope) (cs_epoch scope) (sha256 (b_manifest_bytes b)).

Lemma covered_ext st st' key e d :
  ps_high_water_marks st' = ps_high_water_marks st ->
  ps_manifest_digests st' = ps_manifest_digests st ->
  covered st key e d -> covered st' key e d.
Proof. unfold covered, digest_at. by intros -> ->. Qed.

Lemma evolves_covered s h : evolves s h -> history_covered (ss_state s) h /\ paired (ss_state s).
Proof.
  induction 1 as [p|s h b w s' w' _ [IHc IHp] Hr Hc Ha|s h label b w s' w' _ [IHc IHp] Hs
    |s h _ IH|s h _ [IHc IHp]|s h base w s' w' _ IH Hc|s h p json w s' w' _ IH Hj Hf Ho].
  - split; [by intros b sc ?%not_elem_of_nil|]. intros k. cbn. unfold digest_at. cbn.
    rewrite !lookup_empty. split; by intros [? [=]].
  - apply advance_from_bundle_Done in Ha as ->. cbn [with_state ss_state].
    split; [|by apply advanced_paired].
    intros b' scope [->|Hb]%elem_of_cons Hsc; [|by apply advanced_covered, IHc].
    apply check_rollback_Ok in Hr.
    assert (Forall (fun sc => agrees (ss_state s) (scope_key b sc) (cs_epoch sc)
      (sha256 (b_manifest_bytes b))) (m_ca_scopes (b_manifest b))) as Hag.
    { eapply Forall_impl; [exact Hr|]. intros x Hx Hm. by destruct (Hx _ Hm) as [_ Hx']; apply Hx'. }
    apply advanced_covers in Hag. rewrite Forall_forall in Hag. by apply Hag.
  - apply snapshot_Done in Hs as (p & _ & _ & ->). split; [|done].
    intros b' sc Hb Hsc. by eapply covered_ext, IHc.
  - done.
  - split; [|done]. intros b' sc Hb Hsc. by eapply covered_ext, IHc.
  - apply commit_Done in Hc. by rewrite Hc.
  - apply open_store_Done in Ho as (json' & Hf' & Hj'). apply json_from_to in Hj.
    assert (json' = json) as -> by congruence. assert (ss_state s' = ss_state s) as -> by congruence.
    done.
Qed.

Lemma accepted_order s h b1 b2 scope1 scope2 :
  evolves s h -> b1 ∈ h -> check_rollback s b2 = Ok tt ->
  scope1 ∈ m_ca_scopes (b_manifest b1) -> scope2 ∈ m_ca_scopes (b_manifest b2) ->
  m_producer_id (b_manifest b1) = m_producer_id (b_manifest b2) ->
  cs_issuer_key_hash scope1 = cs_issuer_key_hash scope2 ->
  cs_epoch scope1 <= cs_epoch scope2 /\
  (cs_epoch scope1 = cs_epoch scope2 ->
   sha256 (b_manifest_bytes b1) = sha256 (b_manifest_bytes b2)).
Proof.
  intros [Hc _]%evolves_covered Hb1 Hr Hs1 Hs2 Hp Hk. apply check_rollback_Ok in Hr.
  rewrite Forall_forall in Hr. specialize (Hr scope2 Hs2).
  destruct (Hc b1 scope1 Hb1 Hs1) as (hw & Hhw & Hle & Hd).
  assert (scope_key b1 scope1 = scope_key b2 scope2) as Ekey by (unfold scope_key; congruence).
  rewrite Ekey in *. destruct (Hr hw Hhw) as [[Hge _] Heq]. split; [lia|].
  intros E. assert (cs_epoch scope1 = hw) as E1 by lia. assert (cs_epoch scope2 = hw) as E2 by lia.
  specialize (Heq E2). rewrite recorded_digest_at, (Hd E1) in Heq. congruence.
Qed.

(** C1: no rollback and no fork, ever: once a bundle was accepted, through any
    sequence of later acceptances, snapshots, transactions, commits and restarts,
    the rollback check admits a bundle of the same producer and issuer key only
    at the same or a higher epoch, and at the same epoch only with the same
    manifest digest. *)
Theorem accepted_never_rolled_back s h b1 b2 scope1 scope2 :
  evolves s h -> b1 ∈ h -> check_rollback s b2 = Ok tt ->
  scope1 ∈ m_ca_scopes (b_manifest b1) -> scope2 ∈ m_ca_scopes (b_manifest b2) ->
  m_producer_id (b_manifest b1) = m_producer_id (b_manifest b2) ->
  cs_issuer_key_hash scope1 = cs_issuer_key_hash scope2 ->
  cs_epoch scope1 <= cs_epoch scope2 /\
  (cs_epoch scope1 = cs_epoch scope2 ->
   sha256 (b_manifest_bytes b1) = sha256 (b_manifest_bytes b2)).
Proof. apply accepted_order. Qed.

(** A bundle of a history passed the rollback check of the store it was accepted in. *)
Lemma evolves_cons s b h : evolves s (b :: h) -> exists s0, evolves s0 h /\ check_rollback s0 b = Ok tt.
Proof.
  intros H. remember (b :: h) as l eqn:E. induction H; simplify_eq; eauto.
Qed.

Lemma evolves_ordered s h1 b2 h2 b1 scope1 scope2 :
  evolves s (h1 ++ b2 :: h2) -> b1 ∈ h2 ->
  scope1 ∈ m_ca_scopes (b_manifest b1) -> scope2 ∈ m_ca_scopes (b_manifest b2) ->
  m_producer_id (b_manifest b1) = m_producer_id (b_manifest b2) ->
  cs_issuer_key_hash scope1 = cs_issuer_key_hash scope2 -> cs_epoch scope1 <= cs_epoch scope2.
Proof.
  revert s. induction h1 as [|b h1 IH]; intros s H; cbn in H; apply evolves_cons in H as (s0 & H & Hr).
  - intros Hb1 Hs1 Hs2 Hp Hk. by destruct (accepted_order s0 h2 b1 b2 scope1 scope2) as [? _].
  - by apply (IH s0).
Qed.

(** The marks are an invariant record: in every reachable state marks and
    digests come in pairs of an epoch and 32 bytes, and accepting a bundle never
    lowers a mark and raises the mark of each of its scopes to at least its
    epoch. *)
Theorem marks_paired_and_monotone s h b w s' w' :
  evolves s h -> check_rollback s b = Ok tt -> advance_from_bundle s b w = (Done s', w') ->
  paired (ss_state s') /\ marks_le (ss_state s) (ss_state s') /\
  forall scope, scope ∈ m_ca_scopes (b_manifest b) ->
    exists hw, mark s' b scope = Some hw /\ cs_epoch scope <= hw.
Proof.
  intros [_ Hp]%evolves_covered Hr ->%advance_from_bundle_Done. cbn [with_state ss_state].
  split; [by apply advanced_paired|]. split; [apply advanced_le|]. intros scope Hin.
  apply check_rollback_Ok in Hr.
  assert (Forall (fun sc => agrees (ss_state s) (scope_key b sc) (cs_epoch sc)
    (sha256 (b_manifest_bytes b))) (m_ca_scopes (b_manifest b))) as Hag.
  { eapply Forall_impl; [exact Hr|]. intros x Hx Hm. by destruct (Hx _ Hm) as [_ Hx']; apply Hx'. }
  apply advanced_covers in Hag. rewrite Forall_forall in Hag.
  destruct (Hag scope Hin) as (hw & Hhw & Hle & _). by exists hw.
Qed.
End history.

(** ** Witnesses *)

Module ToyJson.

Definition pack (st : PersistedState) : gmap string N * gmap string string * gmap string path :=
  (ps_high_water_marks st, ps_manifest_digests st, ps_active_bundles st).
Definition unpack (t : gmap string N * gmap string string * gmap string path) : PersistedState :=
  mkPersistedState t.1.1 t.1.2 t.2.

#[export] Instance json : Json := {
  json_to_vec_pretty st := Ok (Toy.enc_pos (encode (pack st)));
  json_from_str b :=
    match Toy.dec_pos b with
    | Some (p, _) =>
        match decode p with Some t => Ok (unpack t) | None => Err "not a state"%string end
    | None => Err "syntax error"%string
    end;
}.

Lemma enc_pos_utf8 p : utf8_valid (Toy.enc_pos p) = true.
Proof. induction p; cbn; done. Qed.

#[export] Instance json_spec : JsonSpec.
Proof.
  split.
  - intros st b [= <-]. cbn. rewrite <- (app_nil_r (Toy.enc_pos _)), Toy.dec_enc_pos, decode_encode.
    by destruct st.
  - intros st b [= <-]. apply enc_pos_utf8.
Qed.
End ToyJson.

Definition state_path : path := ["srv"; "state.json"]%string.

(** [sample_bundle] and a successor at the next epoch. *)
Definition older : Bundle := @sample_bundle Toy.crates.
Definition newer_manifest : Manifest :=
  let m := sample_manifest in
  mkManifest (m_format_version m) (m_bundle_id m) (m_producer_id m) (m_created_at m) Full
    [mkCaScope [x60; x86] [x01] [x02] 6 (mkResponderId ByKey [xaa]) None [x2a] Partial]
    (m_window m) (m_integrity m) 0
    (mkContinuity (Some (@sha256 Toy.crates (b_manifest_bytes older))) None 0) None None None.
Definition newer : Bundle :=
  mkBundle sample_header newer_manifest (@to_cbor Toy.crates newer_manifest) [x30] [] [].

Definition store0 : StateStore := transaction (mkStateStore state_path default_state false).
Definition store1 : StateStore := with_state store0 (@advanced Toy.crates (ss_state store0) older).

Lemma sample_evolves : @evolves Toy.crates ToyJson.json store1 [older].
Proof.
  eapply (@ev_accept Toy.crates ToyJson.json store0 [] older sample_world store1 sample_world).
  - apply ev_transaction, ev_start.
  - vm_compute. reflexivity.
  - vm_compute. reflexivity.
  - apply (@advance_from_bundle_staged Toy.crates ToyJson.json). reflexivity.
Qed.

Lemma make_key_inj_witness :
  ("a:b" = "a:b")%string /\ [x0c] = [x0c].
Proof. apply (@make_key_inj Toy.crates Toy.hex_spec). reflexivity. Defined.

Lemma accepted_never_rolled_back_witness : 5 <= 6.
Proof.
  assert (@check_rollback Toy.crates store1 newer = Ok tt) as Hr by (vm_compute; reflexivity).
  destruct (@accepted_never_rolled_back Toy.crates ToyJson.json ToyJson.json_spec Toy.hex_spec
    Toy.sha256_spec store1 [older] older newer sample_scope
    (mkCaScope [x60; x86] [x01] [x02] 6 (mkResponderId ByKey [xaa]) None [x2a] Partial)
    sample_evolves) as [H _].
  - left.
  - exact Hr.
  - left.
  - left.
  - reflexivity.
  - reflexivity.
  - exact H.
Defined.

Lemma marks_paired_and_monotone_witness :
  exists s', @advance_from_bundle Toy.crates ToyJson.json store1 newer sample_world =
      (Done s', sample_world) /\ paired (CR := Toy.crates) (ss_state s') /\
    marks_le (ss_state store1) (ss_state s').
Proof.
  pose proof (@advance_from_bundle_staged Toy.crates ToyJson.json store1 newer sample_world eq_refl)
    as Ha.
  eexists. split; [exact Ha|].
  destruct (@marks_paired_and_monotone Toy.crates ToyJson.json ToyJson.json_spec Toy.hex_spec
    Toy.sha256_spec store1 [older] newer sample_world
    (with_state store1 (@advanced Toy.crates (ss_state store1) newer)) sample_world sample_evolves)
    as (Hp & Hm & _).
  - vm_compute. reflexivity.
  - exact Ha.
  - split; [exact Hp|exact Hm].
Defined.

(** The machine stops while the descriptor of [store1] replaces the old file. *)
Lemma commit_atomic_witness :
  let w := set_events [Succeeds; Succeeds; Succeeds; Succeeds; Crashes 1] sample_world in
  let '(o, w') := @commit ToyJson.json (mkStateStore state_path default_state false) store1 w in
  o = Crashed /\ forall x, after_crash w' state_path x ->
    @old_or_new ToyJson.json w state_path (ss_state store1) x.
Proof.
  cbv zeta.
  assert (~ tmp_path state_path) as Hp by (by apply (not_tmp_path ["srv"%string])).
  assert (stable (set_events [Succeeds; Succeeds; Succeeds; Succeeds; Crashes 1] sample_world)
    state_path) as Hs by (split; [vm_compute; reflexivity|intros _; vm_compute; reflexivity]).
  pose proof (@commit_atomic ToyJson.json ToyJson.json_spec
    (mkStateStore state_path default_state false) store1 _ eq_refl Hp eq_refl Hs) as H.
  destruct (commit _ _ _) as [o w'] eqn:E.
  assert (o = Crashed) as -> by (apply (f_equal fst) in E; vm_compute in E; by rewrite <- E).
  split; [reflexivity|]. exact (proj1 H).
Defined.

Definition saved_world : World :=
  match @json_to_vec_pretty ToyJson.json (ss_state store1) with
  | Ok json => put_file state_path json sample_world
  | Err _ => sample_world
  end.

Lemma open_store_sound_witness : paired (CR := Toy.crates) (ss_state store1).
Proof.
  destruct (@open_store Toy.crates ToyJson.json state_path saved_world) as [o w'] eqn:E.
  assert (o = Done (mkStateStore state_path (ss_state store1) false)) as ->
    by (apply (f_equal fst) in E; vm_compute in E; rewrite <- E; vm_compute; reflexivity).
  apply (@open_store_sound Toy.crates ToyJson.json state_path saved_world _ w' E).
Defined.
