(* ===== verification/Config.v ===== *)
(** * Config: the configuration and its validation (hoike-core/src/config.rs)

    The configuration tables as records, the destination a CA label selects,
    and the validation a mode requires.  Main results: what a validated
    configuration guarantees, and that two labels never select one file.

    Not modelled: [from_file], which is [toml::from_str] on the file's text;
    the defaults it fills in are the [default_*] definitions. *)

From stdpp Require Import base tactics list gmap strings.
From Stdlib Require Import NArith SpecFloat.
From S2P Require Import Prelude Crates AhuError CoreError Storage.
Local Open Scope string_scope.

(** ** [f64]

    IEEE 754 double precision, by its specification in the Standard Library. *)

Abbreviation f64 := spec_float.
Definition f64_prec : Z := 53.
Definition f64_emax : Z := 1024.
Definition f64_zero : f64 := S754_zero false.
Definition f64_one : f64 := SFone f64_prec f64_emax.
Definition f64_half : f64 := binary_round f64_prec f64_emax false 1 (-1).

(** [CoreError::Config], which the type of configurations would hide. *)
Definition config_error (reason : string) : CoreError := CoreError.Config reason.

(** ** Tables *)

Record TlsConfig : Type := mkTlsConfig {
  tls_cert : path;
  tls_key : path;
  tls_client_ca : option path;
}.

Record OperatorConfig : Type := mkOperatorConfig {
  op_name : string;
  op_password_hash : string;
  op_role : string;
}.

Record AdminConfig : Type := mkAdminConfig {
  ad_session_ttl_secs : N;
  ad_operators : list OperatorConfig;
}.

Record WebUiConfig : Type := mkWebUiConfig { wu_static_dir : option path }.

Record ServerConfig : Type := mkServerConfig {
  sv_mode : string;
  sv_listen : string;
  sv_max_request : N;
  sv_admin : option AdminConfig;
  sv_webui : option WebUiConfig;
  sv_metrics_listen : option string;
  sv_admin_listen : option string;
  sv_admin_tls : option TlsConfig;
  sv_metrics_tls : option TlsConfig;
}.

Record SealAuthorization : Type := mkSealAuthorization {
  sa_producer_id : string;
  sa_issuer_key_hash : string;
  sa_signer_sha256 : string;
}.

Record StorageConfig : Type := mkStorageConfig {
  st_bundle_dir : path;
  st_state_db : path;
  st_seal_trust_anchors : option (list path);
  st_seal_authorizations : list SealAuthorization;
  st_seal_signer_pins : list path;
  st_allow_unauthenticated_bundles : bool;
}.

Record KeyRotationConfigToml : Type := mkKeyRotationConfigToml {
  kr_renew_before_days : N;
  kr_check_interval_hours : N;
  kr_rotation_command : option string;
}.

Inductive SigningKeyConfig : Type :=
| File (p : path)
| Pkcs11 (module_ : string) (token_label : option string) (slot_id : option N)
    (pin pin_env key_label key_id : option string)
| Demo.

Inductive SourceConfig : Type :=
| Crl (p : path) (issuer_cert : option path)
| DogtagSync (ldap_url base_dn bind_dn : string) (bind_password bind_password_env : option string)
    (cookie_path : option path) (filter_ : option string) (tls : string) (ca_cert : option path).

Record CaConfig : Type := mkCaConfig {
  ca_label : string;
  ca_bundle_file : option path;
  ca_nonce_policy : string;
  ca_completeness : string;
  ca_issuer_name_hash : option string;
  ca_issuer_key_hash : option string;
  ca_forward_to : option string;
  ca_forward_insecure : bool;
  ca_forward_ca : option path;
  ca_source : option SourceConfig;
  ca_batch_interval : N;
  ca_validity_secs : N;
  ca_jitter_secs : N;
  ca_certid_compat : string;
  ca_max_age_fraction : f64;
  ca_archive_cutoff_secs : N;
  ca_urgent_revocation : bool;
  ca_issuer_name_der_b64 : option string;
  ca_issuer_key_bytes_b64 : option string;
  ca_sig_alg : string;
  ca_signing_key : option SigningKeyConfig;
  ca_responder_cert : option path;
  ca_key_rotation : option KeyRotationConfigToml;
  ca_seal_key : option path;
  ca_seal_cert : option path;
}.

Record GossipConfigSection : Type := mkGossipConfigSection {
  go_enabled : bool;
  go_bind : string;
  go_seeds : list string;
  go_node_name : string;
  go_auth_mode : string;
  go_identity_key : option path;
  go_peer_keys : list path;
  go_peer_identities : gmap string path;
}.

Record Config : Type := mkConfig {
  c_server : ServerConfig;
  c_storage : StorageConfig;
  c_ca : list CaConfig;
  c_gossip : option GossipConfigSection;
}.

(** ** Defaults *)

Definition default_mode : string := "edge".
Definition default_listen : string := "0.0.0.0:2560".
Definition default_max_request : N := 8192.
Definition default_sig_alg : string := "ecdsa-p256".
Definition default_nonce_policy : string := "ignore".
Definition default_completeness : string := "partial".
Definition default_batch_interval : N := 3600.
Definition default_validity_secs : N := 86400.
Definition default_jitter_secs : N := 7200.
Definition default_certid_compat : string := "dual".
Definition default_max_age_fraction : f64 := f64_half.
Definition default_urgent_revocation : bool := true.

(** A [[[ca]]] table that gives only its label. *)
Definition ca_defaults (label : string) : CaConfig :=
  mkCaConfig label None default_nonce_policy default_completeness None None None false None None
    default_batch_interval default_validity_secs default_jitter_secs default_certid_compat
    default_max_age_fraction 0 default_urgent_revocation None None default_sig_alg None None None
    None None.

(** ** Paths and strings *)

Definition slash : Ascii.ascii := Ascii.ascii_of_N 47.
Definition backslash : Ascii.ascii := Ascii.ascii_of_N 92.

Definition has_char (c : Ascii.ascii) (s : string) : bool :=
  existsb (Ascii.eqb c) (String.list_ascii_of_string s).

(** The pieces of [s] between slashes. *)
Fixpoint split_slash (s : string) : list string :=
  match s with
  | EmptyString => [EmptyString]
  | String c s =>
      if Ascii.eqb c slash then EmptyString :: split_slash s
      else match split_slash s with
           | x :: l => String c x :: l
           | [] => [String c EmptyString]
           end
  end.

(** The components of a relative path; empty pieces and [.] do not count. *)
Definition components (s : string) : path :=
  List.filter (fun x => negb (String.eqb x "" || String.eqb x ".")) (split_slash s).

(** [Path::join]: an absolute argument replaces the path. *)
Definition join (p : path) (s : string) : path :=
  match s with
  | String c _ => if Ascii.eqb c slash then "/" :: components s else p ++ components s
  | EmptyString => p
  end.

Definition starts_with (p s : string) : bool := String.prefix p s.

(** ** Accessors and selection *)

Definition is_ml_dsa (ca : CaConfig) : bool :=
  bool_decide (ca_sig_alg ca ∈ ["ml-dsa-44"; "ml-dsa-65"; "ml-dsa-87"]).

Definition is_combined (c : Config) : bool := String.eqb (sv_mode (c_server c)) "combined".
Definition is_signer (c : Config) : bool := String.eqb (sv_mode (c_server c)) "signer".
Definition needs_signing (c : Config) : bool := is_combined c || is_signer c.

(** The label can be a file name. *)
Definition safe_label (label : string) : bool :=
  negb (String.eqb label "" || String.eqb label "." || String.eqb label ".."
        || has_char slash label || has_char backslash label).

(** [bundle_file], or [bundle_dir/<label>.ahu]. *)
Definition ca_destination (c : Config) (ca : CaConfig) : path :=
  default (join (st_bundle_dir (c_storage c)) (ca_label ca +:+ ".ahu")) (ca_bundle_file ca).

(** [p.canonicalize().unwrap_or_else(|_| p.to_path_buf())]. *)
Definition canonical_or_self {E} (p : path) : io E path :=
  r ← io_try (canonicalize p);
  mret (match r with Ok q => q | Err _ => p end).

(** [Config::bundle_destination]. *)
Definition bundle_destination (c : Config) (label : string) : io CoreError path :=
  io_lift (ensure (negb (bool_decide (c_ca c = []))) (config_error "no [[ca]] entries are configured")) ;;
  io_lift (ensure (safe_label label) (config_error "CA label is not a safe bundle file name")) ;;
  selected ← io_lift (ok_or (List.find (fun ca => String.eqb (ca_label ca) label) (c_ca c))
               (config_error "unknown CA label"));
  let destination := ca_destination c selected in
  mine ← canonical_or_self destination;
  io_for_each (fun ca =>
    if String.eqb (ca_label ca) label then mret tt else
    other ← canonical_or_self (ca_destination c ca);
    io_lift (ensure (negb (bool_decide (other = mine)))
      (config_error "destination is also configured for another CA"))) (c_ca c) ;;
  mret destination.

(** ** Validation *)

Definition validate_gossip (g : GossipConfigSection) : core_result unit :=
  ensure (bool_decide (go_peer_keys g = []))
    (config_error "replace gossip.peer_keys with peer_identities") ;;
  ensure (bool_decide (go_auth_mode g ∈ ["required"; "permissive"]))
    (config_error "gossip.auth_mode must be required or permissive").

Definition forward_url_ok (ca : CaConfig) (url : string) : bool :=
  starts_with "https://" url || (ca_forward_insecure ca && starts_with "http://" url).

(** The first loop; the state is the set [labels]. *)
Definition validate_label (labels : gset string) (ca : CaConfig) : core_result (gset string) :=
  ensure (safe_label (ca_label ca) && negb (bool_decide (ca_label ca ∈ labels)))
    (config_error "CA labels must be unique nonempty file names") ;;
  match ca_forward_to ca with
  | Some url => ensure (forward_url_ok ca url) (config_error "forward_to requires https://")
  | None => Ok tt
  end ;;
  Ok (labels ∪ {[ca_label ca]}).

(** The second loop. *)
Definition validate_ca (ca : CaConfig) : core_result unit :=
  ensure (bool_decide (ca_sig_alg ca ∈ ["ecdsa-p256"; "ml-dsa-44"; "ml-dsa-65"; "ml-dsa-87"]))
    (config_error "invalid sig_alg") ;;
  ensure (negb (is_ml_dsa ca && String.eqb (ca_nonce_policy ca) "live"))
    (config_error "nonce_policy=live is not yet supported with ML-DSA signing") ;;
  ensure (bool_decide (ca_certid_compat ca ∈ ["dual"; "sha256"; "sha1"]))
    (config_error "invalid certid_compat") ;;
  ensure (SFltb f64_zero (ca_max_age_fraction ca) && SFleb (ca_max_age_fraction ca) f64_one)
    (config_error "invalid max_age_fraction").

Definition is_demo (k : option SigningKeyConfig) : bool :=
  match k with Some Demo => true | _ => false end.

(** The third loop, for the modes that sign. *)
Definition validate_signing_ca (ca : CaConfig) : core_result unit :=
  ensure (bool_decide (is_Some (ca_source ca))) (config_error "no source configured") ;;
  ensure (bool_decide (is_Some (ca_signing_key ca))) (config_error "no signing_key configured") ;;
  match ca_seal_key ca, ca_seal_cert ca with
  | None, None =>
      ensure (is_demo (ca_signing_key ca))
        (config_error "production signing requires a persistent seal_key and seal_cert pair")
  | Some _, None | None, Some _ =>
      Err (config_error "seal_key and seal_cert must be configured together")
  | Some _, Some _ => Ok tt
  end.

(** [Config::validate_for_mode]. *)
Definition validate_for_mode (c : Config) : core_result unit :=
  match c_gossip c with Some g => validate_gossip g | None => Ok tt end ;;
  fold_result validate_label ∅ (c_ca c) ;;
  for_each validate_ca (c_ca c) ;;
  if needs_signing c then
    for_each validate_signing_ca (c_ca c) ;;
    ensure (negb (bool_decide (c_ca c = []))) (config_error "mode requires at least one [[ca]]")
  else Ok tt.

(** [Config::validate_transport]. *)
Definition validate_transport (c : Config) (tls_supported : bool) : core_result unit :=
  let is_some {A} (o : option A) := match o with Some _ => true | None => false end in
  let sv := c_server c in
  ensure (negb ((is_some (sv_admin_tls sv) || is_some (sv_metrics_tls sv)) && negb tls_supported))
    (config_error "TLS configured but this binary was built without the tls feature") ;;
  ensure (negb (is_some (sv_admin_tls sv) && negb (is_some (sv_admin_listen sv))))
    (config_error "admin_tls requires admin_listen; refusing plaintext management fallback") ;;
  ensure (negb (is_some (sv_metrics_tls sv) && negb (is_some (sv_metrics_listen sv))))
    (config_error "metrics_tls requires metrics_listen") ;;
  validate_for_mode c.

(** ** What validation guarantees *)

(** The conditions a configuration has to meet, table by table. *)
Record ca_valid (ca : CaConfig) : Prop := {
  cv_label : safe_label (ca_label ca) = true;
  cv_forward url : ca_forward_to ca = Some url ->
    starts_with "https://" url = true \/
    (ca_forward_insecure ca = true /\ starts_with "http://" url = true);
  cv_sig_alg : ca_sig_alg ca = "ecdsa-p256" \/ is_ml_dsa ca = true;
  cv_live : ca_nonce_policy ca = "live" -> is_ml_dsa ca = false;
  cv_compat : ca_certid_compat ca ∈ ["dual"; "sha256"; "sha1"];
  cv_fraction : SFltb f64_zero (ca_max_age_fraction ca) = true /\
                SFleb (ca_max_age_fraction ca) f64_one = true;
}.

Record signing_valid (ca : CaConfig) : Prop := {
  sg_source : is_Some (ca_source ca);
  sg_key : is_Some (ca_signing_key ca);
  sg_seal : (is_Some (ca_seal_key ca) /\ is_Some (ca_seal_cert ca)) \/
            (ca_seal_key ca = None /\ ca_seal_cert ca = None /\ ca_signing_key ca = Some Demo);
}.

Record config_valid (c : Config) : Prop := {
  cf_gossip g : c_gossip c = Some g ->
    go_peer_keys g = [] /\ (go_auth_mode g = "required" \/ go_auth_mode g = "permissive");
  cf_labels : NoDup (ca_label <$> c_ca c);
  cf_cas : Forall ca_valid (c_ca c);
  cf_signing : needs_signing c = true -> c_ca c <> [] /\ Forall signing_valid (c_ca c);
}.

Lemma ensure_iff {E} (b : bool) (e : E) : ensure b e = Ok tt <-> b = true.
Proof. apply ensure_Ok. Qed.

Lemma seq_Ok {E} (m k : result E unit) : (m ;; k) = Ok tt <-> m = Ok tt /\ k = Ok tt.
Proof. rewrite bind_Ok. split; [by intros ([] & ? & ?)|intros []; by exists tt]. Qed.

Lemma negb_bool_decide P `{Decision P} : negb (bool_decide P) = true <-> ~ P.
Proof. by rewrite negb_true_iff, bool_decide_eq_false. Qed.

Definition forward_valid (ca : CaConfig) : Prop :=
  forall url, ca_forward_to ca = Some url -> forward_url_ok ca url = true.

Lemma validate_label_Ok labels ca labels' :
  validate_label labels ca = Ok labels' <->
  labels' = (labels ∪ {[ca_label ca]}) /\ safe_label (ca_label ca) = true /\
  (ca_label ca ∉ labels) /\ forward_valid ca.
Proof.
  unfold validate_label, forward_valid. rewrite bind_Ok. split.
  - intros ([] & [Hs Hn%negb_bool_decide]%ensure_iff%andb_prop & ([] & Hf & [= <-])%bind_Ok).
    split_and!; try done. intros url Hu. rewrite Hu in Hf. by apply ensure_iff in Hf.
  - intros (-> & Hs & Hn & Hf). exists tt. rewrite Hs, (bool_decide_eq_false_2 _ Hn). split; [done|].
    destruct (ca_forward_to ca) as [url|]; [|done]. by rewrite (Hf url).
Qed.

Lemma validate_labels_Ok cas :
  (exists labels, fold_result validate_label ∅ cas = Ok labels) <->
  NoDup (ca_label <$> cas) /\
  Forall (fun ca => safe_label (ca_label ca) = true /\ forward_valid ca) cas.
Proof. apply unique_fold_start. intros seen ca seen'. rewrite validate_label_Ok. naive_solver. Qed.

Lemma sig_alg_cases ca :
  ca_sig_alg ca ∈ ["ecdsa-p256"; "ml-dsa-44"; "ml-dsa-65"; "ml-dsa-87"] <->
  ca_sig_alg ca = "ecdsa-p256" \/ is_ml_dsa ca = true.
Proof. unfold is_ml_dsa. rewrite bool_decide_eq_true. set_solver. Qed.

Lemma validate_ca_Ok ca :
  validate_ca ca = Ok tt /\ safe_label (ca_label ca) = true /\ forward_valid ca <-> ca_valid ca.
Proof.
  unfold validate_ca, forward_valid, forward_url_ok.
  rewrite !seq_Ok, !ensure_iff, !bool_decide_eq_true, sig_alg_cases, negb_true_iff, andb_true_iff.
  split.
  - intros ((Ha & Hl & Hc & Hf) & Hs & Hu). constructor; try done.
    + intros url [H|[H1 H2]%andb_prop]%Hu%orb_prop; auto.
    + intros Hlive. rewrite Hlive in Hl. by destruct (is_ml_dsa ca).
  - intros [Hs Hu Ha Hl Hc Hf]. split_and!; try done.
    + destruct (String.eqb_spec (ca_nonce_policy ca) "live"); [by rewrite Hl|by rewrite andb_false_r].
    + by apply Hf.
    + by apply Hf.
    + intros url [->|[-> ->]]%Hu; [done|by rewrite orb_true_r].
Qed.

Lemma validate_signing_ca_Ok ca : validate_signing_ca ca = Ok tt <-> signing_valid ca.
Proof.
  unfold validate_signing_ca. rewrite !seq_Ok, !ensure_iff, !bool_decide_eq_true. split.
  - intros (Hs & Hk & Hm). constructor; try done.
    destruct (ca_seal_key ca), (ca_seal_cert ca); try done; [by left; split; eexists|].
    right. apply ensure_iff in Hm. by destruct (ca_signing_key ca) as [[]|].
  - intros [Hs Hk [[[? ->] [? ->]]|(-> & -> & ->)]]; done.
Qed.

Lemma validate_gossip_Ok c :
  match c_gossip c with Some g => validate_gossip g | None => Ok tt end = Ok tt <->
  forall g, c_gossip c = Some g ->
    go_peer_keys g = [] /\ (go_auth_mode g = "required" \/ go_auth_mode g = "permissive").
Proof.
  destruct (c_gossip c) as [g|]; [|by split].
  unfold validate_gossip. rewrite seq_Ok, !ensure_iff, !bool_decide_eq_true.
  split; [intros [H1 H2] ? [= <-]; split; [done|set_solver]|].
  intros H. destruct (H g) as [? [->| ->]]; [done|..]; split; try done; set_solver.
Qed.

Lemma validate_for_mode_Ok c : validate_for_mode c = Ok tt <-> config_valid c.
Proof.
  unfold validate_for_mode. rewrite seq_Ok, validate_gossip_Ok, bind_Ok. split.
  - intros (Hg & labels & Hfold & [Hca Hsign]%seq_Ok).
    destruct (proj1 (validate_labels_Ok (c_ca c))) as [ND Hl]; [by exists labels|].
    rewrite for_each_Ok in Hca. constructor; try done.
    + rewrite Forall_forall in Hca, Hl |- *. intros ca Hin. apply validate_ca_Ok.
      split; [by apply Hca|by apply Hl].
    + intros Hn. rewrite Hn in Hsign. apply seq_Ok in Hsign as [Hs Hne].
      apply ensure_iff, negb_bool_decide in Hne. split; [done|].
      apply for_each_Ok in Hs. eapply Forall_impl; [exact Hs|]. intros ca. apply validate_signing_ca_Ok.
  - intros [Hg ND Hca Hsign]. split; [done|].
    assert (Forall (fun ca => validate_ca ca = Ok tt /\ safe_label (ca_label ca) = true /\
      forward_valid ca) (c_ca c)) as Hall.
    { eapply Forall_impl; [done|]. intros ca. apply validate_ca_Ok. }
    apply Forall_and in Hall as [Hv Hl].
    destruct (proj2 (validate_labels_Ok (c_ca c))) as [l ->]; [done|].
    exists l. split; [done|]. rewrite seq_Ok, for_each_Ok. split; [done|].
    destruct (needs_signing c); [|done]. destruct (Hsign eq_refl) as [Hne Hs].
    rewrite seq_Ok, for_each_Ok, ensure_iff, negb_bool_decide. split; [|done].
    eapply Forall_impl; [done|]. intros ca. apply validate_signing_ca_Ok.
Qed.

(** TLS is only configured where it is served: by a build that supports it, on
    a listener of its own. *)
Definition transport_valid (c : Config) (tls_supported : bool) : Prop :=
  let sv := c_server c in
  (is_Some (sv_admin_tls sv) -> tls_supported = true /\ is_Some (sv_admin_listen sv)) /\
  (is_Some (sv_metrics_tls sv) -> tls_supported = true /\ is_Some (sv_metrics_listen sv)).

Lemma validate_transport_Ok c tls :
  validate_transport c tls = Ok tt <-> transport_valid c tls /\ validate_for_mode c = Ok tt.
Proof.
  unfold validate_transport, transport_valid. cbv zeta.
  rewrite !seq_Ok, !ensure_iff.
  destruct (sv_admin_tls _), (sv_metrics_tls _), (sv_admin_listen _), (sv_metrics_listen _), tls;
    cbn; rewrite ?is_Some_alt; cbn; intuition congruence.
Qed.

(** Startup validation accepts exactly the configurations that meet every
    condition: gossip authenticates its peers by identity, the CA labels are
    distinct safe file names, forwarding uses https unless cleartext was
    explicitly allowed, live nonces are not promised with ML-DSA keys, the
    advertised cache fraction is in (0, 1], TLS material is never silently
    unused, and a node that signs has a source, a key and a complete seal pair
    (or the demo key) for each of its CAs. *)
Theorem validate_transport_iff c tls_supported :
  validate_transport c tls_supported = Ok tt <->
  transport_valid c tls_supported /\ config_valid c.
Proof. by rewrite validate_transport_Ok, validate_for_mode_Ok. Qed.

(** ** Destinations *)

(** A file system on which no system call is made to fail. *)
Definition quiet (w : World) : Prop := w_events w = [].

(** What [canonicalize().unwrap_or(self)] yields there. *)
Definition canon (w : World) (p : path) : path := if present w p then w_resolve w p else p.

Lemma canonical_or_self_quiet {E} p w :
  quiet w -> canonical_or_self (E := E) p w = (Done (canon w p), w).
Proof.
  intros Hq. unfold canonical_or_self, canonicalize, syscall, canon, io_try, mbind, io_bind.
  rewrite Hq. by destruct (present w p).
Qed.

Lemma lift_ensure_quiet {E A} b (e : E) (k : io E A) w :
  (io_lift (ensure b e) ;; k) w = if b then k w else (Failed e, w).
Proof. by destruct b. Qed.

Lemma io_for_each_quiet {E A} (f : A -> io E unit) (bad : A -> bool) (e : E) l w :
  (forall x, f x w = if bad x then (Failed e, w) else (Done tt, w)) ->
  io_for_each f l w = (if existsb bad l then Failed e else Done tt, w).
Proof.
  intros Hf. induction l as [|x l IH]; [done|]. cbn. unfold mbind, io_bind. rewrite Hf.
  destruct (bad x); cbn; [done|by rewrite IH].
Qed.

(** Another label's destination is the same file. *)
Definition shared_with (c : Config) (w : World) (label : string) (d : path) (ca : CaConfig) : bool :=
  negb (String.eqb (ca_label ca) label) && bool_decide (canon w (ca_destination c ca) = canon w d).

Definition find_ca (c : Config) (label : string) : option CaConfig :=
  List.find (fun ca => String.eqb (ca_label ca) label) (c_ca c).

Lemma bundle_destination_quiet c label w :
  quiet w ->
  bundle_destination c label w =
  (if bool_decide (c_ca c = []) then Failed (config_error "no [[ca]] entries are configured") else
   if negb (safe_label label) then Failed (config_error "CA label is not a safe bundle file name") else
   match find_ca c label with
   | None => Failed (config_error "unknown CA label")
   | Some ca =>
       if existsb (shared_with c w label (ca_destination c ca)) (c_ca c)
       then Failed (config_error "destination is also configured for another CA")
       else Done (ca_destination c ca)
   end, w).
Proof.
  intros Hq. unfold bundle_destination, find_ca. rewrite lift_ensure_quiet.
  destruct (bool_decide (c_ca c = [])); [done|]. cbn. rewrite lift_ensure_quiet.
  destruct (safe_label label); [|done]. destruct (List.find _ _) as [ca|]; [|done]. cbn.
  unfold mbind at 1, io_bind at 1, io_lift, mret, io_ret. cbn.
  unfold mbind at 1, io_bind at 1. rewrite canonical_or_self_quiet by done.
  unfold mbind at 1, io_bind at 1.
  rewrite (io_for_each_quiet _ (shared_with c w label (ca_destination c ca))
    (config_error "destination is also configured for another CA")).
  - by destruct (existsb _ _).
  - intros x. unfold shared_with. destruct (String.eqb _ _); [done|]. cbn.
    unfold mbind, io_bind. rewrite canonical_or_self_quiet by done.
    by destruct (bool_decide (canon w (ca_destination c x) = canon w (ca_destination c ca))).
Qed.

Lemma bundle_destination_Done c label w d w' :
  quiet w -> bundle_destination c label w = (Done d, w') ->
  w' = w /\ safe_label label = true /\
  exists ca, find_ca c label = Some ca /\ d = ca_destination c ca /\
    existsb (shared_with c w label d) (c_ca c) = false.
Proof.
  intros Hq. rewrite bundle_destination_quiet by done.
  destruct (bool_decide _); [done|]. destruct (safe_label label); [|done]. cbn.
  destruct (find_ca c label) as [ca|]; [|done].
  destruct (existsb _ _) eqn:He; [done|]. intros [= <- <-].
  split_and!; [done|done|]. by exists ca.
Qed.

Lemma find_ca_Some c label ca : find_ca c label = Some ca -> ca ∈ c_ca c /\ ca_label ca = label.
Proof.
  intros [Hin Heq%String.eqb_eq]%List.find_some. split; [by apply list_elem_of_In|done].
Qed.

(** Two different labels never select one file: when both destinations are
    granted, they are different files after links are resolved. *)
Theorem destinations_distinct c w l1 l2 d1 d2 w1 w2 :
  quiet w -> l1 <> l2 ->
  bundle_destination c l1 w = (Done d1, w1) -> bundle_destination c l2 w = (Done d2, w2) ->
  canon w d1 <> canon w d2.
Proof.
  intros Hq Hne (_ & _ & ca1 & H1 & -> & Hs)%bundle_destination_Done
    (_ & _ & ca2 & [Hin2 Hl2]%find_ca_Some & -> & _)%bundle_destination_Done Heq; try done.
  apply Bool.not_true_iff_false in Hs. apply Hs, existsb_exists. exists ca2.
  split; [by apply list_elem_of_In|]. unfold shared_with.
  rewrite Hl2, (proj2 (String.eqb_neq l2 l1)) by done. by apply bool_decide_eq_true.
Qed.

Lemma split_slash_none s : has_char slash s = false -> split_slash s = [s].
Proof.
  unfold has_char. induction s as [|c s IH]; [done|]. cbn -[slash Ascii.eqb].
  intros [Hc Hs]%orb_false_iff. rewrite Ascii.eqb_sym in Hc. rewrite Hc, IH; done.
Qed.

Lemma has_char_app c s t : has_char c (s +:+ t) = has_char c s || has_char c t.
Proof.
  induction s as [|a s IH]; [done|].
  change (Ascii.eqb c a || has_char c (s +:+ t) = Ascii.eqb c a || has_char c s || has_char c t).
  by rewrite IH, orb_assoc.
Qed.

Lemma find_ca_NoDup c ca :
  NoDup (ca_label <$> c_ca c) -> ca ∈ c_ca c -> find_ca c (ca_label ca) = Some ca.
Proof.
  unfold find_ca. induction (c_ca c) as [|x l IH]; [by intros _ ?%elem_of_nil|].
  cbn. intros [Hx ND]%NoDup_cons [->|Hin]%elem_of_cons; [by rewrite String.eqb_refl|].
  destruct (String.eqb_spec (ca_label x) (ca_label ca)) as [Heq|]; [|by apply IH].
  destruct Hx. rewrite Heq. by apply list_elem_of_fmap_2.
Qed.

Lemma safe_label_destination dir label :
  safe_label label = true -> join dir (label +:+ ".ahu") = (dir ++ [label +:+ ".ahu"])%list.
Proof.
  unfold safe_label. rewrite negb_true_iff, !orb_false_iff. intros ((((He & _) & _) & Hs) & _).
  assert (split_slash (label +:+ ".ahu") = [label +:+ ".ahu"]) as Hsp.
  { apply split_slash_none. by rewrite has_char_app, Hs. }
  destruct label as [|c label]; [done|].
  assert (Ascii.eqb c slash = false) as Hc.
  { unfold has_char in Hs. cbn -[slash Ascii.eqb] in Hs. rewrite Ascii.eqb_sym.
    by apply orb_false_iff in Hs as [-> _]. }
  change (String c label +:+ ".ahu") with (String c (label +:+ ".ahu")) in *.
  unfold join, components. rewrite Hc, Hsp. cbn -[String.eqb].
  destruct (String.eqb_spec (String c (label +:+ ".ahu")) ".") as [E|]; [|done].
  injection E as _ E. by destruct label.
Qed.

(** Under a valid configuration every configured label has a destination,
    refused only if another CA is configured for the same file; without an
    explicit [bundle_file] it is the file [<label>.ahu] directly inside the
    bundle directory, whatever the label. *)
Theorem valid_config_destination c ca w :
  validate_for_mode c = Ok tt -> ca ∈ c_ca c -> quiet w ->
  bundle_destination c (ca_label ca) w =
    (if existsb (shared_with c w (ca_label ca) (ca_destination c ca)) (c_ca c)
     then Failed (config_error "destination is also configured for another CA")
     else Done (ca_destination c ca), w) /\
  (ca_bundle_file ca = None ->
   ca_destination c ca = (st_bundle_dir (c_storage c) ++ [ca_label ca +:+ ".ahu"])%list).
Proof.
  intros [_ ND Hcas _]%validate_for_mode_Ok Hin Hq. rewrite bundle_destination_quiet by done.
  rewrite find_ca_NoDup by done. rewrite Forall_forall in Hcas. destruct (Hcas ca Hin) as [Hs _ _ _ _ _].
  rewrite Hs. rewrite bool_decide_eq_false_2 by (intros E; rewrite E in Hin; by apply elem_of_nil in Hin).
  split; [done|]. unfold ca_destination. intros ->. by apply safe_label_destination.
Qed.

(** ** Samples *)

Definition sample_server : ServerConfig :=
  mkServerConfig default_mode default_listen default_max_request None None None None None None.
Definition sample_storage : StorageConfig :=
  mkStorageConfig ["srv"; "bundles"] ["srv"] (Some [["srv"; "anchor.der"]]) [] [] false.
Definition sample_config : Config :=
  mkConfig sample_server sample_storage [ca_defaults "alpha"; ca_defaults "beta"] None.

Lemma destinations_distinct_witness :
  canon sample_world ["srv"; "bundles"; "alpha.ahu"] <>
  canon sample_world ["srv"; "bundles"; "beta.ahu"].
Proof.
  eapply (destinations_distinct sample_config sample_world "alpha" "beta"); [done|done|..];
    vm_compute; reflexivity.
Defined.

Lemma valid_config_destination_witness :
  ca_destination sample_config (ca_defaults "alpha") = ["srv"; "bundles"; "alpha.ahu"].
Proof.
  apply (valid_config_destination sample_config (ca_defaults "alpha") sample_world);
    [vm_compute; reflexivity|by left|done|done].
Defined.
