(* ===== verification/Admission.v ===== *)
(** * Admission: bundle integrity, seal trust and scope authorization
    (hoike-core/src/admission.rs)

    Which bundles the responder may serve.  Main results: the serving profile,
    that an authenticated bundle carries a seal by a trusted signer authorized
    for each of its scopes, and that the demo mode never bypasses a configured
    trust policy. *)

From stdpp Require Import base tactics list gmap strings.
From Stdlib Require Import NArith Lia.
From S2P Require Import Prelude Crates AhuError Header Index Manifest Bundle Verify Seal.
From S2P Require Import CoreError Storage State Config.
Local Open Scope N_scope.

Inductive AdmissionTrust : Type :=
| Authenticated (signer_sha256 : string)
| UnauthenticatedDemo.

(** [u8::to_ascii_lowercase] and [str::eq_ignore_ascii_case]. *)
Definition ascii_lower (c : Ascii.ascii) : Ascii.ascii :=
  let n := Ascii.N_of_ascii c in
  if (65 <=? n) && (n <=? 90) then Ascii.ascii_of_N (n + 32) else c.
Definition eq_ignore_ascii_case (a b : string) : bool :=
  bool_decide (ascii_lower <$> String.list_ascii_of_string a =
               ascii_lower <$> String.list_ascii_of_string b).

Definition PEM_BEGIN : bytes := String.list_byte_of_string "-----BEGIN".

Section admission.
Context {CR : Crates} {SC : SealCrates}.
Implicit Types (b : Bundle) (storage : StorageConfig).

(** [admission::verify_structure]: the warnings are only logged. *)
Definition verify_structure b : core_result unit :=
  map_err CoreBundle (Verify.verify_structure b) ;; Ok tt.

(** [read_certs]: one configured certificate, DER or PEM, encoded again. *)
Definition read_cert (p : path) : io CoreError bytes :=
  bytes ← io_map_err (fun _ => config_error "cannot read seal trust anchor") (read_file p);
  cert ← io_lift (map_err (fun _ => config_error "invalid seal trust anchor")
    (if bool_decide (take (length PEM_BEGIN) bytes = PEM_BEGIN)
     then cert_from_pem bytes else cert_from_der bytes));
  io_lift (map_err config_error (cert_to_der cert)).

Fixpoint read_certs (paths : list path) : io CoreError (list bytes) :=
  match paths with
  | [] => mret []
  | p :: paths => c ← read_cert p; cs ← read_certs paths; mret (c :: cs)
  end.

Definition has_trust_anchors storage : bool :=
  match st_seal_trust_anchors storage with Some (_ :: _) => true | _ => false end.
Definition has_pins storage : bool := negb (bool_decide (st_seal_signer_pins storage = [])).
Definition has_authorizations storage : bool :=
  negb (bool_decide (st_seal_authorizations storage = [])).

(** Pins first, then anchors if there are any. *)
Definition verify_trust storage b (pins anchors : list bytes) (now : N) :
    ahu_result SealVerification :=
  let m := b_manifest_bytes b in
  let s := b_seal_bytes b in
  if has_pins storage then
    match verify_seal_with_pins m s pins now with
    | Ok v => Ok v
    | Err pin_error =>
        if has_trust_anchors storage then verify_seal_with_anchors m s anchors now
        else Err pin_error
    end
  else verify_seal_with_anchors m s anchors now.

Definition authorizes (signer_sha256 : string) b (scope : CaScope) (auth : SealAuthorization) : bool :=
  String.eqb (sa_producer_id auth) (m_producer_id (b_manifest b)) &&
  eq_ignore_ascii_case (sa_issuer_key_hash auth) (hex_encode (cs_issuer_key_hash scope)) &&
  eq_ignore_ascii_case (sa_signer_sha256 auth) signer_sha256.

(** The loop over the scopes, which runs if there are authorizations. *)
Definition check_authorizations storage b (signer_sha256 : string) : core_result unit :=
  if has_authorizations storage then
    for_each (fun scope =>
      ensure (existsb (authorizes signer_sha256 b scope) (st_seal_authorizations storage))
        (config_error "seal signer is not authorized for producer/CA scope"))
      (m_ca_scopes (b_manifest b))
  else Ok tt.

Definition authenticate_bundle b storage (now : N) : io CoreError SealVerification :=
  io_lift (verify_structure b) ;;
  io_lift (ensure (has_trust_anchors storage || has_pins storage)
    (config_error (if has_authorizations storage
       then "seal_authorizations requires trust anchors or explicit signer pins"
       else "bundle authentication requires seal_signer_pins or seal_trust_anchors"))) ;;
  io_lift (ensure (negb (bool_decide (b_seal_bytes b = [])))
    (config_error "seal trust configured but bundle has no seal")) ;;
  anchors ← read_certs (default [] (st_seal_trust_anchors storage));
  pins ← read_certs (st_seal_signer_pins storage);
  verification ← io_lift (map_err (fun _ => config_error "seal verification failed")
    (verify_trust storage b pins anchors now));
  io_lift (check_authorizations storage b (sv_signer_sha256 verification)) ;;
  mret verification.

Definition profile_error (reason : string) : CoreError :=
  config_error ("unsupported serving profile: " +:+ reason).

Definition validate_serving_profile b : core_result unit :=
  let m := b_manifest b in
  ensure (bool_decide (m_bundle_type m = Full))
    (profile_error "delta bundle; materialize it into a full bundle before serving") ;;
  match m_compression m with
  | None => Ok tt
  | Some compression =>
      ensure (bool_decide (cm_algorithm compression = CompressionNone))
        (profile_error "compressed bundle; serve an uncompressed bundle instead") ;;
      ensure (bool_decide (cm_dictionary_digest compression = None))
        (profile_error "compression dictionary; serve an uncompressed bundle instead")
  end ;;
  ensure (negb (existsb is_tombstone (b_index b)))
    (profile_error "tombstone in a full bundle; tombstones only apply to deltas") ;;
  ensure (bool_decide (co_base_manifest_digest (m_continuity m) = None))
    (profile_error "full bundle naming a base manifest") ;;
  ensure (co_chain_length (m_continuity m) =? 0)
    (profile_error "full bundle with nonzero chain_length").

(** Nothing about seals is configured. *)
Definition no_trust_configured storage : bool :=
  negb (has_pins storage) && negb (has_trust_anchors storage) && negb (has_authorizations storage).

Definition admit_bundle b storage (now : N) : io CoreError AdmissionTrust :=
  io_lift (validate_serving_profile b) ;;
  if st_allow_unauthenticated_bundles storage && no_trust_configured storage then
    io_lift (verify_structure b) ;;
    mret UnauthenticatedDemo
  else
    verification ← authenticate_bundle b storage now;
    mret (Authenticated (sv_signer_sha256 verification)).
End admission.

(** ** What admission establishes *)

Section admission_spec.
Context {CR : Crates} {SC : SealCrates}.
Implicit Types (b : Bundle) (storage : StorageConfig) (cert : Certificate).

(** Full and uncompressed, with no delta machinery: what the responder can serve. *)
Record servable b : Prop := {
  sb_full : m_bundle_type (b_manifest b) = Full;
  sb_plain c : m_compression (b_manifest b) = Some c ->
    cm_algorithm c = CompressionNone /\ cm_dictionary_digest c = None;
  sb_no_tombstone : Forall (fun r => is_tombstone r = false) (b_index b);
  sb_no_base : co_base_manifest_digest (m_continuity (b_manifest b)) = None;
  sb_no_chain : co_chain_length (m_continuity (b_manifest b)) = 0;
}.

(** The file at [p] holds a certificate, [der] encoded. *)
Definition configured_cert (w : World) (p : path) (der : bytes) : Prop :=
  exists contents cert, w_files w !! p = Some contents /\
    (cert_from_pem contents = Ok cert \/ cert_from_der contents = Ok cert) /\
    cert_to_der cert = Ok der.

(** The signer is pinned, or vouched for by an anchor, in the configured files. *)
Definition trusted_signer storage (w : World) (now : N) cert : Prop :=
  (exists p pin der, p ∈ st_seal_signer_pins storage /\ configured_cert w p pin /\
     normalized pin der /\ cert_to_der cert = Ok der) \/
  (exists ps p der anchor, st_seal_trust_anchors storage = Some ps /\ p ∈ ps /\
     configured_cert w p der /\ cert_from_der der = Ok anchor /\ profile_ok anchor now true /\
     (cert = anchor \/ issued_by cert anchor)).

(** Every scope of the bundle is authorized for the signer, if any restriction
    is configured. *)
Definition scopes_authorized storage b (signer_sha256 : string) : Prop :=
  st_seal_authorizations storage <> [] ->
  Forall (fun scope => exists auth, auth ∈ st_seal_authorizations storage /\
    authorizes signer_sha256 b scope auth = true) (m_ca_scopes (b_manifest b)).

(** The guarantees of an authenticated bundle. *)
Record authenticated b storage (w : World) (now : N) (v : SealVerification) : Prop := {
  au_verified : exists m, verified b m;
  au_signer : exists cert, seal_authentic (b_manifest_bytes b) (b_seal_bytes b) cert /\
    profile_ok cert now false /\ trusted_signer storage w now cert /\ reports v cert;
  au_scopes : scopes_authorized storage b (sv_signer_sha256 v);
}.

(** The guarantees of an admitted bundle, by the trust reported. *)
Definition admitted b storage (w : World) (now : N) (trust : AdmissionTrust) : Prop :=
  servable b /\ (exists m, verified b m) /\
  match trust with
  | Authenticated signer_sha256 =>
      exists v, sv_signer_sha256 v = signer_sha256 /\ authenticated b storage w now v
  | UnauthenticatedDemo =>
      st_allow_unauthenticated_bundles storage = true /\ st_seal_signer_pins storage = [] /\
      default [] (st_seal_trust_anchors storage) = [] /\ st_seal_authorizations storage = []
  end.
End admission_spec.

Section admission_props.
Context {CR : Crates} {SC : SealCrates}.
Implicit Types (b : Bundle) (storage : StorageConfig).

Lemma validate_serving_profile_Ok b : validate_serving_profile b = Ok tt <-> servable b.
Proof.
  unfold validate_serving_profile. rewrite !seq_Ok, !ensure_iff, !bool_decide_eq_true, N.eqb_eq.
  assert (match m_compression (b_manifest b) with
    | None => Ok tt
    | Some c =>
        ensure (bool_decide (cm_algorithm c = CompressionNone))
          (profile_error "compressed bundle; serve an uncompressed bundle instead") ;;
        ensure (bool_decide (cm_dictionary_digest c = None))
          (profile_error "compression dictionary; serve an uncompressed bundle instead")
    end = Ok tt <-> forall c, m_compression (b_manifest b) = Some c ->
      cm_algorithm c = CompressionNone /\ cm_dictionary_digest c = None) as ->.
  { destruct (m_compression (b_manifest b)) as [c|]; [|by split].
    rewrite seq_Ok, !ensure_iff, !bool_decide_eq_true. naive_solver. }
  assert (negb (existsb is_tombstone (b_index b)) = true <->
    Forall (fun r => is_tombstone r = false) (b_index b)) as ->.
  { rewrite negb_true_iff. induction (b_index b) as [|r l IH]; cbn; [by split|].
    rewrite orb_false_iff, Forall_cons. by rewrite IH. }
  split; [intros (? & ? & ? & ? & ?); by constructor|by intros []].
Qed.

Lemma structure_verified b : verify_structure b = Ok tt <-> exists m, verified b m.
Proof.
  unfold verify_structure. split.
  - intros H. inv_ok. match goal with Hv : Verify.verify_structure b = _ |- _ =>
      apply Verify.verify_structure_Ok in Hv as (m & Hm & _) end. by exists m.
  - intros [m Hm]. destruct (Verify.verify_structure b) as [r|e] eqn:E; [done|].
    exfalso. assert (exists r, Verify.verify_structure b = Ok r) as [r Hr]; [|congruence].
    eexists. apply Verify.verify_structure_Ok. by exists m.
Qed.

Lemma read_certs_Done paths w cs w' :
  read_certs paths w = (Done cs, w') ->
  Forall2 (configured_cert w) paths cs /\ same_files w w'.
Proof.
  revert w cs w'. induction paths as [|p paths IH]; intros w cs w' H; cbn in H.
  - by injection H as <- <-.
  - unfold read_cert in H. inv_io. rename select (read_file _ _ = _) into Hr. apply read_file_Done in Hr as [Hf Hs].
    rename select (read_certs _ _ = _) into Hc. apply IH in Hc as [Hall Hs'].
    inv_ok. split; [|by etrans]. constructor.
    + eexists _, _. split; [done|]. split; [|done]. case_bool_decide; [by left|by right].
    + eapply Forall2_impl; [done|]. intros q c (co & ce & Hq & Hd). exists co, ce.
      split; [|done]. by rewrite (sf_files _ _ Hs) in Hq.
Qed.

Lemma verify_trust_Ok storage b w pins anchors now v :
  Forall2 (configured_cert w) (st_seal_signer_pins storage) pins ->
  Forall2 (configured_cert w) (default [] (st_seal_trust_anchors storage)) anchors ->
  verify_trust storage b pins anchors now = Ok v ->
  exists cert, seal_authentic (b_manifest_bytes b) (b_seal_bytes b) cert /\
    profile_ok cert now false /\ trusted_signer storage w now cert /\ reports v cert.
Proof.
  intros Hp Ha Hv.
  assert (verify_seal_with_pins (b_manifest_bytes b) (b_seal_bytes b) pins now = Ok v \/
          verify_seal_with_anchors (b_manifest_bytes b) (b_seal_bytes b) anchors now = Ok v) as [H|H].
  { unfold verify_trust in Hv. destruct (has_pins storage); [|by right].
    destruct (verify_seal_with_pins _ _ _ _); [by left|].
    destruct (has_trust_anchors storage); [by right|done]. }
  - apply verify_seal_with_pins_spec in H as (_ & cert & der & ps & Hs & Hpr & Hd & Hn & Hin & ->).
    exists cert. split_and!; [done|done| |by exists der]. left.
    apply list_elem_of_lookup in Hin as [i Hi].
    destruct (Forall2_lookup_r _ _ _ _ _ Hn Hi) as (pin & Hpin & Hnorm).
    destruct (Forall2_lookup_r _ _ _ _ _ Hp Hpin) as (p & Hpath & Hc).
    exists p, pin, der. split_and!; try done. by eapply list_elem_of_lookup_2.
  - apply verify_seal_with_anchors_spec in H as (cert & anchor & as_ & Hs & Hpr & Hr & Hd & Hca & Hin & Hi).
    exists cert. split_and!; try done. right.
    apply list_elem_of_lookup in Hin as [i Hli].
    destruct (Forall2_lookup_r _ _ _ _ _ Hd Hli) as (der & Hder & Hdec).
    destruct (Forall2_lookup_r _ _ _ _ _ Ha Hder) as (p & Hpath & Hc).
    destruct (st_seal_trust_anchors storage) as [ps|]; [|done]. cbn in Hpath.
    exists ps, p, der, anchor. split_and!; try done.
    + by eapply list_elem_of_lookup_2.
    + rewrite Forall_forall in Hca. apply Hca. by eapply list_elem_of_lookup_2.
Qed.

Lemma check_authorizations_Ok storage b sha :
  check_authorizations storage b sha = Ok tt <-> scopes_authorized storage b sha.
Proof.
  unfold check_authorizations, scopes_authorized, has_authorizations.
  case_bool_decide as Hn; cbn; [by split; [intros _ []|]|].
  rewrite for_each_Ok.
  assert (forall scope, ensure (existsb (authorizes sha b scope) (st_seal_authorizations storage))
      (config_error "seal signer is not authorized for producer/CA scope") = Ok tt <->
    exists auth, auth ∈ st_seal_authorizations storage /\ authorizes sha b scope auth = true) as Hs.
  { intros scope. rewrite ensure_iff, existsb_exists. by setoid_rewrite list_elem_of_In. }
  setoid_rewrite Hs. naive_solver.
Qed.

Lemma authenticate_bundle_Done b storage now w v w' :
  authenticate_bundle b storage now w = (Done v, w') ->
  authenticated b storage w now v /\ same_files w w'.
Proof.
  intros H. unfold authenticate_bundle in H. inv_io.
  repeat match goal with
  | H : verify_structure _ = Ok ?u |- _ => destruct u; apply structure_verified in H
  | H : read_certs _ _ = _ |- _ => apply read_certs_Done in H as [? ?]
  | H : check_authorizations _ _ _ = Ok ?u |- _ => destruct u; apply check_authorizations_Ok in H
  end. inv_ok.
  match goal with Hv : verify_trust _ _ _ _ _ = _ |- _ =>
    eapply (verify_trust_Ok _ _ w) in Hv as (cert & Hs & Hp & Ht & Hr) end.
  - split; [|by etrans]. constructor; eauto.
  - match goal with Hf : Forall2 (configured_cert ?w1) (st_seal_signer_pins _) _, Hsf : same_files w ?w1 |- _ =>
      eapply Forall2_impl; [exact Hf|]; intros p c (co & ce & Hq & Hd);
      exists co, ce; split; [|done]; by rewrite (sf_files _ _ Hsf) in Hq end.
  - done.
Qed.

Lemma admit_bundle_Done b storage now w trust w' :
  admit_bundle b storage now w = (Done trust, w') ->
  admitted b storage w now trust /\ same_files w w'.
Proof.
  intros H. unfold admit_bundle in H.
  apply io_bind_Done in H as ([] & w1 & [Hp ->]%io_lift_Done & H).
  apply validate_serving_profile_Ok in Hp.
  destruct (st_allow_unauthenticated_bundles storage && no_trust_configured storage) eqn:Ht.
  - apply io_bind_Done in H as ([] & w1 & [Hv%structure_verified ->]%io_lift_Done & [= <- <-]).
    apply andb_prop in Ht as [Ha Hn]. unfold no_trust_configured, has_pins, has_trust_anchors,
      has_authorizations in Hn. rewrite !andb_true_iff, !negb_involutive, !bool_decide_eq_true in Hn.
    destruct Hn as [[? Hn] ?]. split; [|done]. split_and!; try done.
    by destruct (st_seal_trust_anchors storage) as [[]|].
  - apply io_bind_Done in H as (v & w1 & [Ha Hs]%authenticate_bundle_Done & [= <- <-]).
    split; [|done]. split_and!; [done|apply Ha|]. by exists v.
Qed.

Lemma admit_reads b storage now : reads_only (admit_bundle b storage now).
Proof.
  assert (forall ps, reads_only (read_certs ps)) as Hc.
  { induction ps as [|p ps IH]; cbn; [by intros w|]. unfold read_cert. eauto 10 with hoike. }
  unfold admit_bundle, authenticate_bundle. apply reads_bind; [auto with hoike|]. intros _.
  destruct (_ && _); eauto 20 with hoike.
Qed.

(** The serving profile accepts exactly the bundles the responder can
    serve: full, uncompressed, without tombstones, naming no base and with no
    delta chain. *)
Theorem validate_serving_profile_iff b : validate_serving_profile b = Ok tt <-> servable b.
Proof. apply validate_serving_profile_Ok. Qed.

(** C11: an admitted bundle is servable and structurally verified.  If it is
    reported as authenticated, its manifest carries a detached CMS signature by
    one identified certificate, valid at that time, that is pinned or issued
    under an anchor in the configured files, and that is authorized for every
    scope of the bundle when authorizations are configured.  The demo report
    is given only with the explicit flag and with no pins, anchors or
    authorizations configured.  Admission changes no file. *)
Theorem admit_bundle_sound b storage now w trust w' :
  admit_bundle b storage now w = (Done trust, w') ->
  admitted b storage w now trust /\ same_files w w'.
Proof. apply admit_bundle_Done. Qed.
End admission_props.

(** ** Samples *)

(** A servable bundle at a given epoch, sealed by the signer of [ToySeal]. *)
Definition served_manifest (epoch : N) : Manifest :=
  mkManifest 1 (zeros 16) "signer-1" 100 Full
    [mkCaScope [x60; x86] [x01] [x02] epoch (mkResponderId ByKey [xaa]) None [x2a] AuthoritativeComplete]
    (mkWindow 100 100 180 190) (mkIntegrity (zeros 32) (zeros 32)) 0 (mkContinuity None None 0)
    None None None.
Definition served_builder (epoch : N) : Builder.BundleBuilder :=
  Builder.add_entry (Builder.new (served_manifest epoch)) (replicate 32 x11) [x01; x02; x03].
Definition served_file (epoch : N) : bytes :=
  match @Builder.build Toy.crates (served_builder epoch) (fun m => Ok (ToySeal.seal_for m)) with
  | Ok file => file
  | Err _ => []
  end.
Definition served_bundle (epoch : N) : Bundle :=
  match @from_bytes Toy.crates (served_file epoch) with
  | Ok b => b
  | Err _ => @sample_bundle Toy.crates
  end.

(** The file system with the CA certificate the configuration trusts. *)
Definition trusting_world : World :=
  put_file ["srv"; "anchor.der"]%string (ToySeal.der 1) sample_world.

Lemma admit_bundle_sound_witness :
  @admitted Toy.crates ToySeal.seal_crates (served_bundle 6) sample_storage trusting_world 150
    (Authenticated (sv_signer_sha256 toy_verification)).
Proof.
  eapply (@admit_bundle_sound Toy.crates ToySeal.seal_crates (served_bundle 6) sample_storage 150
    trusting_world). vm_compute. reflexivity.
Defined.
