(* ===== verification/Request.v ===== *)
(** * Request: reduction of an OCSP request to what a lookup needs
    (hoike-core/src/request.rs, and the constants of response.rs)

    The DER decoders of the crates [x509-ocsp] and [der] and the URL and base64
    decoders are parameters.  Main result: what a parsed request contains. *)

From stdpp Require Import base tactics list gmap strings.
From Stdlib Require Import NArith Lia.
From S2P Require Import Prelude Crates AhuError Index CoreError Config.
Local Open Scope N_scope.

(** ** Data of the crate [x509-ocsp] *)

Record CertId : Type := mkCertId {
  cid_hash_algorithm_oid : string;
  cid_hash_algorithm_parameters : option bytes;
  cid_issuer_name_hash : bytes;
  cid_issuer_key_hash : bytes;
  cid_serial_number : bytes;
}.
#[export] Instance CertId_eq_dec : EqDecision CertId.
Proof. solve_decision. Defined.

Record Extension : Type := mkExtension {
  ext_extn_id : string;
  ext_extn_value : bytes;
}.

Record TbsRequest : Type := mkTbsRequest {
  tr_request_list : list CertId;
  tr_request_extensions : option (list Extension);
}.

Class OcspCrates := {
  (** [OcspRequest::from_der], its [tbs_request] *)
  ocsp_request_from_der : bytes -> result string TbsRequest;
  certid_to_der : CertId -> result string bytes;
  octet_string_from_der : bytes -> result string bytes;
  (** [Vec::<PreferredSignatureAlgorithm>::from_der], the [sig_identifier] OIDs *)
  preferred_algs_from_der : bytes -> result string (list string);
  (** [percent_decode_str(..).decode_utf8()] and the base64 decoder *)
  percent_decode_utf8 : string -> result string string;
  base64_decode : string -> result string bytes;
}.

Definition MAX_REQUEST_SIZE : N := 8192.
Definition ID_PKIX_OCSP_NONCE : string := "1.3.6.1.5.5.7.48.1.2".
Definition ID_PREF_SIG_ALGS : string := "1.3.6.1.5.5.7.48.1.8".

Record ParsedCertId : Type := mkParsedCertId {
  pc_entry_key : bytes;
  pc_certid_der : bytes;
  pc_issuer_name_hash : bytes;
  pc_issuer_key_hash : bytes;
  pc_serial_number : bytes;
  pc_hash_alg_oid : string;
}.

Record ParsedRequest : Type := mkParsedRequest {
  pr_cert_ids : list ParsedCertId;
  pr_nonce : option bytes;
  pr_preferred_sig_algs : list N;
}.

(** [sig_oid_to_discriminator]. *)
Definition sig_oid_to_discriminator (oid : string) : option N :=
  if String.eqb oid "1.2.840.10045.4.3.2" then Some ALG_DISC_DEFAULT
  else if String.eqb oid "2.16.840.1.101.3.4.3.17" then Some ALG_DISC_ML_DSA_44
  else if String.eqb oid "2.16.840.1.101.3.4.3.18" then Some ALG_DISC_ML_DSA_65
  else if String.eqb oid "2.16.840.1.101.3.4.3.19" then Some ALG_DISC_ML_DSA_87
  else None.

Definition find_extension (exts : option (list Extension)) (oid : string) : option Extension :=
  match exts with
  | Some exts => List.find (fun e => String.eqb (ext_extn_id e) oid) exts
  | None => None
  end.

Inductive NonceAction := MustAccept | MayOmit | MalformedRequest.

(** [validate_nonce]: lengths per RFC 9654. *)
Definition validate_nonce (nonce_bytes : bytes) : NonceAction :=
  let n := len nonce_bytes in
  if n =? 0 then MalformedRequest
  else if n <=? 15 then MayOmit
  else if n <=? 32 then MustAccept
  else if n <=? 128 then MayOmit
  else MalformedRequest.

Section request.
Context {CR : Crates} {OC : OcspCrates}.

(** [parse_preferred_sig_algs]: undecodable preferences count as none. *)
Definition parse_preferred_sig_algs (exts : option (list Extension)) : list N :=
  match find_extension exts ID_PREF_SIG_ALGS with
  | None => []
  | Some ext =>
      match preferred_algs_from_der (ext_extn_value ext) with
      | Ok prefs => omap sig_oid_to_discriminator prefs
      | Err _ => []
      end
  end.

(** The body of the loop over the request list. *)
Definition parse_cert_id (cert_id : CertId) : core_result ParsedCertId :=
  certid_der ← map_err (DerParse "CertID encode") (certid_to_der cert_id);
  Ok (mkParsedCertId (sha256 certid_der) certid_der (cid_issuer_name_hash cert_id)
        (cid_issuer_key_hash cert_id) (cid_serial_number cert_id) (cid_hash_algorithm_oid cert_id)).

Definition parse_nonce (exts : option (list Extension)) : core_result (option bytes) :=
  match find_extension exts ID_PKIX_OCSP_NONCE with
  | Some ext => Some <$> map_err (DerParse "nonce extension value")
                           (octet_string_from_der (ext_extn_value ext))
  | None => Ok None
  end.

Definition parse_ocsp_request (der_bytes : bytes) : core_result ParsedRequest :=
  ensure (negb (bool_decide (der_bytes = []))) EmptyRequest ;;
  ensure (len der_bytes <=? MAX_REQUEST_SIZE) (RequestTooLarge (len der_bytes) MAX_REQUEST_SIZE) ;;
  tbs ← map_err (DerParse "OCSPRequest") (ocsp_request_from_der der_bytes);
  ensure (negb (bool_decide (length (tr_request_list tbs) = 0%nat))) EmptyRequestList ;;
  cert_ids ← mapM parse_cert_id (tr_request_list tbs);
  nonce ← parse_nonce (tr_request_extensions tbs);
  Ok (mkParsedRequest cert_ids nonce (parse_preferred_sig_algs (tr_request_extensions tbs))).

(** [trim_start_matches('/')]. *)
Fixpoint trim_slashes (s : string) : string :=
  match s with
  | String c s' => if Ascii.eqb c slash then trim_slashes s' else s
  | EmptyString => EmptyString
  end.

Definition decode_get_path (p : string) : core_result bytes :=
  decoded_path ← map_err GetDecode (percent_decode_utf8 p);
  map_err GetDecode (base64_decode (trim_slashes decoded_path)).
End request.

(** ** response.rs *)

Definition UNAUTHORIZED : bytes := [x30; x03; x0a; x01; x06].
Definition MALFORMED_REQUEST : bytes := [x30; x03; x0a; x01; x01].
Definition INTERNAL_ERROR : bytes := [x30; x03; x0a; x01; x02].
Definition TRY_LATER : bytes := [x30; x03; x0a; x01; x03].
Definition CONTENT_TYPE_OCSP_RESPONSE : string := "application/ocsp-response".
Definition CONTENT_TYPE_OCSP_REQUEST : string := "application/ocsp-request".

(** ** What a parsed request contains *)

Section request_props.
Context {CR : Crates} {OC : OcspCrates}.

(** The first extension with this identifier. *)
Definition has_extension (exts : option (list Extension)) (oid : string) (value : bytes) : Prop :=
  exists l1 e l2, exts = Some (l1 ++ e :: l2) /\ ext_extn_id e = oid /\ ext_extn_value e = value /\
    Forall (fun e => ext_extn_id e <> oid) l1.

Definition no_extension (exts : option (list Extension)) (oid : string) : Prop :=
  forall l, exts = Some l -> Forall (fun e => ext_extn_id e <> oid) l.

(** How a request carries a nonce, or none. *)
Definition carries_nonce (exts : option (list Extension)) (nonce : option bytes) : Prop :=
  match nonce with
  | Some n => exists v, has_extension exts ID_PKIX_OCSP_NONCE v /\ octet_string_from_der v = Ok n
  | None => no_extension exts ID_PKIX_OCSP_NONCE
  end.

(** The CertID of the request, with the key its entry is stored under. *)
Definition parsed_from (cert_id : CertId) (p : ParsedCertId) : Prop :=
  certid_to_der cert_id = Ok (pc_certid_der p) /\ pc_entry_key p = sha256 (pc_certid_der p) /\
  cert_id = mkCertId (pc_hash_alg_oid p) (cid_hash_algorithm_parameters cert_id)
              (pc_issuer_name_hash p) (pc_issuer_key_hash p) (pc_serial_number p).

Lemma find_extension_Some exts oid e :
  find_extension exts oid = Some e -> has_extension exts oid (ext_extn_value e).
Proof.
  destruct exts as [l|]; [|done]. cbn. unfold has_extension.
  induction l as [|x l IH]; cbn; [done|]. destruct (String.eqb_spec (ext_extn_id x) oid) as [Hx|Hx].
  - intros [= ->]. by exists [], e, l.
  - intros (l1 & e' & l2 & [= ->] & ? & ? & ?)%IH. exists (x :: l1), e', l2.
    split_and!; try done. by constructor.
Qed.

Lemma find_extension_None exts oid : find_extension exts oid = None <-> no_extension exts oid.
Proof.
  unfold no_extension. destruct exts as [l|]; [|by split]. cbn. split.
  - intros H ? [= <-]. induction l as [|x l IH]; [constructor|]. cbn in H.
    destruct (String.eqb_spec (ext_extn_id x) oid); [done|]. constructor; auto.
  - intros H. specialize (H l eq_refl). induction H as [|x l Hx _ IH]; [done|]. cbn.
    by rewrite (proj2 (String.eqb_neq _ _) Hx).
Qed.

Lemma has_extension_find exts oid v :
  has_extension exts oid v -> exists e, find_extension exts oid = Some e /\ ext_extn_value e = v.
Proof.
  intros (l1 & e & l2 & -> & He & Hv & Hl). exists e. split; [|done]. cbn.
  induction Hl as [|x l1 Hx _ IH]; cbn; [by rewrite He, String.eqb_refl|].
  by rewrite (proj2 (String.eqb_neq _ _) Hx).
Qed.

Lemma parse_nonce_Ok exts nonce : parse_nonce exts = Ok nonce <-> carries_nonce exts nonce.
Proof.
  unfold parse_nonce, carries_nonce. split.
  - destruct (find_extension exts _) as [e|] eqn:E.
    + intros (n & Hn%map_err_Ok & ->)%fmap_Ok. exists (ext_extn_value e).
      split; [by apply find_extension_Some|done].
    + intros [= <-]. by apply find_extension_None.
  - destruct nonce as [n|].
    + intros (v & (e & -> & <-)%has_extension_find & Hn). by rewrite Hn.
    + intros H%find_extension_None. by rewrite H.
Qed.

Lemma parse_cert_id_Ok cert_id p : parse_cert_id cert_id = Ok p <-> parsed_from cert_id p.
Proof.
  unfold parse_cert_id, parsed_from. split.
  - intros (der & Hd%map_err_Ok & [= <-])%bind_Ok. by destruct cert_id.
  - intros (Hd & Hk & Heq). rewrite Hd. cbn. rewrite <- Hk, Heq. by destruct p.
Qed.

Lemma parse_ocsp_request_Ok der p :
  parse_ocsp_request der = Ok p <->
  der <> [] /\ len der <= MAX_REQUEST_SIZE /\
  exists tbs, ocsp_request_from_der der = Ok tbs /\ tr_request_list tbs <> [] /\
    Forall2 parsed_from (tr_request_list tbs) (pr_cert_ids p) /\
    carries_nonce (tr_request_extensions tbs) (pr_nonce p) /\
    pr_preferred_sig_algs p = parse_preferred_sig_algs (tr_request_extensions tbs).
Proof.
  unfold parse_ocsp_request. split.
  - intros ([] & Hne%ensure_Ok & ([] & Hl%ensure_Ok & (tbs & Ht%map_err_Ok & ([] & Hn%ensure_Ok &
      (ids & Hids%mapM_Ok & (nonce & Hno%parse_nonce_Ok & [= <-])%bind_Ok)%bind_Ok)%bind_Ok
      )%bind_Ok)%bind_Ok)%bind_Ok.
    rewrite negb_true_iff, bool_decide_eq_false in Hne, Hn. apply N.leb_le in Hl.
    split_and!; try done. exists tbs. split_and!; try done.
    + by intros E; rewrite E in Hn.
    + eapply Forall2_impl; [done|]. intros c q. apply parse_cert_id_Ok.
  - intros (Hne & Hl%N.leb_le & tbs & Ht & Hn & Hids & Hno%parse_nonce_Ok & Hp).
    rewrite (bool_decide_eq_false_2 _ Hne), Hl, Ht. cbn.
    rewrite bool_decide_eq_false_2 by (by intros ?%nil_length_inv). cbn.
    assert (mapM parse_cert_id (tr_request_list tbs) = Ok (pr_cert_ids p)) as ->.
    { apply mapM_Ok. eapply Forall2_impl; [done|]. intros c q. apply parse_cert_id_Ok. }
    cbn. rewrite Hno. cbn. rewrite <- Hp. by destruct p.
Qed.

(** Parsing succeeds exactly on a non-empty request of at most 8192 bytes
    that decodes to a non-empty request list.  Every CertID of the list is kept
    in order with its issuer hashes and serial, keyed by the SHA-256 digest of
    its own encoding; the nonce is the unwrapped first nonce extension, and the
    preferences are the known algorithms of the first preference extension, in
    the client's order. *)
Theorem parse_ocsp_request_iff der p :
  parse_ocsp_request der = Ok p <->
  der <> [] /\ len der <= MAX_REQUEST_SIZE /\
  exists tbs, ocsp_request_from_der der = Ok tbs /\ tr_request_list tbs <> [] /\
    Forall2 parsed_from (tr_request_list tbs) (pr_cert_ids p) /\
    carries_nonce (tr_request_extensions tbs) (pr_nonce p) /\
    pr_preferred_sig_algs p = parse_preferred_sig_algs (tr_request_extensions tbs).
Proof. apply parse_ocsp_request_Ok. Qed.

Lemma validate_nonce_malformed n :
  validate_nonce n = MalformedRequest <-> n = [] \/ 128 < len n.
Proof.
  unfold validate_nonce. destruct (N.eqb_spec (len n) 0) as [E|E].
  - split; [intros _; left; destruct n; [done|by rewrite len_cons in E; lia]|done].
  - assert (n <> []) by (by intros ->; rewrite len_nil in E).
    destruct (N.leb_spec (len n) 15), (N.leb_spec (len n) 32), (N.leb_spec (len n) 128);
      split; intros; try done; try lia; try (by right; lia); naive_solver lia.
Qed.
End request_props.
