(* ===== verification/Router.v ===== *)
(** * Router: the loaded working set and its routing (hoike-core/src/router.rs)

    Bundles are loaded in configuration order under admission and rollback
    checks, registered under the issuer hashes of their scopes, and replaced as
    a whole by a reload.  Main results: a lookup answers from the first scope
    that has an entry and never indexes out of range, everything loaded was
    admitted and is covered by the committed marks, and a reload that fails
    changes nothing that is served.

    The iteration order of a hash map is not specified; [map_to_list] stands
    for it. *)

From stdpp Require Import base tactics list gmap strings.
From Stdlib Require Import NArith Lia.
From S2P Require Import Prelude Crates AhuError Header Index Manifest Bundle Verify Seal.
From S2P Require Import CoreError Storage State Config Admission Request.
Local Open Scope N_scope.

(** [type ScopeKey]: (issuerNameHash, issuerKeyHash). *)
Abbreviation ScopeKey := (bytes * bytes)%type.

Record ScopeEntry : Type := mkScopeEntry {
  se_bundle_idx : nat;
  se_ca_label : string;
  se_nonce_policy : string;
  se_completeness : string;
  se_forward_to : option string;
  se_max_age_fraction : f64;
}.

Abbreviation ScopeEntries := (gmap ScopeKey (list ScopeEntry)).

Record ScopeMap : Type := mkScopeMap {
  sm_entries : ScopeEntries;
  sm_bundles : list Bundle;
}.

Record LookupResult : Type := mkLookupResult {
  lr_response_bytes : bytes;
  lr_window : Window;
  lr_ca_label : string;
  lr_nonce_policy : string;
  lr_forward_to : option string;
  lr_max_age_fraction : f64;
}.

Record ScopeDetail : Type := mkScopeDetail {
  sd_ca_label : string;
  sd_producer_id : string;
  sd_epoch : N;
  sd_completeness : string;
  sd_entry_count : N;
  sd_window : Window;
}.

Record ResponderState : Type := mkResponderState {
  rs_scope_map : ScopeMap;
  rs_config : Config;
  rs_state_store : StateStore;
  rs_writer_guard : StateDirectoryLock;
}.

(** ** Routing *)

Definition scope_key_of (cert_id : ParsedCertId) : ScopeKey :=
  (pc_issuer_name_hash cert_id, pc_issuer_key_hash cert_id).

(** [scope_for_certid]: label, authoritative, forward target. *)
Definition scope_for_certid (map : ScopeMap) (cert_id : ParsedCertId) :
    option (string * bool * option string) :=
  entries ← sm_entries map !! scope_key_of cert_id;
  entry ← head entries;
  Some (se_ca_label entry, String.eqb (se_completeness entry) "authoritative-complete",
        se_forward_to entry).

Definition search (b : Bundle) (cert_id : ParsedCertId) (preferred_algs : list N) : option bytes :=
  match preferred_algs with
  | [] => lookup b (pc_entry_key cert_id)
  | _ => lookup_preferred b (pc_entry_key cert_id) preferred_algs
  end.

(** The loop that collects [hits]; [None] is a panic, an index out of range. *)
Fixpoint collect_hits (bundles : list Bundle) (cert_id : ParsedCertId) (preferred_algs : list N)
    (scope_entries : list ScopeEntry) : option (list (ScopeEntry * bytes * Window)) :=
  match scope_entries with
  | [] => Some []
  | entry :: rest =>
      b ← bundles !! se_bundle_idx entry;
      hits ← collect_hits bundles cert_id preferred_algs rest;
      Some (match search b cert_id preferred_algs with
            | Some response_bytes => (entry, response_bytes, m_window (b_manifest b)) :: hits
            | None => hits
            end)
  end.

Definition make_result (hit : ScopeEntry * bytes * Window) : LookupResult :=
  let '(entry, response_bytes, window) := hit in
  mkLookupResult response_bytes window (se_ca_label entry) (se_nonce_policy entry)
    (se_forward_to entry) (se_max_age_fraction entry).

(** [ResponderState::lookup]; the outer [None] is a panic. *)
Definition lookup (map : ScopeMap) (cert_id : ParsedCertId) (preferred_algs : list N) :
    option (option LookupResult) :=
  match sm_entries map !! scope_key_of cert_id with
  | None => Some None
  | Some scope_entries =>
      hits ← collect_hits (sm_bundles map) cert_id preferred_algs scope_entries;
      Some (make_result <$> head hits)
  end.

(** ** Diagnostics *)

Definition default_window (map : ScopeMap) : option Window :=
  m_window ∘ b_manifest <$> head (sm_bundles map).

(** Sums of [u64] wrap around in a release build. *)
Definition total_entries (map : ScopeMap) : N :=
  foldr (fun b acc => (m_entry_count (b_manifest b) + acc) mod u64_lim) 0 (sm_bundles map).

Definition bundle_count (map : ScopeMap) : nat := length (sm_bundles map).
Definition scope_count (map : ScopeMap) : nat := size (sm_entries map).

Definition first_epoch (b : Bundle) : N := from_option cs_epoch 0 (head (m_ca_scopes (b_manifest b))).

Definition all_entries (map : ScopeMap) : list ScopeEntry :=
  concat (map_to_list (sm_entries map)).*2.

Definition scope_info (map : ScopeMap) : option (list (string * N * string)) :=
  mapM (fun entry =>
    b ← sm_bundles map !! se_bundle_idx entry;
    Some (se_ca_label entry, first_epoch b, se_completeness entry)) (all_entries map).

Definition bundle_scopes (map : ScopeMap) : option (list ScopeDetail) :=
  mapM (fun entry =>
    b ← sm_bundles map !! se_bundle_idx entry;
    Some (mkScopeDetail (se_ca_label entry) (m_producer_id (b_manifest b)) (first_epoch b)
            (se_completeness entry) (m_entry_count (b_manifest b)) (m_window (b_manifest b))))
    (all_entries map).

(** ** Loading *)

(** [validate_nonce_config]; the state of the loop is the set [labels]. *)
Definition validate_nonce_ca (mode : string) (labels : gset string) (ca : CaConfig) :
    core_result (gset string) :=
  ensure (negb (bool_decide (ca_label ca ∈ labels))) (config_error "duplicate CA label") ;;
  (if String.eqb (ca_nonce_policy ca) "ignore" then Ok tt
   else if String.eqb (ca_nonce_policy ca) "live" then
     ensure (negb (String.eqb mode "edge"))
       (config_error "nonce_policy live requires signer or combined mode") ;;
     ensure (bool_decide (is_Some (ca_signing_key ca)))
       (config_error "nonce_policy live requires a signing_key")
   else if String.eqb (ca_nonce_policy ca) "forward" then
     ensure (bool_decide (is_Some (ca_forward_to ca)))
       (config_error "nonce_policy forward requires a forward_to URL")
   else Err (config_error "unknown nonce_policy")) ;;
  Ok (labels ∪ {[ca_label ca]}).

Definition validate_nonce_config (c : Config) : core_result unit :=
  fold_result (validate_nonce_ca (sv_mode (c_server c))) ∅ (c_ca c) ;; Ok tt.

(** [register_bundle_scopes]. *)
Definition register_bundle_scopes (b : Bundle) (entry : ScopeEntry) (entries : ScopeEntries) :
    ScopeEntries :=
  foldl (fun entries scope =>
    let key := (cs_issuer_name_hash scope, cs_issuer_key_hash scope) in
    <[key := default [] (entries !! key) ++ [entry]]> entries) entries (m_ca_scopes (b_manifest b)).

(** The entry of a configured CA, and of the configuration without CAs. *)
Definition ca_entry (ca : CaConfig) (bundle_idx : nat) : ScopeEntry :=
  mkScopeEntry bundle_idx (ca_label ca) (ca_nonce_policy ca) (ca_completeness ca)
    (ca_forward_to ca) (ca_max_age_fraction ca).
Definition default_entry : ScopeEntry :=
  mkScopeEntry 0 "default" "ignore" "authoritative-complete" None f64_half.

Section load.
Context {CR : Crates} {SC : SealCrates} {JS : Json}.
Implicit Types (c : Config) (s : StateStore).

(** [Bundle::from_file]. *)
Definition from_file (p : path) : io CoreError Bundle :=
  file ← io_map_err (CoreBundle ∘ Io) (read_file p);
  io_lift (map_err CoreBundle (from_bytes file)).

Definition system_time : io CoreError N :=
  now ← read_clock;
  io_lift (ok_or now (config_error "system time before the epoch")).

Definition load_and_verify_bundle (p : path) c : io CoreError Bundle :=
  b ← from_file p;
  now ← system_time;
  admit_bundle b (c_storage c) now ;;
  mret b.

(** [find_newest_bundle]: one step of the selection; [best] is kept on a tie. *)
Definition consider_file (best : option (path * N)) (p : path) : io CoreError (option (path * N)) :=
  r ← io_try (from_file p);
  mret (match r with
        | Ok b =>
            let max_epoch := foldr N.max 0 (cs_epoch <$> m_ca_scopes (b_manifest b)) in
            match best with
            | Some (_, e) => if e <? max_epoch then Some (p, max_epoch) else best
            | None => Some (p, max_epoch)
            end
        | Err _ => best
        end).

Definition find_newest_bundle (dir : path) : io CoreError path :=
  files ← io_map_err CoreIo (read_dir dir);
  let ahu_files := List.filter (fun p => bool_decide (extension p = Some "ahu"%string)) files in
  io_lift (ensure (negb (bool_decide (ahu_files = []))) (config_error "no .ahu files")) ;;
  best ← io_fold consider_file None ahu_files;
  io_lift (ok_or (fst <$> best) (config_error "no valid .ahu files")).

Definition configured_bundle_paths c : io CoreError (list path) :=
  io_lift (validate_nonce_config c) ;;
  if bool_decide (c_ca c = []) then
    p ← find_newest_bundle (st_bundle_dir (c_storage c)); mret [p]
  else mret (ca_destination c <$> c_ca c).

(** The checks every bundle passes before it advances the candidate. *)
Definition accept_bundle s b : io CoreError StateStore :=
  io_lift (check_rollback s b) ;;
  io_lift (check_continuity s b) ;;
  advance_from_bundle s b.

(** The variables of [load_scope_map_candidate]. *)
Record Loading : Type := mkLoading {
  ld_store : StateStore;
  ld_bundles : list Bundle;
  ld_entries : ScopeEntries;
  ld_loaded_paths : gmap path nat;
}.

(** One turn of the loop over the configured CAs. *)
Definition load_ca c (ld : Loading) (ca_path : CaConfig * path) : io CoreError Loading :=
  let '(ca, p) := ca_path in
  canonical ← canonical_or_self p;
  ld ← match ld_loaded_paths ld !! canonical with
       | Some idx => mret (idx, ld)
       | None =>
           b ← load_and_verify_bundle p c;
           store ← accept_bundle (ld_store ld) b;
           let idx := length (ld_bundles ld) in
           mret (idx, mkLoading store (ld_bundles ld ++ [b]) (ld_entries ld)
                        (<[canonical := idx]> (ld_loaded_paths ld)))
       end;
  let '(idx, ld) := ld in
  match ld_bundles ld !! idx with
  | Some b => mret (mkLoading (ld_store ld) (ld_bundles ld)
                (register_bundle_scopes b (ca_entry ca idx) (ld_entries ld)) (ld_loaded_paths ld))
  | None => io_fail (config_error "index out of bounds")
  end.

(** The loop that snapshots each label once; the state is [labels]. *)
Definition snapshot_label (bundles : list Bundle) (st : StateStore * gset string)
    (entry : ScopeEntry) : io CoreError (StateStore * gset string) :=
  let '(s, labels) := st in
  if decide (se_ca_label entry ∈ labels) then mret (s, labels) else
  match bundles !! se_bundle_idx entry with
  | Some b => s ← snapshot s (se_ca_label entry) b; mret (s, labels ∪ {[se_ca_label entry]})
  | None => io_fail (config_error "index out of bounds")
  end.

Definition load_bundles c s (bundle_paths : list path) : io CoreError Loading :=
  let ld := mkLoading s [] ∅ ∅ in
  if bool_decide (c_ca c = []) then
    p ← io_lift (ok_or (head bundle_paths) (config_error "index out of bounds"));
    b ← load_and_verify_bundle p c;
    store ← accept_bundle s b;
    mret (mkLoading store [b] (register_bundle_scopes b default_entry ∅) ∅)
  else io_fold (load_ca c) ld (zip (c_ca c) bundle_paths).

Definition load_scope_map_candidate c s : io CoreError (ScopeMap * StateStore) :=
  bundle_paths ← configured_bundle_paths c;
  ld ← load_bundles c s bundle_paths;
  let map := mkScopeMap (ld_entries ld) (ld_bundles ld) in
  st ← io_fold (snapshot_label (ld_bundles ld)) (ld_store ld, ∅) (all_entries map);
  mret (map, st.1).

(** [load_scope_map]: the store is replaced by the committed candidate. *)
Definition load_scope_map c s : io CoreError (ScopeMap * StateStore) :=
  let candidate := clear_active_bundles (transaction s) in
  r ← load_scope_map_candidate c candidate;
  let '(map, candidate) := r in
  s ← commit s candidate;
  mret (map, s).

(** Recovery of [load] without configured CAs, from the snapshot [default]. *)
Definition recover_default c s (original : CoreError) : io CoreError (ScopeMap * StateStore) :=
  p ← io_lift (ok_or (ps_active_bundles (ss_state s) !! "default"%string) original);
  let candidate := clear_active_bundles (transaction s) in
  b ← load_and_verify_bundle p c;
  candidate ← accept_bundle candidate b;
  candidate ← snapshot candidate "default" b;
  s ← commit s candidate;
  mret (mkScopeMap (register_bundle_scopes b default_entry ∅) [b], s).

Definition set_bundle_file (ca : CaConfig) (p : path) : CaConfig :=
  mkCaConfig (ca_label ca) (Some p) (ca_nonce_policy ca) (ca_completeness ca)
    (ca_issuer_name_hash ca) (ca_issuer_key_hash ca) (ca_forward_to ca) (ca_forward_insecure ca)
    (ca_forward_ca ca) (ca_source ca) (ca_batch_interval ca) (ca_validity_secs ca)
    (ca_jitter_secs ca) (ca_certid_compat ca) (ca_max_age_fraction ca) (ca_archive_cutoff_secs ca)
    (ca_urgent_revocation ca) (ca_issuer_name_der_b64 ca) (ca_issuer_key_bytes_b64 ca)
    (ca_sig_alg ca) (ca_signing_key ca) (ca_responder_cert ca) (ca_key_rotation ca)
    (ca_seal_key ca) (ca_seal_cert ca).

(** The configuration with every CA at its committed snapshot. *)
Definition recovery_config c s : core_result Config :=
  cas ← mapM (fun ca =>
    p ← ok_or (ps_active_bundles (ss_state s) !! ca_label ca) (config_error "no committed snapshot");
    Ok (set_bundle_file ca p)) (c_ca c);
  Ok (mkConfig (c_server c) (c_storage c) cas (c_gossip c)).

Definition state_file c : path := st_state_db (c_storage c) ++ ["state.json"%string].

(** The guard protects the directory the configuration names. *)
Definition check_guard c (guard : StateDirectoryLock) : io CoreError unit :=
  state_dir ← io_map_err (fun _ => config_error "cannot resolve state directory")
                (canonicalize (st_state_db (c_storage c)));
  io_lift (ensure (bool_decide (sdl_state_dir guard = state_dir))
    (config_error "writer lock guards another state directory")).

(** [ResponderState::load]. *)
Definition load c (guard : StateDirectoryLock) : io CoreError ResponderState :=
  check_guard c guard ;;
  s ← open_store (state_file c);
  r ← io_try (load_scope_map c s);
  r ← match r with
      | Ok r => mret r
      | Err original =>
          if bool_decide (ps_active_bundles (ss_state s) = ∅) then io_fail original
          else if bool_decide (c_ca c = []) then recover_default c s original
          else recovery ← io_lift (recovery_config c s); load_scope_map recovery s
      end;
  let '(map, s) := r in
  mret (mkResponderState map c s guard).

(** [ResponderState::reload]: the map is stored only after a complete load. *)
Definition reload (rs : ResponderState) : io CoreError ResponderState :=
  r ← load_scope_map (rs_config rs) (rs_state_store rs);
  let '(map, s) := r in
  mret (mkResponderState map (rs_config rs) s (rs_writer_guard rs)).

(** The responder after a call of [reload]: an error leaves it as it was. *)
Definition after_reload (rs : ResponderState) (w : World) : ResponderState :=
  match (reload rs w).1 with Done rs' => rs' | _ => rs end.
End load.

(** ** Nonce policies *)

(** The node can honour the nonce policy of the CA. *)
Definition nonce_valid (mode : string) (ca : CaConfig) : Prop :=
  ca_nonce_policy ca = "ignore"%string \/
  (ca_nonce_policy ca = "live"%string /\ mode <> "edge"%string /\ is_Some (ca_signing_key ca)) \/
  (ca_nonce_policy ca = "forward"%string /\ is_Some (ca_forward_to ca)).

Lemma validate_nonce_ca_Ok mode labels ca labels' :
  validate_nonce_ca mode labels ca = Ok labels' <->
  labels' = (labels ∪ {[ca_label ca]}) /\ (ca_label ca ∉ labels) /\ nonce_valid mode ca.
Proof.
  unfold validate_nonce_ca, nonce_valid. rewrite bind_Ok.
  setoid_rewrite ensure_Ok. setoid_rewrite negb_bool_decide. setoid_rewrite bind_Ok. split.
  - intros ([] & Hn & [] & Hp & [= <-]). split_and!; try done.
    destruct (String.eqb_spec (ca_nonce_policy ca) "ignore"); [by left|].
    destruct (String.eqb_spec (ca_nonce_policy ca) "live").
    { apply seq_Ok in Hp as [Hm%ensure_iff Hk%ensure_iff%bool_decide_eq_true]. right; left.
      by rewrite negb_true_iff, String.eqb_neq in Hm. }
    destruct (String.eqb_spec (ca_nonce_policy ca) "forward"); [|done].
    apply ensure_iff, bool_decide_eq_true in Hp. by right; right.
  - intros (-> & Hn & Hp). exists tt. split; [done|]. exists tt. split; [|done].
    destruct Hp as [->|[(-> & Hm%String.eqb_neq & Hk)|[-> Hk]]]; [done|..]; cbn.
    + rewrite Hm. cbn. by rewrite (bool_decide_eq_true_2 _ Hk).
    + by rewrite (bool_decide_eq_true_2 _ Hk).
Qed.

(** The nonce configuration is accepted exactly when the CA labels are
    distinct and each policy can be honoured: live signing needs a key and a
    node that is not an edge, forwarding needs a target. *)
Theorem validate_nonce_config_iff c :
  validate_nonce_config c = Ok tt <->
  NoDup (ca_label <$> c_ca c) /\ Forall (nonce_valid (sv_mode (c_server c))) (c_ca c).
Proof.
  unfold validate_nonce_config. rewrite bind_Ok.
  rewrite <- (unique_fold_start ca_label _ _ (validate_nonce_ca_Ok (sv_mode (c_server c)))).
  naive_solver.
Qed.

(** ** Routing is by configuration order *)

(** Every entry names a loaded bundle that has the scope it is registered for. *)
Definition routes (map : ScopeMap) : Prop :=
  forall key entries entry, sm_entries map !! key = Some entries -> entry ∈ entries ->
    exists b scope, sm_bundles map !! se_bundle_idx entry = Some b /\
      scope ∈ m_ca_scopes (b_manifest b) /\
      key = (cs_issuer_name_hash scope, cs_issuer_key_hash scope).

(** What an entry answers. *)
Definition answer (map : ScopeMap) (cert_id : ParsedCertId) (preferred_algs : list N)
    (entry : ScopeEntry) : option LookupResult :=
  b ← sm_bundles map !! se_bundle_idx entry;
  response_bytes ← search b cert_id preferred_algs;
  Some (make_result (entry, response_bytes, m_window (b_manifest b))).

Lemma collect_hits_answers map cert_id algs entries :
  Forall (fun e => is_Some (sm_bundles map !! se_bundle_idx e)) entries ->
  exists hits, collect_hits (sm_bundles map) cert_id algs entries = Some hits /\
    make_result <$> hits = omap (answer map cert_id algs) entries.
Proof.
  induction 1 as [|e entries [b Hb] _ (hits & Hh & Hm)]; cbn; [by exists []|].
  rewrite Hb. cbn. rewrite Hh. cbn. eexists. split; [done|].
  unfold answer at 1. rewrite Hb. cbn. destruct (search b cert_id algs); cbn; by rewrite Hm.
Qed.

Lemma lookup_answers map cert_id algs :
  routes map ->
  lookup map cert_id algs =
  Some (head (omap (answer map cert_id algs)
    (default [] (sm_entries map !! scope_key_of cert_id)))).
Proof.
  intros Hr. unfold lookup. destruct (sm_entries map !! _) as [entries|] eqn:E; [|done]. cbn.
  destruct (collect_hits_answers map cert_id algs entries) as (hits & -> & Hm).
  { rewrite Forall_forall. intros e He. destruct (Hr _ _ _ E He) as (b & _ & Hb & _). by exists b. }
  cbn. rewrite <- Hm. by destruct hits.
Qed.

Lemma head_omap {A B} (f : A -> option B) (l : list A) :
  match head (omap f l) with
  | Some y => exists l1 x l2, l = l1 ++ x :: l2 /\ f x = Some y /\ Forall (fun z => f z = None) l1
  | None => Forall (fun z => f z = None) l
  end.
Proof.
  induction l as [|x l IH]; cbn; [constructor|]. destruct (f x) as [y|] eqn:E; cbn.
  - by exists [], x, l.
  - destruct (head (omap f l)) as [y|]; [|by constructor].
    destruct IH as (l1 & z & l2 & -> & ? & ?). exists (x :: l1), z, l2. split_and!; try done. by constructor.
Qed.

(** A lookup never indexes out of range, and it answers from the first
    scope entry, in configuration order, whose bundle has a response for the
    key; it misses only if every candidate misses. *)
Theorem lookup_first_hit map cert_id algs :
  routes map ->
  let entries := default [] (sm_entries map !! scope_key_of cert_id) in
  exists r, lookup map cert_id algs = Some r /\
    match r with
    | Some result => exists l1 entry l2, entries = l1 ++ entry :: l2 /\
        answer map cert_id algs entry = Some result /\
        Forall (fun e => answer map cert_id algs e = None) l1
    | None => Forall (fun e => answer map cert_id algs e = None) entries
    end.
Proof. intros Hr. eexists. split; [by apply lookup_answers|]. apply head_omap. Qed.

(** ** Loading *)

Lemma register_routes bundles entries b e :
  routes (mkScopeMap entries bundles) -> bundles !! se_bundle_idx e = Some b ->
  routes (mkScopeMap (register_bundle_scopes b e entries) bundles).
Proof.
  intros Hr Hb. unfold register_bundle_scopes.
  assert (forall scopes, (forall sc, sc ∈ scopes -> sc ∈ m_ca_scopes (b_manifest b)) ->
    routes (mkScopeMap (foldl (fun entries scope =>
      let key := (cs_issuer_name_hash scope, cs_issuer_key_hash scope) in
      <[key := default [] (entries !! key) ++ [e]]> entries) entries scopes) bundles)) as H; [|by apply H].
  intros scopes. revert entries Hr. induction scopes as [|sc scopes IH]; intros entries Hr Hin; [done|].
  cbn. apply IH; [|intros; apply Hin; by right]. intros key es e' Hk He'. cbn in Hk |- *.
  destruct (decide (key = (cs_issuer_name_hash sc, cs_issuer_key_hash sc))) as [->|Hne].
  - rewrite lookup_insert_eq in Hk. injection Hk as <-.
    apply elem_of_app in He' as [He'| ->%list_elem_of_singleton].
    + destruct (entries !! _) as [es|] eqn:E; [|by apply not_elem_of_nil in He']. by eapply Hr.
    + exists b, sc. split_and!; [done|apply Hin; by left|done].
  - rewrite lookup_insert_ne in Hk by done. by eapply Hr.
Qed.

Lemma register_only b e key es e' :
  register_bundle_scopes b e ∅ !! key = Some es -> e' ∈ es -> e' = e.
Proof.
  unfold register_bundle_scopes.
  assert (forall scopes (m : ScopeEntries), (forall k es e', m !! k = Some es -> e' ∈ es -> e' = e) ->
    forall k es e', foldl (fun entries scope =>
      let key := (cs_issuer_name_hash scope, cs_issuer_key_hash scope) in
      <[key := default [] (entries !! key) ++ [e]]> entries) m scopes !! k = Some es ->
      e' ∈ es -> e' = e) as H; [|by apply H].
  induction scopes as [|sc scopes IH]; intros m Hm; [done|]. cbn. apply IH.
  intros k es' e'' [[<- <-]|[_ Hk]]%lookup_insert_Some He; [|by eapply Hm].
  apply elem_of_app in He as [He|?%list_elem_of_singleton]; [|done].
  destruct (m !! _) as [l|] eqn:E; [by eapply Hm|by apply not_elem_of_nil in He].
Qed.

Lemma all_entries_elem map e :
  e ∈ all_entries map <-> exists key es, sm_entries map !! key = Some es /\ e ∈ es.
Proof.
  unfold all_entries. rewrite list_elem_of_In, in_concat. split.
  - intros (es & Hes & He). apply list_elem_of_In, list_elem_of_fmap in Hes as ([key es'] & -> & Hk).
    exists key, es'. split; [by apply elem_of_map_to_list|by apply list_elem_of_In].
  - intros (key & es & Hk & He). exists es. split; [|by apply list_elem_of_In].
    apply list_elem_of_In, list_elem_of_fmap. exists (key, es). split; [done|by apply elem_of_map_to_list].
Qed.

Lemma routes_more entries bundles b :
  routes (mkScopeMap entries bundles) -> routes (mkScopeMap entries (bundles ++ [b])).
Proof.
  intros Hr key es e Hk He. destruct (Hr key es e Hk He) as (b' & sc & Hb & ?). exists b', sc.
  split; [|done]. by apply lookup_app_l_Some.
Qed.

Section load_props.
Context {CR : Crates} {SC : SealCrates} {JS : Json}.
Implicit Types (c : Config) (s : StateStore).

(** The bundle is in a file and was admitted. *)
Definition served_from c (w : World) (b : Bundle) : Prop :=
  exists p file now trust, w_files w !! p = Some file /\ from_bytes file = Ok b /\
    admitted b (c_storage c) w now trust.

Lemma trusted_signer_same storage w w' now cert :
  same_files w w' -> trusted_signer storage w' now cert -> trusted_signer storage w now cert.
Proof. intros [E _ _]. unfold trusted_signer, configured_cert. by rewrite E. Qed.

Lemma admitted_same b storage w w' now trust :
  same_files w w' -> admitted b storage w' now trust -> admitted b storage w now trust.
Proof.
  intros Hs (H1 & H2 & H3). split_and!; [done|done|]. destruct trust as [sha|]; [|done].
  destruct H3 as (v & Hv & [Hver (cert & Ha & Hp & Ht & Hr) Hsc]). exists v. split; [done|].
  constructor; try done. exists cert. split_and!; try done. by eapply trusted_signer_same.
Qed.

Lemma load_and_verify_reads p c : reads_only (load_and_verify_bundle p c).
Proof.
  pose proof (admit_reads (CR := CR)). unfold load_and_verify_bundle, from_file, system_time.
  eauto 10 with hoike.
Qed.

Lemma load_and_verify_bundle_Done p c w b w' :
  load_and_verify_bundle p c w = (Done b, w') -> served_from c w b /\ same_files w w'.
Proof.
  intros H. split; [|by eapply reads_Done; [apply load_and_verify_reads|]].
  unfold load_and_verify_bundle, from_file in H. inv_io.
  rename select (read_file p w = _) into Hr. apply read_file_Done in Hr as [Hf Hs].
  rename select (admit_bundle _ _ _ _ = _) into Ha. apply admit_bundle_Done in Ha as [Ha _].
  rename select (system_time _ = _) into Ht.
  eapply reads_Done in Ht; [|unfold system_time; eauto 10 with hoike].
  inv_ok. rename select (from_bytes _ = _) into Hb.
  eexists p, _, _, _. split_and!; [exact Hf|exact Hb|]. eapply admitted_same; [|exact Ha]. by etrans.
Qed.

Lemma accept_bundle_staged s b w o w' :
  ss_staged s = true -> accept_bundle s b w = (o, w') ->
  w' = w /\ forall s', o = Done s' ->
    s' = with_state s (advanced (ss_state s) b) /\
    check_rollback s b = Ok tt /\ check_continuity s b = Ok tt.
Proof.
  intros Hst. unfold accept_bundle, mbind, io_bind.
  destruct (check_rollback s b) as [[]|e]; cbn; [|by intros [= <- <-]].
  destruct (check_continuity s b) as [[]|e]; cbn; [|by intros [= <- <-]].
  rewrite advance_from_bundle_staged by done. intros [= <- <-]. split; [done|]. by intros s' [= <-].
Qed.

(** The invariant of the loop that loads the bundles of [c], from store [s0]. *)
Record loading_ok c (w : World) (s0 : StateStore) (ld : Loading) : Prop := {
  lo_path : ss_path (ld_store ld) = ss_path s0;
  lo_staged : ss_staged (ld_store ld) = true;
  lo_routes : routes (mkScopeMap (ld_entries ld) (ld_bundles ld));
  lo_bundles : Forall (served_from c w) (ld_bundles ld);
  lo_paths p idx : ld_loaded_paths ld !! p = Some idx -> (idx < length (ld_bundles ld))%nat;
  lo_evolves h : evolves s0 h -> evolves (ld_store ld) (rev (ld_bundles ld) ++ h);
}.

Lemma loading_start c w s : ss_staged s = true -> loading_ok c w s (mkLoading s [] ∅ ∅).
Proof. intros Hs. by constructor. Qed.

Lemma served_from_same c w w' b : same_files w w' -> served_from c w' b -> served_from c w b.
Proof.
  intros Hs (p & file & now & trust & Hf & Hb & Ha). exists p, file, now, trust.
  destruct (Hs) as [E _ _]. rewrite <- E. split_and!; try done. by eapply admitted_same.
Qed.

Lemma loading_same c w w' s ld : same_files w w' -> loading_ok c w s ld -> loading_ok c w' s ld.
Proof.
  intros Hs [H1 H2 H3 H4 H5 H6]. constructor; try done. eapply Forall_impl; [done|].
  intros b. apply served_from_same. destruct Hs. by constructor.
Qed.

(** A bundle that was admitted and accepted joins the working set. *)
Lemma loading_push c w s ld b w1 s' w2 q :
  loading_ok c w s ld -> served_from c w b ->
  accept_bundle (ld_store ld) b w1 = (Done s', w2) ->
  loading_ok c w s (mkLoading s' (ld_bundles ld ++ [b]) (ld_entries ld)
    (<[q := length (ld_bundles ld)]> (ld_loaded_paths ld))).
Proof.
  intros [H1 H2 H3 H4 H5 H6] Hb Ha.
  destruct (accept_bundle_staged _ _ _ _ _ H2 Ha) as [-> Hs'].
  destruct (Hs' s' eq_refl) as (-> & Hr & Hc). constructor; cbn; try done.
  - by apply routes_more.
  - apply Forall_app_2; [done|by constructor].
  - intros p idx Hp. rewrite length_app. cbn. apply lookup_insert_Some in Hp as [[_ <-]|[_ Hp]]; [lia|].
    apply H5 in Hp. lia.
  - intros h Hh. rewrite rev_app_distr. cbn.
    eapply ev_accept; [by apply H6|done|done|by apply (advance_from_bundle_staged _ _ sample_world)].
Qed.

Lemma loading_register c w s ld b e :
  loading_ok c w s ld -> ld_bundles ld !! se_bundle_idx e = Some b ->
  loading_ok c w s (mkLoading (ld_store ld) (ld_bundles ld)
    (register_bundle_scopes b e (ld_entries ld)) (ld_loaded_paths ld)).
Proof. intros [H1 H2 H3 H4 H5 H6] Hb. constructor; try done. by apply register_routes. Qed.

Lemma canonical_reads {E} p : reads_only (E := E) (canonical_or_self p).
Proof. unfold canonical_or_self. eauto with hoike. Qed.

Lemma accept_reads s b : ss_staged s = true -> reads_only (accept_bundle s b).
Proof.
  intros Hs w. unfold io_spec. destruct (accept_bundle s b w) as [o w'] eqn:E.
  by apply accept_bundle_staged in E as [-> _].
Qed.

Lemma load_ca_spec c s0 w0 ld ca_path w :
  loading_ok c w0 s0 ld -> same_files w0 w ->
  io_spec (load_ca c ld ca_path) w (fun o w' => same_files w0 w' /\
    forall ld', o = Done ld' -> loading_ok c w0 s0 ld').
Proof.
  intros Hld Hw. destruct ca_path as [ca p]. unfold load_ca.
  apply io_spec_bind. eapply io_spec_mono; [apply canonical_reads|]. intros o1 w1 S1.
  pose proof (transitivity Hw S1) as S01. destruct o1 as [canonical|e|]; [|by split..].
  apply io_spec_bind.
  assert (forall idx ld2 w2, loading_ok c w0 s0 ld2 -> same_files w0 w2 ->
    io_spec (match ld_bundles ld2 !! idx with
      | Some b => mret (mkLoading (ld_store ld2) (ld_bundles ld2)
          (register_bundle_scopes b (ca_entry ca idx) (ld_entries ld2)) (ld_loaded_paths ld2))
      | None => io_fail (config_error "index out of bounds")
      end) w2 (fun o w' => same_files w0 w' /\ forall ld', o = Done ld' -> loading_ok c w0 s0 ld')) as Htail.
  { intros idx ld2 w2 H2 S2. destruct (ld_bundles ld2 !! idx) as [b|] eqn:E; [|by split].
    split; [done|]. intros ld' [= <-]. by apply loading_register. }
  destruct (ld_loaded_paths ld !! canonical) as [idx|]; [by apply io_spec_ret, Htail|].
  apply io_spec_bind. unfold io_spec at 1.
  destruct (load_and_verify_bundle p c w1) as [o2 w2] eqn:Eb. cbn.
  pose proof (load_and_verify_reads p c w1) as S2. unfold io_spec in S2. rewrite Eb in S2. cbn in S2.
  pose proof (transitivity S01 S2) as S02. destruct o2 as [b|e|]; [|by split..].
  apply load_and_verify_bundle_Done in Eb as [Hb _]. apply (served_from_same _ w0) in Hb; [|done].
  apply io_spec_bind. unfold io_spec at 1.
  destruct (accept_bundle (ld_store ld) b w2) as [o3 w3] eqn:Ea. cbn.
  assert (same_files w0 w3) as S03
    by (by destruct (accept_bundle_staged _ _ _ _ _ (lo_staged _ _ _ _ Hld) Ea) as [-> _]).
  destruct o3 as [s'|e|]; [|by split..].
  refine (Htail (length (ld_bundles ld)) (mkLoading s' (ld_bundles ld ++ [b]) (ld_entries ld)
    (<[canonical := length (ld_bundles ld)]> (ld_loaded_paths ld))) w3 _ S03).
  by eapply loading_push.
Qed.

Lemma load_cas_spec c s0 w0 l ld w :
  loading_ok c w0 s0 ld -> same_files w0 w ->
  io_spec (io_fold (load_ca c) ld l) w (fun o w' => same_files w0 w' /\
    forall ld', o = Done ld' -> loading_ok c w0 s0 ld').
Proof.
  revert ld w. induction l as [|x l IH]; intros ld w Hld Hw; cbn [io_fold].
  - split; [done|]. by intros ld' [= <-].
  - apply io_spec_bind. eapply io_spec_mono; [by apply load_ca_spec|].
    intros [ld1|e|] w1 [S1 H1]; [|by split..]. apply IH; [by apply H1|done].
Qed.

Lemma find_newest_reads dir : reads_only (find_newest_bundle dir).
Proof.
  assert (forall best p, reads_only (consider_file best p)) as Hc
    by (intros; unfold consider_file, from_file; eauto 10 with hoike).
  unfold find_newest_bundle. eauto 10 with hoike.
Qed.

Lemma configured_paths_reads c : reads_only (configured_bundle_paths c).
Proof.
  unfold configured_bundle_paths. pose proof find_newest_reads.
  apply reads_bind; [auto with hoike|]. intros _. case_bool_decide; eauto with hoike.
Qed.

Lemma load_bundles_spec c s w paths :
  ss_staged s = true ->
  io_spec (load_bundles c s paths) w (fun o w' => same_files w w' /\
    forall ld, o = Done ld -> loading_ok c w s ld).
Proof.
  intros Hs. unfold load_bundles. case_bool_decide; [|by apply load_cas_spec, reflexivity; apply loading_start].
  apply io_spec_bind, io_spec_lift. destruct (head paths) as [p|]; cbn [ok_or]; [|done].
  apply io_spec_bind. unfold io_spec at 1.
  destruct (load_and_verify_bundle p c w) as [o1 w1] eqn:Eb. cbn.
  pose proof (load_and_verify_reads p c w) as S1. unfold io_spec in S1. rewrite Eb in S1. cbn in S1.
  destruct o1 as [b|e|]; [|by split..]. apply load_and_verify_bundle_Done in Eb as [Hb _].
  apply io_spec_bind. unfold io_spec at 1. destruct (accept_bundle s b w1) as [o2 w2] eqn:Ea. cbn.
  assert (same_files w w2) as S2 by (by destruct (accept_bundle_staged _ _ _ _ _ Hs Ea) as [-> _]).
  destruct o2 as [s'|e|]; [|by split..]. split; [done|]. intros ld [= <-].
  pose proof (loading_push c w s _ b w1 s' w2 [] (loading_start c w s Hs) Hb Ea) as Hp.
  pose proof (loading_register _ _ _ _ b default_entry Hp eq_refl) as [H1 H2 H3 H4 H5 H6].
  by constructor.
Qed.


(** *** Snapshots *)

Context {HX : HexSpec} {SH : Sha256Spec}.

Lemma snapshot_path_not_tmp p contents : ~ tmp_path (snapshot_path p contents).
Proof.
  apply not_tmp_path. pose proof (hex_encode_length (sha256 contents)) as Hl.
  rewrite sha256_length in Hl. pose proof (hex_encode_digits (sha256 contents)) as Hd.
  destruct (hex_encode (sha256 contents)) as [|c x]; [done|]. cbn in Hd |- *.
  intros [= ->]. by apply andb_prop in Hd as [? _].
Qed.

(** [q] is not where snapshots or temporary files go. *)
Definition apart (p q : path) : Prop := ~ tmp_path q /\ parent_dir q <> generations_dir p.

Lemma state_file_apart p : ~ tmp_path p -> apart p p.
Proof.
  intros Hp. split; [done|]. unfold generations_dir. intros E. apply (f_equal length) in E.
  rewrite length_app in E. cbn in E. lia.
Qed.

Lemma snapshot_keeping q s label b :
  apart (ss_path s) q ->
  keeping q (snapshot s label b) (fun s' => ss_path s' = ss_path s /\ ss_staged s' = ss_staged s /\
    is_Some (ps_active_bundles (ss_state s') !! label) /\
    (forall l, is_Some (ps_active_bundles (ss_state s) !! l) ->
       is_Some (ps_active_bundles (ss_state s') !! l)) /\
    exists w w', snapshot s label b w = (Done s', w')).
Proof.
  intros [Hq Hd] w. destruct (to_bytes b) as [contents|e] eqn:Eb.
  - assert (q <> snapshot_path (ss_path s) contents) as Hne.
    { intros ->. apply Hd. unfold snapshot_path, parent_dir. by rewrite removelast_last. }
    pose proof (snapshot_spec s label b w contents Eb (snapshot_path_not_tmp _ _)) as Hs.
    unfold io_spec in *. destruct (snapshot s label b w) as [o w'] eqn:E. cbn in *.
    destruct Hs as [Hu Hs]. split; [by eapply untouched_kept|]. intros s' ->.
    destruct (Hs s' eq_refl) as [_ ->]. cbn. split_and!; try done.
    + by rewrite lookup_insert_eq.
    + intros l Hl. destruct (decide (l = label)) as [->|]; [by rewrite lookup_insert_eq|].
      by rewrite lookup_insert_ne.
    + eauto.
  - unfold snapshot. rewrite Eb. split; [done|]. done.
Qed.

(** The invariant of the snapshot loop, from store [s0]. *)
Record snapshotting s0 (st : StateStore * gset string) : Prop := {
  sn_path : ss_path st.1 = ss_path s0;
  sn_labels l : l ∈ st.2 -> is_Some (ps_active_bundles (ss_state st.1) !! l);
  sn_evolves h : evolves s0 h -> evolves st.1 h;
}.

Lemma snapshot_label_keeping q bundles s0 st e :
  apart (ss_path s0) q -> snapshotting s0 st ->
  keeping q (snapshot_label bundles st e)
    (fun st' => snapshotting s0 st' /\ st'.2 = (st.2 ∪ {[se_ca_label e]})).
Proof.
  intros Hq [Hp Hl He]. destruct st as [s labels]. unfold snapshot_label. cbn in *.
  case_decide as Hin; [apply keeping_ret; split; [done|cbn; set_solver]|].
  destruct (bundles !! se_bundle_idx e) as [b|]; [|by intros w].
  eapply keeping_bind; [apply snapshot_keeping; by rewrite Hp|].
  intros s' (Hp' & _ & Hla & Hmono & w & w' & Hrun). apply keeping_ret. split; [|done].
  constructor; cbn; [congruence| |].
  - intros l [?| ->%elem_of_singleton]%elem_of_union; [by apply Hmono, Hl|done].
  - intros h Hh. eapply ev_snapshot; [by apply He|done].
Qed.

Lemma snapshot_loop_keeping q bundles s0 l st :
  apart (ss_path s0) q -> snapshotting s0 st ->
  keeping q (io_fold (snapshot_label bundles) st l) (fun st' => snapshotting s0 st' /\
    st.2 ⊆ st'.2 /\ Forall (fun e => se_ca_label e ∈ st'.2) l).
Proof.
  intros Hq. revert st. induction l as [|e l IH]; intros st Hst; cbn [io_fold].
  - apply keeping_ret. by split_and!; [| |constructor].
  - eapply keeping_bind; [by apply snapshot_label_keeping|]. cbn. intros st1 [H1 E1].
    eapply keeping_mono; [by apply IH|]. cbn. intros st2 (H2 & Hsub & Hall).
    split_and!; [done|set_solver|]. constructor; [set_solver|done].
Qed.

(** *** The candidate and its commit *)

(** What a complete load of [c] from store [s] establishes. *)
Record loaded c (w : World) s (map : ScopeMap) s' : Prop := {
  la_routes : routes map;
  la_bundles : Forall (served_from c w) (sm_bundles map);
  la_evolves h : evolves s h -> evolves s' (rev (sm_bundles map) ++ h);
  la_snapshots : Forall (fun e => is_Some (ps_active_bundles (ss_state s') !! se_ca_label e))
    (all_entries map);
}.

Lemma load_candidate_spec q c s w :
  ss_staged s = true -> apart (ss_path s) q ->
  io_spec (load_scope_map_candidate c s) w (fun o w' => kept q w w' /\
    forall map s', o = Done (map, s') -> ss_path s' = ss_path s /\ loaded c w s map s').
Proof.
  intros Hst Hq. unfold load_scope_map_candidate.
  apply io_spec_bind. eapply io_spec_mono; [apply configured_paths_reads|]. intros o1 w1 S1.
  destruct o1 as [paths|e|]; [|by split; [apply same_files_kept|]..].
  apply io_spec_bind. eapply io_spec_mono; [by apply load_bundles_spec|]. intros o2 w2 [S2 H2].
  pose proof (transitivity S1 S2) as S12. destruct o2 as [ld|e|]; [|by split; [apply same_files_kept|]..].
  destruct (H2 ld eq_refl) as [Lp Ls Lr Lb _ Le].
  apply io_spec_bind. eapply io_spec_mono.
  { apply (snapshot_loop_keeping q _ (ld_store ld) _ (ld_store ld, ∅)); [by rewrite Lp|].
    constructor; [done|set_solver|done]. }
  intros o3 w3 [K3 H3]. assert (kept q w w3) by (etrans; [by apply same_files_kept|done]).
  destruct o3 as [st|e|]; [|by split..]. split; [done|]. intros map s' [= <- <-].
  destruct (H3 st eq_refl) as ([Sp Sl Se] & _ & Sall). split; [congruence|]. constructor; cbn.
  - done.
  - eapply Forall_impl; [exact Lb|]. intros b. by apply served_from_same.
  - intros h Hh. by apply Se, Le.
  - eapply Forall_impl; [exact Sall|]. cbn. intros e. apply Sl.
Qed.

(** What a restart may find at [p] when the machine stops: the old contents, or
    a descriptor that decodes to a state that continues the history of [s]. *)
Definition old_or_successor (w : World) s (x : option bytes) : Prop :=
  x = w_files w !! ss_path s \/
  exists json s', x = Some json /\ json_from_str json = Ok (ss_state s') /\
    forall h, evolves s h -> exists h', evolves s' (h' ++ h).

Definition durable_or_old (w : World) s (w' : World) : Prop :=
  stable w (ss_path s) -> forall x, after_crash w' (ss_path s) x -> old_or_successor w s x.

Context {JSS : JsonSpec}.

Lemma kept_durable w s w' : kept (ss_path s) w w' -> durable_or_old w s w'.
Proof.
  intros [Hf Hs] Hst x Hx. left. rewrite <- Hf. by apply stable_after_crash; [apply Hs|].
Qed.

(** Where the state descriptor may be. *)
Definition state_location (p : path) : Prop := ~ tmp_path p /\ is_generated p = false.

(** The descriptor on disk is the state in memory. *)
Definition persisted s (w : World) : Prop :=
  stable w (ss_path s) /\
  exists json, w_files w !! ss_path s = Some json /\ json_from_str json = Ok (ss_state s).

Definition is_uncertain (e : CoreError) : bool :=
  match e with DurabilityUncertain _ _ => true | _ => false end.

(** The outcome of an operation that ends in a commit to the descriptor of [s]:
    [Q] holds of a result, and an error that is certain changed nothing. *)
Definition committing {A} s (w : World) (o : outcome CoreError A) (w' : World)
    (Q : A -> Prop) : Prop :=
  durable_or_old w s w' /\
  match o with
  | Done a => Q a
  | Failed e => is_uncertain e = false -> kept (ss_path s) w w'
  | Crashed => True
  end.

Lemma commit_committing s cand w :
  state_location (ss_path s) -> ss_path cand = ss_path s ->
  (forall h, evolves s h -> exists h', evolves cand (h' ++ h)) ->
  io_spec (commit s cand) w (fun o w' => committing s w o w' (fun s' =>
    ss_path s' = ss_path s /\ ss_state s' = ss_state cand /\ persisted s' w')).
Proof.
  intros [Hp Hg] Hpath Hev. eapply io_spec_mono; [by apply commit_spec|]. intros o w' [_ H].
  destruct (json_to_vec_pretty (ss_state cand)) as [json|e] eqn:Ej.
  2: { destruct H as [-> (r & ->)]. split; [by apply kept_durable|]. done. }
  pose proof (json_from_to _ _ Ej) as Hj.
  assert ((forall x, stable w (ss_path s) -> after_crash w' (ss_path s) x ->
    x = w_files w !! ss_path s \/ x = Some json) -> durable_or_old w s w') as Hold.
  { intros Hx Hst x Hc. destruct (Hx x Hst Hc) as [->| ->]; [by left|]. right. by exists json, cand. }
  destruct o as [s'|e|].
  - destruct H as [-> [Hf Hs]]. split.
    + apply Hold. intros x _ Hx. right. rewrite <- Hf. by apply stable_after_crash.
    + split_and!; [done|done|]. split; [done|]. by exists json.
  - destruct (is_uncertain e) eqn:Eu; destruct e; try done; destruct H as [H1 H2]; split;
      try (by apply Hold); try done; by apply kept_durable.
  - split; [by apply Hold|done].
Qed.

Lemma load_scope_map_spec c s w :
  state_location (ss_path s) ->
  io_spec (load_scope_map c s) w (fun o w' => committing s w o w' (fun '(map, s') =>
    ss_path s' = ss_path s /\ loaded c w s map s' /\ persisted s' w')).
Proof.
  intros Hloc. unfold load_scope_map. apply io_spec_bind. eapply io_spec_mono.
  { apply (load_candidate_spec (ss_path s)); [done|]. apply state_file_apart, Hloc. }
  intros o1 w1 [K1 H1]. destruct o1 as [[map cand]|e|]; [|by split; [apply kept_durable|]..].
  destruct (H1 map cand eq_refl) as [Hp [Lr Lb Le Ls]].
  assert (forall h, evolves s h -> evolves cand (rev (sm_bundles map) ++ h)) as Hev
    by (intros h Hh; by apply Le, ev_clear, ev_transaction).
  apply io_spec_bind. unfold io_spec at 1. destruct (commit s cand w1) as [o2 w2] eqn:Ec. cbn.
  assert (committing s w1 o2 w2 (fun s' => ss_path s' = ss_path s /\ ss_state s' = ss_state cand /\
    persisted s' w2)) as [Hd Ho].
  { pose proof (commit_committing s cand w1 Hloc Hp (fun h Hh => ex_intro _ _ (Hev h Hh))) as H.
    unfold io_spec in H. by rewrite Ec in H. }
  assert (durable_or_old w s w2) as Hd'.
  { intros Hst x Hx. destruct (Hd (proj2 K1 Hst) x Hx) as [->|?]; [|by right].
    left. apply K1. }
  destruct o2 as [s'|e|]; [|split; [done|]; intros; by etrans; [|apply Ho]|done].
  destruct Ho as (Hp' & Hs' & Hper). split; [done|]. cbn. split_and!; [done| |done].
  constructor; [done|done| |by rewrite Hs'].
  intros h Hh. eapply ev_commit; [by apply Hev|exact Ec].
Qed.

(** C17: after a successful reload everything that is served was parsed from a
    file and admitted under the configured trust policy, every routing entry
    names a loaded bundle with that scope, each bundle passed the rollback and
    continuity checks and is part of the history the marks cover, every label
    has a committed snapshot, and the descriptor on disk is durable and is the
    state in memory. *)
Theorem reload_sound rs w rs' w' h :
  state_location (ss_path (rs_state_store rs)) -> evolves (rs_state_store rs) h ->
  reload rs w = (Done rs', w') ->
  loaded (rs_config rs) w (rs_state_store rs) (rs_scope_map rs') (rs_state_store rs') /\
  history_covered (ss_state (rs_state_store rs')) (rev (sm_bundles (rs_scope_map rs')) ++ h) /\
  persisted (rs_state_store rs') w' /\
  rs_config rs' = rs_config rs /\ rs_writer_guard rs' = rs_writer_guard rs.
Proof.
  intros Hloc Hh Hr. unfold reload in Hr. apply io_bind_Done in Hr as ([map s'] & w1 & Hl & [= <- <-]).
  pose proof (load_scope_map_spec (rs_config rs) (rs_state_store rs) w Hloc) as H.
  unfold io_spec in H. rewrite Hl in H. destruct H as [_ (_ & Hld & Hp)]. split_and!; try done.
  cbn. apply (evolves_covered s' (rev (sm_bundles map) ++ h)). by apply Hld.
Qed.

(** A reload is safe to interrupt: wherever it fails or the machine stops, a
    restart finds the old state descriptor or one that continues the recorded
    history, and an error other than "durability uncertain" means the
    descriptor was not touched; the served map is replaced only by a complete
    load. *)
Theorem reload_crash_safe rs w :
  state_location (ss_path (rs_state_store rs)) ->
  let '(o, w') := reload rs w in
  durable_or_old w (rs_state_store rs) w' /\
  match o with
  | Done rs' => after_reload rs w = rs'
  | Failed e => after_reload rs w = rs /\
      (is_uncertain e = false -> kept (ss_path (rs_state_store rs)) w w')
  | Crashed => True
  end.
Proof.
  intros Hloc. unfold after_reload. destruct (reload rs w) as [o w'] eqn:Hr. cbn.
  unfold reload, mbind, io_bind in Hr.
  pose proof (load_scope_map_spec (rs_config rs) (rs_state_store rs) w Hloc) as H. unfold io_spec in H.
  destruct (load_scope_map _ _ w) as [[[map s']|e|] w1]; cbn in Hr; injection Hr as <- <-;
    destruct H as [Hd Ho]; by split_and!.
Qed.

(** *** Startup *)

Lemma recover_default_spec c s original w :
  state_location (ss_path s) ->
  io_spec (recover_default c s original) w (fun o w' => committing s w o w' (fun '(map, s') =>
    ss_path s' = ss_path s /\ loaded c w s map s' /\ persisted s' w')).
Proof.
  intros Hloc. unfold recover_default. apply io_spec_bind, io_spec_lift.
  destruct (ps_active_bundles (ss_state s) !! "default"%string) as [p|]; cbn [ok_or];
    [|by split; [apply kept_durable|]].
  set (cand0 := clear_active_bundles (transaction s)).
  apply io_spec_bind. unfold io_spec at 1.
  destruct (load_and_verify_bundle p c w) as [o1 w1] eqn:Eb. cbn.
  pose proof (load_and_verify_reads p c w) as S1. unfold io_spec in S1. rewrite Eb in S1. cbn in S1.
  assert (kept (ss_path s) w w1) as K1 by (by apply same_files_kept).
  destruct o1 as [b|e|]; [|by split; [apply kept_durable|]..].
  apply load_and_verify_bundle_Done in Eb as [Hb _].
  apply io_spec_bind. unfold io_spec at 1. destruct (accept_bundle cand0 b w1) as [o2 w2] eqn:Ea. cbn.
  assert (w2 = w1) as -> by (by apply accept_bundle_staged in Ea as [? _]).
  destruct o2 as [s1|e|]; [|by split; [apply kept_durable|]..].
  pose proof (loading_push c w cand0 _ b w1 s1 w1 [] (loading_start c w cand0 eq_refl) Hb Ea) as Hp.
  pose proof (loading_register _ _ _ _ b default_entry Hp eq_refl) as [L1 L2 L3 L4 _ L6]. cbn in *.
  apply io_spec_bind. eapply io_spec_mono.
  { apply (snapshot_keeping (ss_path s)). rewrite L1. apply state_file_apart, Hloc. }
  intros o3 w3 [K3 H3]. pose proof (transitivity K1 K3) as K13.
  destruct o3 as [s2|e|]; [|by split; [apply kept_durable|]..].
  destruct (H3 s2 eq_refl) as (P2 & _ & A2 & _ & u & u' & Hrun).
  assert (forall h, evolves s h -> evolves s2 ([b] ++ h)) as Hev.
  { intros h Hh. eapply ev_snapshot; [|exact Hrun]. by apply L6, ev_clear, ev_transaction. }
  apply io_spec_bind. unfold io_spec at 1. destruct (commit s s2 w3) as [o4 w4] eqn:Ec. cbn.
  assert (committing s w3 o4 w4 (fun s' => ss_path s' = ss_path s /\ ss_state s' = ss_state s2 /\
    persisted s' w4)) as [Hd Ho].
  { pose proof (commit_committing s s2 w3 Hloc (eq_trans P2 L1)
      (fun h Hh => ex_intro _ _ (Hev h Hh))) as H. unfold io_spec in H. by rewrite Ec in H. }
  assert (durable_or_old w s w4) as Hd'.
  { intros Hst x Hx. destruct (Hd (proj2 K13 Hst) x Hx) as [->|?]; [left; apply K13|by right]. }
  destruct o4 as [s'|e|]; [|split; [done|]; intros; by etrans; [|apply Ho]|done].
  destruct Ho as (Hp' & Hs' & Hper). split; [done|]. cbn. split_and!; [done| |done].
  constructor; [done|done| |].
  - intros h Hh. eapply ev_commit; [by apply Hev|exact Ec].
  - rewrite Forall_forall. intros e (key & es & Hk & He)%all_entries_elem. rewrite Hs'.
    assert (e = default_entry) as ->; [|done]. by eapply register_only.
Qed.

Lemma open_store_reads p : reads_only (open_store p).
Proof.
  unfold open_store, validate_persisted. assert (forall st kv, reads_only (check_snapshot st kv)) as Hc
    by (intros; unfold check_snapshot; eauto 10 with hoike).
  eauto 20 with hoike.
Qed.

Lemma check_guard_Done c guard w u w' :
  check_guard c guard w = (Done u, w') ->
  sdl_state_dir guard = w_resolve w (st_state_db (c_storage c)) /\ same_files w w'.
Proof.
  intros H. split; [|eapply reads_Done; [|exact H]; unfold check_guard; eauto 10 with hoike].
  unfold check_guard in H. inv_io. inv_ok. rename select (bool_decide _ = true) into Hb.
  apply bool_decide_eq_true in Hb as ->. rename select (canonicalize _ w = _) into Hc.
  unfold canonicalize, syscall in Hc. destruct (w_events w) as [|[] evs]; try done; cbn in Hc;
    match type of Hc with context [if ?b then _ else _] => destruct b end; congruence.
Qed.

Lemma recovery_config_storage c s c' : recovery_config c s = Ok c' -> c_storage c' = c_storage c.
Proof. unfold recovery_config. intros H. inv_ok. done. Qed.

Lemma loaded_storage c c' w s map s' :
  c_storage c' = c_storage c -> loaded c' w s map s' -> loaded c w s map s'.
Proof.
  intros E [H1 H2 H3 H4]. constructor; try done. eapply Forall_impl; [exact H2|].
  unfold served_from. by rewrite E.
Qed.

(** A responder starts only under a writer lock on its own state directory
    and from a state file that is there; what it serves, from the configured
    files or recovered from the committed snapshots, is fully admitted, passed
    the rollback checks against that state, and is committed durably. *)
Theorem load_sound c guard w rs w' :
  state_location (state_file c) -> load c guard w = (Done rs, w') ->
  sdl_state_dir guard = w_resolve w (st_state_db (c_storage c)) /\
  exists s0 w1 json, w_files w !! state_file c = Some json /\ json_from_str json = Ok (ss_state s0) /\
    loaded c w1 s0 (rs_scope_map rs) (rs_state_store rs) /\ persisted (rs_state_store rs) w' /\
    rs_config rs = c /\ rs_writer_guard rs = guard.
Proof.
  intros Hloc H. unfold load in H.
  apply io_bind_Done in H as (u & w1 & [Hg S1]%check_guard_Done & (s0 & w2 & Ho & H)%io_bind_Done).
  split; [done|]. pose proof Ho as (json & Hf & Hj)%open_store_Done.
  assert (ss_path s0 = state_file c) as Hp by (unfold open_store in Ho; by inv_io).
  exists s0. rewrite (sf_files _ _ S1) in Hf.
  apply io_bind_Done in H as (r & w3 & Hr & ([map s'] & w4 & Hm & [= <- <-])%io_bind_Done). cbn.
  assert (exists w5, loaded c w5 s0 map s' /\ persisted s' w4) as (w5 & ? & ?);
    [|exists w5, json; by split_and!].
  assert (forall c' w5, c_storage c' = c_storage c ->
    load_scope_map c' s0 w5 = (Done (map, s'), w4) ->
    exists w5, loaded c w5 s0 map s' /\ persisted s' w4) as Hload.
  { intros c' w5 Hc Hl. exists w5. pose proof (load_scope_map_spec c' s0 w5) as Hs.
    unfold io_spec in Hs. rewrite Hl in Hs. destruct Hs as [_ (_ & ? & ?)]; [by rewrite Hp|].
    split; [by eapply loaded_storage|done]. }
  destruct r as [r|original].
  - injection Hm as ? ?. subst. unfold io_try in Hr.
    destruct (load_scope_map c s0 w2) as [[r|e|] w6] eqn:El; [|done|done].
    injection Hr as ? ?. subst. by eapply Hload.
  - case_bool_decide; [done|]. case_bool_decide.
    + exists w3. pose proof (recover_default_spec c s0 original w3) as Hs. unfold io_spec in Hs.
      rewrite Hm in Hs. destruct Hs as [_ (_ & ? & ?)]; [by rewrite Hp|done].
    + apply io_bind_Done in Hm as (rc & w6 & [Hrc%recovery_config_storage ->]%io_lift_Done & Hl).
      by eapply Hload.
Qed.
End load_props.

(** ** Witnesses *)

Definition edge_config : Config := mkConfig sample_server sample_storage [ca_defaults "alpha"] None.

Definition encoded_default : bytes :=
  match @json_to_vec_pretty ToyJson.json default_state with Ok json => json | Err _ => [] end.

(** A state directory that was initialized, a trusted CA and one bundle. *)
Definition edge_world : World :=
  set_clock [Some 150; Some 150]
    (put_file ["srv"; "bundles"; "alpha.ahu"]%string (served_file 6)
      (put_file state_path encoded_default trusting_world)).

Definition edge_guard : StateDirectoryLock :=
  mkStateDirectoryLock ["srv"; ".writer.lock"]%string ["srv"%string].

Definition empty_responder : ResponderState :=
  mkResponderState (mkScopeMap ∅ []) edge_config (mkStateStore state_path default_state false) edge_guard.

Lemma state_path_location : state_location state_path.
Proof. split; [by apply (not_tmp_path ["srv"%string])|reflexivity]. Qed.

Lemma reload_sound_witness :
  exists rs' w', @reload Toy.crates ToySeal.seal_crates ToyJson.json empty_responder edge_world =
      (Done rs', w') /\
    @loaded Toy.crates ToySeal.seal_crates ToyJson.json edge_config edge_world
      (mkStateStore state_path default_state false) (rs_scope_map rs') (rs_state_store rs').
Proof.
  destruct (is_done_inv (@reload Toy.crates ToySeal.seal_crates ToyJson.json empty_responder) edge_world)
    as (rs' & w' & Hr); [vm_compute; reflexivity|].
  exists rs', w'. split; [exact Hr|].
  apply (@reload_sound Toy.crates ToySeal.seal_crates ToyJson.json Toy.hex_spec Toy.sha256_spec
    ToyJson.json_spec empty_responder edge_world rs' w' [] state_path_location
    (@ev_start Toy.crates ToyJson.json state_path) Hr).
Defined.

Lemma reload_crash_safe_witness :
  durable_or_old (CR := Toy.crates) (JS := ToyJson.json) edge_world
    (mkStateStore state_path default_state false)
    (@reload Toy.crates ToySeal.seal_crates ToyJson.json empty_responder
       (set_events (replicate 12 Succeeds ++ [Crashes 1]) edge_world)).2.
Proof.
  pose proof (@reload_crash_safe Toy.crates ToySeal.seal_crates ToyJson.json Toy.hex_spec
    Toy.sha256_spec ToyJson.json_spec empty_responder
    (set_events (replicate 12 Succeeds ++ [Crashes 1]) edge_world) state_path_location) as H.
  destruct (reload _ _) as [o w']. exact (proj1 H).
Defined.

Lemma load_sound_witness :
  exists rs w', @load Toy.crates ToySeal.seal_crates ToyJson.json edge_config edge_guard edge_world =
      (Done rs, w') /\ persisted (JS := ToyJson.json) (rs_state_store rs) w'.
Proof.
  destruct (is_done_inv (@load Toy.crates ToySeal.seal_crates ToyJson.json edge_config edge_guard)
    edge_world) as (rs & w' & Hl); [vm_compute; reflexivity|].
  exists rs, w'. split; [exact Hl|].
  destruct (@load_sound Toy.crates ToySeal.seal_crates ToyJson.json Toy.hex_spec Toy.sha256_spec
    ToyJson.json_spec edge_config edge_guard edge_world rs w' state_path_location Hl)
    as (_ & s0 & w1 & json & _ & _ & _ & Hp & _). exact Hp.
Defined.

(** Two CAs share a scope; the first has no entry for the key. *)
Definition shared_map : ScopeMap :=
  mkScopeMap {[ ([x01], [x02]) := [ca_entry (ca_defaults "alpha") 0; ca_entry (ca_defaults "beta") 1] ]}
    [newer; served_bundle 6].
Definition shared_certid : ParsedCertId :=
  mkParsedCertId (replicate 32 x11) [x30] [x01] [x02] [x07] "2.16.840.1.101.3.4.2.1".

Lemma shared_map_routes : routes shared_map.
Proof.
  intros key es e Hk. cbn [shared_map sm_entries] in Hk. apply lookup_singleton_Some in Hk as [<- <-].
  intros [->|[->|?%not_elem_of_nil]%elem_of_cons]%elem_of_cons.
  - exists newer, (mkCaScope [x60; x86] [x01] [x02] 6 (mkResponderId ByKey [xaa]) None [x2a] Partial).
    split_and!; [reflexivity|left|reflexivity].
  - exists (served_bundle 6), (mkCaScope [x60; x86] [x01] [x02] 6 (mkResponderId ByKey [xaa]) None [x2a]
      AuthoritativeComplete).
    split; [reflexivity|]. split; [|reflexivity].
    assert (m_ca_scopes (b_manifest (served_bundle 6)) = m_ca_scopes (served_manifest 6)) as ->
      by (vm_compute; reflexivity). left.
  - done.
Qed.

Lemma lookup_first_hit_witness :
  exists r, lookup shared_map shared_certid [] = Some (Some r) /\ lr_ca_label r = "beta"%string.
Proof.
  destruct (lookup_first_hit shared_map shared_certid [] shared_map_routes) as (r & Hr & _).
  assert (option_map (option_map lr_ca_label) (lookup shared_map shared_certid []) =
    Some (Some "beta"%string)) as Hl by (vm_compute; reflexivity).
  rewrite Hr in Hl. destruct r as [r|]; [|done]. exists r. split; [exact Hr|].
  cbn in Hl. by injection Hl.
Defined.
