(* ===== verification/Install.v ===== *)
(** * Install: offline installation of an authenticated bundle
    (hoike-core/src/install.rs)

    Main results: an installation that reports success is authenticated,
    checked against rollback, committed and recoverable, whatever happened to
    the published file; one that reports a certain failure changed neither the
    descriptor nor the published file; and a crash at any point leaves an old or
    a complete new version of each. *)

From stdpp Require Import base tactics list gmap strings.
From Stdlib Require Import NArith Lia.
From S2P Require Import Prelude Crates AhuError Header Index Manifest Bundle Verify Seal.
From S2P Require Import CoreError Storage State Config Admission Router.

Record InstallResult : Type := mkInstallResult {
  ir_destination : path;
  ir_publication_warning : option string;
}.

(** What [install_bundle] has prepared when it reaches the commit. *)
Record Staged : Type := mkStaged {
  sg_destination : path;
  sg_store : StateStore;
  sg_candidate : StateStore;
}.

Section install.
Context {CR : Crates} {SC : SealCrates} {JS : Json}.

(** Everything up to the commit. *)
Definition stage_install (c : Config) (label : string) (input : bytes) (guard : StateDirectoryLock) :
    io CoreError Staged :=
  check_guard c guard ;;
  destination ← bundle_destination c label;
  b ← io_lift (map_err CoreBundle (from_bytes input));
  now ← system_time;
  authenticate_bundle b (c_storage c) now ;;
  io_lift (validate_serving_profile b) ;;
  store ← open_store (state_file c);
  io_lift (check_rollback store b) ;;
  io_lift (check_continuity store b) ;;
  candidate ← advance_from_bundle (transaction store) b;
  candidate ← snapshot candidate label b;
  mret (mkStaged destination store candidate).

(** [install_bundle]. *)
Definition install_bundle (c : Config) (label : string) (input : bytes)
    (guard : StateDirectoryLock) : io CoreError InstallResult :=
  st ← stage_install c label input guard;
  commit (sg_store st) (sg_candidate st) ;;
  published ← io_try (write_atomic (sg_destination st) input);
  mret (mkInstallResult (sg_destination st)
    (match published with
     | Ok _ => None
     | Err _ => Some "installation is committed, but publishing the configured bundle path failed"%string
     end)).
End install.

(** ** What an installation establishes *)

Section install_props.
Context {CR : Crates} {SC : SealCrates} {JS : Json}.
Context {HX : HexSpec} {SH : Sha256Spec} {JSS : JsonSpec}.
Implicit Types (c : Config) (guard : StateDirectoryLock) (st : PersistedState).

(** [b] is the input, authenticated and servable, and may follow the state [st]. *)
Record installable c (w : World) (input : bytes) (b : Bundle) st : Prop := {
  il_parsed : from_bytes input = Ok b;
  il_authenticated : exists now v, authenticated b (c_storage c) w now v;
  il_servable : servable b;
  il_rollback : check_rollback (mkStateStore (state_file c) st false) b = Ok tt;
  il_continuity : check_continuity (mkStateStore (state_file c) st false) b = Ok tt;
}.

(** The state that follows: marks advanced, one snapshot reference replaced. *)
Definition installed_state c st (label : string) (b : Bundle) (contents : bytes) : PersistedState :=
  add_active (advanced st b) label (snapshot_path (state_file c) contents).

(** What is staged for an input that may be installed. *)
Record staged c (label : string) (input : bytes) (w w' : World) (sg : Staged) : Prop := {
  sg_label : exists ca, find_ca c label = Some ca /\ sg_destination sg = ca_destination c ca;
  sg_opened : ss_path (sg_store sg) = state_file c /\ ss_staged (sg_store sg) = false;
  sg_disk : exists json, w_files w !! state_file c = Some json /\
    json_from_str json = Ok (ss_state (sg_store sg));
  sg_next : exists b contents, installable c w input b (ss_state (sg_store sg)) /\
    to_bytes b = Ok contents /\
    w_files w' !! snapshot_path (state_file c) contents = Some contents /\
    sg_candidate sg = mkStateStore (state_file c)
      (installed_state c (ss_state (sg_store sg)) label b contents) true /\
    forall h, evolves (sg_store sg) h -> evolves (sg_candidate sg) (b :: h);
}.

Lemma bundle_destination_reads c label : reads_only (bundle_destination c label).
Proof.
  unfold bundle_destination. pose proof (@canonical_reads CoreError) as Hc.
  assert (forall label mine ca, reads_only (if String.eqb (ca_label ca) label then mret tt else
    other ← canonical_or_self (ca_destination c ca);
    io_lift (ensure (negb (bool_decide (other = mine)))
      (config_error "destination is also configured for another CA")))) as Hl
    by (intros l mine ca; destruct (String.eqb (ca_label ca) l); eauto with hoike).
  eauto 20 with hoike.
Qed.

Lemma bundle_destination_from c label w d w' :
  bundle_destination c label w = (Done d, w') ->
  exists ca, find_ca c label = Some ca /\ d = ca_destination c ca.
Proof. unfold bundle_destination. intros H. inv_io. inv_ok. eauto. Qed.

Lemma snapshot_kept_all s label b w :
  io_spec (snapshot s label b) w (fun o w' => forall q, apart (ss_path s) q -> kept q w w').
Proof.
  apply io_spec_forall. intros q Hq. eapply io_spec_mono; [by apply snapshot_keeping|].
  by intros o w' [Hk _].
Qed.

Lemma snapshot_result s label b w s' w' :
  snapshot s label b w = (Done s', w') ->
  exists contents, to_bytes b = Ok contents /\
    w_files w' !! snapshot_path (ss_path s) contents = Some contents /\
    s' = with_state s (add_active (ss_state s) label (snapshot_path (ss_path s) contents)).
Proof.
  intros H. destruct (to_bytes b) as [contents|e] eqn:Eb.
  - exists contents. split; [done|].
    pose proof (snapshot_spec s label b w contents Eb (snapshot_path_not_tmp _ _)) as Hs.
    unfold io_spec in Hs. rewrite H in Hs. by apply Hs.
  - unfold snapshot in H. by rewrite Eb in H.
Qed.

(** Nothing outside the places [p] writes to is changed. *)
Definition apart_kept (p : path) (w w' : World) : Prop := forall q, apart p q -> kept q w w'.

Lemma apart_kept_read {A B} p (m : io CoreError A) (f : A -> io CoreError B) w :
  reads_only m ->
  (forall a w1, m w = (Done a, w1) -> io_spec (f a) w1 (fun _ w' => apart_kept p w1 w')) ->
  io_spec (m ≫= f) w (fun _ w' => apart_kept p w w').
Proof.
  intros Hm Hf. apply io_spec_bind. pose proof (Hm w) as Hs. unfold io_spec in Hs |- *.
  destruct (m w) as [[a|e|] w1]; cbn in *; [|by intros q _; apply same_files_kept..].
  intros q Hq. etrans; [by apply same_files_kept|]. by apply (Hf a w1 eq_refl).
Qed.

Lemma authenticate_reads b storage now : reads_only (authenticate_bundle b storage now).
Proof.
  assert (forall ps, reads_only (read_certs ps)) as Hc.
  { induction ps as [|p ps IH]; cbn; [by intros w|]. unfold read_cert. eauto 10 with hoike. }
  unfold authenticate_bundle. eauto 20 with hoike.
Qed.

Lemma stage_kept c label input guard w :
  io_spec (stage_install c label input guard) w (fun _ w' => apart_kept (state_file c) w w').
Proof.
  unfold stage_install.
  apply apart_kept_read; [unfold check_guard; eauto 10 with hoike|]. intros _ w1 _.
  apply apart_kept_read; [apply bundle_destination_reads|]. intros d w2 _.
  apply apart_kept_read; [apply reads_lift|]. intros b w3 _.
  apply apart_kept_read; [unfold system_time; eauto with hoike|]. intros now w4 _.
  apply apart_kept_read; [apply authenticate_reads|]. intros v w5 _.
  apply apart_kept_read; [apply reads_lift|]. intros _ w6 _.
  apply apart_kept_read; [apply open_store_reads|]. intros s w7 Ho.
  assert (ss_path s = state_file c) as Hp by (unfold open_store in Ho; by inv_io).
  apply apart_kept_read; [apply reads_lift|]. intros _ w8 _.
  apply apart_kept_read; [apply reads_lift|]. intros _ w9 _.
  apply io_spec_bind. unfold io_spec at 1. rewrite advance_from_bundle_staged by done. cbn.
  apply io_spec_bind. eapply io_spec_mono; [apply snapshot_kept_all|]. cbn. rewrite Hp.
  by intros [s'|e|] w10 Hk.
Qed.

Lemma installable_same c w w' input b st now v :
  same_files w w' -> from_bytes input = Ok b -> authenticated b (c_storage c) w' now v -> servable b ->
  check_rollback (mkStateStore (state_file c) st false) b = Ok tt ->
  check_continuity (mkStateStore (state_file c) st false) b = Ok tt ->
  installable c w input b st.
Proof.
  intros Hs Hb [Hv (cert & Ha & Hp & Ht & Hr) Hsc] Hse Hro Hco. constructor; try done.
  exists now, v. constructor; try done. exists cert. split_and!; try done. by eapply trusted_signer_same.
Qed.

Lemma stage_install_Done c label input guard w sg w' :
  stage_install c label input guard w = (Done sg, w') -> staged c label input w w' sg.
Proof.
  intros H. unfold stage_install in H.
  apply io_bind_Done in H as (u & w1 & [_ S1]%check_guard_Done & (d & w2 & Hd & H)%io_bind_Done).
  pose proof (transitivity S1 (reads_Done _ _ _ _ (bundle_destination_reads c label) Hd)) as S2.
  apply io_bind_Done in H as (b & w3 & [Hb%map_err_Ok ->]%io_lift_Done & (now & w4 & Ht & H)%io_bind_Done).
  apply reads_Done in Ht; [|unfold system_time; eauto with hoike].
  pose proof (transitivity S2 Ht) as S4.
  apply io_bind_Done in H as (v & w5 & [Ha S5]%authenticate_bundle_Done & H).
  pose proof (transitivity S4 S5) as S5'.
  apply io_bind_Done in H as ([] & w6 & [Hse%validate_serving_profile_Ok ->]%io_lift_Done & H).
  apply io_bind_Done in H as (s & w7 & Ho & H).
  apply io_bind_Done in H as ([] & w8 & [Hro ->]%io_lift_Done & H).
  apply io_bind_Done in H as ([] & w9 & [Hco ->]%io_lift_Done & H).
  apply io_bind_Done in H as (s1 & w10 & Hadv & (s2 & w11 & Hsnap & [= <- <-])%io_bind_Done).
  assert (s = mkStateStore (state_file c) (ss_state s) false) as Es by (unfold open_store in Ho; by inv_io).
  pose proof Ho as (json & Hf & Hj)%open_store_Done. rewrite (sf_files _ _ S5') in Hf.
  rewrite advance_from_bundle_staged in Hadv by done. injection Hadv as <- <-.
  pose proof Hsnap as (contents & Hc & Hin & Hs2)%snapshot_result.
  assert (ss_path s = state_file c /\ ss_staged s = false) as [Ep Eg] by (by rewrite Es).
  cbn in Hin, Hs2. rewrite Ep in Hin, Hs2. constructor; cbn.
  - by eapply bundle_destination_from.
  - done.
  - by exists json.
  - exists b, contents. split_and!; try done.
    + eapply installable_same; [exact S4|done|done|done|by rewrite <- Es..].
    + rewrite Hs2. unfold with_state, installed_state. cbn. by rewrite Ep.
    + intros h Hh. eapply ev_snapshot; [|exact Hsnap].
      eapply (ev_accept (transaction s) _ _ w); [by apply ev_transaction|by destruct s..|].
      by rewrite advance_from_bundle_staged.
Qed.

(** A published file is none of the files the state store manages. *)
Definition publishable c (d : path) : Prop :=
  apart (state_file c) d /\ d <> state_file c /\ is_generated d = false.

Lemma commit_frame s cand w :
  ss_path cand = ss_path s -> state_location (ss_path s) ->
  io_spec (commit s cand) w (fun _ w' =>
    forall q, ~ garbage (ss_state cand) q -> q <> ss_path s -> ~ tmp_path q -> kept q w w').
Proof.
  intros Hp [Ht Hg]. eapply io_spec_mono; [by apply commit_spec|]. by intros o w' [Hf _].
Qed.

Lemma publishable_not_garbage c st d : publishable c d -> ~ garbage st d.
Proof. intros (_ & _ & Hg) [Hg' _]. congruence. Qed.

(** What may be found at a publishable path [d] after the machine stops. *)
Definition old_or_input (w w' : World) (input : bytes) (d : path) : Prop :=
  stable w d -> forall x, after_crash w' d x -> x = w_files w !! d \/ x = Some input.

Lemma kept_old_or_input w w' input d : kept d w w' -> old_or_input w w' input d.
Proof. intros [Hf Hs] Hst x Hx. left. rewrite <- Hf. by apply stable_after_crash; [apply Hs|]. Qed.

Lemma publish_old_or_input c p input w o w' d :
  ~ tmp_path p -> publishable c d -> untouched p w w' -> replacement p input w o w' ->
  old_or_input w w' input d.
Proof.
  intros Hp Hd Hu Hr. destruct (decide (d = p)) as [->|Hne].
  - intros Hst x Hx. destruct o as [[]|e|]; cbn in Hr.
    + destruct Hr as [Hf Hs]. right. rewrite <- Hf. by apply stable_after_crash.
    + destruct e; destruct Hr as [H1 H2]; try (left; rewrite <- H1; apply stable_after_crash; tauto).
      by apply H2.
    + by apply Hr.
  - apply kept_old_or_input. apply (untouched_kept p); [done|apply Hd|done].
Qed.

(** The outcome of an installation, for the descriptor and for every path that
    could be published to. *)
Definition install_outcome c (input : bytes) (w : World) (o : outcome CoreError InstallResult)
    (w' : World) : Prop :=
  (forall st json, w_files w !! state_file c = Some json -> json_from_str json = Ok st ->
     durable_or_old w (mkStateStore (state_file c) st false) w') /\
  (forall d, publishable c d -> old_or_input w w' input d) /\
  match o with
  | Failed e => (forall d, publishable c d -> kept d w w') /\
                (is_uncertain e = false -> kept (state_file c) w w')
  | Done _ | Crashed => True
  end.

Lemma install_outcome_kept c input w e w' :
  state_location (state_file c) -> apart_kept (state_file c) w w' ->
  install_outcome c input w (Failed e) w' /\ install_outcome c input w Crashed w'.
Proof.
  intros [Ht _] Hk. assert (kept (state_file c) w w') as Hs by (by apply Hk, state_file_apart).
  assert (forall d, publishable c d -> kept d w w') as Hd by (intros d [? _]; by apply Hk).
  assert (forall o, match o with Done _ => False | _ => True end -> install_outcome c input w o w') as H;
    [|by split; apply H].
  intros [?|?|] Ho; [done|..]; (split; [intros; by apply kept_durable|]);
    (split; [intros; by apply kept_old_or_input, Hd|done]).
Qed.

(** Later writes leave a committed descriptor. *)
Lemma durable_later w s s' w1 w2 :
  ss_path s' = ss_path s -> kept (ss_path s) w1 w2 -> persisted s' w1 -> durable_or_old w s w1 ->
  durable_or_old w s w2 /\ persisted s' w2.
Proof.
  intros Hp [Hf Hs] [Hst (json & Hj & Hd)] Hold. rewrite Hp in *. split.
  - intros Hw x Hx. apply Hold; [done|]. apply stable_after_crash in Hx; [|by apply Hs].
    subst x. rewrite Hf. right; left. split; [done|]. intros _. apply Hst. by rewrite Hj.
  - unfold persisted. rewrite Hp. split; [by apply Hs|]. exists json. by rewrite Hf.
Qed.

(** What success means: the input was installable over the state on disk, the
    descriptor now names it, and its snapshot is there; without a warning the
    destination holds the input. *)
Record installed c (label : string) (input : bytes) (w : World) (res : InstallResult)
    (w' : World) : Prop := {
  is_label : exists ca, find_ca c label = Some ca /\ ir_destination res = ca_destination c ca;
  is_committed : exists st b contents json json',
    w_files w !! state_file c = Some json /\ json_from_str json = Ok st /\
    installable c w input b st /\ to_bytes b = Ok contents /\
    stable w' (state_file c) /\ w_files w' !! state_file c = Some json' /\
    json_from_str json' = Ok (installed_state c st label b contents) /\
    w_files w' !! snapshot_path (state_file c) contents = Some contents;
  is_published : ir_publication_warning res = None ->
    w_files w' !! ir_destination res = Some input /\ stable w' (ir_destination res);
}.

Lemma durable_from_kept w w1 w2 s :
  kept (ss_path s) w w1 -> durable_or_old w1 s w2 -> durable_or_old w s w2.
Proof.
  intros K Hd Hst x Hx. destruct (Hd (proj2 K Hst) x Hx) as [->|?]; [left; apply K|by right].
Qed.

Lemma old_or_input_later w w1 w2 input d :
  kept d w w1 -> old_or_input w1 w2 input d -> old_or_input w w2 input d.
Proof.
  intros K Hd Hst x Hx. destruct (Hd (proj2 K Hst) x Hx) as [->|?]; [left; apply K|by right].
Qed.

Lemma snapshot_survives c st label b contents s w w' :
  (forall q, ~ garbage (installed_state c st label b contents) q -> q <> ss_path s ->
     ~ tmp_path q -> kept q w w') ->
  ss_path s = state_file c ->
  w_files w !! snapshot_path (state_file c) contents = Some contents ->
  w_files w' !! snapshot_path (state_file c) contents = Some contents.
Proof.
  intros Hk Hp Hf. destruct (Hk (snapshot_path (state_file c) contents)) as [-> _]; [| | |done].
  - eapply (referenced_not_garbage _ label). by apply lookup_insert_eq.
  - rewrite Hp. intros E. apply (f_equal length) in E. unfold snapshot_path, generations_dir in E.
    rewrite !length_app in E. unfold parent_dir, state_file in E. rewrite removelast_last, length_app in E.
    cbn in E. lia.
  - apply snapshot_path_not_tmp.
Qed.

Lemma snapshot_not_publishable c contents : ~ publishable c (snapshot_path (state_file c) contents).
Proof. intros [[_ Hd] _]. apply Hd. unfold snapshot_path, parent_dir. by rewrite removelast_last. Qed.

(** From the commit on. *)
Lemma commit_and_publish c label input w w1 sg :
  state_location (state_file c) -> publishable c (sg_destination sg) ->
  apart_kept (state_file c) w w1 -> staged c label input w w1 sg ->
  io_spec (commit (sg_store sg) (sg_candidate sg) ;;
    published ← io_try (write_atomic (sg_destination sg) input);
    mret (mkInstallResult (sg_destination sg) (match published with
      | Ok _ => None
      | Err _ => Some "installation is committed, but publishing the configured bundle path failed"%string
      end))) w1 (fun o w' => install_outcome c input w o w' /\
        forall res, o = Done res -> installed c label input w res w').
Proof.
  intros Hloc Hpub K1 [Hca [Ep Eg] (json & Hf & Hj) (b & contents & Hin & Hc & Hsn & Ecand & Hev)].
  set (s := sg_store sg) in *. set (d := sg_destination sg) in *.
  assert (s = mkStateStore (state_file c) (ss_state s) false) as Es.
  { destruct s. cbn in *. by subst. }
  assert (kept (ss_path s) w w1) as Ks by (rewrite Ep; by apply K1, state_file_apart, Hloc).
  assert (ss_path (sg_candidate sg) = ss_path s) as Hcp by (by rewrite Ecand).
  rewrite <- Ep in Hloc. apply io_spec_bind. unfold io_spec at 1.
  destruct (commit s (sg_candidate sg) w1) as [o2 w2] eqn:Ec. cbn.
  pose proof (commit_committing s (sg_candidate sg) w1 Hloc Hcp
    (fun h Hh => ex_intro _ [b] (Hev h Hh))) as Hcm. unfold io_spec in Hcm. rewrite Ec in Hcm.
  destruct Hcm as [Hd2 Ho2]. cbn in Hd2, Ho2.
  pose proof (commit_frame s (sg_candidate sg) w1 Hcp Hloc) as Hfr. unfold io_spec in Hfr.
  rewrite Ec in Hfr. cbn in Hfr.
  assert (forall q, publishable c q -> kept q w w2) as Kpub.
  { intros q Hq. etrans; [by apply K1, Hq|]. apply Hfr; [by eapply publishable_not_garbage|..].
    - rewrite Ep. apply Hq.
    - apply Hq. }
  pose proof (durable_from_kept _ _ _ _ Ks Hd2) as Hd.
  assert (forall st json', w_files w !! state_file c = Some json' -> json_from_str json' = Ok st ->
    mkStateStore (state_file c) st false = s) as Hst by (intros; rewrite Es; f_equal; congruence).
  destruct o2 as [s2|e|].
  2: { split; [|done]. split; [intros st json' H1 H2; by rewrite (Hst st json')|].
       split; [intros; by apply kept_old_or_input, Kpub|]. split; [done|]. intros He.
       etrans; [|rewrite <- Ep; by apply Ho2]. by rewrite <- Ep. }
  2: { split; [|done]. split; [intros st json' H1 H2; by rewrite (Hst st json')|].
       split; [intros; by apply kept_old_or_input, Kpub|done]. }
  destruct Ho2 as (Hp2 & Hs2 & Hper). apply io_spec_bind, io_spec_try.
  eapply io_spec_mono; [apply write_atomic_spec, Hpub|]. intros o3 w3 [Hu Hr].
  assert (kept (ss_path s) w2 w3) as K3.
  { apply (untouched_kept d); [rewrite Ep; intros E; by apply Hpub|apply Hloc|done]. }
  destruct (durable_later w s s2 w2 w3 Hp2 K3 Hper Hd) as [Hd3 [Hst3 (json' & Hf3 & Hj3)]].
  assert (install_outcome c input w Crashed w3) as Hout.
  { split; [intros st js H1 H2; by rewrite (Hst st js)|]. split; [|done]. intros q Hq.
    eapply old_or_input_later; [by apply Kpub|]. by eapply (publish_old_or_input c d); [apply Hpub|..]. }
  rewrite Hp2, Ep in Hst3, Hf3. rewrite Hs2, Ecand in Hj3. cbn in Hj3.
  assert (w_files w3 !! snapshot_path (state_file c) contents = Some contents) as Hsn3.
  { rewrite Ecand in Hfr. pose proof (snapshot_survives _ _ _ _ _ _ _ _ Hfr Ep Hsn) as Hsn2.
    rewrite <- Hsn2. apply Hu; [|apply snapshot_path_not_tmp].
    intros <-. by eapply snapshot_not_publishable. }
  assert (forall wn, (wn = None -> w_files w3 !! d = Some input /\ stable w3 d) ->
    install_outcome c input w (Done (mkInstallResult d wn)) w3 /\ forall res,
      Done (E := CoreError) (mkInstallResult d wn) = Done res -> installed c label input w res w3) as Hfin.
  { intros wn Hwn. split; [exact Hout|]. intros res [= <-]. constructor; cbn; [done| |done].
    exists (ss_state s), b, contents, json, json'. by split_and!. }
  destruct o3 as [[]|e|]; [apply Hfin; intros _; apply Hr|by apply Hfin|by split].
Qed.

Lemma install_spec c label input guard w :
  state_location (state_file c) ->
  (forall ca, find_ca c label = Some ca -> publishable c (ca_destination c ca)) ->
  io_spec (install_bundle c label input guard) w (fun o w' => install_outcome c input w o w' /\
    forall res, o = Done res -> installed c label input w res w').
Proof.
  intros Hloc Hpub. unfold install_bundle. apply io_spec_bind.
  pose proof (stage_kept c label input guard w) as K. unfold io_spec in K |- *.
  destruct (stage_install c label input guard w) as [o1 w1] eqn:E1. cbn in *.
  pose proof (fun e => install_outcome_kept c input w e w1 Hloc K) as Hk.
  destruct o1 as [sg|e|]; [|split; [apply (Hk e)|done]|split; [apply (Hk EmptyRequest)|done]].
  apply stage_install_Done in E1 as Hst. apply (commit_and_publish c label input w w1 sg); try done.
  destruct Hst as [(ca & Hca & ->) _ _ _]. by apply Hpub.
Qed.

(** C2: an installation that reports success, with or without a publication
    warning, is real: the input parsed, its seal was authenticated whatever the
    demo flag says, it is servable and passed the rollback and continuity
    checks against the state on disk; the durable descriptor now records its
    marks and, for this label only, a snapshot that holds the bundle; and if no
    warning is given the destination configured for the label durably holds
    the input. *)
Theorem install_success c label input guard w res w' :
  state_location (state_file c) ->
  (forall ca, find_ca c label = Some ca -> publishable c (ca_destination c ca)) ->
  install_bundle c label input guard w = (Done res, w') ->
  installed c label input w res w'.
Proof.
  intros Hloc Hpub Hrun. pose proof (install_spec c label input guard w Hloc Hpub) as H.
  unfold io_spec in H. rewrite Hrun in H. by apply H.
Qed.

(** C13: an installation never half-happens.  An error leaves every published
    file as it was and, unless it says that durability is uncertain, the
    descriptor too; and if the machine stops at any point, a restart finds the
    old descriptor or one that continues its history, and at every published
    path the old contents or the complete input. *)
Theorem install_all_or_nothing c label input guard w :
  state_location (state_file c) ->
  (forall ca, find_ca c label = Some ca -> publishable c (ca_destination c ca)) ->
  let '(o, w') := install_bundle c label input guard w in install_outcome c input w o w'.
Proof.
  intros Hloc Hpub. pose proof (install_spec c label input guard w Hloc Hpub) as H.
  unfold io_spec in H. by destruct (install_bundle c label input guard w); apply H.
Qed.
End install_props.

(** ** Witnesses *)

Lemma alpha_publishable ca : find_ca edge_config "alpha" = Some ca ->
  publishable edge_config (ca_destination edge_config ca).
Proof.
  intros [= <-]. split; [|by split].
  split; [by apply (not_tmp_path ["srv"; "bundles"]%string)|done].
Qed.

(** The input is not yet published in this world. *)
Definition import_world : World :=
  set_clock [Some 150%N] (put_file state_path encoded_default trusting_world).

Lemma install_success_witness :
  exists res w', @install_bundle Toy.crates ToySeal.seal_crates ToyJson.json edge_config "alpha"
      (served_file 6) edge_guard import_world = (Done res, w') /\
    @installed Toy.crates ToySeal.seal_crates ToyJson.json edge_config "alpha" (served_file 6)
      import_world res w'.
Proof.
  destruct (is_done_inv (@install_bundle Toy.crates ToySeal.seal_crates ToyJson.json edge_config "alpha"
    (served_file 6) edge_guard) import_world) as (res & w' & Hr); [vm_compute; reflexivity|].
  exists res, w'. split; [exact Hr|].
  apply (@install_success Toy.crates ToySeal.seal_crates ToyJson.json Toy.hex_spec Toy.sha256_spec
    ToyJson.json_spec edge_config "alpha" (served_file 6) edge_guard import_world res w'
    state_path_location alpha_publishable Hr).
Defined.

Lemma install_all_or_nothing_witness :
  @install_outcome Toy.crates ToyJson.json edge_config (served_file 6)
    (set_events (replicate 20 Succeeds ++ [Crashes 1]) import_world) Crashed
    (@install_bundle Toy.crates ToySeal.seal_crates ToyJson.json edge_config "alpha" (served_file 6)
       edge_guard (set_events (replicate 20 Succeeds ++ [Crashes 1]) import_world)).2.
Proof.
  pose proof (@install_all_or_nothing Toy.crates ToySeal.seal_crates ToyJson.json Toy.hex_spec
    Toy.sha256_spec ToyJson.json_spec edge_config "alpha" (served_file 6) edge_guard
    (set_events (replicate 20 Succeeds ++ [Crashes 1]) import_world)
    state_path_location alpha_publishable) as H.
  destruct (install_bundle _ _ _ _ _) as [o w']. destruct H as (H1 & H2 & _).
  split; [exact H1|]. split; [exact H2|exact I].
Defined.
