(* ===== verification/Calendar.v ===== *)
(** * Calendar: the dates of the HTTP headers (hoike-server/src/handlers.rs)

    Formatting of a time in seconds as an HTTP date.  Main results: the
    conversion of days to dates is the Gregorian calendar, and formatting never
    indexes out of range. *)

From stdpp Require Import base tactics list strings pretty.
From Stdlib Require Import NArith Lia.
From S2P Require Import Prelude.
Local Open Scope N_scope.

(** ** Dates *)

Definition days_to_ymd (days : N) : N * N * N :=
  let z := days + 719468 in
  let era := z / 146097 in
  let doe := z - era * 146097 in
  let yoe := (doe - doe / 1460 + doe / 36524 - doe / 146096) / 365 in
  let y := yoe + era * 400 in
  let doy := doe - (365 * yoe + yoe / 4 - yoe / 100) in
  let mp := (5 * doy + 2) / 153 in
  let d := doy - (153 * mp + 2) / 5 + 1 in
  let m := if mp <? 10 then mp + 3 else mp - 9 in
  let y := if m <=? 2 then y + 1 else y in
  (y, m, d).

Definition weekdays : list string := ["Thu"; "Fri"; "Sat"; "Sun"; "Mon"; "Tue"; "Wed"]%string.
Definition months : list string :=
  ["Jan"; "Feb"; "Mar"; "Apr"; "May"; "Jun"; "Jul"; "Aug"; "Sep"; "Oct"; "Nov"; "Dec"]%string.

(** [{:02}]. *)
Definition pad2 (n : N) : string := if n <? 10 then "0" +:+ pretty n else pretty n.

(** [httpdate_format] of a time in seconds; [None] is a panic, an index out of
    range. *)
Definition httpdate_format (secs : N) : option string :=
  let days := secs / 86400 in
  let time_of_day := secs mod 86400 in
  let hours := time_of_day / 3600 in
  let minutes := time_of_day mod 3600 / 60 in
  let seconds := time_of_day mod 60 in
  weekday ← weekdays !! N.to_nat (days mod 7);
  let '(year, month, day) := days_to_ymd days in
  month_name ← months !! N.to_nat (month - 1);
  Some (weekday +:+ ", " +:+ pad2 day +:+ " " +:+ month_name +:+ " " +:+ pretty year +:+ " " +:+
        pad2 hours +:+ ":" +:+ pad2 minutes +:+ ":" +:+ pad2 seconds +:+ " GMT").

(** [UNIX_EPOCH.checked_add(Duration::from_secs(secs))]: seconds are an [i64]. *)
Definition time_representable (secs : N) : bool := secs <? 2 ^ 63.

Definition date_header (name : string) (secs : N) : option (list (string * string)) :=
  if time_representable secs then v ← httpdate_format secs; Some [(name, v)] else Some [].

(** ** The calendar *)

Definition leap (y : N) : bool := (y mod 4 =? 0) && (negb (y mod 100 =? 0) || (y mod 400 =? 0)).

Definition month_length (y m : N) : N :=
  if m =? 2 then (if leap y then 29 else 28)
  else if (m =? 4) || (m =? 6) || (m =? 9) || (m =? 11) then 30 else 31.

(** The day after. *)
Definition next_day (ymd : N * N * N) : N * N * N :=
  let '(y, m, d) := ymd in
  if d <? month_length y m then (y, m, d + 1)
  else if m <? 12 then (y, m + 1, 1) else (y + 1, 1, 1).

(** [days_to_ymd] within an era of 400 years that starts on March 1. *)
Definition era_ymd (doe : N) : N * N * N :=
  let yoe := (doe - doe / 1460 + doe / 36524 - doe / 146096) / 365 in
  let doy := doe - (365 * yoe + yoe / 4 - yoe / 100) in
  let mp := (5 * doy + 2) / 153 in
  let d := doy - (153 * mp + 2) / 5 + 1 in
  let m := if mp <? 10 then mp + 3 else mp - 9 in
  (if m <=? 2 then yoe + 1 else yoe, m, d).

Definition shift_years (k : N) (ymd : N * N * N) : N * N * N :=
  let '(y, m, d) := ymd in (y + 400 * k, m, d).

Lemma days_to_ymd_era n :
  days_to_ymd n = shift_years ((n + 719468) / 146097) (era_ymd ((n + 719468) mod 146097)).
Proof.
  unfold days_to_ymd. rewrite N.Div0.mod_eq, (N.mul_comm 146097).
  unfold era_ymd, shift_years. set (z := n + 719468). set (era := z / 146097).
  set (doe := z - era * 146097). cbv zeta.
  set (yoe := (doe - doe / 1460 + doe / 36524 - doe / 146096) / 365).
  set (m := if _ <? 10 then _ else _). destruct (m <=? 2); f_equal; f_equal; lia.
Qed.

Lemma leap_shift y k : leap (y + 400 * k) = leap y.
Proof.
  unfold leap. assert (forall q r, 400 = r * q -> r <> 0 -> (y + 400 * k) mod r = y mod r) as H.
  { intros q r -> Hr. rewrite <- N.mul_assoc, (N.mul_comm r), N.Div0.mod_add. done. }
  by rewrite (H 100 4), (H 4 100), (H 1 400).
Qed.

Lemma next_day_shift k ymd : next_day (shift_years k ymd) = shift_years k (next_day ymd).
Proof.
  destruct ymd as [[y m] d]. unfold next_day, shift_years, month_length. rewrite leap_shift.
  repeat case_match; f_equal; f_equal; lia.
Qed.

(** The years of an era run from March to February; [year_start] is the day of
    the era on which one begins. *)
Definition year_of_era (doe : N) : N := (doe - doe / 1460 + doe / 36524 - doe / 146096) / 365.
Definition year_start (y : N) : N := 365 * y + y / 4 - y / 100 + y / 400.

(** Month and day of the [doy]-th day of such a year. *)
Definition march_md (doy : N) : N * N :=
  let mp := (5 * doy + 2) / 153 in
  (if mp <? 10 then mp + 3 else mp - 9, doy - (153 * mp + 2) / 5 + 1).

Definition with_year (y : N) (md : N * N) : N * N * N :=
  (if md.1 <=? 2 then y + 1 else y, md.1, md.2).

Ltac div_lia := zify; Z.to_euclidean_division_equations; lia.

Lemma year_of_era_bounds doe : doe < 146097 ->
  year_start (year_of_era doe) <= doe < year_start (year_of_era doe + 1) /\ year_of_era doe < 400.
Proof.
  intros Hd. unfold year_of_era, year_start.
  split; div_lia.
Qed.

Lemma year_start_mono y y' : y <= y' -> year_start y <= year_start y'.
Proof. intros. unfold year_start. div_lia. Qed.

Lemma year_of_era_unique doe y : doe < 146097 ->
  year_start y <= doe < year_start (y + 1) -> year_of_era doe = y.
Proof.
  intros Hd [H1 H2]. destruct (year_of_era_bounds doe Hd) as [[H3 H4] _].
  destruct (N.lt_trichotomy (year_of_era doe) y) as [Hlt|[?|Hlt]]; [|done|].
  - pose proof (year_start_mono (year_of_era doe + 1) y). lia.
  - pose proof (year_start_mono (y + 1) (year_of_era doe)). lia.
Qed.

Lemma year_length y :
  year_start (y + 1) = year_start y + (if leap (y + 1) then 366 else 365).
Proof.
  unfold leap, year_start.
  destruct (N.eqb_spec ((y + 1) mod 4) 0), (N.eqb_spec ((y + 1) mod 100) 0),
    (N.eqb_spec ((y + 1) mod 400) 0); cbn;
    div_lia.
Qed.

Lemma era_ymd_year doe : doe < 146097 ->
  era_ymd doe = with_year (year_of_era doe) (march_md (doe - year_start (year_of_era doe))).
Proof.
  intros Hd. destruct (year_of_era_bounds doe Hd) as [_ Hy].
  unfold era_ymd. fold (year_of_era doe). unfold year_start, with_year, march_md.
  rewrite (N.div_small (year_of_era doe) 400), N.add_0_r by done. done.
Qed.

Definition march_step (lp : bool) (md md' : N * N) : bool :=
  let last := if md.1 =? 2 then (if lp then 29 else 28) else month_length 1 md.1 in
  (1 <=? md.1) && (md.1 <=? 12) &&
  if md.2 <? last then (md'.1 =? md.1) && (md'.2 =? md.2 + 1)
  else negb (md.1 =? 2) && (md'.1 =? if md.1 <? 12 then md.1 + 1 else 1) && (md'.2 =? 1).

Lemma march_steps (lp : bool) doy : doy < (if lp then 365 else 364) ->
  march_step lp (march_md doy) (march_md (doy + 1)) = true.
Proof.
  intros Hd.
  assert (forallb (fun i => march_step lp (march_md (N.of_nat i)) (march_md (N.of_nat i + 1)))
    (seq 0 (if lp then 365 else 364)) = true) as H by (destruct lp; vm_compute; reflexivity).
  rewrite forallb_forall in H. specialize (H (N.to_nat doy)). rewrite N2Nat.id in H.
  apply H, in_seq. destruct lp; lia.
Qed.

Lemma month_length_leap y m :
  month_length y m = if m =? 2 then (if leap y then 29 else 28) else month_length 1 m.
Proof. unfold month_length. by destruct (m =? 2). Qed.

(** Within a year, and over its end. *)
Lemma next_day_in_year y doy : doy < (if leap (y + 1) then 365 else 364) ->
  next_day (with_year y (march_md doy)) = with_year y (march_md (doy + 1)) /\
  1 <= (march_md doy).1 <= 12.
Proof.
  intros Hd. pose proof (march_steps _ _ Hd) as H. revert H.
  destruct (march_md doy) as [m d], (march_md (doy + 1)) as [m' d'].
  unfold march_step, with_year, next_day. cbn [fst snd].
  rewrite (month_length_leap (if m <=? 2 then y + 1 else y) m), !andb_true_iff, !N.leb_le.
  intros [Hm H]. split; [|done]. revert H.
  destruct (N.eqb_spec m 2) as [->|Hm2].
  - change (2 <=? 2) with true. cbv iota. destruct (d <? _); [|done].
    rewrite andb_true_iff, !N.eqb_eq. by intros [-> ->].
  - destruct (d <? month_length 1 m).
    + rewrite andb_true_iff, !N.eqb_eq. by intros [-> ->].
    + cbn [negb]. rewrite andb_true_l, andb_true_iff, !N.eqb_eq. intros [-> ->].
      destruct (N.ltb_spec m 12), (N.leb_spec m 2); try lia.
      * by replace m with 1 by lia.
      * destruct (N.leb_spec (m + 1) 2); [lia|done].
      * replace m with 12 by lia. done.
Qed.

Lemma next_day_of_year y doy : doy = (if leap (y + 1) then 365 else 364) ->
  next_day (with_year y (march_md doy)) = with_year (y + 1) (march_md 0) /\
  1 <= (march_md doy).1 <= 12.
Proof.
  intros ->. unfold with_year, next_day. destruct (leap (y + 1)) eqn:E.
  - change (march_md 365) with (2, 29). cbn [fst snd]. rewrite month_length_leap. cbn. rewrite E.
    split; [done|lia].
  - change (march_md 364) with (2, 28). cbn [fst snd]. rewrite month_length_leap. cbn. rewrite E.
    split; [done|lia].
Qed.

(** The last day of the era is followed by the first day of the next one. *)
Lemma era_days doe : doe < 146097 ->
  next_day (era_ymd doe) =
    (if doe =? 146096 then shift_years 1 (era_ymd 0) else era_ymd (doe + 1)) /\
  1 <= (era_ymd doe).1.2 <= 12.
Proof.
  intros Hd. destruct (year_of_era_bounds doe Hd) as [[Hs He] Hy]. rewrite (era_ymd_year doe Hd).
  set (y := year_of_era doe) in *. rewrite (year_length y) in He.
  destruct (N.ltb_spec (doe + 1) (year_start (y + 1))) as [Hin|Hin]; rewrite (year_length y) in Hin.
  - destruct (next_day_in_year y (doe - year_start y)) as [-> ?]; [case_match; lia|]. split; [|done].
    assert (year_start (y + 1) <= 146097) as Hend.
    { pose proof (year_start_mono (y + 1) 400). change (year_start 400) with 146097 in *. lia. }
    rewrite (year_length y) in Hend.
    destruct (N.eqb_spec doe 146096); [lia|].
    rewrite (era_ymd_year (doe + 1)) by lia. rewrite (year_of_era_unique (doe + 1) y);
      [|lia|rewrite (year_length y); lia].
    do 2 f_equal. lia.
  - destruct (next_day_of_year y (doe - year_start y)) as [-> ?]; [case_match; lia|]. split; [|done].
    assert (doe + 1 = year_start (y + 1)) as Hnext by (rewrite (year_length y); lia).
    destruct (N.eqb_spec doe 146096) as [->|Hne].
    + assert (y = 399) as -> by (by vm_compute). done.
    + rewrite (era_ymd_year (doe + 1)) by lia. rewrite (year_of_era_unique (doe + 1) (y + 1)); [|lia|].
      * by rewrite Hnext, N.sub_diag.
      * rewrite Hnext, (year_length (y + 1)). clear. split; [done|].
        apply N.lt_add_pos_r. by destruct (leap _).
Qed.

Lemma days_to_ymd_next n : days_to_ymd (n + 1) = next_day (days_to_ymd n).
Proof.
  rewrite !days_to_ymd_era, next_day_shift. set (z := n + 719468).
  replace (n + 1 + 719468) with (z + 1) by lia.
  assert (z mod 146097 < 146097) as Hlt by (by apply N.mod_lt).
  destruct (era_days _ Hlt) as [Hn _]. rewrite Hn.
  pose proof (N.div_mod z 146097) as Hdm. destruct (N.eqb_spec (z mod 146097) 146096) as [E6|E6].
  - assert ((z + 1) / 146097 = z / 146097 + 1 /\ (z + 1) mod 146097 = 0) as [-> ->].
    { assert (z + 1 = 146097 * (z / 146097 + 1)) as -> by lia.
      rewrite N.mul_comm. split; [by apply N.div_mul|by apply N.Div0.mod_mul]. }
    unfold shift_years. destruct (era_ymd 0) as [[? ?] ?]. f_equal. f_equal. lia.
  - assert ((z + 1) / 146097 = z / 146097 /\ (z + 1) mod 146097 = z mod 146097 + 1) as [-> ->]; [|done].
    assert (z + 1 = 146097 * (z / 146097) + (z mod 146097 + 1)) as Hz by lia.
    split; symmetry; [eapply N.div_unique; [|exact Hz]|eapply N.mod_unique; [|exact Hz]]; lia.
Qed.

Lemma days_to_ymd_month n : 1 <= (days_to_ymd n).1.2 <= 12.
Proof.
  rewrite days_to_ymd_era. set (z := n + 719468).
  assert (z mod 146097 < 146097) as Hlt by (by apply N.mod_lt).
  destruct (era_days _ Hlt) as [_ Hm]. by destruct (era_ymd (z mod 146097)) as [[y m] d].
Qed.

(** The dates in the headers follow the civil calendar: day 0 is 1 January
    1970, and every day is followed by the next day of the Gregorian calendar,
    over month ends, leap years and centuries, without end. *)
Theorem days_to_ymd_calendar :
  days_to_ymd 0 = (1970, 1, 1) /\ forall n, days_to_ymd (n + 1) = next_day (days_to_ymd n).
Proof. split; [reflexivity|apply days_to_ymd_next]. Qed.

Lemma httpdate_format_total secs : is_Some (httpdate_format secs).
Proof.
  unfold httpdate_format.
  assert (is_Some (weekdays !! N.to_nat (secs / 86400 mod 7))) as [wd ->].
  { apply lookup_lt_is_Some. change (length weekdays) with (N.to_nat 7).
    pose proof (N.mod_lt (secs / 86400) 7). lia. }
  cbn [mbind option_bind]. pose proof (days_to_ymd_month (secs / 86400)) as Hm.
  destruct (days_to_ymd (secs / 86400)) as [[y m] d]. cbn [fst snd] in Hm.
  assert (is_Some (months !! N.to_nat (m - 1))) as [mn ->]; [|by eexists].
  apply lookup_lt_is_Some. change (length months) with (N.to_nat 12). lia.
Qed.

Lemma date_header_total name secs : is_Some (date_header name secs).
Proof.
  unfold date_header. destruct (time_representable secs); [|done].
  destruct (httpdate_format_total secs) as [v ->]. by eexists.
Qed.
