(* ===== verification/SignError.v ===== *)
(** * SignError: the error type of the crate hoike-sign (hoike-sign/src/error.rs) *)

From stdpp Require Import base strings.
From S2P Require Import Prelude AhuError CoreError.

(** The variants of [SignError].  Variants whose name another type of the
    development has are prefixed. *)
Inductive SignError : Type :=
| Der (detail : string)
| OcspBuilder (detail : string)
| Signing (detail : string)
| CrlParse (detail : string)
| SignBundle (e : AhuError)
| SignPkcs11 (detail : string)
| KeyLoad (detail : string)
| SignSeal (detail : string)
| SignVerify (detail : string)
| NoCert
| Ldap (detail : string)
| SignConfig (detail : string)
| SignIo (e : IoError).

(** [pub type Result<T> = std::result::Result<T, SignError>]. *)
Abbreviation sign_result := (result SignError).
