(* ===== verification/Times.v ===== *)
(** * Times: calendar dates of OCSP responses (hoike-sign/src/generate.rs)

    The conversions between seconds since the epoch and the date type of the
    crate [der], whose constructor is a parameter.  Main results: the two
    conversions are inverse up to the end of the year 9999, where the date type
    ends, and what the truncation of the year does after it. *)

From stdpp Require Import base tactics list strings.
From Stdlib Require Import NArith Lia.
From S2P Require Import Prelude AhuError SignError Calendar.
Local Open Scope N_scope.

(** ** The date type *)

(** [der::DateTime], by its accessors. *)
Record DateTime : Type := mkDateTime {
  dt_year : N;
  dt_month : N;
  dt_day : N;
  dt_hour : N;
  dt_minutes : N;
  dt_seconds : N;
}.
#[export] Instance DateTime_eq_dec : EqDecision DateTime.
Proof. solve_decision. Defined.

(** The dates of the type: the civil calendar from 1970 to 9999. *)
Definition date_ok (y m d : N) : Prop := 1 <= m <= 12 /\ 1 <= d <= month_length y m.
Record DateTime_wf (dt : DateTime) : Prop := {
  dtw_year : 1970 <= dt_year dt <= 9999;
  dtw_date : date_ok (dt_year dt) (dt_month dt) (dt_day dt);
  dtw_hour : dt_hour dt < 24;
  dtw_minutes : dt_minutes dt < 60;
  dtw_seconds : dt_seconds dt < 60;
}.

Class DerTime := {
  (** [DateTime::new]: year, month, day, hour, minutes, seconds *)
  datetime_new : N -> N -> N -> N -> N -> N -> result string DateTime;
}.

(** The constructor accepts the dates of the type and nothing else. *)
Class DerTimeSpec (DT : DerTime) : Prop := {
  datetime_new_wf y m d h mi s dt :
    datetime_new y m d h mi s = Ok dt -> dt = mkDateTime y m d h mi s /\ DateTime_wf dt;
  datetime_new_ok y m d h mi s :
    DateTime_wf (mkDateTime y m d h mi s) ->
    datetime_new y m d h mi s = Ok (mkDateTime y m d h mi s);
}.

(** ** The conversions *)

(** [a..b]. *)
Definition range (a b : N) : list N := (fun i => a + N.of_nat i) <$> seq 0 (N.to_nat (b - a)).

Definition mdays : list N := [0; 31; 28; 31; 30; 31; 30; 31; 31; 30; 31; 30; 31].

(** The first loop of [datetime_to_epoch]. *)
Definition days_of_years (year : N) : N :=
  fold_left (fun days y => days + (if leap y then 366 else 365)) (range 1970 year) 0.

(** The second loop.  The month of a [DateTime] is at most 12, so the index is
    in range. *)
Definition days_of_months (year month : N) (days : N) : N :=
  fold_left (fun days m =>
    let days := days + mdays !!! N.to_nat m in
    if (m =? 2) && leap year then days + 1 else days) (range 1 month) days.

(** The day of a [DateTime] is at least 1. *)
Definition days_of_date (year month day : N) : N :=
  days_of_months year month (days_of_years year) + (day - 1).

Definition datetime_to_epoch (dt : DateTime) : N :=
  days_of_date (dt_year dt) (dt_month dt) (dt_day dt) * 86400 +
  dt_hour dt * 3600 + dt_minutes dt * 60 + dt_seconds dt.

Definition as_u8 (n : N) : N := n mod 256.
Definition as_u16 (n : N) : N := n mod u16_lim.

Definition epoch_to_datetime {DT : DerTime} (secs : N) : sign_result DateTime :=
  let days := secs / 86400 in
  let time_of_day := secs mod 86400 in
  let hours := as_u8 (time_of_day / 3600) in
  let minutes := as_u8 (time_of_day mod 3600 / 60) in
  let seconds := as_u8 (time_of_day mod 60) in
  let '(year, month, day) := days_to_ymd days in
  map_err Der (datetime_new (as_u16 year) (as_u8 month) (as_u8 day) hours minutes seconds).

(** [ocsp_time]: [OcspGeneralizedTime] wraps a [DateTime]. *)
Definition ocsp_time {DT : DerTime} (epoch_secs : N) : sign_result DateTime :=
  epoch_to_datetime epoch_secs.

(** ** Counting days *)

Lemma range_nil a b : b <= a -> range a b = [].
Proof. intros. unfold range. by replace (N.to_nat (b - a)) with 0%nat by lia. Qed.

Lemma range_snoc a b : a <= b -> range a (b + 1) = range a b ++ [b].
Proof.
  intros. unfold range. replace (N.to_nat (b + 1 - a)) with (S (N.to_nat (b - a))) by lia.
  rewrite seq_S, fmap_app, Nat.add_0_l. cbn [fmap list_fmap]. do 2 f_equal. lia.
Qed.

Lemma days_of_years_next y : 1970 <= y ->
  days_of_years (y + 1) = days_of_years y + (if leap y then 366 else 365).
Proof. intros. unfold days_of_years. rewrite range_snoc by done. by rewrite fold_left_app. Qed.

Lemma days_of_months_next y m n : 1 <= m <= 12 ->
  days_of_months y (m + 1) n = days_of_months y m n + month_length y m.
Proof.
  intros Hm. unfold days_of_months. rewrite range_snoc by lia. rewrite fold_left_app. cbn [fold_left].
  generalize (fold_left (fun days m =>
    let days := days + mdays !!! N.to_nat m in if (m =? 2) && leap y then days + 1 else days)
    (range 1 m) n). intros k.
  assert (m ∈ range 1 13) as Hin.
  { apply list_elem_of_fmap. exists (N.to_nat (m - 1)). split; [lia|]. apply elem_of_seq. lia. }
  change (range 1 13) with [1; 2; 3; 4; 5; 6; 7; 8; 9; 10; 11; 12] in Hin.
  rewrite !elem_of_cons, elem_of_nil in Hin. unfold month_length.
  destruct_or? Hin; subst; try done; destruct (leap y); vm_compute (_ !!! _); cbn; lia.
Qed.

Lemma days_of_months_shift y m n k : days_of_months y m (n + k) = days_of_months y m n + k.
Proof.
  unfold days_of_months. revert n. induction (range 1 m) as [|x l IH]; intros n; [done|].
  cbn [fold_left]. rewrite <- IH. f_equal. destruct ((x =? 2) && leap y); lia.
Qed.

(** The loop over all twelve months counts the year. *)
Lemma days_of_months_year y n : days_of_months y 13 n = n + (if leap y then 366 else 365).
Proof.
  do 12 match goal with
  | |- context [days_of_months y ?m n] =>
      let k := eval vm_compute in (m - 1) in
      change (days_of_months y m n) with (days_of_months y (k + 1) n);
      rewrite (days_of_months_next y k n) by lia
  end.
  change (days_of_months y 1 n) with n. unfold month_length. cbn. destruct (leap y); lia.
Qed.

Lemma next_day_counts y m d : 1970 <= y -> date_ok y m d ->
  let '(y', m', d') := next_day (y, m, d) in
  1970 <= y' /\ date_ok y' m' d' /\ days_of_date y' m' d' = days_of_date y m d + 1.
Proof.
  intros Hy [Hm Hd]. unfold next_day, date_ok, days_of_date.
  assert (forall y m, 28 <= month_length y m) as Hml
    by (intros; unfold month_length; repeat case_match; lia).
  destruct (N.ltb_spec d (month_length y m)); [split_and!; lia|].
  destruct (N.ltb_spec m 12).
  - pose proof (Hml y (m + 1)). rewrite days_of_months_next by lia. split_and!; lia.
  - assert (m = 12) as -> by lia. pose proof (Hml (y + 1) 1). split_and!; try lia.
    pose proof (days_of_months_next y 12 (days_of_years y) Hm) as Hn. change (12 + 1) with 13 in Hn.
    rewrite days_of_months_year in Hn. rewrite days_of_years_next by done.
    change (days_of_months (y + 1) 1 ?n) with n. lia.
Qed.

(** The dates of the calendar, and their numbers. *)
Lemma days_to_ymd_counts n :
  let '(y, m, d) := days_to_ymd n in
  1970 <= y /\ date_ok y m d /\ days_of_date y m d = n.
Proof.
  induction n as [|n IH] using N.peano_ind; [vm_compute; repeat split; discriminate|].
  rewrite <- N.add_1_r, days_to_ymd_next. destruct (days_to_ymd n) as [[y m] d].
  destruct IH as (Hy & Hd & <-). by apply next_day_counts.
Qed.

Lemma days_of_years_mono y y' : 1970 <= y -> y <= y' -> days_of_years y <= days_of_years y'.
Proof.
  intros Hy Hle. replace y' with (y + (y' - y)) by lia. generalize (y' - y). clear Hle y'.
  induction n as [|n IH] using N.peano_ind; [by rewrite N.add_0_r|].
  replace (y + N.succ n) with (y + n + 1) by lia. rewrite days_of_years_next by lia. lia.
Qed.

(** 1 January 10000, in days and in seconds. *)
Definition END_DAYS : N := 2932897.
Definition END_SECS : N := 253402300800.

Lemma days_of_date_year y m d : days_of_years y <= days_of_date y m d.
Proof.
  unfold days_of_date. rewrite <- (N.add_0_l (days_of_years y)), days_of_months_shift. lia.
Qed.

(** A date of a year comes before the next year. *)
Lemma days_of_date_next_year y m d :
  date_ok y m d -> days_of_date y m d < days_of_years y + (if leap y then 366 else 365).
Proof.
  intros [Hm Hd]. unfold days_of_date. rewrite <- (days_of_months_year y (days_of_years y)).
  enough (days_of_months y (m + 1) (days_of_years y) <= days_of_months y 13 (days_of_years y)).
  { rewrite days_of_months_next in * by done. lia. }
  assert (forall k, m + 1 + k <= 13 ->
    days_of_months y (m + 1) (days_of_years y) <= days_of_months y (m + 1 + k) (days_of_years y)) as Hk.
  { induction k as [|k IH] using N.peano_ind; intros Hle; [by rewrite N.add_0_r|].
    replace (m + 1 + N.succ k) with (m + 1 + k + 1) by lia.
    rewrite (days_of_months_next y (m + 1 + k)) by lia. lia. }
  specialize (Hk (12 - m)). replace (m + 1 + (12 - m)) with 13 in Hk by lia. lia.
Qed.

Lemma days_of_years_end : days_of_years 10000 = END_DAYS.
Proof. vm_compute. reflexivity. Qed.

Lemma days_of_date_lt y m d :
  1970 <= y <= 9999 -> date_ok y m d -> days_of_date y m d < END_DAYS.
Proof.
  intros [Hy Hle] Hd. pose proof (days_of_date_next_year y m d Hd).
  pose proof (days_of_years_mono (y + 1) 10000) as Hmono. rewrite days_of_years_next in Hmono by done.
  pose proof days_of_years_end. lia.
Qed.

Lemma datetime_to_epoch_lt dt : DateTime_wf dt -> datetime_to_epoch dt < END_SECS.
Proof.
  intros [Hy Hd Hh Hm Hs]. pose proof (days_of_date_lt _ _ _ Hy Hd).
  unfold datetime_to_epoch, END_SECS, END_DAYS in *. lia.
Qed.

Lemma year_in_range n : n < END_DAYS <-> (days_to_ymd n).1.1 <= 9999.
Proof.
  pose proof (days_to_ymd_counts n) as H. destruct (days_to_ymd n) as [[y m] d].
  destruct H as (Hy & Hd & Hn). cbn [fst snd]. split; intros Hlt.
  - destruct (N.le_gt_cases y 9999) as [|Hgt]; [done|]. pose proof days_of_years_end.
    pose proof (days_of_years_mono 10000 y). pose proof (days_of_date_year y m d). lia.
  - rewrite <- Hn. by apply days_of_date_lt.
Qed.

(** ** The round trip *)

Section times.
Context {DT : DerTime} {DTS : DerTimeSpec DT}.

(** The fields of a time, as [epoch_to_datetime] computes them. *)
Definition civil (secs : N) : DateTime :=
  let '(y, m, d) := days_to_ymd (secs / 86400) in
  let t := secs mod 86400 in mkDateTime y m d (t / 3600) (t mod 3600 / 60) (t mod 60).

Lemma time_of_day t : t < 86400 ->
  t / 3600 < 24 /\ t mod 3600 / 60 < 60 /\ t mod 60 < 60 /\
  t / 3600 * 3600 + t mod 3600 / 60 * 60 + t mod 60 = t.
Proof. intros. div_lia. Qed.

Lemma civil_wf secs : secs < END_SECS -> DateTime_wf (civil secs).
Proof.
  intros Hs. unfold civil. pose proof (days_to_ymd_counts (secs / 86400)) as H.
  pose proof (proj1 (year_in_range (secs / 86400))) as Hy.
  destruct (days_to_ymd (secs / 86400)) as [[y m] d]. destruct H as (H1 & H2 & _).
  destruct (time_of_day (secs mod 86400)) as (? & ? & ? & _); [by apply N.mod_lt|].
  split; cbn in *; try done. split; [done|]. apply Hy.
  apply N.Div0.div_lt_upper_bound. unfold END_SECS, END_DAYS in *. lia.
Qed.

Lemma epoch_to_datetime_civil secs : secs < END_SECS -> epoch_to_datetime secs = Ok (civil secs).
Proof.
  intros Hs. pose proof (civil_wf secs Hs) as Hwf. unfold epoch_to_datetime, civil in *.
  pose proof (days_to_ymd_counts (secs / 86400)) as H.
  destruct (days_to_ymd (secs / 86400)) as [[y m] d]. destruct H as (_ & [Hm Hd] & _).
  assert (month_length y m <= 31) by (unfold month_length; repeat case_match; lia).
  destruct (dtw_year _ Hwf) as [_ Hy]. pose proof (dtw_hour _ Hwf). pose proof (dtw_minutes _ Hwf).
  pose proof (dtw_seconds _ Hwf). cbn in *. unfold as_u16, as_u8, u16_lim.
  rewrite (N.mod_small y), (N.mod_small m), (N.mod_small d), (N.mod_small (_ / 3600)),
    (N.mod_small (_ / 60)), (N.mod_small (_ mod 60)) by lia.
  by rewrite (datetime_new_ok _ _ _ _ _ _ Hwf).
Qed.

Lemma datetime_to_epoch_civil secs : datetime_to_epoch (civil secs) = secs.
Proof.
  unfold civil, datetime_to_epoch. pose proof (days_to_ymd_counts (secs / 86400)) as H.
  destruct (days_to_ymd (secs / 86400)) as [[y m] d]. destruct H as (_ & _ & Hn).
  cbn [dt_year dt_month dt_day dt_hour dt_minutes dt_seconds]. rewrite Hn.
  destruct (time_of_day (secs mod 86400)) as (_ & _ & _ & Ht); [by apply N.mod_lt|].
  pose proof (N.div_mod secs 86400). lia.
Qed.

(** The conversion of a time to the date of an OCSP response is exact and
    total up to the end of the year 9999: it succeeds, and converting back gives
    the time; so two different times never get the same date. *)
Theorem epoch_roundtrip secs :
  secs < END_SECS ->
  exists dt, epoch_to_datetime secs = Ok dt /\ DateTime_wf dt /\ datetime_to_epoch dt = secs.
Proof.
  intros Hs. exists (civil secs).
  eauto using epoch_to_datetime_civil, civil_wf, datetime_to_epoch_civil.
Qed.

(** From the year 10000 on the date is refused, until the year overflows 16 bits
    and the date starts over: the second of year 67506 is one of year 1970. *)
Lemma epoch_year_refused : epoch_to_datetime END_SECS <> Ok (civil END_SECS).
Proof.
  unfold epoch_to_datetime. intros H. apply map_err_Ok in H.
  apply datetime_new_wf in H as [_ []]. vm_compute in dtw_year0. naive_solver.
Qed.

Lemma epoch_year_truncated : epoch_to_datetime 2068116364800 = Ok (civil 0).
Proof.
  unfold epoch_to_datetime.
  change (map_err Der (datetime_new 1970 1 1 0 0 0) = Ok (civil 0)).
  rewrite datetime_new_ok; [done|]. apply (civil_wf 0). done.
Qed.
End times.

(** ** A concrete date type *)

Module ToyTime.
Definition okb (dt : DateTime) : bool :=
  (1970 <=? dt_year dt) && (dt_year dt <=? 9999) && (1 <=? dt_month dt) && (dt_month dt <=? 12) &&
  (1 <=? dt_day dt) && (dt_day dt <=? month_length (dt_year dt) (dt_month dt)) &&
  (dt_hour dt <? 24) && (dt_minutes dt <? 60) && (dt_seconds dt <? 60).

Lemma okb_wf dt : okb dt = true <-> DateTime_wf dt.
Proof.
  unfold okb. rewrite !andb_true_iff, !N.leb_le, !N.ltb_lt. split.
  - intros. split; unfold date_ok; tauto.
  - intros [? [? ?] ? ? ?]. tauto.
Qed.

Definition time : DerTime := {|
  datetime_new y m d h mi s :=
    let dt := mkDateTime y m d h mi s in
    if okb dt then Ok dt else Err "invalid date"%string
|}.

Lemma time_spec : DerTimeSpec time.
Proof.
  split; cbn; intros y m d h mi s.
  - intros dt. destruct (okb _) eqn:E; [|done]. intros [= <-]. by apply okb_wf in E.
  - intros Hwf. by apply okb_wf in Hwf as ->.
Qed.
End ToyTime.

Lemma epoch_roundtrip_witness :
  exists dt, @epoch_to_datetime ToyTime.time 1709210096 = Ok dt /\ DateTime_wf dt /\
    datetime_to_epoch dt = 1709210096.
Proof. apply (@epoch_roundtrip ToyTime.time ToyTime.time_spec). reflexivity. Defined.
