(* ===== verification/SignCrates.v ===== *)
(** * SignCrates: the third-party code hoike-sign calls

    Data of the crates [der], [spki], [x509-cert] and [x509-ocsp] (the fields the
    code reads), and their functions with those of [sha1], [p256], [aws-lc-rs],
    [ml-dsa] and [base64] as the operational class [SignCrates].  A distinguished
    name is an abstract type; encodings stand for values the code only compares
    or passes on. *)

From stdpp Require Import base tactics list gmap strings.
From Stdlib Require Import NArith Lia.
From S2P Require Import Prelude Crates AhuError SignError Times Seal Request.
Local Open Scope N_scope.

(** ** Certificates and revocation lists *)

(** [der::asn1::BitString]: its octets, and the unused bits of the last one. *)
Record BitString : Type := mkBitString {
  bs_unused_bits : N;
  bs_raw_bytes : bytes;
}.
#[export] Instance BitString_eq_dec : EqDecision BitString.
Proof. solve_decision. Defined.
(** [as_bytes]. *)
Definition bs_as_bytes (b : BitString) : option bytes :=
  if bs_unused_bits b =? 0 then Some (bs_raw_bytes b) else None.

Record Spki : Type := mkSpki {
  sp_algorithm : AlgorithmIdentifier;
  sp_subject_public_key : BitString;
}.
#[export] Instance Spki_eq_dec : EqDecision Spki.
Proof. solve_decision. Defined.

Record X509Extension : Type := mkX509Extension {
  xe_extn_id : string;
  xe_critical : bool;
  xe_extn_value : bytes;
}.
#[export] Instance X509Extension_eq_dec : EqDecision X509Extension.
Proof. solve_decision. Defined.

Inductive CrlReason :=
| Unspecified | KeyCompromise | CaCompromise | AffiliationChanged | Superseded
| CessationOfOperation | CertificateHold | RemoveFromCRL | PrivilegeWithdrawn | AaCompromise.
#[export] Instance CrlReason_eq_dec : EqDecision CrlReason.
Proof. solve_decision. Defined.

Section data.
Variable Name : Type.

Record X509Cert : Type := mkX509Cert {
  xc_serial_number : bytes;
  xc_issuer : Name;
  xc_subject : Name;
  xc_not_before : DateTime;
  xc_not_after : DateTime;
  xc_spki : Spki;
  xc_extensions : option (list X509Extension);
}.

Record RevokedCert : Type := mkRevokedCert {
  rc_serial_number : bytes;
  rc_revocation_date : DateTime;
  rc_crl_entry_extensions : option (list X509Extension);
}.

Record TbsCertList : Type := mkTbsCertList {
  tl_signature : AlgorithmIdentifier;
  tl_issuer : Name;
  tl_this_update : DateTime;
  tl_next_update : option DateTime;
  tl_revoked_certificates : option (list RevokedCert);
  tl_crl_extensions : option (list X509Extension);
}.

Record CertificateList : Type := mkCertificateList {
  cl_tbs_cert_list : TbsCertList;
  cl_signature_algorithm : AlgorithmIdentifier;
  cl_signature : BitString;
}.

(** [AuthorityKeyIdentifier]; of the general names, the directory names. *)
Record AuthorityKeyId : Type := mkAuthorityKeyId {
  ak_key_identifier : option bytes;
  ak_authority_cert_issuer : option (list (option Name));
  ak_authority_cert_serial_number : option bytes;
}.
End data.
Arguments mkX509Cert {_}.
Arguments mkTbsCertList {_}.
Arguments mkCertificateList {_}.
Arguments mkAuthorityKeyId {_}.
Arguments xc_serial_number {_} _.
Arguments xc_issuer {_} _.
Arguments xc_subject {_} _.
Arguments xc_not_before {_} _.
Arguments xc_not_after {_} _.
Arguments xc_spki {_} _.
Arguments xc_extensions {_} _.
Arguments tl_signature {_} _.
Arguments tl_issuer {_} _.
Arguments tl_this_update {_} _.
Arguments tl_next_update {_} _.
Arguments tl_revoked_certificates {_} _.
Arguments tl_crl_extensions {_} _.
Arguments cl_tbs_cert_list {_} _.
Arguments cl_signature_algorithm {_} _.
Arguments cl_signature {_} _.
Arguments ak_key_identifier {_} _.
Arguments ak_authority_cert_issuer {_} _.
Arguments ak_authority_cert_serial_number {_} _.

(** ** OCSP responses *)

(** [RevokedInfo] and [CertStatus] of [x509-ocsp]. *)
Inductive CertStatus :=
| OcspGood
| OcspRevoked (revocation_time : DateTime) (revocation_reason : option CrlReason)
| OcspUnknown.
#[export] Instance CertStatus_eq_dec : EqDecision CertStatus.
Proof. solve_decision. Defined.

Record SingleResponse : Type := mkSingleResponse {
  sr_cert_id : CertId;
  sr_cert_status : CertStatus;
  sr_this_update : DateTime;
  sr_next_update : option DateTime;
}.

(** [ResponderId::ByKey], the only form the code uses. *)
Inductive OcspResponderId := OcspByKey (key_hash : bytes).

(** What [OcspResponseBuilder] is given before it signs. *)
Record ResponseData : Type := mkResponseData {
  rd_responder_id : OcspResponderId;
  rd_produced_at : DateTime;
  rd_responses : list SingleResponse;
  rd_nonce : option bytes;
}.

(** The dates of a response. *)
Definition single_dates (s : SingleResponse) : list DateTime :=
  sr_this_update s :: option_list (sr_next_update s) ++
  match sr_cert_status s with OcspRevoked t _ => [t] | _ => [] end.
Definition data_dates (d : ResponseData) : list DateTime :=
  rd_produced_at d :: mjoin (single_dates <$> rd_responses d).

Record ResponseBytes : Type := mkResponseBytes {
  rb_response_type : string;
  rb_response : bytes;
}.
Record OcspResponse : Type := mkOcspResponse {
  or_successful : bool;
  or_response_bytes : option ResponseBytes;
}.

(** [BasicOcspResponse] with its signature: the object identifier of its algorithm and
    the octets of its bit string. *)
Record BasicOcspResponse (Name : Type) : Type := mkBasicOcspResponse {
  bo_tbs_response_data : ResponseData;
  bo_signature_algorithm : string;
  bo_signature : bytes;
  bo_certs : option (list (X509Cert Name));
}.
Arguments mkBasicOcspResponse {Name} _ _ _ _.
Arguments bo_tbs_response_data {Name} _.
Arguments bo_signature_algorithm {Name} _.
Arguments bo_signature {Name} _.
Arguments bo_certs {Name} _.

(** A signing key as [OcspResponseBuilder::sign] takes it: the traits
    [DynSignatureAlgorithmIdentifier] and [Signer], with the octets of the signature's
    bit string. *)
Record OcspSigner : Type := mkOcspSigner {
  os_algorithm : result string AlgorithmIdentifier;
  os_try_sign : bytes -> result string bytes;
}.

Inductive RsaHash := RsaSha256 | RsaSha384 | RsaSha512.

(** ** The functions *)

Class SignCrates := {
  sign_time :: DerTime;
  sha1 : bytes -> bytes;
  base64_standard_decode : bytes -> result string bytes;
  (** [x509-cert] and [der] *)
  Name : Type;
  Name_eq_dec :: EqDecision Name;
  name_to_der : Name -> result string bytes;
  name_is_empty : Name -> bool;
  x509_from_der : bytes -> result string (X509Cert Name);
  x509_from_pem : bytes -> result string (X509Cert Name);
  crl_from_der : bytes -> result string (CertificateList Name);
  tbs_cert_list_to_der : TbsCertList Name -> result string bytes;
  crl_number_from_der : bytes -> result string unit;
  aki_from_der : bytes -> result string (AuthorityKeyId Name);
  ski_from_der : bytes -> result string bytes;
  (** [KeyUsage::from_der], its bit [crl_sign] *)
  key_usage_crl_sign : bytes -> result string bool;
  crl_reason_from_der : bytes -> result string CrlReason;
  spki_to_der : Spki -> result string bytes;
  (** [SerialNumber::new], which fails on an over-long serial *)
  serial_number_new : bytes -> result string bytes;
  (** [OctetString::new], which fails on an over-long string *)
  octet_string_new : bytes -> result string bytes;
  (** [DateTime::unix_duration] in seconds *)
  to_unix_duration : DateTime -> N;
  (** signatures *)
  EcKey : Type;
  EcSignature : Type;
  ec_from_public_key_der : bytes -> result string EcKey;
  ec_signature_from_der : bytes -> result string EcSignature;
  ec_verify : EcKey -> bytes -> EcSignature -> bool;
  rsa_verify : RsaHash -> bytes -> bytes -> bytes -> bool;
  ml_key_decode : MlDsa -> bytes -> option bytes;
  ml_signature_decode : MlDsa -> bytes -> option bytes;
  ml_verify : MlDsa -> bytes -> bytes -> bytes -> bool;
  (** [x509-ocsp] *)
  certid_from_der : bytes -> result string CertId;
  ocsp_response_from_der : bytes -> result string OcspResponse;
  basic_ocsp_response_from_der : bytes -> result string (BasicOcspResponse Name);
  response_data_to_der : ResponseData -> result string bytes;
  (** [Nonce::new] *)
  nonce_new : bytes -> result string bytes;
  (** [OcspResponseBuilder::sign], and [to_der] *)
  ocsp_sign : OcspSigner -> ResponseData -> option (X509Cert Name) -> result string OcspResponse;
  ocsp_response_to_der : OcspResponse -> result string bytes;
}.

(** The data of a decoded response. *)
Definition basic_response_from_der {SG : SignCrates} (b : bytes) : result string ResponseData :=
  bo_tbs_response_data <$> basic_ocsp_response_from_der b.

(** Documented behaviour the theorems rely on: the functions on dates agree with
    the civil calendar and decoded dates are of that calendar, SHA-1 digests have
    20 bytes, octet strings and nonces hold the bytes they were made from, a signed
    response is successful, of the basic type, and decodes to the data, the signer's
    signature over its encoding, and the certificate it was given, data have one
    encoding each, and signing asks the signer for nothing but that signature. *)
Class SignCratesSpec (SG : SignCrates) : Prop := {
  sign_time_spec :: DerTimeSpec sign_time;
  sha1_length b : length (sha1 b) = 20%nat;
  octet_string_new_Ok b s : octet_string_new b = Ok s -> s = b;
  nonce_new_Ok b s : nonce_new b = Ok s -> s = b;
  basic_response_dates b data :
    basic_response_from_der b = Ok data -> Forall DateTime_wf (data_dates data);
  unix_duration_civil dt : DateTime_wf dt -> to_unix_duration dt = datetime_to_epoch dt;
  ocsp_sign_basic signer data cert response der :
    ocsp_sign signer data cert = Ok response -> ocsp_response_to_der response = Ok der ->
    exists b tbs alg sig, ocsp_response_from_der der = Ok (mkOcspResponse true
        (Some (mkResponseBytes "1.3.6.1.5.5.7.48.1.1" b))) /\
      response_data_to_der data = Ok tbs /\ os_algorithm signer = Ok alg /\ os_try_sign signer tbs = Ok sig /\
      basic_ocsp_response_from_der b =
        Ok (mkBasicOcspResponse data (ai_oid alg) sig ((fun c => [c]) <$> cert));
  response_data_inj d1 d2 tbs :
    response_data_to_der d1 = Ok tbs -> response_data_to_der d2 = Ok tbs -> d1 = d2;
  ocsp_sign_encoding s1 s2 data cert :
    os_algorithm s1 = os_algorithm s2 ->
    (forall tbs, response_data_to_der data = Ok tbs -> os_try_sign s1 tbs = os_try_sign s2 tbs) ->
    ocsp_sign s1 data cert = ocsp_sign s2 data cert;
}.

(** A successful basic response that carries this data. *)
Definition decodes_to {SG : SignCrates} (der : bytes) (data : ResponseData) : Prop :=
  exists b, ocsp_response_from_der der = Ok (mkOcspResponse true
    (Some (mkResponseBytes "1.3.6.1.5.5.7.48.1.1" b))) /\ basic_response_from_der b = Ok data.

Lemma ocsp_sign_decodes `{!SignCrates} `{!SignCratesSpec _} signer data cert response der :
  ocsp_sign signer data cert = Ok response -> ocsp_response_to_der response = Ok der -> decodes_to der data.
Proof.
  intros H1 H2. destruct (ocsp_sign_basic _ _ _ _ _ H1 H2) as (b & _ & alg & sig & Hb & _ & _ & _ & Hd).
  exists b. split; [exact Hb|]. unfold basic_response_from_der. by rewrite Hd.
Qed.

(** [.map_err(SignError::Der)] and the operator [?] on results of [der]. *)
Definition der_of {A} (r : result string A) : sign_result A := map_err Der r.

(** ** A concrete instance *)

Module ToySign.
(** Data as CBOR values, and back. *)
Class Codec (A : Type) := {
  to_val : A -> Value;
  of_val : Value -> option A;
  of_to_val a : of_val (to_val a) = Some a;
}.
#[export, refine] Instance N_codec : Codec N := {
  to_val n := VInteger (Z.of_N n); of_val v := Z.to_N <$> as_integer v }.
Proof. intros n. cbn. by rewrite N2Z.id. Defined.
#[export, refine] Instance bytes_codec : Codec bytes := { to_val := VBytes; of_val := as_bytes }.
Proof. done. Defined.
#[export, refine] Instance string_codec : Codec string := { to_val := VText; of_val := as_text }.
Proof. done. Defined.

Definition seq_of_val {A} `{Codec A} (v : Value) : option (list A) :=
  vs ← as_array v; mapM of_val vs.
Definition seq_to_val {A} `{Codec A} (l : list A) : Value := VArray (to_val <$> l).
Lemma seq_codec {A} `{Codec A} (l : list A) : seq_of_val (seq_to_val l) = Some l.
Proof.
  unfold seq_of_val, seq_to_val. cbn. induction l as [|a l IH]; [done|]. cbn [fmap list_fmap mapM].
  rewrite of_to_val. cbn [mbind option_bind]. by rewrite IH.
Qed.
Definition opt_to_val {A} `{Codec A} (o : option A) : Value := seq_to_val (option_list o).
Definition opt_of_val {A} `{Codec A} (v : Value) : option (option A) := head <$> seq_of_val v.
Lemma opt_codec {A} `{Codec A} (o : option A) : opt_of_val (opt_to_val o) = Some o.
Proof. unfold opt_of_val, opt_to_val. rewrite seq_codec. by destruct o. Qed.

#[export, refine] Instance DateTime_codec : Codec DateTime := {
  to_val dt := seq_to_val [dt_year dt; dt_month dt; dt_day dt; dt_hour dt; dt_minutes dt;
                           dt_seconds dt];
  of_val v := match seq_of_val v with
              | Some [y; m; d; h; mi; s] => Some (mkDateTime y m d h mi s)
              | _ => None end }.
Proof. intros dt. rewrite seq_codec. by destruct dt. Defined.
#[export, refine] Instance CrlReason_codec : Codec CrlReason := {
  to_val r := to_val (match r with
     | Unspecified => 0 | KeyCompromise => 1 | CaCompromise => 2 | AffiliationChanged => 3
     | Superseded => 4 | CessationOfOperation => 5 | CertificateHold => 6 | RemoveFromCRL => 8
     | PrivilegeWithdrawn => 9 | AaCompromise => 10 end);
  of_val v := match of_val v with
     | Some 0 => Some Unspecified | Some 1 => Some KeyCompromise | Some 2 => Some CaCompromise
     | Some 3 => Some AffiliationChanged | Some 4 => Some Superseded
     | Some 5 => Some CessationOfOperation | Some 6 => Some CertificateHold
     | Some 8 => Some RemoveFromCRL | Some 9 => Some PrivilegeWithdrawn
     | Some 10 => Some AaCompromise | _ => None end }.
Proof. by intros []. Defined.
#[export, refine] Instance CertStatus_codec : Codec CertStatus := {
  to_val s := match s with
     | OcspGood => VBool true | OcspUnknown => VBool false
     | OcspRevoked t r => VArray [to_val t; opt_to_val r] end;
  of_val v := match v with
     | VBool true => Some OcspGood | VBool false => Some OcspUnknown
     | VArray [t; r] => t ← of_val t; r ← opt_of_val r; Some (OcspRevoked t r)
     | _ => None end }.
Proof.
  intros [|t r|]; [done| |done]. rewrite of_to_val. cbn [mbind option_bind]. by rewrite opt_codec.
Defined.
#[export, refine] Instance CertId_codec : Codec CertId := {
  to_val c := VArray [to_val (cid_hash_algorithm_oid c);
     opt_to_val (cid_hash_algorithm_parameters c); to_val (cid_issuer_name_hash c);
     to_val (cid_issuer_key_hash c); to_val (cid_serial_number c)];
  of_val v := match v with
     | VArray [o; p; n; k; s] =>
         o ← of_val o; p ← opt_of_val p; n ← of_val n; k ← of_val k; s ← of_val s;
         Some (mkCertId o p n k s)
     | _ => None end }.
Proof.
  intros c. rewrite of_to_val. cbn [mbind option_bind]. rewrite opt_codec. cbn [mbind option_bind].
  repeat (rewrite of_to_val; cbn [mbind option_bind]). by destruct c.
Defined.
#[export, refine] Instance SingleResponse_codec : Codec SingleResponse := {
  to_val r := VArray [to_val (sr_cert_id r); to_val (sr_cert_status r); to_val (sr_this_update r);
     opt_to_val (sr_next_update r)];
  of_val v := match v with
     | VArray [c; s; t; n] =>
         c ← of_val c; s ← of_val s; t ← of_val t; n ← opt_of_val n;
         Some (mkSingleResponse c s t n)
     | _ => None end }.
Proof.
  intros r. do 3 (rewrite of_to_val; cbn [mbind option_bind]). rewrite opt_codec. by destruct r.
Defined.
#[export, refine] Instance ResponseData_codec : Codec ResponseData := {
  to_val d := VArray [to_val (match rd_responder_id d with OcspByKey k => k end);
     to_val (rd_produced_at d); seq_to_val (rd_responses d); opt_to_val (rd_nonce d)];
  of_val v := match v with
     | VArray [k; p; r; n] =>
         k ← of_val k; p ← of_val p; r ← seq_of_val r; n ← opt_of_val n;
         Some (mkResponseData (OcspByKey k) p r n)
     | _ => None end }.
Proof.
  intros d. do 2 (rewrite of_to_val; cbn [mbind option_bind]). rewrite seq_codec.
  cbn [mbind option_bind]. rewrite opt_codec. by destruct d as [[]].
Defined.

(** A signed response: the data, the algorithm, the signature and the key of the certificate. *)
Record Signed : Type := mkSigned {
  sg_data : ResponseData; sg_algorithm : string; sg_signature : bytes; sg_key : option bytes }.
#[export, refine] Instance Signed_codec : Codec Signed := {
  to_val s := VArray [to_val (sg_data s); to_val (sg_algorithm s); to_val (sg_signature s); opt_to_val (sg_key s)];
  of_val v := match v with
     | VArray [d; a; s; k] =>
         d ← of_val d; a ← of_val a; s ← of_val s; k ← opt_of_val k; Some (mkSigned d a s k)
     | _ => None end }.
Proof.
  intros s. do 3 (rewrite of_to_val; cbn [mbind option_bind]). rewrite opt_codec. by destruct s.
Defined.

Definition enc {A} `{Codec A} (a : A) : bytes := Toy.enc (to_val a).
Definition dec {A} `{Codec A} (b : bytes) : result string A :=
  match Toy.dec (length b) b with
  | Some (v, []) => ok_or (of_val v) "undecodable"%string
  | _ => Err "undecodable"%string
  end.

Lemma codec_dec_enc {A} `{Codec A} (a : A) : dec (enc a) = Ok a.
Proof.
  unfold dec, enc. rewrite <- (app_nil_r (Toy.enc _)) at 2. rewrite Toy.dec_enc by done.
  by rewrite of_to_val.
Qed.

Definition BASIC : string := "1.3.6.1.5.5.7.48.1.1".
Definition epoch : DateTime := mkDateTime 1970 1 1 0 0 0.
Definition forever : DateTime := mkDateTime 2037 12 31 23 59 59.
Definition spki (key : bytes) : Spki :=
  mkSpki (mkAlgorithmIdentifier "1.2.840.10045.2.1" None) (mkBitString 0 key).
Definition cert (key : bytes) : X509Cert bytes := mkX509Cert [x01] [xca] [xca] epoch forever (spki key) None.

(** A CRL that revokes two certificates. *)
Definition crl : CertificateList bytes :=
  let alg := mkAlgorithmIdentifier "1.2.840.10045.4.3.2" None in
  mkCertificateList (mkTbsCertList alg [xca] epoch (Some forever)
    (Some [mkRevokedCert [x2a] epoch None; mkRevokedCert [x64] epoch None]) None) alg (mkBitString 0 [x30; x06]).

(** Requests are not decoded; a CertID is encoded as a value. *)
#[export] Instance ocsp : OcspCrates := {
  ocsp_request_from_der _ := Err "unsupported"%string;
  certid_to_der c := Ok (enc c);
  octet_string_from_der b := Ok b;
  preferred_algs_from_der _ := Ok [];
  percent_decode_utf8 s := Ok s;
  base64_decode s := Ok (String.list_byte_of_string s);
}.

(** Signed responses, with their decoder and what is signed. *)
Definition decode_signed (b : bytes) : result string (BasicOcspResponse bytes) :=
  s ← dec b; ensure (forallb ToyTime.okb (data_dates (sg_data s))) "bad date"%string ;;
  Ok (mkBasicOcspResponse (sg_data s) (sg_algorithm s) (sg_signature s) ((fun k => [cert k]) <$> sg_key s)).
#[export] Instance cert_eq_dec : EqDecision (X509Cert bytes).
Proof. solve_decision. Defined.
Definition key_of (c : X509Cert bytes) : bytes := bs_raw_bytes (sp_subject_public_key (xc_spki c)).
Definition sign_data (signer : OcspSigner) (data : ResponseData) (c : option (X509Cert bytes)) :
    result string OcspResponse :=
  ensure (forallb ToyTime.okb (data_dates data)) "bad date"%string ;;
  alg ← os_algorithm signer;
  sig ← os_try_sign signer (enc data);
  ensure (bool_decide (cert ∘ key_of <$> c = c)) "unsupported"%string ;;
  Ok (mkOcspResponse true (Some (mkResponseBytes BASIC (enc (mkSigned data (ai_oid alg) sig (key_of <$> c)))))).

(** Signatures of lists always verify; a certificate is encoded by its key. *)
Definition crates_with (basic : bytes -> result string (BasicOcspResponse bytes))
    (tbs : ResponseData -> result string bytes) : SignCrates := {|
  sign_time := ToyTime.time;
  sha1 b := drop 12 (Toy.digest b);
  base64_standard_decode b := Ok b;
  Name := bytes;
  name_to_der n := Ok n;
  name_is_empty n := bool_decide (n = []);
  x509_from_der b := Ok (cert b);
  x509_from_pem b := Ok (cert b);
  crl_from_der b := if decide (b = []) then Err "empty"%string else Ok crl;
  tbs_cert_list_to_der _ := Ok [x30];
  crl_number_from_der _ := Ok tt;
  aki_from_der _ := Ok (mkAuthorityKeyId None None None);
  ski_from_der b := Ok b;
  key_usage_crl_sign _ := Ok true;
  crl_reason_from_der _ := Ok KeyCompromise;
  spki_to_der s := Ok (bs_raw_bytes (sp_subject_public_key s));
  serial_number_new b := Ok b;
  octet_string_new b := Ok b;
  to_unix_duration := datetime_to_epoch;
  EcKey := bytes;
  EcSignature := bytes;
  ec_from_public_key_der b := Ok b;
  ec_signature_from_der b := Ok b;
  ec_verify _ _ _ := true;
  rsa_verify _ _ _ _ := true;
  ml_key_decode _ b := Some b;
  ml_signature_decode _ b := Some b;
  ml_verify _ _ _ _ := true;
  certid_from_der := dec;
  ocsp_response_from_der b := Ok (mkOcspResponse true (Some (mkResponseBytes BASIC b)));
  basic_ocsp_response_from_der := basic;
  response_data_to_der := tbs;
  nonce_new b := Ok b;
  ocsp_sign := sign_data;
  ocsp_response_to_der r := Ok (from_option rb_response [] (or_response_bytes r));
|}.

#[export] Instance crates : SignCrates := crates_with decode_signed (fun data => Ok (enc data)).

(** A signer whose signature is the digest. *)
Definition signer : OcspSigner :=
  mkOcspSigner (Ok (mkAlgorithmIdentifier "1.2.840.10045.4.3.2" None)) (fun m => Ok (Toy.digest m)).

#[export] Instance crates_spec : SignCratesSpec crates.
Proof.
  split.
  - apply ToyTime.time_spec.
  - intros b. change (length (drop 12 (@sha256 Toy.crates b)) = 20%nat).
    rewrite length_drop, (@sha256_length Toy.crates Toy.sha256_spec). done.
  - by intros b s [= <-].
  - by intros b s [= <-].
  - intros b data (basic & H & ->)%fmap_Ok. cbn [basic_ocsp_response_from_der crates crates_with] in H.
    unfold decode_signed in H. inv_ok. rename select (forallb _ _ = true) into Hf. cbn.
    rewrite forallb_forall in Hf. apply Forall_forall. intros dt Hin%list_elem_of_In.
    by apply ToyTime.okb_wf, Hf.
  - done.
  - intros signer data c ? ? H [= <-]. cbn [ocsp_sign crates crates_with] in H. unfold sign_data in H. inv_ok.
    rename select (forallb _ _ = true) into Hf. rename select (bool_decide _ = true) into Hk.
    apply bool_decide_eq_true in Hk. eexists (enc (mkSigned data _ _ _)), _, _, _. split_and!; try done.
    cbn [basic_ocsp_response_from_der crates crates_with]. unfold decode_signed.
    rewrite codec_dec_enc. cbn [mbind result_bind sg_data]. rewrite Hf. cbn.
    do 2 f_equal. destruct c as [c|]; [|done]. cbn in *. by injection Hk as ->.
  - intros d1 d2 tbs H1 H2. cbn [response_data_to_der crates crates_with] in H1, H2.
    assert (enc d1 = enc d2) as E by congruence. apply (f_equal (dec (A := ResponseData))) in E.
    rewrite !codec_dec_enc in E. congruence.
  - intros s1 s2 data c Ha Hs. cbn [ocsp_sign crates crates_with]. unfold sign_data.
    by rewrite Ha, (Hs (enc data) eq_refl).
Qed.
End ToySign.
