(* ===== verification/Source.v ===== *)
(** * Source: revocation sources (hoike-sign/src/source.rs)

    The status of a CA's certificates at a time, as its sources report it, and
    the check that it is current. *)

From stdpp Require Import base tactics list gmap strings.
From Stdlib Require Import NArith Lia.
From S2P Require Import Prelude Slices AhuError CoreError Storage SignError Times SignCrates.
Local Open Scope N_scope.

Inductive CertificateStatus :=
| Good
| Revoked (revocation_time : N) (reason : option CrlReason).
#[export] Instance CertificateStatus_eq_dec : EqDecision CertificateStatus.
Proof. solve_decision. Defined.

Record StatusSnapshot : Type := mkStatusSnapshot {
  ss_entries : gmap bytes CertificateStatus;
  ss_this_update : N;
  ss_next_update : option N;
  ss_not_after : gmap bytes N;
}.

Record StatusChange : Type := mkStatusChange {
  sc_serial : bytes;
  sc_status : CertificateStatus;
  sc_timestamp : N;
}.

Record CaIdentity : Type := mkCaIdentity {
  ci_label : string;
  ci_issuer_name_der : bytes;
  ci_issuer_key_bytes : bytes;
}.

(** The trait [RevocationSource]: what a source promises its clients.  A source
    reads the clock and may change the world. *)
Record RevocationSource : Type := mkRevocationSource {
  rv_snapshot : CaIdentity -> io SignError StatusSnapshot;
  rv_changes_since : CaIdentity -> N -> io SignError (list StatusChange);
  rv_supports_streaming : bool;
  rv_is_authoritative_complete : bool;
}.

(** The entries of a [BTreeMap] with byte-string keys, in its order. *)
Definition btree_list {A} (m : gmap bytes A) : list (bytes * A) :=
  sort_by_key fst bytes_cmp (map_to_list m).

(** [validate_at]. *)
Definition validate_at (s : StatusSnapshot) (now : N) : sign_result N :=
  stop ← ok_or (ss_next_update s) (SignConfig "source has no nextUpdate");
  if (now <? ss_this_update s) || (stop <=? now) || (stop <=? ss_this_update s)
  then Err (SignConfig "source validity is expired, future-dated or inconsistent")
  else Ok stop.

Definition unix_now : io SignError N :=
  t ← read_clock;
  io_lift (ok_or t (SignConfig "clock is before Unix epoch")).

(** ** Facts *)

Lemma validate_at_Ok s now stop :
  validate_at s now = Ok stop <->
  ss_next_update s = Some stop /\ ss_this_update s <= now < stop.
Proof.
  unfold validate_at. rewrite bind_Ok. setoid_rewrite ok_or_Ok. split.
  - intros (e & He & H).
    destruct (N.ltb_spec now (ss_this_update s)), (N.leb_spec e now),
      (N.leb_spec e (ss_this_update s)); simplify_eq/=. auto.
  - intros [He [H1 H2]]. exists stop. split; [done|].
    destruct (N.ltb_spec now (ss_this_update s)), (N.leb_spec stop now),
      (N.leb_spec stop (ss_this_update s)); try lia. done.
Qed.

Lemma unix_now_reads : reads_only unix_now.
Proof. unfold unix_now. eauto with hoike. Qed.
Lemma unix_now_ticks : ticks unix_now.
Proof. unfold unix_now. eauto with hoike. Qed.
#[export] Hint Resolve unix_now_reads unix_now_ticks : hoike.

Lemma unix_now_Done w now w' :
  unix_now w = (Done now, w') -> same_files w w' /\ w_clock w = Some now :: w_clock w'.
Proof.
  intros H. split; [by eapply reads_Done; eauto with hoike|]. revert H.
  unfold unix_now, read_clock. cbv [mbind io_bind].
  destruct (w_clock w) as [|[t|] ts]; cbn; [done|by intros [= <- <-]|done].
Qed.

Lemma btree_list_perm {A} (m : gmap bytes A) : btree_list m ≡ₚ map_to_list m.
Proof. apply sort_by_key_perm. Qed.

Lemma elem_of_btree_list {A} (m : gmap bytes A) k x : (k, x) ∈ btree_list m <-> m !! k = Some x.
Proof. rewrite btree_list_perm. apply elem_of_map_to_list. Qed.

Lemma btree_list_keys {A} (m : gmap bytes A) : NoDup (btree_list m).*1.
Proof. rewrite btree_list_perm. apply NoDup_fst_map_to_list. Qed.
