(* ===== verification/Text.v ===== *)
(** * Text: operations of Rust's [str] on UTF-8 byte strings

    [lines], [trim] and prefix tests, on the bytes of the text. *)

From stdpp Require Import base tactics list strings.
From Stdlib Require Import NArith Lia.
From S2P Require Import Prelude.

(** [starts_with]. *)
Fixpoint starts_with (prefix l : bytes) : bool :=
  match prefix, l with
  | [], _ => true
  | p :: prefix, c :: l => bool_decide (p = c) && starts_with prefix l
  | _ :: _, [] => false
  end.

(** [contains] for a pattern. *)
Fixpoint contains (pattern l : bytes) : bool :=
  starts_with pattern l || match l with [] => false | _ :: l => contains pattern l end.

Definition NL : byte := x0a.
Definition CR : byte := x0d.

(** [lines]: pieces ended by a newline, without it and a carriage return before
    it; a last piece without a newline counts if it is not empty. *)
Definition strip_cr (l : bytes) : bytes :=
  match rev l with
  | c :: r => if bool_decide (c = CR) then rev r else l
  | [] => l
  end.
Fixpoint lines_from (acc l : bytes) : list bytes :=
  match l with
  | [] => if bool_decide (acc = []) then [] else [rev acc]
  | c :: l => if bool_decide (c = NL) then strip_cr (rev acc) :: lines_from [] l
              else lines_from (c :: acc) l
  end.
Definition lines (l : bytes) : list bytes := lines_from [] l.

(** The encodings of the characters with the property White_Space. *)
Definition white_space : list bytes :=
  [[x09]; [x0a]; [x0b]; [x0c]; [x0d]; [x20]; [xc2; x85]; [xc2; xa0]; [xe1; x9a; x80];
   [xe2; x80; x80]; [xe2; x80; x81]; [xe2; x80; x82]; [xe2; x80; x83]; [xe2; x80; x84];
   [xe2; x80; x85]; [xe2; x80; x86]; [xe2; x80; x87]; [xe2; x80; x88]; [xe2; x80; x89];
   [xe2; x80; x8a]; [xe2; x80; xa8]; [xe2; x80; xa9]; [xe2; x80; xaf]; [xe2; x81; x9f];
   [xe3; x80; x80]].

(** Removing white space from the front; each step removes at least one byte. *)
Fixpoint trim_front (spaces : list bytes) (fuel : nat) (l : bytes) : bytes :=
  match fuel with
  | O => l
  | S fuel =>
      match List.find (fun w => starts_with w l) spaces with
      | Some w => trim_front spaces fuel (drop (length w) l)
      | None => l
      end
  end.
Definition trim_start (l : bytes) : bytes := trim_front white_space (length l) l.
Definition trim_end (l : bytes) : bytes :=
  rev (trim_front (@rev byte <$> white_space) (length l) (rev l)).
Definition trim (l : bytes) : bytes := trim_end (trim_start l).

Definition text (s : string) : bytes := String.list_byte_of_string s.

(** ** Facts *)

Lemma starts_with_app p l : starts_with p (p ++ l) = true.
Proof. induction p as [|c p IH]; cbn; [done|]. by rewrite bool_decide_eq_true_2, IH. Qed.

Lemma starts_with_spec p l : starts_with p l = true <-> exists r, l = p ++ r.
Proof.
  split; [|by intros [r ->]; apply starts_with_app]. revert l.
  induction p as [|c p IH]; intros l; [by exists l|]. destruct l as [|x l]; [done|]. cbn.
  intros [->%bool_decide_eq_true (r & ->)%IH]%andb_prop. by exists r.
Qed.
