(* ===== verification/SealDer.v ===== *)
(** * SealDer: the DER encoders of the sealing code (hoike-sign/src/seal.rs)

    The encoders that write certificates and signatures by hand: lengths, tagged
    values, ECDSA signatures, names, times and keys.  A decoder of tagged values
    serves as the specification.  Main results: what the encoders write, the
    decoder reads back; a signature becomes the minimal encoding of its two
    numbers; the times of generated certificates are read as they were meant. *)

From stdpp Require Import base tactics list strings pretty.
From Stdlib Require Import NArith ZArith Lia.
From S2P Require Import Prelude Text Calendar SignError Times.
Local Open Scope N_scope.

(** [n as u8]. *)
Abbreviation u8 := byte_of_N.

(** [encode_der_length], as the bytes appended to [out]. *)
Definition encode_der_length (n : N) : bytes :=
  if n <? 128 then [u8 n]
  else if n <? 256 then [x81; u8 n]
  else if n <? 65536 then [x82; u8 (N.shiftr n 8); u8 (N.land n 0xFF)]
  else [x83; u8 (N.shiftr n 16); u8 (N.land (N.shiftr n 8) 0xFF); u8 (N.land n 0xFF)].

Definition tlv (tag : byte) (content : bytes) : bytes :=
  [tag] ++ encode_der_length (len content) ++ content.

Definition wrap_seq (content : bytes) : bytes := tlv x30 content.

Definition encode_bitstring (data : bytes) : bytes :=
  [x03] ++ encode_der_length (len data + 1) ++ [x00] ++ data.

(** [position(|&b| b != 0)] or the last index, then the slice from there. *)
Fixpoint strip_zeros (val : bytes) : bytes :=
  match val with
  | [] => []
  | b :: rest =>
      match rest with
      | [] => val
      | _ :: _ => if bool_decide (b = x00) then strip_zeros rest else val
      end
  end.

(** [encode_integer] of [ecdsa_raw_to_der]. *)
Definition encode_integer (val : bytes) : bytes :=
  let val := strip_zeros val in
  let needs_pad := from_option (fun b => negb (N.land (Byte.to_N b) 0x80 =? 0)) false (head val) in
  let n := len val + (if needs_pad then 1 else 0) in
  [x02; u8 n] ++ (if needs_pad then [x00] else []) ++ val.

Definition ecdsa_raw_to_der (raw : bytes) : bytes :=
  if negb (len raw =? 64) then raw else
  let r_enc := encode_integer (take 32 raw) in
  let s_enc := encode_integer (drop 32 raw) in
  [x30; u8 (len r_enc + len s_enc)] ++ r_enc ++ s_enc.

Definition encode_ecdsa_alg_id : bytes :=
  wrap_seq [x06; x08; x2a; x86; x48; xce; x3d; x04; x03; x02].

(** [encode_ml_dsa_alg_id], given the encoded identifier. *)
Definition encode_ml_dsa_alg_id (oid_der : bytes) : bytes := wrap_seq oid_der.

Definition encode_cn (cn : bytes) : bytes :=
  let cn_oid := [x06; x03; x55; x04; x03] in
  let cn_val := tlv x0c cn in
  let attr_seq := wrap_seq (cn_oid ++ cn_val) in
  let rdn_set := tlv x31 attr_seq in
  wrap_seq rdn_set.

Definition encode_ecdsa_spki (pub_key_uncompressed : bytes) : bytes :=
  let ec_oid := [x06; x07; x2a; x86; x48; xce; x3d; x02; x01] in
  let p256_oid := [x06; x08; x2a; x86; x48; xce; x3d; x03; x01; x07] in
  wrap_seq (wrap_seq (ec_oid ++ p256_oid) ++ encode_bitstring pub_key_uncompressed).

Definition encode_ml_dsa_spki (pub_key_bytes alg_id_der : bytes) : bytes :=
  wrap_seq (alg_id_der ++ encode_bitstring pub_key_bytes).

(** The format [{:02}]. *)
Definition pad2 (n : N) : string := if n <? 10 then "0" +:+ pretty n else pretty n.

(** The conversion of [format_utc_time], in [i64]. *)
Definition civil_from_days (days : N) : Z * Z * Z :=
  (let z := Z.of_N days + 719468 in
   let era := z / 146097 in
   let doe := z mod 146097 in
   let yoe := (doe - doe / 1460 + doe / 36524 - doe / 146096) / 365 in
   let year := yoe + era * 400 in
   let doy := doe - (365 * yoe + yoe / 4 - yoe / 100) in
   let mp := (5 * doy + 2) / 153 in
   let day := doy - (153 * mp + 2) / 5 + 1 in
   let month := if mp <? 10 then mp + 3 else mp - 9 in
   let year := if month <=? 2 then year + 1 else year in
   (year, month, day))%Z.

Definition format_utc_time (unix_secs : N) : string :=
  let days := unix_secs / 86400 in
  let secs := unix_secs mod 86400 in
  let '(year, month, day) := civil_from_days days in
  pad2 (Z.to_N (year mod 100)) +:+ pad2 (Z.to_N month) +:+ pad2 (Z.to_N day) +:+
  pad2 (secs / 3600) +:+ pad2 (secs mod 3600 / 60) +:+ pad2 (secs mod 60) +:+ "Z".

(** [encode_validity] at a time. *)
Definition encode_validity (now : N) : bytes :=
  let not_before := saturating_sub now 300 in
  let not_after := saturating_add now (2 * 365 * 86400) in
  wrap_seq (tlv x17 (text (format_utc_time not_before)) ++
            tlv x17 (text (format_utc_time not_after))).

(** ** Reading tagged values *)

(** A definite length, in its shortest form. *)
Definition read_length (b : bytes) : option (N * bytes) :=
  match b with
  | [] => None
  | l :: r =>
      let short := Byte.to_N l in
      if short <? 128 then Some (short, r) else
      let w := N.to_nat (short - 128) in
      guard ((1 <= w <= 3)%nat /\ (w <= length r)%nat) ;;
      let n := be_decode (take w r) in
      guard (128 <= n /\ 256 ^ N.of_nat (w - 1) <= n) ;;
      Some (n, drop w r)
  end.

Definition read_tlv (b : bytes) : option (byte * bytes * bytes) :=
  match b with
  | [] => None
  | tag :: r =>
      '(n, r) ← read_length r;
      guard (n <= len r) ;;
      Some (tag, take (N.to_nat n) r, drop (N.to_nat n) r)
  end.

Lemma to_N_u8 n : n < 256 -> Byte.to_N (u8 n) = n.
Proof. intros. rewrite to_N_byte_of_N. by apply N.mod_small. Qed.

Lemma read_length_long l a rest n :
  Byte.to_N l = 128 + len a -> 1 <= len a <= 3 -> be_decode a = n -> 128 <= n ->
  256 ^ (len a - 1) <= n -> read_length (l :: a ++ rest) = Some (n, rest).
Proof.
  intros Hl Ha Hn H1 H2. cbn [read_length]. rewrite Hl.
  rewrite (proj2 (N.ltb_ge (128 + len a) 128)) by lia.
  replace (N.to_nat (128 + len a - 128)) with (length a) by (unfold len in *; lia).
  rewrite option_guard_True by (rewrite length_app; unfold len in *; lia). cbn [mbind option_bind].
  rewrite take_app_length, drop_app_length, Hn.
  by rewrite option_guard_True by (split; [done|]; unfold len in *;
    replace (N.of_nat (length a - 1)) with (N.of_nat (length a) - 1) by lia; done).
Qed.

Lemma read_length_encode n rest :
  n < 2 ^ 24 -> read_length (encode_der_length n ++ rest) = Some (n, rest).
Proof.
  intros Hn. unfold encode_der_length.
  assert (Hland : forall m, N.land m 0xFF = m mod 256) by (intros; apply (N.land_ones m 8)).
  assert (Hshift : forall m k, N.shiftr m k = m / 2 ^ k) by (intros; apply N.shiftr_div_pow2).
  rewrite !Hland, !Hshift. change (2 ^ 16) with 65536. change (2 ^ 8) with 256.
  assert (forall m, m mod 256 < 256) by (intros; by apply N.mod_lt).
  destruct (N.ltb_spec n 128); [|destruct (N.ltb_spec n 256); [|destruct (N.ltb_spec n 65536)]].
  - cbn [app read_length]. rewrite to_N_u8 by lia. by rewrite (proj2 (N.ltb_lt n 128)).
  - apply (read_length_long x81 [u8 n]); [done|done| |done|change (1 <= n); lia].
    unfold be_decode. cbn [fold_left]. rewrite to_N_u8; lia.
  - apply (read_length_long x82 [u8 (n / 256); u8 (n mod 256)]);
      [done|done| |lia|change (256 <= n); lia].
    assert (n / 256 < 256) by (apply N.Div0.div_lt_upper_bound; lia).
    unfold be_decode. cbn [fold_left]. rewrite !to_N_u8 by done.
    pose proof (N.div_mod n 256 ltac:(done)). lia.
  - apply (read_length_long x83 [u8 (n / 65536); u8 ((n / 256) mod 256); u8 (n mod 256)]);
      [done|done| |lia|change (65536 <= n); lia].
    assert (n / 65536 < 256) by (apply N.Div0.div_lt_upper_bound; lia).
    unfold be_decode. cbn [fold_left]. rewrite !to_N_u8 by done. div_lia.
Qed.

Lemma read_tlv_tlv tag content rest :
  len content < 2 ^ 24 -> read_tlv (tlv tag content ++ rest) = Some (tag, content, rest).
Proof.
  intros Hl. unfold tlv, read_tlv. cbn [app]. rewrite <- app_assoc, read_length_encode by done. cbn.
  rewrite option_guard_True by (rewrite len_app; lia). cbn. unfold len. rewrite Nat2N.id.
  by rewrite take_app_length, drop_app_length.
Qed.

Lemma read_tlv_end tag content :
  len content < 2 ^ 24 -> read_tlv (tlv tag content) = Some (tag, content, []).
Proof. intros. rewrite <- (app_nil_r (tlv tag content)). by apply read_tlv_tlv. Qed.

Lemma tlv_short tag content : len content < 128 -> tlv tag content = [tag; u8 (len content)] ++ content.
Proof. intros Hl. unfold tlv, encode_der_length. by rewrite (proj2 (N.ltb_lt _ _) Hl). Qed.

(** What the encoder of tagged values writes is read back exactly, whatever
    follows it, up to contents of 16 MiB, and the length takes its shortest
    form. *)
Theorem tlv_roundtrip tag content rest :
  len content < 2 ^ 24 -> read_tlv (tlv tag content ++ rest) = Some (tag, content, rest).
Proof. apply read_tlv_tlv. Qed.

(** ** Signatures *)

(** The contents of a DER integer that is not negative, in its shortest form. *)
Definition minimal_uint (c : bytes) : Prop :=
  exists b r, c = b :: r /\ Byte.to_N b < 128 /\
    (b = x00 -> r = [] \/ exists b' r', r = b' :: r' /\ 128 <= Byte.to_N b').

Lemma strip_zeros_value v : be_decode (strip_zeros v) = be_decode v.
Proof.
  induction v as [|b v IH]; [done|]. cbn [strip_zeros]. destruct v as [|b' v]; [done|].
  case_bool_decide as Hb; [|done]. rewrite IH, (be_decode_cons b). subst b.
  change (Byte.to_N x00) with 0. lia.
Qed.

Lemma strip_zeros_shape v :
  v <> [] -> exists b r, strip_zeros v = b :: r /\ (b = x00 -> r = []) /\ len (strip_zeros v) <= len v.
Proof.
  induction v as [|b v IH]; [done|]. intros _. cbn [strip_zeros]. destruct v as [|b' v].
  - exists b, []. split_and!; [done|done|lia].
  - case_bool_decide as Hb.
    + destruct IH as (b0 & r & Hs & Hr & Hl); [done|]. exists b0, r. split_and!; try done.
      rewrite (len_cons b). lia.
    + exists b, (b' :: v). split_and!; [done|by intros|lia].
Qed.

Lemma high_bit b : negb (N.land (Byte.to_N b) 0x80 =? 0) = (128 <=? Byte.to_N b).
Proof. by destruct b. Qed.

Lemma encode_integer_spec v :
  v <> [] -> len v < 127 ->
  exists c, encode_integer v = tlv x02 c /\ minimal_uint c /\ be_decode c = be_decode v /\
    len c <= len v + 1.
Proof.
  intros Hv Hl. destruct (strip_zeros_shape v Hv) as (b & r & Hs & Hz & Hle).
  pose proof (strip_zeros_value v) as Hval. unfold encode_integer. rewrite Hs in *.
  cbn [head from_option]. rewrite high_bit. pose proof (Byte.to_N_bounded b).
  destruct (N.leb_spec 128 (Byte.to_N b)) as [Hb|Hb].
  - exists (x00 :: b :: r). rewrite tlv_short by (rewrite len_cons; lia). split_and!.
    + rewrite (len_cons x00), N.add_comm. done.
    + exists x00, (b :: r). split_and!; [done|done|]. right. by exists b, r.
    + rewrite be_decode_cons. change (Byte.to_N x00) with 0. lia.
    + rewrite len_cons. lia.
  - exists (b :: r). rewrite N.add_0_r, tlv_short by lia. split_and!; [done| |done|lia].
    exists b, r. split_and!; [done|done|]. intros ->. left. by apply Hz.
Qed.

(** A DER sequence of two minimal non-negative integers, [r] and [s]. *)
Definition der_signature (der : bytes) (r s : N) : Prop :=
  exists body rb rest sb, read_tlv der = Some (x30, body, []) /\
    read_tlv body = Some (x02, rb, rest) /\ read_tlv rest = Some (x02, sb, []) /\
    minimal_uint rb /\ minimal_uint sb /\ be_decode rb = r /\ be_decode sb = s.

Lemma ecdsa_raw_spec raw :
  len raw = 64 ->
  der_signature (ecdsa_raw_to_der raw) (be_decode (take 32 raw)) (be_decode (drop 32 raw)) /\
  len (ecdsa_raw_to_der raw) <= 72.
Proof.
  intros Hl.
  assert (Hn : length raw = 64%nat) by (unfold len in Hl; lia).
  assert (len (take 32 raw) = 32 /\ len (drop 32 raw) = 32) as [H1 H2].
  { unfold len. rewrite length_take, length_drop, Hn. done. }
  destruct (encode_integer_spec (take 32 raw)) as (r & Er & Hr & Hvr & Hlr);
    [by intros E; rewrite E in H1|lia|].
  destruct (encode_integer_spec (drop 32 raw)) as (s & Es & Hs & Hvs & Hls);
    [by intros E; rewrite E in H2|lia|].
  assert (forall c, len c <= 33 -> len (tlv x02 c) = len c + 2) as Htlv.
  { intros c Hc. rewrite tlv_short by lia. cbn [app]. rewrite !len_cons. lia. }
  pose proof (Htlv r ltac:(lia)). pose proof (Htlv s ltac:(lia)).
  assert (len (tlv x02 r ++ tlv x02 s) <= 70) as Hb by (rewrite len_app; lia).
  assert (ecdsa_raw_to_der raw = tlv x30 (tlv x02 r ++ tlv x02 s)) as E.
  { unfold ecdsa_raw_to_der. rewrite Hl, Er, Es. rewrite (tlv_short x30), len_app by lia. done. }
  rewrite E. split; [|rewrite tlv_short by lia; cbn [app]; rewrite !len_cons; lia].
  exists (tlv x02 r ++ tlv x02 s), r, (tlv x02 s), s. split_and!; try done.
  - apply read_tlv_end. lia.
  - apply read_tlv_tlv. lia.
  - apply read_tlv_end. lia.
Qed.

(** [ecdsa_raw_to_der] writes the DER form of a signature: from the 64 bytes of
    the two numbers it makes one sequence, with nothing after it, of two
    integers in their shortest non-negative form whose values are the big-endian
    numbers given; it has at most 72 bytes, so that its one-byte lengths are
    never truncated. *)
Theorem ecdsa_raw_to_der_correct raw :
  len raw = 64 ->
  der_signature (ecdsa_raw_to_der raw) (be_decode (take 32 raw)) (be_decode (drop 32 raw)) /\
  len (ecdsa_raw_to_der raw) <= 72.
Proof. apply ecdsa_raw_spec. Qed.

(** ** Times *)

Definition digit (c : Ascii.ascii) : option N :=
  let n := Ascii.N_of_ascii c in
  guard (48 <= n <= 57) ;; Some (n - 48).
Definition two_digits (a b : Ascii.ascii) : option N :=
  d ← digit a; e ← digit b; Some (10 * d + e).

(** UTCTime: two-digit years from 50 on are of the last century. *)
Definition read_utc_time (s : string) : option DateTime :=
  match s with
  | String y1 (String y2 (String m1 (String m2 (String d1 (String d2
      (String h1 (String h2 (String i1 (String i2 (String s1 (String s2
        (String z EmptyString)))))))))))) =>
      guard (z = Ascii.ascii_of_N 90) ;;
      y ← two_digits y1 y2; m ← two_digits m1 m2; d ← two_digits d1 d2;
      h ← two_digits h1 h2; mi ← two_digits i1 i2; sec ← two_digits s1 s2;
      Some (mkDateTime (if y <? 50 then 2000 + y else 1900 + y) m d h mi sec)
  | _ => None
  end.

Lemma pad2_digits n :
  n < 100 -> exists a b, pad2 n = String a (String b EmptyString) /\ two_digits a b = Some n.
Proof.
  intros Hn.
  assert (forallb (fun n => match pad2 n with
      | String a (String b EmptyString) => bool_decide (two_digits a b = Some n)
      | _ => false end) (range 0 100) = true) as H by (vm_compute; reflexivity).
  rewrite forallb_forall in H. specialize (H n). assert (In n (range 0 100)) as Hin.
  { apply list_elem_of_In, list_elem_of_fmap. exists (N.to_nat n).
    split; [lia|apply elem_of_seq; lia]. }
  specialize (H Hin). destruct (pad2 n) as [|a [|b []]]; try done.
  exists a, b. split; [done|]. by apply bool_decide_eq_true in H.
Qed.

(** The conversion agrees with the one the rest of the code uses. *)
Lemma civil_from_days_ymd n :
  let '(y, m, d) := days_to_ymd n in civil_from_days n = (Z.of_N y, Z.of_N m, Z.of_N d).
Proof.
  unfold days_to_ymd, civil_from_days.
  replace (Z.of_N n + 719468)%Z with (Z.of_N (n + 719468)) by lia.
  set (z := n + 719468). set (era := z / 146097).
  assert (Hera : (Z.of_N z / 146097)%Z = Z.of_N era) by (unfold era; by rewrite N2Z.inj_div).
  assert (Hdoe : (Z.of_N z mod 146097)%Z = Z.of_N (z - era * 146097)).
  { unfold era. rewrite N.mul_comm, <- N.Div0.mod_eq. by rewrite N2Z.inj_mod. }
  rewrite Hera, Hdoe. set (doe := z - era * 146097).
  assert (doe < 146097) as Hd.
  { unfold doe, era. rewrite N.mul_comm, <- N.Div0.mod_eq. by apply N.mod_lt. }
  clearbody doe era. clear Hera Hdoe z.
  set (yoe := (doe - doe / 1460 + doe / 36524 - doe / 146096) / 365).
  assert (((Z.of_N doe - Z.of_N doe / 1460 + Z.of_N doe / 36524 - Z.of_N doe / 146096) / 365)%Z
    = Z.of_N yoe) as Hyoe by (unfold yoe; div_lia).
  rewrite Hyoe.
  set (doy := doe - (365 * yoe + yoe / 4 - yoe / 100)).
  assert (365 * yoe + yoe / 4 - yoe / 100 <= doe) as Hle.
  { pose proof (year_of_era_bounds doe Hd) as [[Hb _] _]. fold (year_of_era doe) in yoe.
    unfold year_start in Hb. fold yoe in Hb. clearbody yoe. revert Hb. generalize (yoe / 400). lia. }
  assert ((Z.of_N doe - (365 * Z.of_N yoe + Z.of_N yoe / 4 - Z.of_N yoe / 100))%Z = Z.of_N doy)
    as Hdoy by (unfold doy; clearbody yoe; div_lia).
  rewrite Hdoy. clearbody doy yoe. clear Hyoe Hdoy Hle Hd doe.
  set (mp := (5 * doy + 2) / 153).
  assert (((5 * Z.of_N doy + 2) / 153)%Z = Z.of_N mp) as Hmp by (unfold mp; div_lia).
  rewrite Hmp.
  assert ((Z.of_N doy - (153 * Z.of_N mp + 2) / 5 + 1)%Z = Z.of_N (doy - (153 * mp + 2) / 5 + 1))
    as -> by (unfold mp; div_lia).
  replace (if (Z.of_N mp <? 10)%Z then (Z.of_N mp + 3)%Z else (Z.of_N mp - 9)%Z)
    with (Z.of_N (if mp <? 10 then mp + 3 else mp - 9))
    by (destruct (N.ltb_spec mp 10), (Z.ltb_spec (Z.of_N mp) 10); lia).
  generalize (if mp <? 10 then mp + 3 else mp - 9). intros m.
  destruct (N.leb_spec m 2), (Z.leb_spec (Z.of_N m) 2); try lia; f_equal; f_equal; lia.
Qed.

(** The validity a generated certificate is given is the one intended: up to
    the end of 2049 the text of a time, read as a UTCTime, is that time; so the
    two times of the encoded validity are five minutes before and two years after
    the time of generation whenever the second lies before 2050. *)
Theorem utc_time_roundtrip secs :
  secs < 2524608000 -> read_utc_time (format_utc_time secs) = Some (civil secs).
Proof.
  intros Hs. unfold format_utc_time, civil.
  pose proof (days_to_ymd_counts (secs / 86400)) as Hc.
  pose proof (civil_from_days_ymd (secs / 86400)) as Hz.
  destruct (days_to_ymd (secs / 86400)) as [[y m] d]. rewrite Hz. destruct Hc as (Hy & [Hm Hd] & Hn).
  assert (y <= 2049) as Hy2.
  { destruct (N.le_gt_cases y 2049) as [|Hgt]; [done|].
    assert (days_of_years 2050 = 29220) as E by (vm_compute; reflexivity).
    pose proof (days_of_years_mono 2050 y). pose proof (days_of_date_year y m d).
    assert (secs / 86400 < 29220) by (apply N.Div0.div_lt_upper_bound; lia). lia. }
  assert (month_length y m <= 31) by (unfold month_length; repeat case_match; lia).
  destruct (time_of_day (secs mod 86400)) as (? & ? & ? & _); [by apply N.mod_lt|].
  replace (Z.to_N (Z.of_N y mod 100)) with (y mod 100) by div_lia. rewrite !N2Z.id.
  destruct (pad2_digits (y mod 100)) as (y1 & y2 & -> & Ey); [by apply N.mod_lt|].
  destruct (pad2_digits m) as (m1 & m2 & -> & Em); [lia|].
  destruct (pad2_digits d) as (d1 & d2 & -> & Ed); [lia|].
  destruct (pad2_digits (secs mod 86400 / 3600)) as (h1 & h2 & -> & Eh); [lia|].
  destruct (pad2_digits (secs mod 86400 mod 3600 / 60)) as (i1 & i2 & -> & Ei); [lia|].
  destruct (pad2_digits (secs mod 86400 mod 60)) as (s1 & s2 & -> & Es); [lia|].
  cbv [String.append]. cbn [read_utc_time]. rewrite option_guard_True by done.
  cbn [mbind option_bind]. rewrite Ey, Em, Ed, Eh, Ei, Es. cbn [mbind option_bind].
  do 2 f_equal. destruct (N.ltb_spec (y mod 100) 50); div_lia.
Qed.

(** From 2050 on it is read a century early. *)
Lemma utc_time_wraps : read_utc_time (format_utc_time 2524608000) = Some (mkDateTime 1950 1 1 0 0 0).
Proof. vm_compute. reflexivity. Qed.

(** ** Witnesses *)

Lemma tlv_roundtrip_witness :
  tlv x31 (replicate 200 x61) = [x31; x81; xc8] ++ replicate 200 x61 /\
  read_tlv (tlv x31 (replicate 200 x61) ++ [x05]) = Some (x31, replicate 200 x61, [x05]).
Proof.
  split; [vm_compute; reflexivity|]. apply (tlv_roundtrip x31 (replicate 200 x61) [x05]).
  vm_compute. reflexivity.
Defined.

Lemma ecdsa_raw_to_der_correct_witness :
  der_signature (ecdsa_raw_to_der (replicate 32 x00 ++ replicate 31 x00 ++ [x80])) 0 128.
Proof.
  exact (proj1 (ecdsa_raw_to_der_correct (replicate 32 x00 ++ replicate 31 x00 ++ [x80]) eq_refl)).
Defined.

Lemma utc_time_roundtrip_witness :
  format_utc_time 1709210096 = "240229123456Z"%string /\
  read_utc_time (format_utc_time 1709210096) = Some (civil 1709210096).
Proof.
  split; [vm_compute; reflexivity|]. apply (utc_time_roundtrip 1709210096). reflexivity.
Defined.
