(* ===== verification/SealCreate.v ===== *)
(** * SealCreate: making the CMS seal of a bundle (hoike-sign/src/seal.rs, with the
    key files of keyfile.rs and the ML-DSA keys of ml_dsa_bridge.rs)

    Creation of the detached CMS signature over a manifest, the preflight of seal
    material, the proof that signing and sealing keys differ, and the policy on
    configured material.  Main results: a created seal is one the verifier of
    [Seal] accepts, accepted material is current and makes such seals, and
    a signing key that passes is not the seal key. *)

From stdpp Require Import base tactics list gmap strings.
From Stdlib Require Import NArith Lia.
From S2P Require Import Prelude Crates Text AhuError CoreError Storage SignError Source.
From S2P Require Import Seal SealDer Times.
Local Open Scope N_scope.

(** The signing side of the crates [p256] and [ml-dsa], and the encoders of [cms],
    [der] and [x509-cert]. *)
Class SealMaking {SC : SealCrates} := {
  P256SigningKey : Type;
  (** [from_pkcs8_pem], [from_pkcs8_der] and the fixed key of [demo_ecdsa_p256_key] *)
  p256_from_pkcs8_pem : bytes -> result string P256SigningKey;
  p256_from_pkcs8_der : bytes -> result string P256SigningKey;
  p256_demo_key : P256SigningKey;
  p256_verifying_key : P256SigningKey -> P256Key;
  P256Key_eq_dec :: EqDecision P256Key;
  p256_to_sec1_bytes : P256Key -> bytes;
  (** [sign_prehash(..).to_bytes()] *)
  p256_sign_prehash : P256SigningKey -> bytes -> result string bytes;
  (** [try_sign(..)] as DER, over the SHA-256 of the message *)
  p256_try_sign : P256SigningKey -> bytes -> result string bytes;
  (** [signature_algorithm_identifier] of its keys *)
  p256_signature_algorithm : result string AlgorithmIdentifier;
  MlSigningKey : Type;
  ml_from_pkcs8_der : MlDsa -> bytes -> result string MlSigningKey;
  ml_from_seed : MlDsa -> bytes -> MlSigningKey;
  ml_verifying_key_bytes : MlDsa -> MlSigningKey -> bytes;
  ml_try_sign : MlDsa -> MlSigningKey -> bytes -> result string bytes;
  (** encoders *)
  oid_to_der : string -> result string bytes;
  seal_octet_string_to_der : bytes -> result string bytes;
  (** [Attributes::try_from], which puts the attributes in the order of their encodings *)
  attributes_try_from : list Attribute -> result string (list Attribute);
  (** [SignerIdentifier::from(&cert)] *)
  signer_identifier : Certificate -> SignerIdentifier;
  signed_data_to_der : SignedData Certificate -> result string bytes;
  content_info_to_der : ContentInfo -> result string bytes;
}.

Inductive SealKey `{SealMaking} : Type :=
| SealEcdsaP256 (key : P256SigningKey)
| SealMlDsa (P : MlDsa) (key : MlSigningKey).

Definition SEAL_PREFLIGHT_PAYLOAD : bytes := text "hoike:seal-preflight:v1".
Definition SEAL_OCSP_KEY_SEPARATION_MESSAGE : bytes := text "hoike:seal-ocsp-key-separation:v1".

Section create.
Context {CR : Crates} {SC : SealCrates} {SM : SealMaking}.

(** [.map_err(|e| SignError::Seal(..))]. *)
Definition seal_of {A} (r : result string A) : sign_result A := map_err SignSeal r.

Definition sign_attrs (key : SealKey) (attrs_der : bytes) : sign_result bytes :=
  match key with
  | SealEcdsaP256 key =>
      let hash := sha256 attrs_der in
      sig ← seal_of (p256_sign_prehash key hash);
      Ok (ecdsa_raw_to_der sig)
  | SealMlDsa P key => seal_of (ml_try_sign P key attrs_der)
  end.

Definition algorithm_oid (key : SealKey) : string :=
  match key with
  | SealEcdsaP256 _ => ID_ECDSA_SHA256_V
  | SealMlDsa P _ => ml_dsa_oid P
  end.

Definition digest_algorithm_oid (key : SealKey) : string := ID_SHA256.

Definition build_content_type_attr : sign_result Attribute :=
  oid_der ← seal_of (oid_to_der ID_DATA);
  Ok (mkAttribute ID_CONTENT_TYPE [oid_der]).

Definition build_message_digest_attr (digest : bytes) : sign_result Attribute :=
  octet_der ← seal_of (seal_octet_string_to_der digest);
  Ok (mkAttribute ID_MESSAGE_DIGEST [octet_der]).

(** [create_cms_seal]; the failures of the one-element sets are those of the encoder. *)
Definition create_cms_seal (manifest_bytes : bytes) (seal_key : SealKey) (seal_cert_der : bytes) :
    sign_result bytes :=
  let manifest_digest := sha256 manifest_bytes in
  cert ← seal_of (cert_from_der seal_cert_der);
  content_type_attr ← build_content_type_attr;
  message_digest_attr ← build_message_digest_attr manifest_digest;
  signed_attrs ← seal_of (attributes_try_from [content_type_attr; message_digest_attr]);
  signed_attrs_der ← seal_of (signed_attrs_to_der signed_attrs);
  sig_bytes ← sign_attrs seal_key signed_attrs_der;
  let signer_info := mkSignerInfo (signer_identifier cert) (digest_algorithm_oid seal_key)
    (Some signed_attrs) (algorithm_oid seal_key) sig_bytes in
  let signed_data := mkSignedData [ID_SHA256] ID_DATA None (Some [Some cert]) [signer_info] in
  signed_data_der ← seal_of (signed_data_to_der signed_data);
  seal_of (content_info_to_der (mkContentInfo ID_SIGNED_DATA signed_data_der)).

(** [validate_seal_materials]. *)
Definition validate_seal_materials (key : SealKey) (cert_der : bytes) (now : N) : sign_result unit :=
  seal ← create_cms_seal SEAL_PREFLIGHT_PAYLOAD key cert_der;
  map_err (fun _ => SignSeal "seal material preflight")
    (verify_seal_with_pins SEAL_PREFLIGHT_PAYLOAD seal [cert_der] now) ;;
  Ok tt.

(** A software signing key of the OCSP side. *)
Inductive SoftwareSigner := EcdsaSigner (key : P256SigningKey) | MlDsaSigner (P : MlDsa) (key : MlSigningKey).

(** [ensure_distinct_ecdsa_seal_key] for a software key. *)
Definition ensure_distinct_ecdsa_seal_key (signer : P256SigningKey) (seal : SealKey) :
    sign_result unit :=
  match seal with
  | SealEcdsaP256 key =>
      let seal_verifying := p256_verifying_key key in
      sig ← seal_of (p256_try_sign signer SEAL_OCSP_KEY_SEPARATION_MESSAGE);
      der_sig ← seal_of (p256_signature_from_bytes sig);
      if p256_verify_prehash seal_verifying (sha256 SEAL_OCSP_KEY_SEPARATION_MESSAGE) der_sig
      then Err (SignSeal "the OCSP signing key and the seal key are the same key")
      else Ok tt
  | SealMlDsa _ _ => Ok tt
  end.

(** ** Key files *)

(** The state of the loop of keyfile's [pem_to_der]: [collecting] and [b64]. *)
Fixpoint pem_body (label : bytes) (collecting : bool) (b64 : bytes) (ls : list bytes) :
    sign_result (bool * bool * bytes) :=
  match ls with
  | [] => Ok (collecting, false, b64)
  | line :: ls =>
      if starts_with (text "-----BEGIN") line then
        if negb (contains label line) then Err (KeyLoad "unexpected PEM label")
        else pem_body label true b64 ls
      else if starts_with (text "-----END") line then
        if negb (contains label line) then Err (KeyLoad "PEM label mismatch")
        else Ok (collecting, true, b64)
      else pem_body label collecting (if collecting then b64 ++ trim line else b64) ls
  end.

Definition key_pem_to_der (base64_decode : bytes -> result string bytes) (pem_data : bytes)
    (expected_label : bytes) : sign_result bytes :=
  ensure (utf8_valid pem_data) (KeyLoad "key file is not valid UTF-8") ;;
  '(collecting, found_end, b64) ← pem_body expected_label false [] (lines pem_data);
  ensure collecting (KeyLoad "no PEM header found in key file") ;;
  ensure found_end (KeyLoad "PEM is truncated: found BEGIN but no END marker") ;;
  map_err KeyLoad (base64_decode b64).

Definition load_ecdsa_p256_key (p : path) : io SignError P256SigningKey :=
  data ← io_map_err (fun _ => KeyLoad "failed to read key file") (read_file p);
  io_lift (if starts_with (text "-----BEGIN") data then
    ensure (utf8_valid data) (KeyLoad "key file is not valid UTF-8") ;;
    map_err KeyLoad (p256_from_pkcs8_pem data)
  else map_err KeyLoad (p256_from_pkcs8_der data)).

(** [load_ml_dsa_signer_from_pkcs8_der]: the first parameter set that accepts the key. *)
Fixpoint first_ml_dsa (Ps : list MlDsa) (der : bytes) : option (MlDsa * MlSigningKey) :=
  match Ps with
  | [] => None
  | P :: Ps => match ml_from_pkcs8_der P der with
               | Ok sk => Some (P, sk)
               | Err _ => first_ml_dsa Ps der
               end
  end.
Definition load_ml_dsa_signer_from_pkcs8_der (der_bytes : bytes) :
    result string (MlDsa * MlSigningKey) :=
  ok_or (first_ml_dsa [MlDsa44; MlDsa65; MlDsa87] der_bytes)
    "key does not contain a valid ML-DSA PKCS#8 private key"%string.

Definition load_ml_dsa_key (base64_decode : bytes -> result string bytes) (p : path) :
    io SignError (MlDsa * MlSigningKey) :=
  data ← io_map_err (fun _ => KeyLoad "failed to read key file") (read_file p);
  der_bytes ← io_lift (if starts_with (text "-----BEGIN") data
                       then key_pem_to_der base64_decode data (text "PRIVATE KEY") else Ok data);
  io_lift (map_err KeyLoad (load_ml_dsa_signer_from_pkcs8_der der_bytes)).

(** [MlDsaSignerVariant::algorithm_name] and [MlDsaSignerVariant::demo] with a seed. *)
Definition algorithm_name (P : MlDsa) : string :=
  match P with
  | MlDsa44 => "ml-dsa-44" | MlDsa65 => "ml-dsa-65" | MlDsa87 => "ml-dsa-87"
  end%string.
Definition ml_dsa_demo (sig_alg : string) (seed : bytes) : result string (MlDsa * MlSigningKey) :=
  if String.eqb sig_alg "ml-dsa-44" then Ok (MlDsa44, ml_from_seed MlDsa44 seed)
  else if String.eqb sig_alg "ml-dsa-65" then Ok (MlDsa65, ml_from_seed MlDsa65 seed)
  else if String.eqb sig_alg "ml-dsa-87" then Ok (MlDsa87, ml_from_seed MlDsa87 seed)
  else Err ("unknown ML-DSA variant: " +:+ sig_alg).

Definition ml_dsa_signature_size (variant : string) : N :=
  if String.eqb variant "ml-dsa-44" then 2420
  else if String.eqb variant "ml-dsa-65" then 3309
  else if String.eqb variant "ml-dsa-87" then 4627 else 0.

(** ** Certificates *)

(** The base64 text of a PEM file: its lines that are not delimiters, trimmed. *)
Definition pem_text (pem : bytes) : bytes :=
  mjoin (trim <$> List.filter (fun line => negb (starts_with (text "-----") line)) (lines pem)).

(** The DER of a certificate file, PEM or DER; [err] makes the caller's errors. *)
Definition certificate_der {E} (base64_decode : bytes -> result string bytes) (err : string -> E)
    (data : bytes) : result E bytes :=
  if starts_with (text "-----BEGIN") data then
    ensure (utf8_valid data) (err "PEM is not valid UTF-8"%string) ;;
    ensure (contains (text "CERTIFICATE") (default [] (head (lines data))))
      (err "unexpected PEM label"%string) ;;
    map_err err (base64_decode (pem_text data))
  else Ok data.

Definition load_seal_certificate (base64_decode : bytes -> result string bytes) (p : path) :
    io SignError bytes :=
  data ← io_map_err (fun _ => SignSeal "read seal certificate") (read_file p);
  der ← io_lift (certificate_der base64_decode SignSeal data);
  io_lift (seal_of (cert_from_der der)) ;;
  mret der.

(** The encodings of the ML-DSA identifiers. *)
Definition ml_dsa_oid_der (P : MlDsa) : bytes :=
  [x06; x09; x60; x86; x48; x01; x65; x03; x04; x03;
   match P with MlDsa44 => x11 | MlDsa65 => x12 | MlDsa87 => x13 end].

Definition seal_public_key (key : SealKey) : bytes * bytes :=
  match key with
  | SealEcdsaP256 key => (p256_to_sec1_bytes (p256_verifying_key key), encode_ecdsa_alg_id)
  | SealMlDsa P key => (ml_verifying_key_bytes P key, encode_ml_dsa_alg_id (ml_dsa_oid_der P))
  end.

(** The certificate that is signed, for a validity. *)
Definition seal_tbs (key : SealKey) (validity : bytes) : bytes :=
  let '(pub_key_bytes, alg_id_der) := seal_public_key key in
  let spki_der := match key with
                  | SealEcdsaP256 _ => encode_ecdsa_spki pub_key_bytes
                  | SealMlDsa _ _ => encode_ml_dsa_spki pub_key_bytes alg_id_der
                  end in
  let name := encode_cn (text "hoike-seal") in
  wrap_seq ([xa0; x03; x02; x01; x02] ++ [x02; x01; x01] ++ alg_id_der ++ name ++ validity ++
            name ++ spki_der).

Definition generate_seal_cert_for_key (key : SealKey) : io SignError bytes :=
  t ← read_clock;
  now ← io_lift (ok_or t (SignSeal "clock"));
  let tbs_seq := seal_tbs key (encode_validity now) in
  sig_bytes ← io_lift (sign_attrs key tbs_seq);
  mret (wrap_seq (tbs_seq ++ (seal_public_key key).2 ++ encode_bitstring sig_bytes)).

(** The choice of [load_or_generate_seal_material]; [ephemeral] is the key
    [demo_ephemeral_seal_key] draws. *)
Definition select_seal_material (base64_decode : bytes -> result string bytes)
    (seal_key seal_cert : option path) (demo : bool) (ephemeral : P256SigningKey) :
    io string (SealKey * bytes) :=
  match seal_key, seal_cert with
  | Some key_path, Some cert_path =>
      ecdsa_key ← io_map_err (fun _ => "load seal key"%string) (load_ecdsa_p256_key key_path);
      cert ← io_map_err (fun _ => "load seal cert"%string)
               (load_seal_certificate base64_decode cert_path);
      mret (SealEcdsaP256 ecdsa_key, cert)
  | Some _, None | None, Some _ =>
      io_fail "seal_key and seal_cert must be configured together"%string
  | None, None =>
      if negb demo then
        io_fail "production signing requires a persistent seal_key and seal_cert pair"%string
      else
        cert ← io_map_err (fun _ => "generate demo seal cert"%string)
                 (generate_seal_cert_for_key (SealEcdsaP256 ephemeral));
        mret (SealEcdsaP256 ephemeral, cert)
  end.

Definition load_or_generate_seal_material (base64_decode : bytes -> result string bytes)
    (seal_key seal_cert : option path) (demo : bool) (ephemeral : P256SigningKey) :
    io string (SealKey * bytes) :=
  material ← select_seal_material base64_decode seal_key seal_cert demo ephemeral;
  now ← io_map_err (fun _ => "clock"%string) unix_now;
  io_lift (map_err (fun _ => "seal material preflight"%string)
             (validate_seal_materials material.1 material.2 now)) ;;
  mret material.
End create.

Section create_reads.
Context {CR : Crates} {SC : SealCrates} {SM : SealMaking}.

Lemma load_ecdsa_ticks p : ticks (load_ecdsa_p256_key p).
Proof. unfold load_ecdsa_p256_key. eauto with hoike. Qed.
Lemma load_seal_cert_ticks b64 p : ticks (load_seal_certificate b64 p).
Proof. unfold load_seal_certificate. eauto with hoike. Qed.
Lemma generate_seal_cert_ticks key : ticks (generate_seal_cert_for_key key).
Proof. unfold generate_seal_cert_for_key. eauto with hoike. Qed.

Lemma load_ecdsa_reads p : reads_only (load_ecdsa_p256_key p).
Proof. unfold load_ecdsa_p256_key. eauto with hoike. Qed.
Lemma load_ml_dsa_reads b64 p : reads_only (load_ml_dsa_key b64 p).
Proof. unfold load_ml_dsa_key. eauto with hoike. Qed.
Lemma load_ecdsa_passive p : passive (load_ecdsa_p256_key p).
Proof. split; [apply load_ecdsa_reads|apply load_ecdsa_ticks]. Qed.
Lemma load_ml_dsa_passive b64 p : passive (load_ml_dsa_key b64 p).
Proof. split; [apply load_ml_dsa_reads|]. unfold load_ml_dsa_key. eauto 10 with hoike. Qed.
Lemma load_seal_cert_reads b64 p : reads_only (load_seal_certificate b64 p).
Proof. unfold load_seal_certificate. eauto with hoike. Qed.
Lemma generate_seal_cert_reads key : reads_only (generate_seal_cert_for_key key).
Proof. unfold generate_seal_cert_for_key. eauto with hoike. Qed.
End create_reads.
#[export] Hint Resolve load_ecdsa_reads load_ml_dsa_reads load_seal_cert_reads
  generate_seal_cert_reads load_ecdsa_ticks load_seal_cert_ticks generate_seal_cert_ticks : hoike.

Section material_reads.
Context {CR : Crates} {SC : SealCrates} {SM : SealMaking}.

Lemma select_material_reads b64 k c demo e : reads_only (select_seal_material b64 k c demo e).
Proof. unfold select_seal_material. destruct k, c, demo; cbn [negb]; eauto with hoike. Qed.
Lemma select_material_ticks b64 k c demo e : ticks (select_seal_material b64 k c demo e).
Proof. unfold select_seal_material. destruct k, c, demo; cbn [negb]; eauto with hoike. Qed.
Lemma seal_material_reads b64 k c demo e :
  reads_only (load_or_generate_seal_material b64 k c demo e).
Proof.
  unfold load_or_generate_seal_material. apply reads_bind; [apply select_material_reads|].
  eauto with hoike.
Qed.
End material_reads.
#[export] Hint Resolve select_material_reads select_material_ticks seal_material_reads : hoike.

(** ** Properties *)

(** Documented behaviour: encoders are inverted by the decoders the verifier uses,
    sets keep their elements, the identifier made from a certificate selects it,
    and a signature made with a key verifies under the key's public part, in any
    DER form of its two numbers. *)
Class SealMakingSpec {CR : Crates} {SC : SealCrates} (SM : SealMaking) : Prop := {
  oid_roundtrip oid b : oid_to_der oid = Ok b -> decode_oid b = Ok oid;
  seal_octet_string_roundtrip v b : seal_octet_string_to_der v = Ok b -> decode_octet_string b = Ok v;
  attributes_try_from_perm l l' : attributes_try_from l = Ok l' -> l' ≡ₚ l;
  signer_identifier_matches cert : matches_sid (signer_identifier cert) cert = true;
  signed_data_roundtrip sd b : signed_data_to_der sd = Ok b -> decode_signed_data b = Ok sd;
  content_info_roundtrip ci b :
    content_info_to_der ci = Ok b -> b <> [] /\ content_info_from_der b = Ok ci;
  p256_sign_length key h raw : p256_sign_prehash key h = Ok raw -> len raw = 64;
  p256_sign_verifies key h raw der :
    p256_sign_prehash key h = Ok raw ->
    der_signature der (be_decode (take 32 raw)) (be_decode (drop 32 raw)) ->
    exists sig, p256_signature_from_bytes der = Ok sig /\
      p256_verify_prehash (p256_verifying_key key) h sig = true;
  p256_try_sign_verifies key m der :
    p256_try_sign key m = Ok der -> exists sig, p256_signature_from_bytes der = Ok sig /\
      p256_verify_prehash (p256_verifying_key key) (sha256 m) sig = true;
  p256_signs_with_sha256 alg : p256_signature_algorithm = Ok alg -> ai_oid alg = ID_ECDSA_SHA256_V;
  ml_sign_verifies P key m b vk :
    ml_try_sign P key m = Ok b -> ml_dsa_key P (ml_verifying_key_bytes P key) = Some vk ->
    exists sig, ml_dsa_signature P b = Some sig /\ ml_dsa_verify P vk m sig = true;
}.

Section create_props.
Context {CR : Crates} {SC : SealCrates} {SM : SealMaking} {SS : SealMakingSpec SM}.

(** The certificate holds the public part of the key. *)
Definition key_matches (key : SealKey) (cert : Certificate) : Prop :=
  match key with
  | SealEcdsaP256 key =>
      exists params kb, tbs_spki cert = mkSubjectPublicKeyInfo
          (mkAlgorithmIdentifier ID_EC_PUBLIC_KEY (Some params)) (Some kb) /\
        decode_oid params = Ok ID_P256 /\ p256_from_sec1_bytes kb = Ok (p256_verifying_key key)
  | SealMlDsa P key =>
      exists params vk, tbs_spki cert = mkSubjectPublicKeyInfo
          (mkAlgorithmIdentifier (ml_dsa_oid P) params) (Some (ml_verifying_key_bytes P key)) /\
        ml_dsa_key P (ml_verifying_key_bytes P key) = Some vk
  end.

Lemma sign_attrs_signed key cert m sig :
  key_matches key cert -> sign_attrs key m = Ok sig -> signed_by cert (algorithm_oid key) m sig.
Proof.
  destruct key as [key|P key]; cbn [key_matches sign_attrs algorithm_oid].
  - intros (params & kb & Hs & Ho & Hk) (raw & Hr%map_err_Ok & [= <-])%bind_Ok.
    pose proof (p256_sign_length _ _ _ Hr) as Hl. destruct (ecdsa_raw_spec raw Hl) as [Hd _].
    destruct (p256_sign_verifies _ _ _ _ Hr Hd) as (s & H1 & H2). by eapply by_ecdsa.
  - intros (params & vk & Hs & Hk) Hsig%map_err_Ok.
    destruct (ml_sign_verifies _ _ _ _ _ Hsig Hk) as (s & H1 & H2). by eapply (by_ml_dsa _ _ _ _ P).
Qed.

Lemma attributes_perm l l' oid : l' ≡ₚ l -> attributes l' oid ≡ₚ attributes l oid.
Proof.
  unfold attributes. induction 1 as [|x l l' _ IH|x y l|l1 l2 l3 _ IH1 _ IH2]; cbn; [done|..].
  - case_match; [by f_equiv|done].
  - repeat case_match; done || constructor.
  - by etrans.
Qed.

Lemma attributes_only l l' oid a v :
  l' ≡ₚ l -> attributes l oid = [a] -> at_values a = [v] -> only_value l' oid v.
Proof.
  intros Hp Ha Hv. exists a. split; [|done]. apply (attributes_perm _ _ oid) in Hp.
  rewrite Ha in Hp. by apply Permutation_singleton_r in Hp.
Qed.

Lemma create_cms_seal_Ok m key cert_der seal cert :
  create_cms_seal m key cert_der = Ok seal -> cert_from_der cert_der = Ok cert ->
  key_matches key cert -> seal <> [] /\ seal_authentic m seal cert.
Proof.
  unfold create_cms_seal, seal_of, build_content_type_attr, build_message_digest_attr. intros H Hc Hk.
  rewrite Hc in H. cbn [map_err mbind result_bind] in H. inv_ok.
  rename select (attributes_try_from _ = _) into Ha. apply attributes_try_from_perm in Ha.
  rename select (sign_attrs _ _ = _) into Hs. apply (sign_attrs_signed _ cert) in Hs; [|done].
  rename select (content_info_to_der _ = _) into Hci.
  apply content_info_roundtrip in Hci as [Hne Hci]. split; [done|].
  rename select (signed_data_to_der _ = _) into Hsd. apply signed_data_roundtrip in Hsd.
  rename select (seal_of (oid_to_der _) = _) into Ho. apply map_err_Ok, oid_roundtrip in Ho.
  rename select (seal_of (seal_octet_string_to_der _) = _) into Hd.
  apply map_err_Ok, seal_octet_string_roundtrip in Hd.
  eexists _, _, _, _, _, _, _. split_and!; try done.
  - by eapply attributes_only; [exact Ha|..].
  - by eapply attributes_only; [exact Ha|..].
  - eexists _, [], [Some cert]. split_and!; [done|done|]. exists [], []. split_and!; [done| |done].
    apply signer_identifier_matches.
Qed.

(** C20: sealing and verifying fit together.  A seal made for a manifest with a key
    and the certificate of that key is not empty and is accepted by the verifier
    pinned to the certificate, for this manifest and at every time the
    certificate's profile allows, and the verification reports that
    certificate; and no other manifest is accepted under it unless the two
    collide. *)
Theorem created_seal_verifies m key cert_der seal cert der now :
  create_cms_seal m key cert_der = Ok seal -> cert_from_der cert_der = Ok cert ->
  cert_to_der cert = Ok der -> key_matches key cert -> profile_ok cert now false ->
  verify_seal_with_pins m seal [cert_der] now =
    Ok (mkSealVerification true true (tbs_subject_text cert) (hex_encode (sha256 der))) /\
  forall m' v, verify_seal m' seal = Ok v -> sha256 m' = sha256 m.
Proof.
  intros Hs Hc Hd Hk Hp. destruct (create_cms_seal_Ok _ _ _ _ _ Hs Hc Hk) as [Hne Ha]. split.
  - apply verify_seal_with_pins_spec. split; [done|]. exists cert, der, [der].
    split_and!; try done; [|by left]. repeat constructor. by exists cert.
  - intros m' v (_ & cert' & Ha' & _)%verify_seal_Ok.
    by destruct (seal_authentic_digest _ _ _ _ _ Ha Ha') as [? _].
Qed.

(** What the preflight of seal material has seen. *)
Definition material_proved (key : SealKey) (cert_der : bytes) (now : N) : Prop :=
  exists seal cert der, create_cms_seal SEAL_PREFLIGHT_PAYLOAD key cert_der = Ok seal /\
    cert_from_der cert_der = Ok cert /\ cert_to_der cert = Ok der /\ profile_ok cert now false /\
    seal_authentic SEAL_PREFLIGHT_PAYLOAD seal cert.

Lemma create_cms_seal_cert m key cert_der seal :
  create_cms_seal m key cert_der = Ok seal -> exists cert, cert_from_der cert_der = Ok cert.
Proof. unfold create_cms_seal. intros (cert & Hc%map_err_Ok & _)%bind_Ok. eauto. Qed.

(** The certificate in a created seal is the one given. *)
Lemma created_signer m key cert_der seal cert signer :
  create_cms_seal m key cert_der = Ok seal -> cert_from_der cert_der = Ok cert ->
  seal_authentic m seal signer -> signer = cert.
Proof.
  unfold create_cms_seal, seal_of. intros H Hc. rewrite Hc in H.
  cbn [map_err mbind result_bind] in H. inv_ok.
  rename select (content_info_to_der _ = _) into Hci. apply content_info_roundtrip in Hci as [_ Hci].
  rename select (signed_data_to_der _ = _) into Hsd. apply signed_data_roundtrip in Hsd.
  intros (ci & sd & si & attrs & ad & dg & ct & Hc1 & _ & Hc2 & _ & _ & _ & _ & _ & _ &
    (si' & rest & certs & Hsi & Hcs & l1 & l2 & Heq & _) & _).
  rewrite Hci in Hc1. injection Hc1 as <-. cbn in Hc2. rewrite Hsd in Hc2. injection Hc2 as <-.
  cbn in Hcs. injection Hcs as <-. destruct l1 as [|x [|]]; by simplify_eq/=.
Qed.

Lemma validate_seal_materials_Ok key cert_der now u :
  validate_seal_materials key cert_der now = Ok u -> material_proved key cert_der now.
Proof.
  intros (seal & Hs & (v & Hv%map_err_Ok & _)%bind_Ok)%bind_Ok.
  apply verify_seal_with_pins_spec in Hv as (Hne & signer & der & pins & Ha & Hp & Hd & _).
  destruct (create_cms_seal_cert _ _ _ _ Hs) as [cert Hc].
  pose proof (created_signer _ _ _ _ _ _ Hs Hc Ha) as ->. by exists seal, cert, der.
Qed.

(** Seal material is only used when it is complete and proved.  If loading
    returns a key and a certificate, then either both files were configured, the
    key comes from the configured key file and the certificate parses, or neither
    was and the demonstration mode was asked for, with the key drawn for it; a
    half-configured pair and an unconfigured production signer always fail.
    In both cases the pair has just sealed the preflight payload, and
    verification pinned to the certificate accepted the seal: the certificate
    is within its validity and profile now, and nothing was written. *)
Theorem seal_material_proved b64 seal_key seal_cert demo ephemeral w key cert_der w' :
  load_or_generate_seal_material b64 seal_key seal_cert demo ephemeral w
    = (Done (key, cert_der), w') ->
  ((exists key_path cert_path k data, seal_key = Some key_path /\ seal_cert = Some cert_path /\
      key = SealEcdsaP256 k /\ w_files w !! key_path = Some data /\
      (p256_from_pkcs8_pem data = Ok k \/ p256_from_pkcs8_der data = Ok k)) \/
   seal_key = None /\ seal_cert = None /\ demo = true /\ key = SealEcdsaP256 ephemeral) /\
  (exists now, Some now ∈ w_clock w /\ material_proved key cert_der now) /\ same_files w w'.
Proof.
  intros Hrun. assert (same_files w w') as Hsf by (by eapply reads_Done; [|exact Hrun]; eauto with hoike).
  unfold load_or_generate_seal_material in Hrun. inv_io.
  rename select (validate_seal_materials _ _ _ = _) into Hv. apply validate_seal_materials_Ok in Hv.
  rename select (unix_now _ = _) into Hn. apply unix_now_Done in Hn as [_ Hn].
  rename select (select_seal_material _ _ _ _ _ _ = _) into Hsel.
  split; [|split; [|done]].
  - unfold select_seal_material in Hsel.
    destruct seal_key as [kp|], seal_cert as [cp|]; try done; [left|right].
    + inv_io. rename select (load_ecdsa_p256_key _ _ = _) into Hl.
      unfold load_ecdsa_p256_key in Hl. inv_io.
      rename select (read_file _ _ = _) into Hf. apply read_file_Done in Hf as [Hf _].
      eexists kp, cp, _, _. split_and!; try done. case_match; inv_ok; eauto.
    + destruct demo; [|done]. cbn [negb] in Hsel. inv_io.
      done.
  - eexists. split; [|exact Hv].
    destruct (ticks_Done _ _ _ _ (select_material_ticks _ _ _ _ _) Hsel) as [t Hsuf].
    rewrite Hsuf, Hn. set_solver.
Qed.

(** Signing and sealing never use one key.  When the separation check accepts an
    ECDSA key for OCSP responses next to a seal key, the seal key has another
    public key, under whatever names or files the two were configured. *)
Theorem separation_check_sound signer seal u :
  ensure_distinct_ecdsa_seal_key signer seal = Ok u ->
  forall key, seal = SealEcdsaP256 key -> p256_verifying_key key <> p256_verifying_key signer.
Proof.
  intros H key -> Heq. cbn in H. unfold seal_of in H. inv_ok.
  rename select (p256_try_sign _ _ = _) into Hs. rename select (p256_signature_from_bytes _ = _) into Hp.
  destruct (p256_try_sign_verifies _ _ _ Hs) as (sig & Hp' & Hv).
  rewrite Hp' in Hp. injection Hp as <-. rename select (_ = Ok tt) into Hn. by rewrite Heq, Hv in Hn.
Qed.
End create_props.

(** ** Witnesses *)

Module ToyMaking.
(** A certificate is a byte, which is also its key; a signature is the pair of the
    hash and the key, as numbers. *)
Definition der_numbers (der : bytes) : result string (N * N) :=
  match read_tlv der with
  | Some (x30, body, []) =>
      match read_tlv body with
      | Some (x02, r, rest) =>
          match read_tlv rest with
          | Some (x02, s, []) => Ok (be_decode r, be_decode s)
          | _ => Err "bad signature"%string
          end
      | _ => Err "bad signature"%string
      end
  | _ => Err "bad signature"%string
  end.

Definition attrs_of (b : bytes) : list Attribute :=
  [mkAttribute ID_CONTENT_TYPE [[x01]]; mkAttribute ID_MESSAGE_DIGEST [take 32 b]].
Definition data_of (b : bytes) : SignedData byte :=
  mkSignedData [ID_SHA256] ID_DATA None (Some [Some (default x00 (b !! 32%nat))])
    [mkSignerInfo (IssuerAndSerialNumber [] [default x00 (b !! 32%nat)]) ID_SHA256
       (Some (attrs_of b)) ID_ECDSA_SHA256_V (drop 33 b)].
(** The encoding keeps what varies: the digest, the certificate and the signature. *)
Definition encoded (sd : SignedData byte) : bytes :=
  match sd_certificates sd, sd_signer_infos sd with
  | Some [Some c], [si] =>
      mjoin (mjoin (at_values <$> drop 1 (default [] (si_signed_attrs si)))) ++ [c] ++ si_signature si
  | _, _ => []
  end.

#[export] Instance Attribute_eq_dec : EqDecision Attribute.
Proof. solve_decision. Defined.
#[export] Instance SignerIdentifier_eq_dec : EqDecision SignerIdentifier.
Proof. solve_decision. Defined.
#[export] Instance SignerInfo_eq_dec : EqDecision SignerInfo.
Proof. solve_decision. Defined.
#[export] Instance SignedData_eq_dec : EqDecision (SignedData byte).
Proof. solve_decision. Defined.
#[export] Instance ContentInfo_eq_dec : EqDecision ContentInfo.
Proof. solve_decision. Defined.

#[export] Instance seal_crates : SealCrates := {
  Certificate := byte;
  cert_from_der b := match b with [x] => Ok x | _ => Err "not a certificate"%string end;
  cert_from_pem b := match b with [x] => Ok x | _ => Err "not a certificate"%string end;
  cert_to_der c := Ok [c];
  tbs_to_der c := Ok [c];
  tbs_issuer _ := [];
  tbs_subject _ := [];
  tbs_subject_text _ := "CN=hoike-seal"%string;
  tbs_serial_number c := [c];
  tbs_not_before _ := 100;
  tbs_not_after _ := 200;
  tbs_extensions _ := None;
  get_key_usage c := Ok None;
  get_basic_constraints c := Ok None;
  get_subject_key_id _ := Ok None;
  tbs_signature _ := mkAlgorithmIdentifier ID_ECDSA_SHA256_V None;
  tbs_spki c := mkSubjectPublicKeyInfo (mkAlgorithmIdentifier ID_EC_PUBLIC_KEY (Some [x07])) (Some [c]);
  cert_signature_algorithm _ := mkAlgorithmIdentifier ID_ECDSA_SHA256_V None;
  cert_signature c := None;
  content_info_from_der b := Ok (mkContentInfo ID_SIGNED_DATA b);
  decode_signed_data b := Ok (data_of b);
  decode_oid b := match b with [x01] => Ok ID_DATA | _ => Ok ID_P256 end;
  decode_octet_string b := Ok b;
  signed_attrs_to_der attrs := Ok (mjoin (mjoin (at_values <$> attrs)));
  P256Key := byte;
  P256Signature := N * N;
  p256_from_sec1_bytes b := match b with [x] => Ok x | _ => Err "bad key"%string end;
  p256_signature_from_bytes := der_numbers;
  p256_verify_prehash k h s := bool_decide (s = (be_decode h, Byte.to_N k));
  MlKey := unit;
  MlSignature := unit;
  ml_dsa_key _ _ := None;
  ml_dsa_signature _ _ := None;
  ml_dsa_verify _ _ _ _ := false;
}.

Definition sign_raw (k : byte) (h : bytes) : result string bytes :=
  if decide (length h = 32%nat) then Ok (h ++ replicate 31 x00 ++ [k]) else Err "bad hash"%string.

#[export] Instance making : SealMaking := {
  P256SigningKey := byte;
  p256_from_pkcs8_pem b := match b with [x] => Ok x | _ => Err "bad key"%string end;
  p256_from_pkcs8_der b := match b with [x] => Ok x | _ => Err "bad key"%string end;
  p256_demo_key := x2a;
  p256_verifying_key k := k;
  p256_to_sec1_bytes k := [k];
  p256_sign_prehash := sign_raw;
  p256_try_sign k m := ecdsa_raw_to_der <$> sign_raw k (Toy.digest m);
  p256_signature_algorithm := Ok (mkAlgorithmIdentifier ID_ECDSA_SHA256_V None);
  MlSigningKey := unit;
  ml_from_pkcs8_der _ _ := Err "unsupported"%string;
  ml_from_seed _ _ := tt;
  ml_verifying_key_bytes _ _ := [];
  ml_try_sign _ _ _ := Err "unsupported"%string;
  oid_to_der oid := if decide (oid = ID_DATA) then Ok [x01] else Err "unsupported"%string;
  seal_octet_string_to_der b := Ok b;
  attributes_try_from l := Ok l;
  signer_identifier c := IssuerAndSerialNumber [] [c];
  signed_data_to_der sd :=
    if decide (data_of (encoded sd) = sd) then Ok (encoded sd) else Err "unsupported"%string;
  content_info_to_der ci :=
    if decide (ci = mkContentInfo ID_SIGNED_DATA (ci_content ci) /\ ci_content ci <> [])
    then Ok (ci_content ci) else Err "unsupported"%string;
}.

Lemma der_numbers_signature der r s : der_signature der r s -> der_numbers der = Ok (r, s).
Proof.
  intros (body & rb & rest & sb & H1 & H2 & H3 & _ & _ & <- & <-). unfold der_numbers.
  by rewrite H1, H2, H3.
Qed.

Lemma sign_raw_numbers k h raw :
  sign_raw k h = Ok raw ->
  len raw = 64 /\ be_decode (take 32 raw) = be_decode h /\ be_decode (drop 32 raw) = Byte.to_N k.
Proof.
  unfold sign_raw. case_decide as Hh; [|done]. intros [= <-]. split_and!.
  - unfold len. by rewrite !length_app, Hh.
  - by rewrite <- Hh, take_app_length.
  - rewrite <- Hh, drop_app_length. by destruct k.
Qed.

#[export] Instance making_spec : @SealMakingSpec Toy.crates seal_crates making.
Proof.
  split.
  - intros oid b. cbn. case_decide; [|done]. by intros [= <-]; subst.
  - by intros v b [= <-].
  - by intros l l' [= <-].
  - intros cert. cbn. by rewrite !bool_decide_eq_true_2.
  - intros sd b. cbn [signed_data_to_der making]. case_decide as E; [|done]. intros [= <-].
    cbn [decode_signed_data seal_crates]. by rewrite E.
  - intros ci b. cbn [content_info_to_der making]. case_decide as E; [|done]. intros [= <-].
    destruct E as [-> ?]. done.
  - by intros key h raw (? & _)%sign_raw_numbers.
  - intros key h raw der (_ & H1 & H2)%sign_raw_numbers Hd%der_numbers_signature.
    eexists. split; [exact Hd|]. cbn. by rewrite H1, H2, bool_decide_eq_true_2.
  - intros key m der (raw & Hr & ->)%fmap_Ok.
    apply sign_raw_numbers in Hr as (Hl & H1 & H2). destruct (ecdsa_raw_spec raw Hl) as [Hd _].
    apply der_numbers_signature in Hd. eexists. split; [exact Hd|]. cbn.
    by rewrite H1, H2, bool_decide_eq_true_2.
  - by intros alg [= <-].
  - done.
Qed.

Definition world : World :=
  set_clock [Some 150] (set_files (fun _ => {[ ["k"] := [x0c]; ["c"] := [x0c] ]}%string) sample_world).
Definition manifest : bytes := [x0a; x0b].
Definition key : @SealKey seal_crates making := @SealEcdsaP256 seal_crates making x0c.
End ToyMaking.

Lemma created_seal_verifies_witness :
  exists seal, @create_cms_seal Toy.crates ToyMaking.seal_crates ToyMaking.making
      ToyMaking.manifest ToyMaking.key [x0c] = Ok seal /\
    is_ok (@verify_seal_with_pins Toy.crates ToyMaking.seal_crates ToyMaking.manifest seal
      [[x0c]] 150) = true.
Proof.
  eexists. split; [vm_compute; reflexivity|].
  destruct (@created_seal_verifies Toy.crates ToyMaking.seal_crates ToyMaking.making
    ToyMaking.making_spec ToyMaking.manifest ToyMaking.key [x0c] _ x0c [x0c] 150
    ltac:(vm_compute; reflexivity) eq_refl eq_refl) as [H _].
  - exists [x07], [x0c]. split; [reflexivity|]. split; reflexivity.
  - split; [by split|discriminate|by exists None|discriminate].
  - match goal with
    | H : ?a = _ |- is_ok ?b = _ => change b with a; rewrite H; reflexivity
    end.
Defined.

Lemma seal_material_proved_witness :
  exists key cert_der w', @load_or_generate_seal_material Toy.crates ToyMaking.seal_crates
      ToyMaking.making Ok (Some ["k"%string]) (Some ["c"%string]) false x2a ToyMaking.world
      = (Done (key, cert_der), w') /\
    exists now, @material_proved Toy.crates ToyMaking.seal_crates ToyMaking.making key cert_der now.
Proof.
  destruct (is_done_inv (@load_or_generate_seal_material Toy.crates ToyMaking.seal_crates
    ToyMaking.making Ok (Some ["k"%string]) (Some ["c"%string]) false x2a) ToyMaking.world)
    as ([key cert_der] & w' & E); [vm_compute; reflexivity|].
  exists key, cert_der, w'. split; [exact E|].
  destruct (@seal_material_proved Toy.crates ToyMaking.seal_crates ToyMaking.making
    ToyMaking.making_spec _ _ _ _ _ _ _ _ _ E) as (_ & (now & _ & H) & _).
  exists now. exact H.
Defined.

Lemma separation_check_sound_witness :
  @p256_verifying_key ToyMaking.seal_crates ToyMaking.making x0c <>
  @p256_verifying_key ToyMaking.seal_crates ToyMaking.making x2a.
Proof.
  apply (@separation_check_sound Toy.crates ToyMaking.seal_crates ToyMaking.making
    ToyMaking.making_spec x2a ToyMaking.key tt ltac:(vm_compute; reflexivity) x0c eq_refl).
Defined.
