(* ===== verification/Crl.v ===== *)
(** * Crl: the certificate revocation list as a source (hoike-sign/src/crl.rs)

    A CRL is authenticated against the certificate of its issuer and turned into
    a status snapshot.  Main results: a snapshot is only made from a current
    list that the authorized CA key signed and whose extensions the code
    understands, and it reports exactly the listed serials as revoked. *)

From stdpp Require Import base tactics list gmap strings.
From Stdlib Require Import NArith Lia.
From S2P Require Import Prelude Slices Text AhuError CoreError Storage SignError Times.
From S2P Require Import Seal SignCrates Source.
Local Open Scope N_scope.

Definition ID_KEY_USAGE : string := "2.5.29.15".
Definition ID_SUBJECT_KEY_ID : string := "2.5.29.14".
Definition ID_CRL_NUMBER : string := "2.5.29.20".
Definition ID_CRL_REASON : string := "2.5.29.21".
Definition ID_DELTA_CRL : string := "2.5.29.27".
Definition ID_ISSUING_DISTRIBUTION_POINT : string := "2.5.29.28".
Definition ID_CERTIFICATE_ISSUER : string := "2.5.29.29".
Definition ID_AUTHORITY_KEY_ID : string := "2.5.29.35".
Definition ID_RSA : string := "1.2.840.113549.1.1.1".

Definition verify_error (reason : string) : SignError := SignVerify reason.

Section crl.
Context {SG : SignCrates}.
Implicit Types (cert : X509Cert Name) (crl : CertificateList Name) (ca : CaIdentity).

Record CrlSource : Type := mkCrlSource {
  cs_crl : CertificateList Name;
  cs_issuer : option (X509Cert Name);
}.

Definition from_der (data : bytes) : sign_result CrlSource :=
  crl ← map_err CrlParse (crl_from_der data);
  Ok (mkCrlSource crl None).

(** [rotation::parse_certificate]. *)
Definition parse_certificate (b : bytes) : result string (X509Cert Name) :=
  if starts_with (text "-----BEGIN") b then x509_from_pem b else x509_from_der b.

Definition with_issuer_certificate (s : CrlSource) (der : bytes) : sign_result CrlSource :=
  cert ← map_err verify_error (parse_certificate der);
  Ok (mkCrlSource (cs_crl s) (Some cert)).

(** [time_to_epoch]: both forms of [Time] hold a [DateTime]. *)
Definition time_to_epoch (t : DateTime) : N := datetime_to_epoch t.

(** ** Authentication *)

Definition check_key_usage (ext : X509Extension) : sign_result unit :=
  if String.eqb (xe_extn_id ext) ID_KEY_USAGE then
    crl_sign ← der_of (key_usage_crl_sign (xe_extn_value ext));
    ensure crl_sign (verify_error "issuer key usage forbids CRL signing")
  else Ok tt.

(** The checks of an authority key identifier against the issuer's certificate. *)
Definition check_authority_key_id cert (value : bytes) : sign_result unit :=
  aki ← der_of (aki_from_der value);
  match ak_authority_cert_serial_number aki with
  | Some serial => ensure (bool_decide (serial = xc_serial_number cert))
                     (verify_error "CRL authority serial mismatch")
  | None => Ok tt
  end ;;
  match ak_authority_cert_issuer aki with
  | Some names => ensure (existsb (fun n => bool_decide (n = Some (xc_issuer cert))) names)
                    (verify_error "CRL authority certificate issuer mismatch")
  | None => Ok tt
  end ;;
  match ak_key_identifier aki,
        List.find (fun e => String.eqb (xe_extn_id e) ID_SUBJECT_KEY_ID) (default [] (xc_extensions cert)) with
  | Some id, Some ski =>
      k ← der_of (ski_from_der (xe_extn_value ski));
      ensure (bool_decide (k = id)) (verify_error "CRL authority key identifier mismatch")
  | _, _ => Ok tt
  end.

(** The body of the loop over the extensions of the list. *)
Definition check_crl_extension cert (seen : gset string) (ext : X509Extension) :
    sign_result (gset string) :=
  let oid := xe_extn_id ext in
  (if String.eqb oid ID_CRL_NUMBER then der_of (crl_number_from_der (xe_extn_value ext)) else Ok tt) ;;
  (if String.eqb oid ID_AUTHORITY_KEY_ID then check_authority_key_id cert (xe_extn_value ext) else Ok tt) ;;
  if bool_decide (oid ∈ seen)
     || (String.eqb oid ID_DELTA_CRL || String.eqb oid ID_ISSUING_DISTRIBUTION_POINT)
     || (xe_critical ext && negb (String.eqb oid ID_CRL_NUMBER || String.eqb oid ID_AUTHORITY_KEY_ID))
  then Err (verify_error "unsupported or duplicate CRL extension")
  else Ok (seen ∪ {[oid]}).

(** [verify_ml_crl]. *)
Definition verify_ml_crl (P : MlDsa) (data sig key : bytes) : sign_result unit :=
  key ← ok_or (ml_key_decode P key) (verify_error "invalid ML-DSA key");
  sig ← ok_or (ml_signature_decode P sig) (verify_error "invalid ML-DSA signature");
  ensure (ml_verify P key data sig) (verify_error "CRL signature verification failed").

Definition rsa_hash (oid : string) : option RsaHash :=
  if String.eqb oid "1.2.840.113549.1.1.11" then Some RsaSha256
  else if String.eqb oid "1.2.840.113549.1.1.12" then Some RsaSha384
  else if String.eqb oid "1.2.840.113549.1.1.13" then Some RsaSha512
  else None.

Definition ml_dsa_of_oid (oid : string) : option MlDsa :=
  if String.eqb oid "2.16.840.1.101.3.4.3.17" then Some MlDsa44
  else if String.eqb oid "2.16.840.1.101.3.4.3.18" then Some MlDsa65
  else if String.eqb oid "2.16.840.1.101.3.4.3.19" then Some MlDsa87
  else None.

(** The parameters of an algorithm are kept as their encoding. *)
Definition null_parameters (p : option bytes) : bool :=
  from_option (fun b => bool_decide (b = [x05; x00])) true p.

(** The match on the signature algorithm. *)
Definition verify_crl_signature (spki : Spki) (alg : AlgorithmIdentifier) (data signature : bytes) :
    sign_result unit :=
  let oid := ai_oid alg in
  if String.eqb oid "1.2.840.10045.4.3.2" then
    ensure (bool_decide (ai_parameters alg = None)) (verify_error "ECDSA signature parameters must be absent") ;;
    der ← der_of (spki_to_der spki);
    key ← map_err verify_error (ec_from_public_key_der der);
    sig ← map_err verify_error (ec_signature_from_der signature);
    ensure (ec_verify key data sig) (verify_error "CRL signature verification failed")
  else match rsa_hash oid with
  | Some hash =>
      ensure (String.eqb (ai_oid (sp_algorithm spki)) ID_RSA)
        (verify_error "CRL signature requires RSA public key") ;;
      ensure (null_parameters (ai_parameters (sp_algorithm spki)) && null_parameters (ai_parameters alg))
        (verify_error "invalid RSA algorithm parameters") ;;
      key ← ok_or (bs_as_bytes (sp_subject_public_key spki)) (verify_error "invalid RSA key bit string");
      ensure (rsa_verify hash key data signature) (verify_error "CRL RSA signature verification failed")
  | None =>
      match ml_dsa_of_oid oid with
      | Some P =>
          ensure (String.eqb (ai_oid (sp_algorithm spki)) oid &&
                  bool_decide (ai_parameters (sp_algorithm spki) = None) &&
                  bool_decide (ai_parameters alg = None))
            (verify_error "ML-DSA CRL algorithm/key mismatch") ;;
          key ← ok_or (bs_as_bytes (sp_subject_public_key spki)) (verify_error "invalid public key bits");
          verify_ml_crl P data signature key
      | None => Err (verify_error "unsupported CRL signature algorithm")
      end
  end.

(** [authenticate] after the clock was read. *)
Definition authenticate_at cert crl ca (now : N) : sign_result unit :=
  let tbs := cl_tbs_cert_list crl in
  subject_der ← der_of (name_to_der (xc_subject cert));
  ensure (bool_decide (subject_der = ci_issuer_name_der ca) &&
          bool_decide (bs_raw_bytes (sp_subject_public_key (xc_spki cert)) = ci_issuer_key_bytes ca) &&
          bool_decide (tl_issuer tbs = xc_subject cert) &&
          negb (name_is_empty (xc_subject cert)))
    (verify_error "CRL issuer does not match authorized CA") ;;
  ensure ((time_to_epoch (xc_not_before cert) <=? now) && (now <? time_to_epoch (xc_not_after cert)))
    (verify_error "CRL issuer certificate is outside validity") ;;
  for_each check_key_usage (default [] (xc_extensions cert)) ;;
  ensure (bool_decide (cl_signature_algorithm crl = tl_signature tbs))
    (verify_error "CRL signature algorithms disagree") ;;
  fold_result (check_crl_extension cert) ∅ (default [] (tl_crl_extensions tbs)) ;;
  data ← der_of (tbs_cert_list_to_der tbs);
  signature ← ok_or (bs_as_bytes (cl_signature crl)) (verify_error "invalid CRL signature bit string");
  verify_crl_signature (xc_spki cert) (cl_signature_algorithm crl) data signature.

Definition authenticate (s : CrlSource) ca : io SignError unit :=
  cert ← io_lift (ok_or (cs_issuer s) (verify_error "CRL requires an authorized issuer certificate"));
  now ← unix_now;
  io_lift (authenticate_at cert (cs_crl s) ca now).

(** ** The snapshot *)

Definition check_entry_extension (ext : X509Extension) : sign_result unit :=
  if String.eqb (xe_extn_id ext) ID_CERTIFICATE_ISSUER
     || (xe_critical ext && negb (String.eqb (xe_extn_id ext) ID_CRL_REASON))
  then Err (verify_error "unsupported CRL entry extension") else
  if String.eqb (xe_extn_id ext) ID_CRL_REASON then
    reason ← der_of (crl_reason_from_der (xe_extn_value ext));
    ensure (negb (bool_decide (reason = RemoveFromCRL)))
      (verify_error "removeFromCRL requires unsupported delta semantics")
  else Ok tt.

Definition entry_reason (rc : RevokedCert) : option CrlReason :=
  ext ← List.find (fun e => String.eqb (xe_extn_id e) ID_CRL_REASON)
          (default [] (rc_crl_entry_extensions rc));
  to_option (crl_reason_from_der (xe_extn_value ext)).

Definition revoked_status (rc : RevokedCert) : CertificateStatus :=
  Revoked (time_to_epoch (rc_revocation_date rc)) (entry_reason rc).

(** The body of the loop over the revoked certificates. *)
Definition add_revoked (entries : gmap bytes CertificateStatus) (rc : RevokedCert) :
    sign_result (gmap bytes CertificateStatus) :=
  for_each check_entry_extension (default [] (rc_crl_entry_extensions rc)) ;;
  Ok (<[rc_serial_number rc := revoked_status rc]> entries).

Definition snapshot (s : CrlSource) ca : io SignError StatusSnapshot :=
  authenticate s ca ;;
  let tbs := cl_tbs_cert_list (cs_crl s) in
  entries ← io_lift (fold_result add_revoked ∅ (default [] (tl_revoked_certificates tbs)));
  let snap := mkStatusSnapshot entries (time_to_epoch (tl_this_update tbs))
                (time_to_epoch <$> tl_next_update tbs) ∅ in
  now ← unix_now;
  io_lift (validate_at snap now) ;;
  mret snap.

Definition changes_since (s : CrlSource) ca (since : N) : io SignError (list StatusChange) :=
  snap ← snapshot s ca;
  mret ((fun '(serial, status) => mkStatusChange serial status (ss_this_update snap))
          <$> btree_list (ss_entries snap)).

(** [impl RevocationSource for CrlSource]. *)
Definition crl_revocation_source (s : CrlSource) : RevocationSource :=
  mkRevocationSource (snapshot s) (changes_since s) false false.

(** ** PEM *)

Record PemState : Type := mkPemState {
  pm_collecting : bool;
  pm_b64 : bytes;
}.

(** The loop over the lines; the flag is [found_end]. *)
Fixpoint pem_lines (st : PemState) (ls : list bytes) : PemState * bool :=
  match ls with
  | [] => (st, false)
  | line :: ls =>
      if starts_with (text "-----BEGIN") line then pem_lines (mkPemState true (pm_b64 st)) ls
      else if starts_with (text "-----END") line then (st, true)
      else if pm_collecting st then pem_lines (mkPemState true (pm_b64 st ++ trim line)) ls
      else pem_lines st ls
  end.

Definition pem_to_der (pem : bytes) : sign_result bytes :=
  let '(st, found_end) := pem_lines (mkPemState false []) (lines pem) in
  ensure (pm_collecting st) (CrlParse "PEM has no BEGIN marker") ;;
  ensure found_end (CrlParse "PEM is truncated: found BEGIN but no END marker") ;;
  map_err CrlParse (base64_standard_decode (pm_b64 st)).

Definition from_pem (pem_text : bytes) : sign_result CrlSource :=
  der_data ← pem_to_der pem_text;
  from_der der_data.
End crl.

(** ** What a snapshot establishes *)

Section crl_props.
Context {SG : SignCrates}.
Implicit Types (cert : X509Cert Name) (crl : CertificateList Name) (ca : CaIdentity).

(** The signature of the list verifies under the key, by an algorithm that fits it. *)
Inductive crl_signed (spki : Spki) (alg : AlgorithmIdentifier) (data signature : bytes) : Prop :=
| signed_ecdsa der key sig :
    ai_oid alg = "1.2.840.10045.4.3.2"%string -> ai_parameters alg = None ->
    spki_to_der spki = Ok der -> ec_from_public_key_der der = Ok key ->
    ec_signature_from_der signature = Ok sig -> ec_verify key data sig = true ->
    crl_signed spki alg data signature
| signed_rsa hash key :
    rsa_hash (ai_oid alg) = Some hash -> ai_oid (sp_algorithm spki) = ID_RSA ->
    bs_as_bytes (sp_subject_public_key spki) = Some key ->
    rsa_verify hash key data signature = true -> crl_signed spki alg data signature
| signed_ml_dsa P raw key sig :
    ml_dsa_of_oid (ai_oid alg) = Some P -> ai_oid (sp_algorithm spki) = ai_oid alg ->
    bs_as_bytes (sp_subject_public_key spki) = Some raw -> ml_key_decode P raw = Some key ->
    ml_signature_decode P signature = Some sig -> ml_verify P key data sig = true ->
    crl_signed spki alg data signature.

Lemma verify_crl_signature_Ok spki alg data signature u :
  verify_crl_signature spki alg data signature = Ok u -> crl_signed spki alg data signature.
Proof.
  unfold verify_crl_signature, der_of. destruct (String.eqb_spec (ai_oid alg) "1.2.840.10045.4.3.2").
  - intros H. inv_ok. rewrite bool_decide_eq_true in *. eapply signed_ecdsa; eassumption.
  - destruct (rsa_hash (ai_oid alg)) as [hash|] eqn:Er.
    + intros H. inv_ok. rewrite String.eqb_eq in *. eapply signed_rsa; eassumption.
    + destruct (ml_dsa_of_oid (ai_oid alg)) as [P|] eqn:Em; [|done].
      intros H. inv_ok. rewrite !andb_true_iff, String.eqb_eq in *. destruct_and!.
      unfold verify_ml_crl in *. inv_ok. eapply signed_ml_dsa; eassumption.
Qed.

(** An extension of the list that does not change what the entries mean. *)
Definition plain_extension (ext : X509Extension) : Prop :=
  xe_extn_id ext <> ID_DELTA_CRL /\ xe_extn_id ext <> ID_ISSUING_DISTRIBUTION_POINT /\
  (xe_critical ext = true ->
   xe_extn_id ext = ID_CRL_NUMBER \/ xe_extn_id ext = ID_AUTHORITY_KEY_ID).

(** The list is a complete list by the authorized CA, signed with its key. *)
Record crl_authentic cert crl ca (now : N) : Prop := {
  au_name : name_to_der (xc_subject cert) = Ok (ci_issuer_name_der ca);
  au_key : bs_raw_bytes (sp_subject_public_key (xc_spki cert)) = ci_issuer_key_bytes ca;
  au_issuer : tl_issuer (cl_tbs_cert_list crl) = xc_subject cert;
  au_named : name_is_empty (xc_subject cert) = false;
  au_valid : datetime_to_epoch (xc_not_before cert) <= now < datetime_to_epoch (xc_not_after cert);
  au_usage : forall ext, ext ∈ default [] (xc_extensions cert) -> xe_extn_id ext = ID_KEY_USAGE ->
    key_usage_crl_sign (xe_extn_value ext) = Ok true;
  au_algorithm : cl_signature_algorithm crl = tl_signature (cl_tbs_cert_list crl);
  au_plain : Forall plain_extension (default [] (tl_crl_extensions (cl_tbs_cert_list crl)));
  au_unique : NoDup (xe_extn_id <$> default [] (tl_crl_extensions (cl_tbs_cert_list crl)));
  au_signed : exists data signature,
    tbs_cert_list_to_der (cl_tbs_cert_list crl) = Ok data /\
    bs_as_bytes (cl_signature crl) = Some signature /\
    crl_signed (xc_spki cert) (cl_signature_algorithm crl) data signature;
}.

Lemma check_crl_extension_Ok cert seen ext seen' :
  check_crl_extension cert seen ext = Ok seen' ->
  seen' = (seen ∪ {[xe_extn_id ext]}) /\ (xe_extn_id ext ∉ seen) /\ plain_extension ext.
Proof.
  unfold check_crl_extension, plain_extension. intros H. inv_ok.
  destruct (bool_decide_reflect (xe_extn_id ext ∈ seen)); [done|].
  destruct (String.eqb_spec (xe_extn_id ext) ID_DELTA_CRL); [done|].
  destruct (String.eqb_spec (xe_extn_id ext) ID_ISSUING_DISTRIBUTION_POINT); [done|].
  destruct (String.eqb_spec (xe_extn_id ext) ID_CRL_NUMBER),
    (String.eqb_spec (xe_extn_id ext) ID_AUTHORITY_KEY_ID), (xe_critical ext); simplify_eq/=;
    split_and!; auto; done.
Qed.

Lemma check_crl_extensions_Ok cert l seen seen' :
  fold_result (check_crl_extension cert) seen l = Ok seen' ->
  NoDup (xe_extn_id <$> l) /\ Forall (fun e => xe_extn_id e ∉ seen) l /\ Forall plain_extension l.
Proof.
  revert seen. induction l as [|e l IH]; intros seen; cbn [fold_result].
  - intros _. split_and!; constructor.
  - intros (s1 & (-> & Hn & Hp)%check_crl_extension_Ok & (Hd & Hf & Ha)%IH)%bind_Ok.
    rewrite Forall_forall in Hf. cbn [fmap list_fmap]. rewrite NoDup_cons, !Forall_cons, Forall_forall.
    split_and!; try done.
    + intros (x & Hx & Hin)%list_elem_of_fmap. apply (Hf x Hin). set_solver.
    + intros x Hin. specialize (Hf x Hin). set_solver.
Qed.

Lemma check_key_usage_Ok ext :
  check_key_usage ext = Ok tt -> xe_extn_id ext = ID_KEY_USAGE ->
  key_usage_crl_sign (xe_extn_value ext) = Ok true.
Proof.
  unfold check_key_usage, der_of. intros H Hid. rewrite Hid in H. cbn in H. inv_ok. by subst.
Qed.

Lemma authenticate_at_Ok cert crl ca now u :
  authenticate_at cert crl ca now = Ok u -> crl_authentic cert crl ca now.
Proof.
  unfold authenticate_at, der_of. intros H. inv_ok.
  rewrite !andb_true_iff, !bool_decide_eq_true, ?N.leb_le, ?N.ltb_lt, ?negb_true_iff in *. destruct_and!.
  rewrite for_each_Ok, Forall_forall in *.
  match goal with H : fold_result _ _ _ = Ok _ |- _ =>
    apply check_crl_extensions_Ok in H as (? & _ & ?) end.
  split; unfold time_to_epoch in *; try done; [congruence|..].
  - intros ext Hin. apply check_key_usage_Ok. auto.
  - eauto 6 using verify_crl_signature_Ok.
Qed.

(** ** The entries *)

Definition listed crl : list RevokedCert :=
  default [] (tl_revoked_certificates (cl_tbs_cert_list crl)).

Definition entry_of (rc : RevokedCert) : bytes * CertificateStatus :=
  (rc_serial_number rc, revoked_status rc).

Lemma add_revoked_fold l m m' :
  fold_result add_revoked m l = Ok m' ->
  m' = list_to_map (reverse (entry_of <$> l)) ∪ m /\
  Forall (fun rc => Forall (fun e => check_entry_extension e = Ok tt)
            (default [] (rc_crl_entry_extensions rc))) l.
Proof.
  revert m. induction l as [|rc l IH]; intros m; cbn [fold_result].
  - intros [= <-]. split; [|constructor].
    by rewrite fmap_nil, reverse_nil, list_to_map_nil, (left_id_L ∅ (∪)).
  - unfold add_revoked at 1.
    intros (m1 & ([] & Hc%for_each_Ok & [= <-])%bind_Ok & (-> & Hl)%IH)%bind_Ok.
    split; [|by constructor].
    rewrite fmap_cons, reverse_cons, list_to_map_app.
    change (entry_of rc) with (rc_serial_number rc, revoked_status rc).
    by rewrite list_to_map_cons, list_to_map_nil,
      insert_empty, <- (assoc_L (∪)),
      <- insert_union_singleton_l.
Qed.

(** [snap] is the state of the list: the last entry of a serial counts, and no
    entry takes a certificate off an earlier list. *)
Record snapshot_of (s : CrlSource) ca (t1 t2 : N) (snap : StatusSnapshot) : Prop := {
  sn_authentic : exists cert, cs_issuer s = Some cert /\ crl_authentic cert (cs_crl s) ca t1;
  sn_entries : ss_entries snap = list_to_map (reverse (entry_of <$> listed (cs_crl s)));
  sn_this_update :
    ss_this_update snap = datetime_to_epoch (tl_this_update (cl_tbs_cert_list (cs_crl s)));
  sn_next_update :
    ss_next_update snap = datetime_to_epoch <$> tl_next_update (cl_tbs_cert_list (cs_crl s));
  sn_current : exists stop, ss_next_update snap = Some stop /\ ss_this_update snap <= t2 < stop;
  sn_no_removal : Forall (fun rc => entry_reason rc <> Some RemoveFromCRL) (listed (cs_crl s));
}.

Lemma check_entry_reason rc :
  Forall (fun e => check_entry_extension e = Ok tt) (default [] (rc_crl_entry_extensions rc)) ->
  entry_reason rc <> Some RemoveFromCRL.
Proof.
  unfold entry_reason. intros H. destruct (List.find _ _) as [e|] eqn:E; [|done]. cbn.
  apply List.find_some in E as [Hin%list_elem_of_In Hid].
  rewrite Forall_forall in H. specialize (H e Hin). unfold check_entry_extension, der_of in H.
  rewrite Hid in H. destruct (_ || _) in H; [done|]. inv_ok.
  match goal with H : crl_reason_from_der _ = Ok _ |- _ => rewrite H end. cbn. intros [= ->]. done.
Qed.

Lemma crl_snapshot_Done s ca w snap w' :
  snapshot s ca w = (Done snap, w') ->
  same_files w w' /\ exists t1 t2, w_clock w = Some t1 :: Some t2 :: w_clock w' /\
    snapshot_of s ca t1 t2 snap.
Proof.
  unfold snapshot, authenticate. intros H. inv_io.
  repeat match goal with H : unix_now _ = (Done _, _) |- _ => apply unix_now_Done in H as [? ?] end.
  split; [by etrans|]. eexists _, _. split; [etrans; [done|by f_equal]|].
  match goal with H : fold_result _ _ _ = Ok _ |- _ => apply add_revoked_fold in H as [-> Hext] end.
  match goal with H : validate_at _ _ = Ok _ |- _ => apply validate_at_Ok in H as [? ?] end.
  split; cbn in *; eauto using authenticate_at_Ok.
  - by rewrite (right_id_L ∅ (∪)).
  - eapply Forall_impl; [exact Hext|]. apply check_entry_reason.
Qed.

Lemma last_entry l serial :
  match (list_to_map (reverse (entry_of <$> l)) : gmap bytes CertificateStatus) !! serial with
  | Some st => exists l1 rc l2, l = l1 ++ rc :: l2 /\ rc_serial_number rc = serial /\
      (serial ∉ rc_serial_number <$> l2) /\ st = revoked_status rc
  | None => serial ∉ rc_serial_number <$> l
  end.
Proof.
  induction l as [|rc l IH] using rev_ind; [apply not_elem_of_nil|].
  rewrite !fmap_app, reverse_app. cbn [fmap list_fmap]. rewrite reverse_singleton. cbn [app].
  change (entry_of rc) with (rc_serial_number rc, revoked_status rc). rewrite list_to_map_cons.
  destruct (decide (rc_serial_number rc = serial)) as [<-|Hne].
  - rewrite lookup_insert_eq. exists l, rc, []. split_and!; try done. apply not_elem_of_nil.
  - rewrite lookup_insert_ne by done. destruct (_ !! serial).
    + destruct IH as (l1 & r & l2 & -> & ? & ? & ->). exists l1, r, (l2 ++ [rc]).
      split_and!; try done; [by rewrite <- app_assoc|]. rewrite fmap_app. set_solver.
    + set_solver.
Qed.

(** C15: a revocation list becomes a snapshot only if the CA's own key signed it
    with an algorithm that fits the key, for the configured name and key of the
    CA, by a certificate that is valid now and may sign lists, as a complete
    list without extensions that would change what the entries mean, and only
    while the list is current.  The snapshot then reports exactly the listed
    serials, each as revoked with the time and reason of its last entry. *)
Theorem crl_snapshot_sound s ca w snap w' :
  snapshot s ca w = (Done snap, w') ->
  same_files w w' /\
  (exists t1 t2, w_clock w = Some t1 :: Some t2 :: w_clock w' /\ snapshot_of s ca t1 t2 snap) /\
  (forall serial, is_Some (ss_entries snap !! serial) <->
     serial ∈ rc_serial_number <$> listed (cs_crl s)) /\
  (forall serial st, ss_entries snap !! serial = Some st ->
     exists l1 rc l2, listed (cs_crl s) = l1 ++ rc :: l2 /\ rc_serial_number rc = serial /\
       (serial ∉ rc_serial_number <$> l2) /\ st = revoked_status rc).
Proof.
  intros (Hf & t1 & t2 & Hw & Hs)%crl_snapshot_Done. split; [done|]. split; [eauto|].
  rewrite (sn_entries _ _ _ _ _ Hs). split; intros serial.
  - pose proof (last_entry (listed (cs_crl s)) serial) as H.
    destruct (_ !! serial) as [st|]; split; intros Hin; try done.
    destruct H as (l1 & rc & l2 & -> & <- & _). rewrite fmap_app, fmap_cons. set_solver.
  - intros st Hst. pose proof (last_entry (listed (cs_crl s)) serial) as H. by rewrite Hst in H.
Qed.
End crl_props.

(** ** Witness *)

Definition sample_crl : CertificateList bytes :=
  let alg := mkAlgorithmIdentifier "1.2.840.10045.4.3.2" None in
  mkCertificateList
    (mkTbsCertList alg [xca] (mkDateTime 2025 1 15 12 0 0) (Some (mkDateTime 2025 1 16 12 0 0))
       (Some [mkRevokedCert [x2a] (mkDateTime 2025 1 10 8 0 0) None;
              mkRevokedCert [x64] (mkDateTime 2025 1 10 8 0 0)
                (Some [mkX509Extension ID_CRL_REASON false [x0a; x01; x01]])])
       (Some [mkX509Extension ID_CRL_NUMBER false [x02; x01; x07]]))
    alg (mkBitString 0 [x30; x06]).
Definition sample_crl_source : @CrlSource ToySign.crates :=
  @mkCrlSource ToySign.crates sample_crl (Some (ToySign.cert [x04; x05])).
Definition sample_ca : CaIdentity := mkCaIdentity "alpha" [xca] [x04; x05].
Definition crl_world : World := set_clock [Some 1736985600; Some 1736985601] sample_world.

Lemma crl_snapshot_sound_witness :
  exists snap w', @snapshot ToySign.crates sample_crl_source sample_ca crl_world = (Done snap, w') /\
    is_Some (ss_entries snap !! [x2a]).
Proof.
  destruct (is_done_inv (@snapshot ToySign.crates sample_crl_source sample_ca) crl_world)
    as (snap & w' & E); [vm_compute; reflexivity|].
  exists snap, w'. split; [exact E|].
  destruct (@crl_snapshot_sound ToySign.crates _ _ _ _ _ E) as (_ & _ & H & _).
  apply H. left.
Defined.
