(* ===== verification/Generate.v ===== *)
(** * Generate: production of a signed bundle (hoike-sign/src/generate.rs)

    A status snapshot is turned into signed OCSP responses, one per bucket of
    certificates, stored under the digests of the CertIDs they answer for, and
    the bundle is built and sealed.  Main results: a produced file parses,
    verifies and is servable, and a lookup with a CertID of the snapshot finds a
    response that carries the certificate's status within the manifest's window. *)

From stdpp Require Import base tactics list gmap strings.
From Stdlib Require Import NArith Lia.
From S2P Require Import Prelude Slices Crates AhuError Header Index Manifest Bundle Builder Verify.
From S2P Require Import CoreError Storage Admission Request SignError Times Seal SignCrates Source.
Local Open Scope N_scope.

Inductive CertIdCompat := Sha256Only | Sha1Only | Dual.
#[export] Instance CertIdCompat_eq_dec : EqDecision CertIdCompat.
Proof. solve_decision. Defined.

Record GenerationConfig : Type := mkGenerationConfig {
  gc_producer_id : string;
  gc_epoch : N;
  gc_validity_secs : N;
  gc_jitter_secs : N;
  gc_certid_compat : CertIdCompat;
  gc_completeness : Completeness;
  gc_archive_cutoff_secs : N;
  gc_bucket_size : nat;
}.

(** [CertIdCompat::parse]. *)
Definition certid_compat_parse (s : string) : result string CertIdCompat :=
  if String.eqb s "dual" then Ok Dual
  else if String.eqb s "sha256" then Ok Sha256Only
  else if String.eqb s "sha1" then Ok Sha1Only
  else Err ("unknown certid_compat '" +:+ s +:+ "' (expected: dual, sha256, sha1)").

(** [GenerationConfig::default]. *)
Definition default_generation_config : GenerationConfig :=
  mkGenerationConfig "hoike-signer" 1 86400 7200 Dual Partial 0 1.

Definition sha256_oid : string := "2.16.840.1.101.3.4.2.1".
Definition sha1_oid : string := "1.3.14.3.2.26".
(** [ObjectIdentifier::as_bytes] of the two. *)
Definition sha256_oid_bytes : bytes := [x60; x86; x48; x01; x65; x03; x04; x02; x01].
Definition sha1_oid_bytes : bytes := [x2b; x0e; x03; x02; x1a].
(** The encoding of [Null]. *)
Definition NULL_DER : bytes := [x05; x00].

(** ** Entries under shared responses *)

(** The [while] loop of [add_shared_entries], from index [i]: it runs while [keys]
    has an element at [i + 1], and returns the final index. *)
Fixpoint add_pairs (fuel : nat) (builder : BundleBuilder) (keys : list bytes) (i : nat)
    (response_der : bytes) (discriminator : N) : BundleBuilder * nat :=
  match fuel with
  | O => (builder, i)
  | S fuel =>
      match drop i keys with
      | k1 :: k2 :: _ =>
          add_pairs fuel
            (add_dual_entry_with_discriminator builder k1 k2 response_der discriminator)
            keys (i + 2) response_der discriminator
      | _ => (builder, i)
      end
  end.

Definition add_shared_entries (builder : BundleBuilder) (keys : list bytes)
    (response_der : bytes) (discriminator : N) : BundleBuilder :=
  match keys with
  | [] => builder
  | [k] => add_entry_with_discriminator builder k discriminator response_der
  | [k1; k2] => add_dual_entry_with_discriminator builder k1 k2 response_der discriminator
  | _ =>
      let '(builder, i) :=
        add_pairs (length keys) builder keys 0 response_der discriminator in
      match drop i keys with
      | k :: _ => add_entry_with_discriminator builder k discriminator response_der
      | [] => builder
      end
  end.

(** [slice::chunks]. *)
Fixpoint chunks_from {A} (fuel : nat) (n : nat) (l : list A) : list (list A) :=
  match fuel, l with
  | O, _ | _, [] => []
  | S fuel, _ => take n l :: chunks_from fuel n (drop n l)
  end.
Definition chunks {A} (n : nat) (l : list A) : list (list A) := chunks_from (length l) n l.

Record PreparedEntry : Type := mkPreparedEntry {
  pe_entry_keys : list bytes;
  pe_single_responses : list SingleResponse;
}.

Section generate.
Context {CR : Crates} {OC : OcspCrates} {SG : SignCrates}.
Implicit Types (snapshot : StatusSnapshot) (config : GenerationConfig) (ca : CaIdentity).

Definition build_certid (hash_oid : string) (name_hash key_hash serial : bytes) :
    sign_result CertId :=
  issuer_name_hash ← der_of (octet_string_new name_hash);
  issuer_key_hash ← der_of (octet_string_new key_hash);
  Ok (mkCertId hash_oid (Some NULL_DER) issuer_name_hash issuer_key_hash serial).

(** The archive cutoff of [prepare_entries]. *)
Definition archived snapshot config (serial : bytes) : bool :=
  (0 <? gc_archive_cutoff_secs config) &&
  match ss_not_after snapshot !! serial with
  | Some not_after =>
      saturating_add not_after (gc_archive_cutoff_secs config) <? ss_this_update snapshot
  | None => false
  end.

Definition cert_status_of (status : CertificateStatus) : sign_result CertStatus :=
  match status with
  | Good => Ok OcspGood
  | Revoked revocation_time reason =>
      t ← ocsp_time revocation_time;
      Ok (OcspRevoked t reason)
  end.

(** [u32::from_be_bytes] of the first bytes of the digest, scaled in [u128]. *)
Definition entry_key_jitter (serial : bytes) (jitter_secs : N) : N :=
  let frac := be_decode (take 4 (sha256 serial)) in
  (frac * jitter_secs / (u32_lim - 1)) mod u64_lim.

Definition next_update_time snapshot config (next_update_base : N) (serial : bytes) :
    sign_result N :=
  source_end ← ok_or (ss_next_update snapshot) (SignConfig "missing source expiry");
  Ok (N.min (saturating_add next_update_base (entry_key_jitter serial (gc_jitter_secs config)))
        source_end).

(** The entry key of a CertID. *)
Definition certid_key (cert_id : CertId) : sign_result bytes :=
  certid_der ← der_of (certid_to_der cert_id);
  Ok (sha256 certid_der).

(** One iteration of the loop of [prepare_entries]; [None] is [continue]. *)
Definition prepare_entry snapshot config
    (issuer_name_hash_sha256 issuer_key_hash_sha256 issuer_name_hash_sha1
     issuer_key_hash_sha1 : bytes)
    (this_update : DateTime) (next_update_base : N) (e : bytes * CertificateStatus) :
    sign_result (option PreparedEntry) :=
  let '(serial, status) := e in
  if archived snapshot config serial then Ok None else
  cert_status ← cert_status_of status;
  serial_number ← der_of (serial_number_new serial);
  t ← next_update_time snapshot config next_update_base serial;
  next_update ← ocsp_time t;
  let single cert_id := mkSingleResponse cert_id cert_status this_update (Some next_update) in
  match gc_certid_compat config with
  | Sha256Only =>
      cert_id ← build_certid sha256_oid issuer_name_hash_sha256 issuer_key_hash_sha256
                  serial_number;
      entry_key ← certid_key cert_id;
      Ok (Some (mkPreparedEntry [entry_key] [single cert_id]))
  | Sha1Only =>
      cert_id ← build_certid sha1_oid issuer_name_hash_sha1 issuer_key_hash_sha1 serial_number;
      entry_key ← certid_key cert_id;
      Ok (Some (mkPreparedEntry [entry_key] [single cert_id]))
  | Dual =>
      cert_id_sha256 ← build_certid sha256_oid issuer_name_hash_sha256 issuer_key_hash_sha256
                         serial_number;
      cert_id_sha1 ← build_certid sha1_oid issuer_name_hash_sha1 issuer_key_hash_sha1
                       serial_number;
      ek256 ← certid_key cert_id_sha256;
      ek1 ← certid_key cert_id_sha1;
      Ok (Some (mkPreparedEntry [ek256; ek1] [single cert_id_sha256; single cert_id_sha1]))
  end.

Definition prepare_entries snapshot config
    (issuer_name_hash_sha256 issuer_key_hash_sha256 issuer_name_hash_sha1
     issuer_key_hash_sha1 : bytes)
    (this_update : DateTime) (next_update_base : N) : sign_result (list PreparedEntry) :=
  prepared ← mapM (prepare_entry snapshot config issuer_name_hash_sha256 issuer_key_hash_sha256
                     issuer_name_hash_sha1 issuer_key_hash_sha1 this_update next_update_base)
               (btree_list (ss_entries snapshot));
  Ok (omap id prepared).

(** The body of the loop over buckets: the keys of a bucket and the signed response. *)
Definition sign_bucket (signer : OcspSigner) (responder_id : OcspResponderId)
    (parsed_cert : option (X509Cert Name)) (produced_at : DateTime)
    (bucket : list PreparedEntry) : sign_result (list bytes * bytes) :=
  ocsp_response ← map_err OcspBuilder
    (ocsp_sign signer (mkResponseData responder_id produced_at
       (mjoin (pe_single_responses <$> bucket)) None) parsed_cert);
  response_der ← der_of (ocsp_response_to_der ocsp_response);
  Ok (mjoin (pe_entry_keys <$> bucket), response_der).

Definition sign_and_add_entries (builder : BundleBuilder) (prepared : list PreparedEntry)
    (bucket_size : nat) (signer : OcspSigner) (responder_id : OcspResponderId)
    (responder_cert_der : option bytes) (produced_at : DateTime) (discriminator : N) :
    sign_result BundleBuilder :=
  let bucket_size := Nat.max bucket_size 1 in
  parsed_cert ← match responder_cert_der with
                | Some c => Some <$> der_of (x509_from_der c)
                | None => Ok None
                end;
  fold_result (fun builder bucket =>
    '(all_keys, response_der) ← sign_bucket signer responder_id parsed_cert produced_at bucket;
    Ok (add_shared_entries builder all_keys response_der discriminator))
    builder (chunks bucket_size prepared).

Definition extract_spki_key_hash (cert_der : bytes) : sign_result bytes :=
  cert ← map_err KeyLoad (x509_from_der cert_der);
  Ok (sha1 (bs_raw_bytes (sp_subject_public_key (xc_spki cert)))).

(** The hash that names the responder: of its own key, or of the CA's. *)
Definition responder_key_hash ca (responder_cert_der : option bytes) : sign_result bytes :=
  match responder_cert_der with
  | Some cert_der => extract_spki_key_hash cert_der
  | None => Ok (sha1 (ci_issuer_key_bytes ca))
  end.

Definition scope_of (hash_algorithm issuer_name_hash issuer_key_hash : bytes) config
    (key_hash : bytes) (responder_chain : option (list bytes)) : CaScope :=
  mkCaScope hash_algorithm issuer_name_hash issuer_key_hash (gc_epoch config)
    (mkResponderId ByKey key_hash) responder_chain [] (gc_completeness config).

Definition sha256_scope ca config (key_hash : bytes) (cert_der : option bytes) : CaScope :=
  scope_of sha256_oid_bytes (sha256 (ci_issuer_name_der ca)) (sha256 (ci_issuer_key_bytes ca))
    config key_hash ((fun cert => [cert]) <$> cert_der).
Definition sha1_scope ca config (key_hash : bytes) (cert_der : option bytes) : CaScope :=
  scope_of sha1_oid_bytes (sha1 (ci_issuer_name_der ca)) (sha1 (ci_issuer_key_bytes ca))
    config key_hash ((fun cert => [cert]) <$> cert_der).

(** SHA-1 CertIDs are produced. *)
Definition with_sha1 (compat : CertIdCompat) : bool :=
  match compat with Dual | Sha1Only => true | Sha256Only => false end.

Definition initial_manifest config (created_at : N) (ca_scopes : list CaScope) (window : Window) :
    Manifest :=
  mkManifest 1 (replicate 16 x00) (gc_producer_id config) created_at Full ca_scopes window
    (mkIntegrity (replicate 32 x00) (replicate 32 x00)) 0 (mkContinuity None None 0)
    None None None.

Definition generation_window snapshot config (produced_at next_update_base source_end : N) :
    Window :=
  mkWindow produced_at (ss_this_update snapshot) next_update_base
    (N.min (saturating_add next_update_base (gc_jitter_secs config)) source_end).

(** The checks both producers start with: the source's end, the base of the
    expiry times and the time of production. *)
Definition generation_times snapshot config : io SignError (N * N * DateTime) :=
  let now := ss_this_update snapshot in
  t1 ← unix_now;
  source_end ← io_lift (validate_at snapshot t1);
  end_of_validity ← io_lift (ok_or (checked_add now (gc_validity_secs config))
    (SignConfig "validity overflows"));
  let next_update_base := N.min end_of_validity source_end in
  t2 ← unix_now;
  io_lift (ensure (negb (next_update_base <=? t2))
    (SignConfig "generated response would already be expired")) ;;
  t3 ← unix_now;
  produced_at ← io_lift (ocsp_time t3);
  mret (source_end, next_update_base, produced_at).

(** [build], with the error of the sealing function wrapped. *)
Definition build_sealed (builder : BundleBuilder) (seal_fn : bytes -> sign_result bytes) :
    sign_result bytes :=
  map_err SignBundle (build builder (fun manifest_bytes =>
    map_err (fun _ => WriteError "seal") (seal_fn manifest_bytes))).

(** The entries of the snapshot with the hashes of the CA. *)
Definition prepare_for ca snapshot config (next_update_base : N) :
    sign_result (list PreparedEntry) :=
  this_update ← ocsp_time (ss_this_update snapshot);
  prepare_entries snapshot config
    (sha256 (ci_issuer_name_der ca)) (sha256 (ci_issuer_key_bytes ca))
    (sha1 (ci_issuer_name_der ca)) (sha1 (ci_issuer_key_bytes ca)) this_update next_update_base.

(** [produce_bundle] up to its signatures: the manifest, the entries, the responder and the time. *)
Definition start_generation ca snapshot config (responder_cert_der : option bytes) :
    io SignError (Manifest * list PreparedEntry * OcspResponderId * DateTime) :=
  '(source_end, next_update_base, produced_at) ← generation_times snapshot config;
  key_hash ← io_lift (responder_key_hash ca responder_cert_der);
  responder_id ← io_lift (OcspByKey <$> der_of (octet_string_new key_hash));
  let ca_scopes :=
    [sha256_scope ca config key_hash responder_cert_der] ++
    if with_sha1 (gc_certid_compat config)
    then [sha1_scope ca config key_hash responder_cert_der] else [] in
  created_at ← unix_now;
  window_produced_at ← unix_now;
  let manifest := initial_manifest config created_at ca_scopes
    (generation_window snapshot config window_produced_at next_update_base source_end) in
  prepared ← io_lift (prepare_for ca snapshot config next_update_base);
  mret (manifest, prepared, responder_id, produced_at).

Definition produce_bundle ca snapshot config (signer : OcspSigner)
    (seal_fn : bytes -> sign_result bytes) (responder_cert_der : option bytes) :
    io SignError bytes :=
  '(manifest, prepared, responder_id, produced_at) ← start_generation ca snapshot config responder_cert_der;
  builder ← io_lift (sign_and_add_entries (new manifest) prepared (gc_bucket_size config) signer
    responder_id responder_cert_der produced_at 0);
  io_lift (build_sealed builder seal_fn).

Definition produce_dual_bundle ca snapshot config (signer_classical signer_pq : OcspSigner)
    (disc_pq : N) (seal_fn : bytes -> sign_result bytes)
    (responder_cert_classical responder_cert_pq : option bytes) : io SignError bytes :=
  '(source_end, next_update_base, produced_at) ← generation_times snapshot config;
  key_hash_classical ← io_lift (responder_key_hash ca responder_cert_classical);
  key_hash_pq ← io_lift (responder_key_hash ca responder_cert_pq);
  let ca_scopes :=
    [sha256_scope ca config key_hash_classical responder_cert_classical;
     sha256_scope ca config key_hash_pq responder_cert_pq] ++
    if with_sha1 (gc_certid_compat config)
    then [sha1_scope ca config key_hash_classical responder_cert_classical;
          sha1_scope ca config key_hash_pq responder_cert_pq] else [] in
  created_at ← unix_now;
  window_produced_at ← unix_now;
  let manifest := initial_manifest config created_at ca_scopes
    (generation_window snapshot config window_produced_at next_update_base source_end) in
  prepared ← io_lift (prepare_for ca snapshot config next_update_base);
  responder_id_classical ← io_lift (OcspByKey <$> der_of (octet_string_new key_hash_classical));
  responder_id_pq ← io_lift (OcspByKey <$> der_of (octet_string_new key_hash_pq));
  builder ← io_lift (sign_and_add_entries (new manifest) prepared (gc_bucket_size config)
    signer_classical responder_id_classical responder_cert_classical produced_at 0);
  builder ← io_lift (sign_and_add_entries builder prepared (gc_bucket_size config)
    signer_pq responder_id_pq responder_cert_pq produced_at disc_pq);
  io_lift (build_sealed builder seal_fn).
End generate.

(** ** The entries a response is shared by *)

(** What [add_shared_entries] adds, by recursion on the keys two at a time. *)
Fixpoint shared_entries (keys : list bytes) (der : bytes) (disc : N) : list pending :=
  match keys with
  | [] => []
  | [k] => [(mkIndexRecord k 0 (as_u32 (len der)) flags_empty disc, der)]
  | k1 :: k2 :: keys =>
      let record k := (mkIndexRecord k 0 (as_u32 (len der)) (N.lor ALIAS MULTI) disc, der) in
      record k1 :: record k2 :: shared_entries keys der disc
  end.

Lemma two_step_ind {A} (P : list A -> Prop) :
  P [] -> (forall x, P [x]) -> (forall x y l, P l -> P (x :: y :: l)) -> forall l, P l.
Proof.
  intros H0 H1 H2 l. enough (P l /\ forall x, P (x :: l)) by tauto.
  induction l as [|y l [IH1 IH2]]; [by split|]. split; [apply IH2|]. intros x. by apply H2.
Qed.

Lemma push_push bb es1 es2 : push_entries (push_entries bb es1) es2 = push_entries bb (es1 ++ es2).
Proof. unfold push_entries. cbn. by rewrite app_assoc. Qed.

(** The loop stops with at most one key left, having added the others. *)
Lemma add_pairs_spec fuel bb keys i der disc :
  (i <= length keys <= fuel + i)%nat ->
  exists j es, add_pairs fuel bb keys i der disc = (push_entries bb es, j) /\
    (j <= length keys <= j + 1)%nat /\
    shared_entries (drop i keys) der disc = es ++ shared_entries (drop j keys) der disc.
Proof.
  revert bb i. induction fuel as [|fuel IH]; intros bb i Hi.
  - exists i, []. cbn [add_pairs]. unfold push_entries. rewrite app_nil_r. destruct bb.
    split_and!; [done|lia|lia|done].
  - cbn [add_pairs]. pose proof (length_drop keys i) as Hl.
    destruct (drop i keys) as [|k1 [|k2 rest]] eqn:E; cbn in Hl.
    1, 2: exists i, []; unfold push_entries; rewrite app_nil_r; destruct bb;
      split_and!; [done|lia|lia|by rewrite E].
    assert (drop (i + 2) keys = rest) as Hr by (by rewrite <- drop_drop, E).
    destruct (IH (add_dual_entry_with_discriminator bb k1 k2 der disc) (i + 2)%nat)
      as (j & es & -> & Hj & Hs); [lia|].
    unfold add_dual_entry_with_discriminator. rewrite push_push. eexists j, _.
    split_and!; [done|lia|lia|]. rewrite Hr in Hs. cbn [shared_entries app]. by rewrite Hs.
Qed.

Lemma add_shared_push bb keys der disc :
  add_shared_entries bb keys der disc = push_entries bb (shared_entries keys der disc).
Proof.
  destruct keys as [|k1 [|k2 [|k3 keys]]]; [|done|done|].
  - unfold push_entries. cbn. rewrite app_nil_r. by destruct bb.
  - unfold add_shared_entries. set (ks := k1 :: k2 :: k3 :: keys).
    destruct (add_pairs_spec (length ks) bb ks 0 der disc) as (j & es & -> & Hj & Hs); [lia|].
    rewrite drop_0 in Hs. rewrite Hs. pose proof (length_drop ks j).
    destruct (drop j ks) as [|k [|]]; cbn in *; [by rewrite app_nil_r|by rewrite <- push_push|lia].
Qed.

Lemma shared_keys keys der disc :
  (fun e => record_key e.1) <$> shared_entries keys der disc = (fun k => (k, disc)) <$> keys.
Proof. induction keys as [|k|k1 k2 keys IH] using two_step_ind; cbn; [done..|]. by rewrite IH. Qed.

Lemma shared_Forall (P : pending -> Prop) keys der disc :
  (forall k, k ∈ keys -> P (mkIndexRecord k 0 (as_u32 (len der)) flags_empty disc, der) /\
     P (mkIndexRecord k 0 (as_u32 (len der)) (N.lor ALIAS MULTI) disc, der)) ->
  Forall P (shared_entries keys der disc).
Proof.
  induction keys as [|k|k1 k2 keys IH] using two_step_ind; cbn [shared_entries]; intros H.
  - constructor.
  - repeat constructor. apply H. set_solver.
  - constructor; [apply H; set_solver|]. constructor; [apply H; set_solver|].
    apply IH. intros k Hk. apply H. set_solver.
Qed.

(** C39: [add_shared_entries] is total and stores every key once: the index loop over
    pairs ends before its fuel does, with no key left over, and the entries added
    are, in order, one for each key, all with the same response and discriminator
    and none a tombstone; keys two by two are alias records, so that the builder
    stores the response of a pair once, and only an odd last key is not. *)
Theorem add_shared_entries_exact bb keys der disc :
  add_shared_entries bb keys der disc = push_entries bb (shared_entries keys der disc) /\
  (fun e => record_key e.1) <$> shared_entries keys der disc = (fun k => (k, disc)) <$> keys /\
  Forall (fun e => e.2 = der /\ is_tombstone e.1 = false) (shared_entries keys der disc) /\
  length (filter (fun e => is_alias e.1 = false) (shared_entries keys der disc)) =
    (length keys mod 2)%nat.
Proof.
  split_and!; [apply add_shared_push|apply shared_keys|by apply shared_Forall|].
  induction keys as [|k|k1 k2 keys IH] using two_step_ind; [done..|].
  cbn [shared_entries]. rewrite !filter_cons_False by done. rewrite IH. cbn [length].
  replace (S (S (length keys))) with (length keys + 1 * 2)%nat by lia.
  by rewrite Nat.Div0.mod_add.
Qed.

(** ** Buckets *)

Lemma chunks_from_concat {A} fuel n (l : list A) :
  (0 < n)%nat -> (length l <= fuel)%nat -> mjoin (chunks_from fuel n l) = l.
Proof.
  intros Hn. revert l. induction fuel as [|fuel IH]; intros l Hl.
  - by destruct l; cbn in *; [|lia].
  - destruct l as [|x l]; [done|]. cbn [chunks_from mjoin list_join].
    rewrite IH; [apply take_drop|]. rewrite length_drop. cbn in *. lia.
Qed.

Lemma chunks_concat {A} n (l : list A) : (0 < n)%nat -> mjoin (chunks n l) = l.
Proof. intros. by apply chunks_from_concat. Qed.

Lemma chunks_size {A} n (l : list A) :
  (0 < n)%nat -> Forall (fun c => 1 <= length c <= n)%nat (chunks n l).
Proof.
  intros Hn. unfold chunks. generalize (length l) as fuel. intros fuel. revert l.
  induction fuel as [|fuel IH]; intros l; [constructor|]. destruct l as [|x l]; [constructor|].
  cbn [chunks_from]. constructor; [|apply IH]. rewrite length_take. cbn [length]. lia.
Qed.

Lemma elem_of_chunks {A} n (l : list A) x :
  (0 < n)%nat -> x ∈ l -> exists c, c ∈ chunks n l /\ x ∈ c.
Proof.
  intros Hn Hx. rewrite <- (chunks_concat n l Hn) in Hx.
  apply list_elem_of_join in Hx as (c & ? & ?). eauto.
Qed.

(** ** What signing adds *)

Section signing_props.
Context {CR : Crates} {OC : OcspCrates} {SG : SignCrates}.
Implicit Types (snapshot : StatusSnapshot) (config : GenerationConfig) (ca : CaIdentity).

(** The keys of each bucket with the response signed for it. *)
Definition signed_buckets (prepared : list PreparedEntry) (bucket_size : nat)
    (signer : OcspSigner) (responder_id : OcspResponderId) (responder_cert_der : option bytes)
    (produced_at : DateTime) : sign_result (list (list bytes * bytes)) :=
  parsed_cert ← match responder_cert_der with
                | Some c => Some <$> der_of (x509_from_der c)
                | None => Ok None
                end;
  mapM (sign_bucket signer responder_id parsed_cert produced_at)
    (chunks (Nat.max bucket_size 1) prepared).

(** The entries that signed buckets become. *)
Definition bucket_entries (disc : N) (signed : list (list bytes * bytes)) : list pending :=
  mjoin ((fun s => shared_entries s.1 s.2 disc) <$> signed).

Lemma sign_and_add_Ok bb prepared n signer rid cert_der t disc bb' :
  sign_and_add_entries bb prepared n signer rid cert_der t disc = Ok bb' <->
  exists signed, signed_buckets prepared n signer rid cert_der t = Ok signed /\
    bb' = push_entries bb (bucket_entries disc signed).
Proof.
  unfold sign_and_add_entries, signed_buckets, bucket_entries.
  destruct (match cert_der with Some c => _ | None => _ end) as [cert|e]; cbn [mbind result_bind];
    [|by split; [|intros (? & ? & ?)]].
  generalize (chunks (Nat.max n 1) prepared). intros cs. revert bb.
  induction cs as [|c cs IH]; intros bb; cbn [fold_result mapM].
  - split.
    + intros [= <-]. exists []. split; [done|]. unfold push_entries. cbn. rewrite app_nil_r.
      by destruct bb.
    + intros (? & [= <-] & ->). unfold push_entries. cbn. rewrite app_nil_r. by destruct bb.
  - destruct (sign_bucket signer rid cert t c) as [[keys der]|e]; cbn [mbind result_bind];
      [|by split; [|intros (? & ? & ?)]].
    rewrite IH. setoid_rewrite bind_Ok. split.
    + intros (signed & Hs & ->). eexists. split; [eexists; split; [exact Hs|done]|].
      by rewrite add_shared_push, push_push.
    + intros (signed & (tl & Hs & [= <-]) & ->). exists tl. split; [done|].
      by rewrite add_shared_push, push_push.
Qed.

Lemma bucket_entries_keys disc signed :
  (fun e => record_key e.1) <$> bucket_entries disc signed =
  (fun k => (k, disc)) <$> mjoin signed.*1.
Proof.
  induction signed as [|[keys der] signed IH]; [done|].
  change (bucket_entries disc ((keys, der) :: signed)) with
    (shared_entries keys der disc ++ bucket_entries disc signed).
  change (mjoin ((keys, der) :: signed).*1) with (keys ++ mjoin signed.*1).
  by rewrite !fmap_app, IH, shared_keys.
Qed.

Lemma elem_of_bucket_entries disc signed keys der k :
  (keys, der) ∈ signed -> k ∈ keys ->
  exists e, e ∈ bucket_entries disc signed /\ record_key e.1 = (k, disc) /\ e.2 = der /\
    is_tombstone e.1 = false.
Proof.
  intros Hs Hk.
  assert ((k, disc) ∈ (fun e => record_key e.1) <$> shared_entries keys der disc) as Hin
    by (rewrite shared_keys; by apply (list_elem_of_fmap_2 (fun k => (k, disc)))).
  apply list_elem_of_fmap in Hin as (e & Hek & He).
  assert (Forall (fun e => e.2 = der /\ is_tombstone e.1 = false) (shared_entries keys der disc))
    as Hf by (by apply shared_Forall).
  rewrite Forall_forall in Hf. destruct (Hf e He). exists e. split_and!; try done.
  unfold bucket_entries. apply list_elem_of_join. eexists. split; [exact He|].
  by apply (list_elem_of_fmap_2 (fun s => shared_entries s.1 s.2 disc) signed (keys, der)).
Qed.

Lemma bucket_entries_Forall (P : pending -> Prop) disc signed :
  (forall keys der k, (keys, der) ∈ signed -> k ∈ keys ->
     P (mkIndexRecord k 0 (as_u32 (len der)) flags_empty disc, der) /\
     P (mkIndexRecord k 0 (as_u32 (len der)) (N.lor ALIAS MULTI) disc, der)) ->
  Forall P (bucket_entries disc signed).
Proof.
  intros H. unfold bucket_entries. induction signed as [|[keys der] signed IH]; [constructor|].
  cbn. apply Forall_app_2.
  - apply shared_Forall. intros k Hk. by apply (H keys der); [left|].
  - apply IH. intros ?????. eapply H; [right|]; done.
Qed.

Lemma bucket_entries_typed disc signed :
  disc < u16_lim -> Forall (fun k => length k = 32%nat) (mjoin signed.*1) ->
  Forall pending_typed (bucket_entries disc signed).
Proof.
  intros Hd Hk. apply bucket_entries_Forall. intros keys der k Hs Hin.
  assert (length k = 32%nat).
  { rewrite Forall_forall in Hk. apply Hk, list_elem_of_join. exists keys. split; [done|].
    by apply (list_elem_of_fmap_2 fst signed (keys, der)). }
  by split.
Qed.

(** No two responses collide. *)
Definition responses_apart (signed : list (list bytes * bytes)) : Prop :=
  forall r1 r2, r1 ∈ signed.*2 -> r2 ∈ signed.*2 -> sha256 r1 = sha256 r2 -> r1 = r2.

Lemma bucket_entries_payload disc signed :
  Forall (fun e => e.2 ∈ signed.*2) (bucket_entries disc signed).
Proof.
  apply bucket_entries_Forall. intros keys der k Hs _.
  by split; apply (list_elem_of_fmap_2 snd signed (keys, der)).
Qed.

Lemma bucket_entries_collision disc signed :
  responses_apart signed -> collision_free (bucket_entries disc signed).
Proof.
  pose proof (bucket_entries_payload disc signed) as Hp. rewrite Forall_forall in Hp.
  intros Ha e1 e2 H1 H2 _ _. apply Ha; by apply Hp.
Qed.

(** A bucket's response answers for every entry of the bucket. *)
Lemma signed_buckets_Ok `{!SignCratesSpec SG} prepared n signer rid cert_der t signed :
  signed_buckets prepared n signer rid cert_der t = Ok signed ->
  mjoin signed.*1 = mjoin (pe_entry_keys <$> prepared) /\
  forall e, e ∈ prepared -> exists keys der data, (keys, der) ∈ signed /\
    (forall k, k ∈ pe_entry_keys e -> k ∈ keys) /\ decodes_to der data /\
    rd_responder_id data = rid /\ rd_produced_at data = t /\ rd_nonce data = None /\
    (forall s, s ∈ pe_single_responses e -> s ∈ rd_responses data) /\
    (exists bucket, (length bucket <= Nat.max n 1)%nat /\
       rd_responses data = mjoin (pe_single_responses <$> bucket) /\
       forall e', e' ∈ bucket -> e' ∈ prepared).
Proof.
  intros (cert & _ & Hm%mapM_Ok)%bind_Ok. set (cs := chunks (Nat.max n 1) prepared) in Hm.
  assert (mjoin cs = prepared) as Hcs by (apply chunks_concat; lia).
  pose proof (chunks_size (Nat.max n 1) prepared ltac:(lia)) as Hsz. fold cs in Hsz. split.
  - rewrite <- Hcs. clearbody cs. clear Hcs Hsz.
    induction Hm as [|c [keys der] cs signed Hc _ IH]; [done|].
    change (mjoin ((keys, der) :: signed).*1) with (keys ++ mjoin signed.*1).
    change (mjoin (c :: cs)) with (c ++ mjoin cs). rewrite fmap_app, join_app, IH. f_equal.
    unfold sign_bucket in Hc. inv_ok. by simplify_eq.
  - intros e He. rewrite <- Hcs in He. apply list_elem_of_join in He as (c & Hec & Hc).
    apply list_elem_of_lookup in Hc as [i Hi].
    destruct (Forall2_lookup_l _ _ _ _ _ Hm Hi) as ([keys der] & Hsi & Hb).
    unfold sign_bucket in Hb. inv_ok. simplify_eq. rename select (ocsp_sign _ _ _ = _) into Hsign.
    rename select (der_of _ = _) into Hder. apply map_err_Ok in Hder.
    destruct (ocsp_sign_decodes _ _ _ _ _ Hsign Hder) as (b & Hb1 & Hb2).
    eexists _, _, _. split; [by apply list_elem_of_lookup; eauto|]. split.
    { intros k Hk. apply list_elem_of_join. exists (pe_entry_keys e). split; [done|].
      by apply list_elem_of_fmap_2. }
    split; [exists b; eauto|]. cbn. split_and!; try done.
    + intros s Hs. apply list_elem_of_join. exists (pe_single_responses e). split; [done|].
      by apply list_elem_of_fmap_2.
    + exists c. split_and!; [|done|].
      * rewrite Forall_lookup in Hsz. by apply (Hsz i).
      * intros e' He'. rewrite <- Hcs. apply list_elem_of_join. exists c. split; [done|].
        by eapply list_elem_of_lookup_2.
Qed.
End signing_props.

(** ** What is prepared for a certificate *)

Section prepare_props.
Context {CR : Crates} {OC : OcspCrates} {SG : SignCrates}.
Context {SH : Sha256Spec} {SS : SignCratesSpec SG}.
Implicit Types (snapshot : StatusSnapshot) (config : GenerationConfig) (ca : CaIdentity).

(** The hash algorithm and issuer hashes of each CertID an entry is stored under. *)
Definition certid_forms (compat : CertIdCompat) ca : list (string * bytes * bytes) :=
  let form256 :=
    (sha256_oid, sha256 (ci_issuer_name_der ca), sha256 (ci_issuer_key_bytes ca)) in
  let form1 := (sha1_oid, sha1 (ci_issuer_name_der ca), sha1 (ci_issuer_key_bytes ca)) in
  match compat with
  | Sha256Only => [form256]
  | Sha1Only => [form1]
  | Dual => [form256; form1]
  end.

Definition form_certid (serial_number : bytes) (form : string * bytes * bytes) : CertId :=
  mkCertId form.1.1 (Some NULL_DER) form.1.2 form.2 serial_number.

(** [e] holds the status of [serial] under every CertID form. *)
Definition prepared_for ca snapshot config (this_update : DateTime) (base : N)
    (serial : bytes) (status : CertificateStatus) (e : PreparedEntry) : Prop :=
  exists serial_number cert_status n next_update,
    serial_number_new serial = Ok serial_number /\ cert_status_of status = Ok cert_status /\
    next_update_time snapshot config base serial = Ok n /\ ocsp_time n = Ok next_update /\
    let ids := form_certid serial_number <$> certid_forms (gc_certid_compat config) ca in
    Forall2 (fun cid k => exists der, certid_to_der cid = Ok der /\ k = sha256 der) ids
      (pe_entry_keys e) /\
    pe_single_responses e =
      (fun cid => mkSingleResponse cid cert_status this_update (Some next_update)) <$> ids.

Lemma build_certid_Ok oid nh kh sn cid :
  build_certid oid nh kh sn = Ok cid -> cid = form_certid sn (oid, nh, kh).
Proof.
  unfold build_certid, der_of. intros H. inv_ok.
  repeat match goal with E : octet_string_new _ = Ok _ |- _ => apply octet_string_new_Ok in E end.
  by subst.
Qed.

Lemma certid_key_Ok cid k :
  certid_key cid = Ok k <-> exists der, certid_to_der cid = Ok der /\ k = sha256 der.
Proof.
  unfold certid_key, der_of. split; [intros H; inv_ok; eauto|].
  intros (der & -> & ->). done.
Qed.

Lemma prepare_entry_Ok ca snapshot config tu base serial status o :
  prepare_entry snapshot config (sha256 (ci_issuer_name_der ca))
    (sha256 (ci_issuer_key_bytes ca)) (sha1 (ci_issuer_name_der ca))
    (sha1 (ci_issuer_key_bytes ca)) tu base (serial, status) = Ok o ->
  if archived snapshot config serial then o = None
  else exists e, o = Some e /\ prepared_for ca snapshot config tu base serial status e.
Proof.
  unfold prepare_entry. destruct (archived snapshot config serial); [by intros [= <-]|].
  intros H. inv_ok. rename select (der_of _ = Ok _) into Hsn. apply map_err_Ok in Hsn.
  rename v into st, v0 into sn, v1 into n, v2 into nu. unfold prepared_for, certid_forms.
  destruct (gc_certid_compat config) eqn:Ec; inv_ok;
    repeat match goal with
    | E : build_certid _ _ _ _ = Ok _ |- _ => apply build_certid_Ok in E; subst
    | E : certid_key _ = Ok _ |- _ => apply certid_key_Ok in E
    end; try subst o; (eexists; split; [done|]); exists sn, st, n, nu; split_and!; try done;
    by repeat constructor.
Qed.

Lemma prepare_for_Ok ca snapshot config base prepared :
  prepare_for ca snapshot config base = Ok prepared ->
  exists this_update, ocsp_time (ss_this_update snapshot) = Ok this_update /\
    (forall serial status, ss_entries snapshot !! serial = Some status ->
       archived snapshot config serial = false ->
       exists e, e ∈ prepared /\ prepared_for ca snapshot config this_update base serial status e) /\
    (forall e, e ∈ prepared -> exists serial status, ss_entries snapshot !! serial = Some status /\
       archived snapshot config serial = false /\
       prepared_for ca snapshot config this_update base serial status e).
Proof.
  intros (tu & Htu & (os & Hos%mapM_Ok & [= <-])%bind_Ok)%bind_Ok. exists tu. split; [done|]. split.
  - intros serial status Hs Ha. apply elem_of_btree_list, list_elem_of_lookup in Hs as [i Hi].
    destruct (Forall2_lookup_l _ _ _ _ _ Hos Hi) as (o & Ho & Hp%prepare_entry_Ok).
    rewrite Ha in Hp. destruct Hp as (e & -> & He). exists e. split; [|done].
    apply list_elem_of_omap. exists (Some e). split; [by eapply list_elem_of_lookup_2|done].
  - intros e (o & Ho & Heq)%list_elem_of_omap. cbn in Heq. subst o.
    apply list_elem_of_lookup in Ho as [i Hi].
    destruct (Forall2_lookup_r _ _ _ _ _ Hos Hi) as ([serial status] & Hl & Hp%prepare_entry_Ok).
    exists serial, status. split; [by apply elem_of_btree_list; eapply list_elem_of_lookup_2|].
    destruct (archived snapshot config serial); [done|]. split; [done|].
    destruct Hp as (e' & [= <-] & He). done.
Qed.

Lemma prepared_for_keys ca snapshot config tu base serial status e :
  prepared_for ca snapshot config tu base serial status e ->
  Forall (fun k => length k = 32%nat) (pe_entry_keys e).
Proof.
  intros (? & ? & ? & ? & _ & _ & _ & _ & Hk & _). eapply Forall2_Forall_r; [exact Hk|].
  apply Forall_true. intros ? k (der & _ & ->). apply sha256_length.
Qed.

(** ** Expiry times *)

Lemma jitter_bound serial j : j < u64_lim -> entry_key_jitter serial j <= j.
Proof.
  intros Hj. unfold entry_key_jitter.
  assert (be_decode (take 4 (sha256 serial)) <= u32_lim - 1) as Hf.
  { pose proof (be_decode_bound (take 4 (sha256 serial))) as Hb.
    assert (len (take 4 (sha256 serial)) = 4) as Hl
      by (unfold len; rewrite length_take, sha256_length; done).
    rewrite Hl in Hb. change (256 ^ 4) with u32_lim in Hb. lia. }
  assert (be_decode (take 4 (sha256 serial)) * j / (u32_lim - 1) <= j) as Hq.
  { apply N.Div0.div_le_upper_bound. apply N.mul_le_mono_r. exact Hf. }
  rewrite N.mod_small; lia.
Qed.

Lemma next_update_bounds snapshot config base serial source_end n :
  gc_jitter_secs config < u64_lim -> base < u64_lim -> base <= source_end ->
  ss_next_update snapshot = Some source_end ->
  next_update_time snapshot config base serial = Ok n ->
  base <= n <= N.min (saturating_add base (gc_jitter_secs config)) source_end.
Proof.
  intros Hj Hb Hle He. unfold next_update_time. rewrite He. intros [= <-].
  pose proof (jitter_bound serial _ Hj). unfold saturating_add. lia.
Qed.
End prepare_props.

(** ** The produced file *)

Section produce_props.
Context {CR : Crates} {OC : OcspCrates} {SG : SignCrates}.
Context {SH : Sha256Spec} {UU : UuidSpec} {CB : CiboriumSpec} {SS : SignCratesSpec SG}.
Implicit Types (snapshot : StatusSnapshot) (config : GenerationConfig) (ca : CaIdentity).
Implicit Types (seal_fn : bytes -> sign_result bytes).

(** The types of the configuration's fields. *)
Record config_typed config : Prop := {
  ct_producer : is_utf8 (gc_producer_id config) = true;
  ct_epoch : gc_epoch config < u64_lim;
  ct_jitter : gc_jitter_secs config < u64_lim;
}.

(** The base of the expiry times, which depends on no clock. *)
Definition expiry_base snapshot config (source_end : N) : N :=
  N.min (ss_this_update snapshot + gc_validity_secs config) source_end.

Lemma generation_times_Done snapshot config w source_end base produced_at w' :
  generation_times snapshot config w = (Done (source_end, base, produced_at), w') ->
  exists t1 t2 t3, w_clock w = Some t1 :: Some t2 :: Some t3 :: w_clock w' /\ same_files w w' /\
    ss_next_update snapshot = Some source_end /\ ss_this_update snapshot <= t1 < source_end /\
    base = expiry_base snapshot config source_end /\ base < u64_lim /\ t2 < base /\
    ocsp_time t3 = Ok produced_at.
Proof.
  unfold generation_times. intros H. inv_io.
  repeat match goal with E : unix_now _ = _ |- _ => apply unix_now_Done in E as [? E] end.
  rename select (validate_at _ _ = _) into Hv. apply validate_at_Ok in Hv as [Hv1 Hv2].
  rename select (checked_add _ _ = _) into Hc. apply checked_add_Some in Hc as [-> Hc].
  rename select (negb _ = true) into Hn. apply negb_true_iff, N.leb_gt in Hn.
  eexists _, _, _. split; [repeat match goal with E : w_clock _ = _ |- _ => rewrite E; clear E end; done|].
  split_and!; try done; [by repeat (etrans; [eassumption|])|lia|lia|lia].
Qed.

(** What a producer that returns has done, for the builder it built from. *)
Definition window_of snapshot config (source_end produced_at : N) : Window :=
  generation_window snapshot config produced_at (expiry_base snapshot config source_end) source_end.

Lemma produce_bundle_Done ca snapshot config signer seal_fn cert_der w file w' :
  produce_bundle ca snapshot config signer seal_fn cert_der w = (Done file, w') ->
  exists t1 t2 t3 t4 t5 source_end produced_at key_hash prepared signed,
    w_clock w = Some t1 :: Some t2 :: Some t3 :: Some t4 :: Some t5 :: w_clock w' /\
    same_files w w' /\
    ss_next_update snapshot = Some source_end /\ ss_this_update snapshot <= t1 < source_end /\
    expiry_base snapshot config source_end < u64_lim /\ t2 < expiry_base snapshot config source_end /\
    ocsp_time t3 = Ok produced_at /\ responder_key_hash ca cert_der = Ok key_hash /\
    prepare_for ca snapshot config (expiry_base snapshot config source_end) = Ok prepared /\
    signed_buckets prepared (gc_bucket_size config) signer (OcspByKey key_hash) cert_der
      produced_at = Ok signed /\
    build_sealed (push_entries (new (initial_manifest config t4
        ([sha256_scope ca config key_hash cert_der] ++
         if with_sha1 (gc_certid_compat config) then [sha1_scope ca config key_hash cert_der]
         else []) (window_of snapshot config source_end t5)))
      (bucket_entries 0 signed)) seal_fn = Ok file.
Proof.
  unfold produce_bundle, start_generation. intros H.
  apply io_bind_Done in H as ([[[manifest prepared] rid] pa'] & w0 & H0 & H).
  apply io_bind_Done in H0 as ([[se base] pa] & w1 & Ht & H0).
  apply generation_times_Done in Ht as (t1 & t2 & t3 & Hc & Hsf & Hse & Ht1 & -> & Hb & Ht2 & Ht3).
  inv_io. repeat match goal with E : unix_now _ = _ |- _ => apply unix_now_Done in E as [? E] end.
  rename select (_ <$> _ = Ok _) into Hr. apply fmap_Ok in Hr as (kh & Hr%map_err_Ok & ->).
  apply octet_string_new_Ok in Hr as ->.
  rename select (sign_and_add_entries _ _ _ _ _ _ _ _ = _) into Hs.
  apply sign_and_add_Ok in Hs as (signed & Hs & ->).
  eexists t1, t2, t3, _, _, se, pa, _, _, signed. split_and!; try done.
  - rewrite Hc. repeat match goal with E : w_clock _ = _ |- _ => rewrite E; clear E end. done.
  - by repeat (etrans; [eassumption|]).
  - lia.
  - lia.
Qed.

(** A file built from an initial manifest and typed entries serves the entries. *)
Lemma build_sealed_bundle config created_at scopes window es seal_fn file :
  config_typed config -> created_at < u64_lim -> Window_wf window ->
  Forall (fun s => cs_epoch s = gc_epoch config) scopes ->
  Forall pending_typed es -> NoDup ((fun e => record_key e.1) <$> es) -> collision_free es ->
  build_sealed (push_entries (new (initial_manifest config created_at scopes window)) es) seal_fn
    = Ok file -> len file < u32_lim ->
  exists b, from_bytes file = Ok b /\ (exists m, verified b m) /\ servable b /\
    bundle_map b = entry_map es /\ m_window (b_manifest b) = window /\
    m_ca_scopes (b_manifest b) = scopes /\
    m_producer_id (b_manifest b) = gc_producer_id config.
Proof.
  intros [Hu He Hj] Hca Hw Hsc Hty Hnd Hcf Hb%map_err_Ok Hl.
  set (bb := push_entries _ es) in *. assert (bb_entries bb = es) as Hes by done.
  assert (Manifest_wf (bb_manifest bb)) as Hm.
  { split; [split|..]; cbn; try done. eapply Forall_impl; [exact Hsc|]. by intros s ->. }
  destruct (small_buildable bb _ file Hm Hty Hnd Hcf Hb Hl) as (seal & Hs & Hbu).
  exists (with_header (built bb seal) (compact_header (built bb seal))).
  split; [exact (build_read bb _ seal file Hbu Hs Hb)|]. split.
  { exists (b_manifest (built bb seal)). split; try done.
    - by apply from_to_cbor, built_manifest_wf.
    - by apply built_sorted.
    - by apply built_bounds. }
  split; [|split_and!; [by apply (built_map bb seal)|done..]].
  split; try done. cbn [with_header b_index]. pose proof (built_placed bb seal Hbu) as Hp.
  eapply Forall2_Forall_r; [exact Hp|]. rewrite sort_by_key_perm, Hes.
  eapply Forall_impl; [exact Hty|]. intros e (_ & _ & _ & Ht) r (o & n & -> & _). exact Ht.
Qed.

Lemma entry_map_Some es k p :
  NoDup ((fun e => record_key e.1) <$> es) ->
  entry_map es !! k = Some p <-> exists e, e ∈ es /\ record_key e.1 = k /\ pending_value e = p.
Proof.
  intros Hn. unfold entry_map. rewrite <- elem_of_list_to_map; [|by rewrite <- list_fmap_compose].
  rewrite list_elem_of_fmap. naive_solver.
Qed.

(** The only discriminator stored is found whatever the client prefers. *)
Lemma table_lookup_only t key disc p discs :
  t !! (key, disc) = Some p -> (forall d, d <> disc -> t !! (key, d) = None) -> disc ∈ discs ->
  table_lookup t key discs = p.
Proof.
  intros Ht Ho. induction discs as [|d discs IH]; [by intros ?%elem_of_nil|]. cbn. intros Hin.
  destruct (decide (d = disc)) as [->|Hd]; [by rewrite Ht|]. rewrite Ho by done. apply IH.
  by apply elem_of_cons in Hin as [|].
Qed.

Lemma table_lookup_found t key discs p :
  table_lookup t key discs = Some p -> exists d, d ∈ discs /\ t !! (key, d) = Some (Some p).
Proof.
  induction discs as [|d discs IH]; cbn; [done|]. destruct (t !! (key, d)) as [o|] eqn:E.
  - intros ->. exists d. split; [by left|done].
  - intros (d' & ? & ?)%IH. exists d'. split; [by right|done].
Qed.

Lemma default_effective prefs : 0 ∈ effective_preferences prefs.
Proof. unfold effective_preferences, ALG_DISC_DEFAULT. case_decide; set_solver. Qed.

(** A lookup with the CertID of [serial] in a form finds a response of this
    responder that states the certificate's status, from the source's
    thisUpdate to an expiry in the bundle's window. *)
Definition answers b ca snapshot (cert_der : option bytes) (produced_at : DateTime)
    (preferences : list N) (serial : bytes) (status : CertificateStatus)
    (form : string * bytes * bytes) : Prop :=
  exists serial_number cid_der response data key_hash cert_status this_update n next_update,
    serial_number_new serial = Ok serial_number /\
    certid_to_der (form_certid serial_number form) = Ok cid_der /\
    lookup_preferred b (sha256 cid_der) preferences = Some response /\ decodes_to response data /\
    responder_key_hash ca cert_der = Ok key_hash /\ rd_responder_id data = OcspByKey key_hash /\
    rd_produced_at data = produced_at /\ rd_nonce data = None /\
    cert_status_of status = Ok cert_status /\
    ocsp_time (ss_this_update snapshot) = Ok this_update /\ ocsp_time n = Ok next_update /\
    mkSingleResponse (form_certid serial_number form) cert_status this_update (Some next_update)
      ∈ rd_responses data /\
    w_next_update_min (m_window (b_manifest b)) <= n <= w_next_update_max (m_window (b_manifest b)).

(** The window of a produced bundle: current now, inside the source's validity. *)
Definition window_current snapshot (now : N) (w : Window) : Prop :=
  w_this_update_min w = ss_this_update snapshot /\ now < w_next_update_min w /\
  w_next_update_min w <= w_next_update_max w /\
  exists source_end, ss_next_update snapshot = Some source_end /\ w_next_update_max w <= source_end.

Lemma window_of_wf snapshot config source_end t :
  expiry_base snapshot config source_end < u64_lim -> ss_this_update snapshot < u64_lim ->
  t < u64_lim -> Window_wf (window_of snapshot config source_end t).
Proof.
  intros Hb Ht1 Ht. split; cbn; try done. unfold saturating_add, u64_lim. lia.
Qed.

Lemma window_of_current snapshot config source_end t now :
  ss_next_update snapshot = Some source_end -> now < expiry_base snapshot config source_end ->
  expiry_base snapshot config source_end < u64_lim ->
  window_current snapshot now (window_of snapshot config source_end t).
Proof.
  intros He Hn Hb. split_and!; [done|done| |exists source_end; split; [done|]].
  - cbn. assert (expiry_base snapshot config source_end <= source_end) by (unfold expiry_base; lia).
    unfold saturating_add. lia.
  - cbn. lia.
Qed.

(** The preferences of a lookup select discriminator [disc] of the keys of [es]. *)
Definition selects (es : list pending) (disc : N) (prefs : list N) : Prop :=
  forall k p, entry_map es !! (k, disc) = Some p ->
    table_lookup (entry_map es) k (effective_preferences prefs) = p.

Lemma signed_answers b ca snapshot config signer cert_der produced_at source_end key_hash prepared
    signed es disc prefs t :
  config_typed config -> (exists m, verified b m) -> bundle_map b = entry_map es ->
  NoDup ((fun e => record_key e.1) <$> es) -> bucket_entries disc signed ⊆ es ->
  m_window (b_manifest b) = window_of snapshot config source_end t ->
  ss_next_update snapshot = Some source_end -> expiry_base snapshot config source_end < u64_lim ->
  responder_key_hash ca cert_der = Ok key_hash ->
  prepare_for ca snapshot config (expiry_base snapshot config source_end) = Ok prepared ->
  signed_buckets prepared (gc_bucket_size config) signer (OcspByKey key_hash) cert_der produced_at
    = Ok signed ->
  selects es disc prefs ->
  forall serial status form, ss_entries snapshot !! serial = Some status ->
    archived snapshot config serial = false ->
    form ∈ certid_forms (gc_certid_compat config) ca ->
    answers b ca snapshot cert_der produced_at prefs serial status form.
Proof.
  intros [_ _ Hj] [m Hv] Hmap Hnd Hsub Hw Hse Hb Hkh Hp Hs Hsel serial status form Hl Ha Hf.
  apply prepare_for_Ok in Hp as (tu & Htu & Hall & _).
  destruct (Hall serial status Hl Ha) as (e & He & sn & st & n & nu & Hsn & Hst & Hn & Hnu & Hk & Hr).
  apply signed_buckets_Ok in Hs as [_ Hs].
  destruct (Hs e He) as (keys & der & data & Hin & Hkeys & Hdec & Hrid & Hpa & Hno & Hresp & _).
  set (cid := form_certid sn form).
  assert (Hcid : cid ∈ form_certid sn <$> certid_forms (gc_certid_compat config) ca)
    by (by apply list_elem_of_fmap_2).
  pose proof Hcid as [i Hi]%list_elem_of_lookup.
  destruct (Forall2_lookup_l _ _ _ _ _ Hk Hi) as (k & Hki & cid_der & Hcd & ->).
  apply list_elem_of_lookup_2, Hkeys in Hki.
  destruct (elem_of_bucket_entries disc _ _ _ _ Hin Hki) as (e' & He' & Hrk & Hpay & Htomb).
  exists sn, cid_der, der, data, key_hash, st, tu, n, nu. split_and!; try done.
  - rewrite lookup_preferred_table, Hmap by (by apply validate_sort_order_Ok; destruct Hv).
    apply Hsel, entry_map_Some; [done|]. exists e'. split_and!; [by apply Hsub|done|].
    unfold pending_value. by rewrite Htomb, Hpay.
  - apply Hresp. rewrite Hr. by apply (list_elem_of_fmap_2 (fun c => mkSingleResponse c st tu (Some nu))).
  - rewrite Hw. cbn. apply (next_update_bounds snapshot config _ serial source_end n); try done.
    unfold expiry_base. lia.
  - rewrite Hw. cbn. apply (next_update_bounds snapshot config _ serial source_end n); try done.
    unfold expiry_base. lia.
Qed.

(** Whatever a lookup finds answers for a CertID of the snapshot. *)
Definition stems_from_snapshot ca snapshot config (key : bytes) : Prop :=
  exists serial status form serial_number cid_der,
    ss_entries snapshot !! serial = Some status /\ archived snapshot config serial = false /\
    form ∈ certid_forms (gc_certid_compat config) ca /\
    serial_number_new serial = Ok serial_number /\
    certid_to_der (form_certid serial_number form) = Ok cid_der /\ key = sha256 cid_der.

Lemma prepared_key_stems ca snapshot config base prepared key :
  prepare_for ca snapshot config base = Ok prepared ->
  key ∈ mjoin (pe_entry_keys <$> prepared) -> stems_from_snapshot ca snapshot config key.
Proof.
  intros (tu & Htu & _ & Hall)%prepare_for_Ok (ks & Hk & (e & -> & He)%list_elem_of_fmap)
    %list_elem_of_join.
  destruct (Hall e He) as (serial & status & Hl & Ha & sn & st & n & nu & Hsn & _ & _ & _ & Hf & _).
  apply list_elem_of_lookup in Hk as [i Hi].
  destruct (Forall2_lookup_r _ _ _ _ _ Hf Hi) as (cid & Hc & der & Hd & ->).
  apply list_elem_of_lookup_2, list_elem_of_fmap in Hc as (form & -> & Hform).
  exists serial, status, form, sn, der. done.
Qed.

Lemma prepared_keys_length ca snapshot config base prepared :
  prepare_for ca snapshot config base = Ok prepared ->
  Forall (fun k => length k = 32%nat) (mjoin (pe_entry_keys <$> prepared)).
Proof.
  intros Hp. apply Forall_forall. intros k Hk.
  destruct (prepared_key_stems _ _ _ _ _ _ Hp Hk) as (? & ? & ? & ? & der & _ & _ & _ & _ & _ & ->).
  apply sha256_length.
Qed.

Lemma lookup_stems b ca snapshot config base prepared es prefs key response :
  (exists m, verified b m) -> bundle_map b = entry_map es ->
  NoDup ((fun e => record_key e.1) <$> es) ->
  prepare_for ca snapshot config base = Ok prepared ->
  (forall e, e ∈ es -> ir_entry_key e.1 ∈ mjoin (pe_entry_keys <$> prepared)) ->
  lookup_preferred b key prefs = Some response -> stems_from_snapshot ca snapshot config key.
Proof.
  intros [m Hv] Hmap Hnd Hp Hes Hl.
  rewrite lookup_preferred_table, Hmap in Hl by (by apply validate_sort_order_Ok; destruct Hv).
  apply table_lookup_found in Hl as (d & _ & Hd). apply entry_map_Some in Hd as (e & He & Hk & _); [|done].
  eapply prepared_key_stems; [exact Hp|]. apply Hes in He.
  unfold record_key in Hk. injection Hk as <- _. exact He.
Qed.

Lemma bucket_entry_keys disc signed e :
  e ∈ bucket_entries disc signed -> ir_entry_key e.1 ∈ mjoin signed.*1 /\ ir_discriminator e.1 = disc.
Proof.
  intros He. apply (list_elem_of_fmap_2 (fun e => record_key e.1)) in He.
  rewrite bucket_entries_keys in He. apply list_elem_of_fmap in He as (k & Hk & Hin).
  unfold record_key in Hk. injection Hk as -> ->. done.
Qed.

(** No two CertIDs of the snapshot share an entry key, and no two of the responses
    signed at [produced_at] collide. *)
Definition digests_apart ca snapshot config signer cert_der produced_at : Prop :=
  forall source_end key_hash prepared signed,
    ss_next_update snapshot = Some source_end -> responder_key_hash ca cert_der = Ok key_hash ->
    prepare_for ca snapshot config (expiry_base snapshot config source_end) = Ok prepared ->
    signed_buckets prepared (gc_bucket_size config) signer (OcspByKey key_hash) cert_der
      produced_at = Ok signed ->
    NoDup (mjoin (pe_entry_keys <$> prepared)) /\ responses_apart signed.

(** [Duration::as_secs] is a [u64]. *)
Definition clock_typed (w : World) : Prop := Forall (opt_all (fun t => t < u64_lim)) (w_clock w).

Lemma selects_single signed prefs :
  NoDup (mjoin signed.*1) -> selects (bucket_entries 0 signed) 0 prefs.
Proof.
  intros Hnd k p Hk. apply table_lookup_only with 0; [done| |apply default_effective].
  intros d Hd. apply eq_None_not_Some. intros [q Hq].
  apply entry_map_Some in Hq as (e & He & Hrk & _).
  - apply bucket_entry_keys in He as [_ He]. unfold record_key in Hrk. congruence.
  - rewrite bucket_entries_keys. apply NoDup_fmap_2; [by intros ?? [= ->]|done].
Qed.

(** What a produced file is good for, produced at [produced_at] from a snapshot that is current at
    [now]. *)
Definition serves_snapshot ca snapshot config (cert_der : option bytes) (now : N) (produced_at : DateTime)
    (file : bytes) : Prop :=
  exists b, from_bytes file = Ok b /\ (exists m, verified b m) /\ servable b /\
    window_current snapshot now (m_window (b_manifest b)) /\
    (forall preferences serial status form, ss_entries snapshot !! serial = Some status ->
       archived snapshot config serial = false ->
       form ∈ certid_forms (gc_certid_compat config) ca ->
       answers b ca snapshot cert_der produced_at preferences serial status form) /\
    (forall preferences key response, lookup_preferred b key preferences = Some response ->
       stems_from_snapshot ca snapshot config key).

(** The bundle of a produced file: its entries are the signed buckets. *)
Record built_from ca snapshot config signer (cert_der : option bytes) (now : N) (produced_at : DateTime)
    (b : Bundle) (prepared : list PreparedEntry) (signed : list (list bytes * bytes)) (source_end : N)
    (key_hash : bytes) : Prop := {
  bf_verified : exists m, verified b m;
  bf_servable : servable b;
  bf_current : window_current snapshot now (m_window (b_manifest b));
  bf_window : exists t, m_window (b_manifest b) = window_of snapshot config source_end t;
  bf_map : bundle_map b = entry_map (bucket_entries 0 signed);
  bf_keys : mjoin signed.*1 = mjoin (pe_entry_keys <$> prepared);
  bf_keys_unique : NoDup (mjoin signed.*1);
  bf_source_end : ss_next_update snapshot = Some source_end;
  bf_base : expiry_base snapshot config source_end < u64_lim;
  bf_key_hash : responder_key_hash ca cert_der = Ok key_hash;
  bf_prepared : prepare_for ca snapshot config (expiry_base snapshot config source_end) = Ok prepared;
  bf_signed : signed_buckets prepared (gc_bucket_size config) signer (OcspByKey key_hash) cert_der
    produced_at = Ok signed;
}.

Lemma bucket_records_unique disc signed :
  NoDup (mjoin signed.*1) -> NoDup ((fun e => record_key e.1) <$> bucket_entries disc signed).
Proof. intros H. rewrite bucket_entries_keys. apply NoDup_fmap_2; [by intros ?? [= ->]|done]. Qed.

Lemma produce_bundle_built ca snapshot config signer seal_fn cert_der w file w' :
  produce_bundle ca snapshot config signer seal_fn cert_der w = (Done file, w') ->
  config_typed config -> clock_typed w -> len file < u32_lim ->
  exists t2 t3 produced_at, w_clock w !! 1%nat = Some (Some t2) /\ w_clock w !! 2%nat = Some (Some t3) /\
    ocsp_time t3 = Ok produced_at /\
    (digests_apart ca snapshot config signer cert_der produced_at ->
     exists b prepared signed source_end key_hash, from_bytes file = Ok b /\
       built_from ca snapshot config signer cert_der t2 produced_at b prepared signed source_end key_hash).
Proof.
  intros Hrun Hct Hclk Hlen.
  destruct (produce_bundle_Done _ _ _ _ _ _ _ _ _ Hrun) as (t1 & t2 & t3 & t4 & t5 & se & pa &
    kh & prepared & signed & Hc & _ & Hse & Ht1 & Hb & Ht2 & Ht3 & Hkh & Hp & Hs & Hbuild).
  exists t2, t3, pa. rewrite Hc. split_and!; [done..|]. intros Hda.
  unfold clock_typed in Hclk. rewrite Hc in Hclk. decompose_Forall_hyps.
  destruct (Hda _ _ _ _ Hse Hkh Hp Hs) as [Hnd Hra].
  destruct (signed_buckets_Ok _ _ _ _ _ _ _ Hs) as [Hkeys _]. rewrite <- Hkeys in Hnd.
  apply build_sealed_bundle in Hbuild as (b & Hfb & Hv & Hsv & Hmap & Hw & _); try done;
    [|apply window_of_wf; [done|lia|done]
     |by destruct (with_sha1 _); repeat constructor
     |apply bucket_entries_typed; [done|rewrite Hkeys; by eapply prepared_keys_length]
     |by apply bucket_records_unique
     |by apply bucket_entries_collision].
  exists b, prepared, signed, se, kh. split; [done|]. split; eauto.
  rewrite Hw. by apply window_of_current.
Qed.

Lemma produce_bundle_serves ca snapshot config signer seal_fn cert_der w file w' :
  produce_bundle ca snapshot config signer seal_fn cert_der w = (Done file, w') ->
  config_typed config -> clock_typed w -> len file < u32_lim ->
  exists t2 t3 produced_at, w_clock w !! 1%nat = Some (Some t2) /\ w_clock w !! 2%nat = Some (Some t3) /\
    ocsp_time t3 = Ok produced_at /\
    (digests_apart ca snapshot config signer cert_der produced_at ->
     serves_snapshot ca snapshot config cert_der t2 produced_at file).
Proof.
  intros Hrun Hct Hclk Hlen.
  destruct (produce_bundle_built _ _ _ _ _ _ _ _ _ Hrun Hct Hclk Hlen) as (t2 & t3 & pa & E2 & E3 & Hpa & Hb).
  exists t2, t3, pa. split_and!; [done..|]. intros Hda.
  destruct (Hb Hda) as (b & prepared & signed & se & kh & Hfb & [Hv Hsv Hcur [t Hw] Hmap Hkeys Hnd Hse Hbase Hkh Hp Hs]).
  pose proof (bucket_records_unique 0 _ Hnd) as Hnd'. exists b. split_and!; try done.
  - intros prefs. eapply signed_answers; try done. by apply selects_single.
  - intros prefs key response. eapply lookup_stems; try done.
    intros e [He _]%bucket_entry_keys. by rewrite <- Hkeys.
Qed.

(** C3: a bundle that [produce_bundle] returns (below 4 GiB, with no digest
    collisions among its CertIDs and responses) parses, passes structural
    verification and is servable.  Its window starts at the source's thisUpdate,
    is not over at the time of production and ends within the source's validity.
    A lookup with the CertID of any certificate of the snapshot that the archive
    cutoff keeps, in every hash form configured and whatever algorithms the
    client prefers, finds a response signed as this responder that decodes to
    exactly the certificate's status, with an expiry in the window.  And every
    key the bundle answers for is one of these. *)
Theorem produce_bundle_correct ca snapshot config signer seal_fn cert_der w file w' t2 t3
    produced_at :
  produce_bundle ca snapshot config signer seal_fn cert_der w = (Done file, w') ->
  config_typed config -> clock_typed w -> len file < u32_lim ->
  w_clock w !! 1%nat = Some (Some t2) -> w_clock w !! 2%nat = Some (Some t3) ->
  ocsp_time t3 = Ok produced_at ->
  digests_apart ca snapshot config signer cert_der produced_at ->
  exists b, from_bytes file = Ok b /\ (exists m, verified b m) /\ servable b /\
    window_current snapshot t2 (m_window (b_manifest b)) /\
    (forall preferences serial status form, ss_entries snapshot !! serial = Some status ->
       archived snapshot config serial = false ->
       form ∈ certid_forms (gc_certid_compat config) ca ->
       answers b ca snapshot cert_der produced_at preferences serial status form) /\
    (forall preferences key response, lookup_preferred b key preferences = Some response ->
       stems_from_snapshot ca snapshot config key).
Proof.
  intros Hrun Hct Hclk Hlen Hc2 Hc3 Hpa Hda.
  destruct (produce_bundle_serves _ _ _ _ _ _ _ _ _ Hrun Hct Hclk Hlen) as (u2 & u3 & pa & E2 & E3 & Hpa' & Hs).
  simplify_eq. rewrite Hpa in Hpa'. injection Hpa' as <-. by apply Hs.
Qed.

(** The archive cutoff drops only certificates whose expiry is known and long past. *)
Lemma archived_expired snapshot config serial :
  map_Forall (fun _ not_after => not_after < u64_lim) (ss_not_after snapshot) ->
  archived snapshot config serial = true ->
  exists not_after, ss_not_after snapshot !! serial = Some not_after /\
    not_after < ss_this_update snapshot.
Proof.
  intros Hty. unfold archived, saturating_add.
  destruct (ss_not_after snapshot !! serial) as [n|] eqn:E.
  - apply Hty in E. intros [Hc%N.ltb_lt Hn%N.ltb_lt]%andb_true_iff. exists n. split; [done|]. lia.
  - by rewrite andb_false_r.
Qed.

(** ** Two algorithms *)

Lemma produce_dual_bundle_Done ca snapshot config signer1 signer2 disc seal_fn cert1 cert2 w file w' :
  produce_dual_bundle ca snapshot config signer1 signer2 disc seal_fn cert1 cert2 w
    = (Done file, w') ->
  exists t1 t2 t3 t4 t5 source_end produced_at kh1 kh2 scopes prepared signed1 signed2,
    w_clock w = Some t1 :: Some t2 :: Some t3 :: Some t4 :: Some t5 :: w_clock w' /\
    ss_next_update snapshot = Some source_end /\ ss_this_update snapshot <= t1 < source_end /\
    expiry_base snapshot config source_end < u64_lim /\ t2 < expiry_base snapshot config source_end /\
    ocsp_time t3 = Ok produced_at /\ responder_key_hash ca cert1 = Ok kh1 /\
    responder_key_hash ca cert2 = Ok kh2 /\
    Forall (fun s => cs_epoch s = gc_epoch config) scopes /\
    prepare_for ca snapshot config (expiry_base snapshot config source_end) = Ok prepared /\
    signed_buckets prepared (gc_bucket_size config) signer1 (OcspByKey kh1) cert1 produced_at
      = Ok signed1 /\
    signed_buckets prepared (gc_bucket_size config) signer2 (OcspByKey kh2) cert2 produced_at
      = Ok signed2 /\
    build_sealed (push_entries (new (initial_manifest config t4 scopes
        (window_of snapshot config source_end t5)))
      (bucket_entries 0 signed1 ++ bucket_entries disc signed2)) seal_fn = Ok file.
Proof.
  unfold produce_dual_bundle. intros H. apply io_bind_Done in H as ([[se base] pa] & w1 & Ht & H).
  apply generation_times_Done in Ht as (t1 & t2 & t3 & Hc & _ & Hse & Ht1 & -> & Hb & Ht2 & Ht3).
  inv_io. repeat match goal with E : unix_now _ = _ |- _ => apply unix_now_Done in E as [? E] end.
  repeat match goal with
  | E : _ <$> _ = Ok _ |- _ =>
      apply fmap_Ok in E as (? & E%map_err_Ok & ->); apply octet_string_new_Ok in E as ->
  | E : sign_and_add_entries _ _ _ _ _ _ _ _ = _ |- _ =>
      let signed := fresh "signed" in apply sign_and_add_Ok in E as (signed & E & ->)
  end.
  rename select (build_sealed _ _ = _) into Hbuild. rewrite push_push in Hbuild.
  eexists t1, t2, t3, _, _, se, pa, _, _, _, _, _, _.
  split_and!; [..|exact Hbuild]; try done; [|lia|lia|by destruct (with_sha1 _); repeat constructor].
  rewrite Hc. repeat match goal with E : w_clock _ = _ |- _ => rewrite E; clear E end. done.
Qed.

Lemma selects_classical signed1 signed2 disc prefs :
  disc <> 0 -> disc ∉ prefs -> NoDup (mjoin signed1.*1) ->
  NoDup ((fun e => record_key e.1) <$> bucket_entries 0 signed1 ++ bucket_entries disc signed2) ->
  selects (bucket_entries 0 signed1 ++ bucket_entries disc signed2) 0 prefs.
Proof.
  intros Hd Hin Hk Hnd k p Hp. pose proof (default_effective prefs) as Hdef.
  assert (disc ∉ effective_preferences prefs) as Hne.
  { unfold effective_preferences. rewrite not_elem_of_app. split; [done|].
    case_decide; [apply not_elem_of_nil|]. by rewrite list_elem_of_singleton. }
  revert Hdef Hne. generalize (effective_preferences prefs). intros l.
  induction l as [|d l IH]; [by intros ?%elem_of_nil|]. cbn. intros Hl [Hd1 Hd2]%not_elem_of_cons.
  destruct (decide (d = 0)) as [->|Hd0]; [by rewrite Hp|].
  destruct (entry_map _ !! (k, d)) as [q|] eqn:E.
  - apply entry_map_Some in E as (e & He & Hrk & _); [|done]. unfold record_key in Hrk.
    apply elem_of_app in He as [[_ He]%bucket_entry_keys|[_ He]%bucket_entry_keys]; congruence.
  - apply IH; [|done]. by apply elem_of_cons in Hl as [|].
Qed.

Lemma selects_preferred es disc prefs : selects es disc (disc :: prefs).
Proof. intros k p Hk. cbn. by rewrite Hk. Qed.

(** No two CertIDs share an entry key, and no two of the responses of either signer collide. *)
Definition dual_digests_apart ca snapshot config signer1 signer2 cert1 cert2 produced_at : Prop :=
  forall source_end kh1 kh2 prepared signed1 signed2,
    ss_next_update snapshot = Some source_end -> responder_key_hash ca cert1 = Ok kh1 ->
    responder_key_hash ca cert2 = Ok kh2 ->
    prepare_for ca snapshot config (expiry_base snapshot config source_end) = Ok prepared ->
    signed_buckets prepared (gc_bucket_size config) signer1 (OcspByKey kh1) cert1 produced_at
      = Ok signed1 ->
    signed_buckets prepared (gc_bucket_size config) signer2 (OcspByKey kh2) cert2 produced_at
      = Ok signed2 ->
    NoDup (mjoin (pe_entry_keys <$> prepared)) /\ responses_apart (signed1 ++ signed2).

Lemma dual_entries_NoDup disc signed1 signed2 keys :
  disc <> 0 -> mjoin signed1.*1 = keys -> mjoin signed2.*1 = keys -> NoDup keys ->
  NoDup ((fun e => record_key e.1) <$> bucket_entries 0 signed1 ++ bucket_entries disc signed2).
Proof.
  intros Hd H1 H2 Hn. rewrite fmap_app, !bucket_entries_keys, H1, H2. apply NoDup_app. split_and!.
  - apply NoDup_fmap_2; [by intros ?? [= ->]|done].
  - intros [k d] (? & [= -> ->] & _)%list_elem_of_fmap (? & [= _ ?] & _)%list_elem_of_fmap.
    congruence.
  - apply NoDup_fmap_2; [by intros ?? [= ->]|done].
Qed.

Lemma dual_entries_collision disc signed1 signed2 :
  responses_apart (signed1 ++ signed2) ->
  collision_free (bucket_entries 0 signed1 ++ bucket_entries disc signed2).
Proof.
  intros Ha.
  assert (Forall (fun e : pending => e.2 ∈ (signed1 ++ signed2).*2)
    (bucket_entries 0 signed1 ++ bucket_entries disc signed2)) as Hp.
  { rewrite fmap_app. apply Forall_app_2.
    - eapply Forall_impl; [apply bucket_entries_payload|]. set_solver.
    - eapply Forall_impl; [apply bucket_entries_payload|]. set_solver. }
  rewrite Forall_forall in Hp. intros e1 e2 H1 H2 _ _. apply Ha; by apply Hp.
Qed.

(** A bundle with two algorithms that [produce_dual_bundle] returns, for a
    discriminator other than the default, verifies and is servable, and answers
    for every kept certificate of the snapshot twice: a client that prefers the
    second algorithm gets a response signed by the second responder, any client
    that does not list it one of the first, both with the certificate's status
    and an expiry in the window; no other key is answered. *)
Theorem produce_dual_bundle_correct ca snapshot config signer1 signer2 disc seal_fn cert1 cert2
    w file w' t2 t3 produced_at :
  produce_dual_bundle ca snapshot config signer1 signer2 disc seal_fn cert1 cert2 w
    = (Done file, w') ->
  config_typed config -> clock_typed w -> len file < u32_lim -> 0 < disc < u16_lim ->
  w_clock w !! 1%nat = Some (Some t2) -> w_clock w !! 2%nat = Some (Some t3) ->
  ocsp_time t3 = Ok produced_at ->
  dual_digests_apart ca snapshot config signer1 signer2 cert1 cert2 produced_at ->
  exists b, from_bytes file = Ok b /\ (exists m, verified b m) /\ servable b /\
    window_current snapshot t2 (m_window (b_manifest b)) /\
    (forall preferences serial status form, ss_entries snapshot !! serial = Some status ->
       archived snapshot config serial = false ->
       form ∈ certid_forms (gc_certid_compat config) ca ->
       answers b ca snapshot cert2 produced_at (disc :: preferences) serial status form /\
       (disc ∉ preferences ->
        answers b ca snapshot cert1 produced_at preferences serial status form)) /\
    (forall preferences key response, lookup_preferred b key preferences = Some response ->
       stems_from_snapshot ca snapshot config key).
Proof.
  intros Hrun Hct Hclk Hlen Hd Hc2 Hc3 Hpa Hda.
  destruct (produce_dual_bundle_Done _ _ _ _ _ _ _ _ _ _ _ _ Hrun) as (t1 & t2' & t3' & t4 & t5 &
    se & pa & kh1 & kh2 & scopes & prepared & signed1 & signed2 & Hc & Hse & Ht1 & Hb & Ht2 & Ht3 &
    Hkh1 & Hkh2 & Hsc & Hp & Hs1 & Hs2 & Hbuild).
  rewrite Hc in Hc2, Hc3. cbn in Hc2, Hc3. injection Hc2 as ->. injection Hc3 as ->.
  rewrite Hpa in Ht3. injection Ht3 as <-.
  unfold clock_typed in Hclk. rewrite Hc in Hclk. decompose_Forall_hyps.
  destruct (Hda _ _ _ _ _ _ Hse Hkh1 Hkh2 Hp Hs1 Hs2) as [Hnd Hra].
  destruct (signed_buckets_Ok _ _ _ _ _ _ _ Hs1) as [Hk1 _].
  destruct (signed_buckets_Ok _ _ _ _ _ _ _ Hs2) as [Hk2 _].
  assert (disc <> 0) as Hd0 by lia.
  pose proof (dual_entries_NoDup disc _ _ _ Hd0 Hk1 Hk2 Hnd) as Hnd'.
  apply build_sealed_bundle in Hbuild as (b & Hfb & Hv & Hsv & Hmap & Hw & _); try done;
    [|apply window_of_wf; [done|lia|done]
     |apply Forall_app_2; apply bucket_entries_typed;
      [done|rewrite Hk1; by eapply prepared_keys_length
      |lia|rewrite Hk2; by eapply prepared_keys_length]
     |by apply dual_entries_collision].
  exists b. split_and!; try done.
  - rewrite Hw. by apply window_of_current.
  - intros prefs serial status form Hl Ha Hf. split.
    + eapply (signed_answers b ca snapshot config signer2 cert2 _ _ _ _ signed2 _ disc); try done;
        [set_solver|apply selects_preferred].
    + intros Hin. eapply (signed_answers b ca snapshot config signer1 cert1 _ _ _ _ signed1 _ 0);
        try done; [set_solver|]. apply selects_classical; try done. by rewrite Hk1.
  - intros prefs key response. eapply lookup_stems; try done.
    intros e [[He _]%bucket_entry_keys|[He _]%bucket_entry_keys]%elem_of_app.
    + by rewrite <- Hk1.
    + by rewrite <- Hk2.
Qed.
End produce_props.

(** ** Witnesses *)

Module ToyGenerate.
Definition ca : CaIdentity := mkCaIdentity "alpha" [xca] [x04; x05].
Definition snapshot : StatusSnapshot :=
  mkStatusSnapshot {[ [x2a] := Good; [x64] := Revoked 1000 (Some KeyCompromise) ]}
    100000 (Some 200000) ∅.
Definition config : GenerationConfig :=
  mkGenerationConfig "hoike-signer" 1 86400 7200 Dual Partial 0 8.
Definition world : World :=
  set_clock [Some 100001; Some 100002; Some 100003; Some 100004; Some 100005] sample_world.
Definition seal_fn (m : bytes) : sign_result bytes := Ok [x30; x82].
Definition produced_at : DateTime := Eval vm_compute in civil 100003.

Abbreviation produce := (@produce_bundle Toy.crates ToySign.ocsp ToySign.crates).
Abbreviation produce_dual := (@produce_dual_bundle Toy.crates ToySign.ocsp ToySign.crates).

Lemma typed : config_typed config.
Proof. by split. Qed.
Lemma clock : clock_typed world.
Proof. repeat constructor. Qed.

(** One bucket holds the whole snapshot, so there is one response per signer. *)
Definition prepared_ok : bool :=
  match @prepare_for Toy.crates ToySign.ocsp ToySign.crates ca snapshot config 186400 with
  | Ok p => bool_decide (NoDup (mjoin (pe_entry_keys <$> p))) && (length p <=? 8)%nat
  | Err _ => false
  end.
Lemma prepared_ok_true : prepared_ok = true.
Proof. vm_compute. reflexivity. Qed.

Lemma prepared_apart prepared :
  @prepare_for Toy.crates ToySign.ocsp ToySign.crates ca snapshot config
    (expiry_base snapshot config 200000) = Ok prepared ->
  NoDup (mjoin (pe_entry_keys <$> prepared)) /\ (length prepared <= 8)%nat.
Proof.
  intros Hp. pose proof prepared_ok_true as H. unfold prepared_ok in H.
  change 186400 with (expiry_base snapshot config 200000) in H. rewrite Hp in H.
  apply andb_true_iff in H as [H1 H2]. apply bool_decide_eq_true in H1.
  apply Nat.leb_le in H2. exact (conj H1 H2).
Qed.

Lemma chunks_one {A} n (l : list A) : (length l <= n)%nat -> (length (chunks n l) <= 1)%nat.
Proof.
  intros Hl. unfold chunks. destruct l as [|x l]; [cbn; lia|]. cbn [length chunks_from].
  rewrite drop_ge by done. by destruct (length l); cbn.
Qed.

Lemma one_response prepared signer rid cert_der t signed :
  (length prepared <= 8)%nat ->
  @signed_buckets ToySign.crates prepared 8 signer rid cert_der t
    = Ok signed -> (length signed <= 1)%nat.
Proof.
  intros Hl (c & _ & Hm%mapM_Ok)%bind_Ok. rewrite <- (Forall2_length _ _ _ Hm).
  by apply chunks_one.
Qed.

Lemma apart signer cert_der t :
  @digests_apart Toy.crates ToySign.ocsp ToySign.crates ca snapshot config signer cert_der t.
Proof.
  intros source_end kh prepared signed [= <-] _ Hp Hs.
  destruct (prepared_apart prepared Hp) as [Hn Hl]. clear Hp. split; [exact Hn|]. clear Hn.
  apply one_response in Hs; [|done]. destruct signed as [|[ks r] [|]]; cbn in Hs; [..|lia].
  - intros r1 r2 ?%elem_of_nil. done.
  - intros r1 r2 ->%list_elem_of_singleton ->%list_elem_of_singleton. done.
Qed.

(** The same key on both sides gives the same response. *)
Lemma dual_apart t :
  @dual_digests_apart Toy.crates ToySign.ocsp ToySign.crates ca snapshot config ToySign.signer ToySign.signer None None t.
Proof.
  intros source_end kh1 kh2 prepared signed1 signed2 [= <-] Hk1 Hk2 Hp Hs1 Hs2.
  destruct (prepared_apart prepared Hp) as [Hn Hl]. clear Hp. split; [exact Hn|]. clear Hn.
  rewrite Hk1 in Hk2. injection Hk2 as <-. rewrite Hs1 in Hs2. injection Hs2 as <-.
  apply one_response in Hs1; [|exact Hl]. destruct signed1 as [|[ks r] [|]]; cbn in Hs1; [..|lia].
  - intros r1 r2 ?%elem_of_nil. done.
  - intros r1 r2 H1 H2 _. cbn in H1, H2. set_solver.
Qed.

(** The file a run returned. *)
Definition returned {A} (o : outcome SignError A * World) : option A :=
  match o.1 with Done a => Some a | _ => None end.
Lemma returned_small (m : io SignError bytes) w file w' :
  m w = (Done file, w') ->
  match returned (m w) with Some f => len f <? u32_lim | None => false end = true ->
  len file < u32_lim.
Proof. intros E. rewrite E. cbn. apply N.ltb_lt. Qed.
End ToyGenerate.

Lemma produce_bundle_correct_witness :
  exists file w' b, ToyGenerate.produce ToyGenerate.ca ToyGenerate.snapshot ToyGenerate.config ToySign.signer
      ToyGenerate.seal_fn None ToyGenerate.world = (Done file, w') /\
    @from_bytes Toy.crates file = Ok b /\ @servable b /\
    @answers Toy.crates ToySign.ocsp ToySign.crates b ToyGenerate.ca ToyGenerate.snapshot None
      ToyGenerate.produced_at [3] [x64] (Revoked 1000 (Some KeyCompromise))
      (sha1_oid, @sha1 ToySign.crates [xca], @sha1 ToySign.crates [x04; x05]).
Proof.
  destruct (is_done_inv (ToyGenerate.produce ToyGenerate.ca ToyGenerate.snapshot
    ToyGenerate.config ToySign.signer ToyGenerate.seal_fn None) ToyGenerate.world) as (file & w' & E);
    [vm_compute; reflexivity|].
  pose proof (ToyGenerate.returned_small _ _ _ _ E ltac:(vm_compute; reflexivity)) as Hl.
  destruct (@produce_bundle_correct Toy.crates ToySign.ocsp ToySign.crates Toy.sha256_spec
    Toy.uuid_spec Toy.ciborium_spec ToySign.crates_spec _ _ _ _ _ _ _ _ _ 100002 100003
    ToyGenerate.produced_at E ToyGenerate.typed ToyGenerate.clock Hl eq_refl eq_refl
    ltac:(vm_compute; reflexivity) (ToyGenerate.apart _ _ _))
    as (b & Hb & _ & Hs & _ & Ha & _).
  exists file, w', b. split; [exact E|]. split; [exact Hb|]. split; [exact Hs|].
  apply Ha; [reflexivity|reflexivity|]. right. left.
Defined.

Lemma produce_dual_bundle_correct_witness :
  exists file w' b, ToyGenerate.produce_dual ToyGenerate.ca ToyGenerate.snapshot
      ToyGenerate.config ToySign.signer ToySign.signer 3 ToyGenerate.seal_fn None None ToyGenerate.world
      = (Done file, w') /\
    @from_bytes Toy.crates file = Ok b /\ @servable b /\
    @answers Toy.crates ToySign.ocsp ToySign.crates b ToyGenerate.ca ToyGenerate.snapshot None
      ToyGenerate.produced_at [3] [x2a] Good
      (sha1_oid, @sha1 ToySign.crates [xca], @sha1 ToySign.crates [x04; x05]).
Proof.
  destruct (is_done_inv (ToyGenerate.produce_dual ToyGenerate.ca ToyGenerate.snapshot
    ToyGenerate.config ToySign.signer ToySign.signer 3 ToyGenerate.seal_fn None None) ToyGenerate.world)
    as (file & w' & E); [vm_compute; reflexivity|].
  pose proof (ToyGenerate.returned_small _ _ _ _ E ltac:(vm_compute; reflexivity)) as Hl.
  destruct (@produce_dual_bundle_correct Toy.crates ToySign.ocsp ToySign.crates Toy.sha256_spec
    Toy.uuid_spec Toy.ciborium_spec ToySign.crates_spec _ _ _ _ _ _ _ _ _ _ _ _ 100002 100003
    ToyGenerate.produced_at E ToyGenerate.typed ToyGenerate.clock Hl (conj eq_refl eq_refl) eq_refl eq_refl
    ltac:(vm_compute; reflexivity) (ToyGenerate.dual_apart _))
    as (b & Hb & _ & Hs & _ & Ha & _).
  exists file, w', b. split; [exact E|]. split; [exact Hb|]. split; [exact Hs|].
  destruct (Ha [] [x2a] Good (sha1_oid, @sha1 ToySign.crates [xca],
    @sha1 ToySign.crates [x04; x05])) as [H _]; [reflexivity|reflexivity|right; left|exact H].
Defined.
