(* ===== verification/Orchestrate.v ===== *)
(** * Orchestrate: signing a configured CA (hoike-sign/src/orchestrate.rs, with the
    loading of live material from live.rs, the signers of ml_dsa_bridge.rs and the
    checks of rotation.rs)

    From the configuration of a CA to a sealed bundle in its place: resolution of
    the revocation source, derivation of the epoch from the state store, loading
    and checking of keys, production and publication.  The build without the
    features [pkcs11] and [dogtag-sync] is modelled here; [DirectorySign] has the
    directories and [TokenSign] the tokens.  Main results: a produced
    bundle carries the next epoch and passes the rollback check of the state it
    was derived from; completeness is only claimed by sources that prove it; live
    signing starts only with a key that belongs to the responder. *)

From stdpp Require Import base tactics list gmap strings.
From Stdlib Require Import NArith Lia.
From S2P Require Import Prelude Slices Crates Text AhuError Header Index Manifest Bundle Builder.
From S2P Require Import Verify CoreError Storage State Config Admission Request Router Install.
From S2P Require Import SignError Times Seal SignCrates Source SealDer SealCreate Crl Generate.
Local Open Scope N_scope.

Definition COMBINED_PRODUCER_ID : string := "hoike-combined".

Record SignedScope : Type := mkSignedScope {
  sc_label : string;
  sc_bytes : bytes;
  sc_entry_count : N;
  sc_epoch : N;
}.

Abbreviation PersistentSources := (gmap string RevocationSource).

(** A software key as the signer of responses: the traits that [p256] implements for
    its keys, and those that [MlDsaSigner] implements over [ml-dsa]. *)
Definition ocsp_signer {SC : SealCrates} {SM : SealMaking} (signer : SoftwareSigner) : OcspSigner :=
  match signer with
  | EcdsaSigner key => mkOcspSigner p256_signature_algorithm (p256_try_sign key)
  | MlDsaSigner P key => mkOcspSigner (Ok (mkAlgorithmIdentifier (ml_dsa_oid P) None))
      (fun msg => map_err (fun _ => "signature error"%string) (ml_try_sign P key msg))
  end.

Section orchestrate.
Context {CR : Crates} {SC : SealCrates} {JS : Json} {OC : OcspCrates} {SG : SignCrates}.
Context {SM : SealMaking}.
Implicit Types (c : Config) (ca_config : CaConfig) (source : RevocationSource).

(** ** Material from the configuration *)

(** [.map_err(|e| format!(..))]. *)
Definition failing {E A} (what : string) (m : io E A) : io string A := io_map_err (fun _ => what) m.

Definition decode_b64_field (b64 : option string) (fallback : string) : result string bytes :=
  match b64 with
  | Some val => map_err (fun _ => "invalid base64"%string) (base64_standard_decode (text val))
  | None => Ok (text fallback)
  end.

Definition configured_issuer ca_config : io string (option (X509Cert Name)) :=
  match ca_source ca_config with
  | Some (Config.Crl _ (Some p)) =>
      b ← failing "read issuer certificate" (read_file p);
      cert ← io_lift (parse_certificate b);
      mret (Some cert)
  | _ => mret None
  end.

Definition decode_issuer_name ca_config : io string bytes :=
  issuer ← match ca_issuer_name_der_b64 ca_config with
           | None => configured_issuer ca_config
           | Some _ => mret None
           end;
  match issuer with
  | Some cert => io_lift (name_to_der (xc_subject cert))
  | None => io_lift (decode_b64_field (ca_issuer_name_der_b64 ca_config)
                       ("CN=" +:+ ca_label ca_config))
  end.

Definition decode_issuer_key ca_config : io string bytes :=
  issuer ← match ca_issuer_key_bytes_b64 ca_config with
           | None => configured_issuer ca_config
           | Some _ => mret None
           end;
  match issuer with
  | Some cert => io_lift (ok_or (bs_as_bytes (sp_subject_public_key (xc_spki cert)))
                            "issuer public key has unused bits"%string)
  | None => io_lift (decode_b64_field (ca_issuer_key_bytes_b64 ca_config)
                       (ca_label ca_config +:+ "-key"))
  end.

Definition load_responder_cert ca_config : io string (option bytes) :=
  match ca_responder_cert ca_config with
  | Some p =>
      data ← failing "failed to read responder cert" (read_file p);
      der ← io_lift (certificate_der base64_standard_decode id data);
      mret (Some der)
  | None => mret None
  end.

Definition is_demo ca_config : bool :=
  match ca_signing_key ca_config with Some Demo => true | _ => false end.

Definition load_seal_materials ca_config (ephemeral : P256SigningKey) : io string (SealKey * bytes) :=
  load_or_generate_seal_material base64_standard_decode (ca_seal_key ca_config)
    (ca_seal_cert ca_config) (is_demo ca_config) ephemeral.

(** ** Live material *)

Record LiveSigningMaterial : Type := mkLiveSigningMaterial {
  lm_key : P256SigningKey;
  lm_responder_key_bytes : bytes;
  lm_responder_cert_der : option bytes;
}.

Definition load_live_material ca_config : io string LiveSigningMaterial :=
  key ← match ca_signing_key ca_config with
        | Some (Config.File p) => failing "key" (load_ecdsa_p256_key p)
        | Some Demo => mret p256_demo_key
        | _ => io_fail "live signing requires an ECDSA file, PKCS#11 key or explicit demo key"%string
        end;
  cert_der ← load_responder_cert ca_config;
  responder_key_bytes ←
    match cert_der with
    | Some b =>
        cert ← io_lift (x509_from_der b);
        t ← read_clock;
        now ← io_lift (ok_or t "clock"%string);
        io_lift (ensure (negb ((now <? to_unix_duration (xc_not_before cert)) ||
                               (to_unix_duration (xc_not_after cert) <=? now)))
          "live responder certificate is outside its validity period"%string) ;;
        kb ← io_lift (ok_or (bs_as_bytes (sp_subject_public_key (xc_spki cert)))
          "responder public key has unused bits"%string);
        certificate_key ← io_lift (p256_from_sec1_bytes kb);
        io_lift (ensure (bool_decide (certificate_key = p256_verifying_key key))
          "live signing key does not match responder certificate"%string) ;;
        mret kb
    | None =>
        kb ← decode_issuer_key ca_config;
        if is_demo ca_config then mret kb else
        issuer_key ← io_lift (p256_from_sec1_bytes kb);
        io_lift (ensure (bool_decide (issuer_key = p256_verifying_key key))
          "CA-direct signing key does not match issuer key"%string) ;;
        mret kb
    end;
  mret (mkLiveSigningMaterial key responder_key_bytes cert_der).

(** ** Production *)

(** [MlDsaSignerVariant::sign_bundle]: production with the parameter set of the key. *)
Definition sign_bundle (P : MlDsa) (key : MlSigningKey) (ca : CaIdentity) (snapshot : StatusSnapshot)
    (gen_config : GenerationConfig) (seal_fn : bytes -> sign_result bytes) (responder_cert_der : option bytes) :
    io SignError bytes :=
  produce_bundle ca snapshot gen_config (ocsp_signer (MlDsaSigner P key)) seal_fn responder_cert_der.

(** [produce_scope_bundle]; [seed] is what [MlDsaSignerVariant::demo] draws. *)
Definition produce_scope_bundle ca_config (ca : CaIdentity) (snapshot : StatusSnapshot)
    (gen_config : GenerationConfig) (seal_key : SealKey) (seal_cert_der : bytes)
    (responder_cert_der : option bytes) (seed : bytes) : io string bytes :=
  let seal_fn m := create_cms_seal m seal_key seal_cert_der in
  let produce_ml_dsa P key := failing "bundle production failed"
    (sign_bundle P key ca snapshot gen_config seal_fn responder_cert_der) in
  let produce_ecdsa key :=
    io_lift (map_err (fun _ => "seal key"%string) (ensure_distinct_ecdsa_seal_key key seal_key)) ;;
    failing "bundle production failed" (produce_bundle ca snapshot gen_config (ocsp_signer (EcdsaSigner key))
      seal_fn responder_cert_der) in
  if is_ml_dsa ca_config then
    match ca_signing_key ca_config with
    | Some (Config.File p) =>
        '(P, key) ← failing "signing key" (load_ml_dsa_key base64_standard_decode p);
        io_lift (ensure (String.eqb (algorithm_name P) (ca_sig_alg ca_config))
          "key is not of the configured sig_alg"%string) ;;
        produce_ml_dsa P key
    | Some Demo =>
        '(P, key) ← io_lift (ml_dsa_demo (ca_sig_alg ca_config) seed);
        produce_ml_dsa P key
    | Some (Pkcs11 _ _ _ _ _ _ _) => io_fail "built without 'pkcs11' feature"%string
    | None => io_fail "no signing_key configured"%string
    end
  else
    match ca_signing_key ca_config with
    | Some (Config.File p) =>
        key ← failing "signing key" (load_ecdsa_p256_key p);
        produce_ecdsa key
    | Some (Pkcs11 _ _ _ _ _ _ _) => io_fail "built without 'pkcs11' feature"%string
    | Some Demo => produce_ecdsa p256_demo_key
    | None => io_fail "no signing_key configured"%string
    end.

(** The completeness a CA may claim with this source. *)
Definition claimed_completeness ca_config (is_authoritative_complete : bool) : result string Completeness :=
  if String.eqb (ca_completeness ca_config) "authoritative-complete" then
    if is_authoritative_complete then Ok AuthoritativeComplete
    else Err "source cannot prove authoritative completeness; configure partial"%string
  else if String.eqb (ca_completeness ca_config) "partial" then Ok Partial
  else Err "unknown completeness"%string.

(** The next epoch of a CA key. *)
Definition next_epoch (s : StateStore) (issuer_key_bytes : bytes) : N :=
  saturating_add
    (default 0 (get_high_water s COMBINED_PRODUCER_ID (hex_encode (sha256 issuer_key_bytes)))) 1.

(** [sign_ca_scope] after its snapshot: the settings of the generation. *)
Definition generation_settings c ca_config (ca : CaIdentity) (is_authoritative_complete : bool) :
    io string GenerationConfig :=
  let issuer_key_bytes := ci_issuer_key_bytes ca in
  store ← failing "state store" (open_store (st_state_db (c_storage c) ++ ["state.json"%string]));
  let epoch := next_epoch store issuer_key_bytes in
  certid_compat ← io_lift (certid_compat_parse (ca_certid_compat ca_config));
  completeness ← io_lift (claimed_completeness ca_config is_authoritative_complete);
  mret (mkGenerationConfig COMBINED_PRODUCER_ID epoch (ca_validity_secs ca_config)
    (ca_jitter_secs ca_config) certid_compat completeness (ca_archive_cutoff_secs ca_config)
    (gc_bucket_size default_generation_config)).

(** [sign_ca_scope] from its snapshot on. *)
Definition sign_snapshot c ca_config (ca : CaIdentity) (snapshot : StatusSnapshot)
    (is_authoritative_complete : bool) (ephemeral : P256SigningKey) (seed : bytes) : io string SignedScope :=
  gen_config ← generation_settings c ca_config ca is_authoritative_complete;
  (if String.eqb (ca_nonce_policy ca_config) "live"
   then load_live_material ca_config ;; mret tt else mret tt) ;;
  responder_cert_der ← load_responder_cert ca_config;
  '(seal_key, seal_cert_der) ← load_seal_materials ca_config ephemeral;
  bundle_bytes ← produce_scope_bundle ca_config ca snapshot gen_config seal_key seal_cert_der
    responder_cert_der seed;
  mret (mkSignedScope (ca_label ca_config) bundle_bytes (N.of_nat (size (ss_entries snapshot)))
    (gc_epoch gen_config)).

Definition sign_ca_scope c ca_config source (ephemeral : P256SigningKey) (seed : bytes) :
    io string SignedScope :=
  issuer_name_der ← decode_issuer_name ca_config;
  issuer_key_bytes ← decode_issuer_key ca_config;
  let ca := mkCaIdentity (ca_label ca_config) issuer_name_der issuer_key_bytes in
  snapshot ← failing "snapshot failed" (rv_snapshot source ca);
  sign_snapshot c ca_config ca snapshot (rv_is_authoritative_complete source) ephemeral seed.

(** ** Sources *)

Definition create_persistent_sources c : result string PersistentSources := Ok ∅.

Definition resolve_source ca_config (persistent_sources : PersistentSources) :
    io string RevocationSource :=
  match persistent_sources !! ca_label ca_config with
  | Some ps => mret ps
  | None =>
      source_config ← io_lift (ok_or (ca_source ca_config) "no revocation source configured"%string);
      match source_config with
      | Config.Crl p issuer_cert =>
          crl_data ← failing "failed to read CRL" (read_file p);
          source ← io_lift (map_err (fun _ => "CRL parse"%string)
            (if Text.starts_with (text "-----BEGIN") crl_data then
               ensure (utf8_valid crl_data) (CrlParse "CRL not valid UTF-8") ;; from_pem crl_data
             else from_der crl_data));
          issuer_path ← io_lift (ok_or issuer_cert "CRL source requires issuer_cert"%string);
          issuer ← failing "read issuer certificate" (read_file issuer_path);
          source ← io_lift (map_err (fun _ => "issuer certificate"%string)
                              (with_issuer_certificate source issuer));
          mret (crl_revocation_source source)
      | DogtagSync _ _ _ _ _ _ _ _ _ =>
          io_fail "dogtag-sync requires the 'dogtag-sync' feature flag"%string
      end
  end.

(** [matches!(status, CertificateStatus::Revoked { .. })]. *)
Definition is_revoked (status : CertificateStatus) : bool :=
  match status with Revoked _ _ => true | Good => false end.

Definition revoked_serials_for_scope ca_config (persistent_sources : PersistentSources) :
    io string (gset bytes) :=
  issuer_name_der ← decode_issuer_name ca_config;
  issuer_key_bytes ← decode_issuer_key ca_config;
  let ca := mkCaIdentity (ca_label ca_config) issuer_name_der issuer_key_bytes in
  source ← resolve_source ca_config persistent_sources;
  snapshot ← failing "snapshot failed" (rv_snapshot source ca);
  mret (dom (filter (fun kv => is_revoked kv.2 = true) (ss_entries snapshot))).

(** ** Publication *)

Definition write_bundle_atomic (p : path) (b : bytes) : io string unit :=
  failing "publish" (write_atomic p b).

Definition write_bundle c (label : string) (b : bytes) : io string path :=
  p ← failing "destination" (bundle_destination c label);
  write_bundle_atomic p b ;;
  mret p.

Definition sign_and_write_scope c (persistent_sources : PersistentSources) ca_config
    (ephemeral : P256SigningKey) (seed : bytes) : io string SignedScope :=
  source ← resolve_source ca_config persistent_sources;
  signed ← sign_ca_scope c ca_config source ephemeral seed;
  write_bundle c (sc_label signed) (sc_bytes signed) ;;
  mret signed.

(** The keys and seeds drawn for each CA are given by its label. *)
Definition sign_and_write_all c (persistent_sources : PersistentSources)
    (ephemeral : string -> P256SigningKey) (seed : string -> bytes) : io string (list SignedScope) :=
  io_fold (fun out ca_config =>
    match ca_source ca_config with
    | None => mret out
    | Some _ =>
        signed ← sign_and_write_scope c persistent_sources ca_config
          (ephemeral (ca_label ca_config)) (seed (ca_label ca_config));
        mret (out ++ [signed])
    end) [] (c_ca c).

(** ** Rotation (rotation.rs) *)

Inductive RotationStatus := RotationOk (expires_in_secs : N) | RenewSoon (expires_in_secs : N) | RotationExpired.

Definition check_rotation_needed (cert_der : bytes) (renew_before_secs : N) :
    io SignError RotationStatus :=
  cert ← io_lift (map_err SignConfig (parse_certificate cert_der));
  let not_after_epoch := time_to_epoch (xc_not_after cert) in
  t ← read_clock;
  let now := default 0 t in
  if not_after_epoch <=? now then mret RotationExpired else
  let expires_in_secs := not_after_epoch - now in
  if expires_in_secs <=? renew_before_secs then mret (RenewSoon expires_in_secs)
  else mret (RotationOk expires_in_secs).

(** What is logged: whole days, and the hours of the last day where it warns. *)
Inductive RotationLog := LogValid (days : N) | LogRenew (days hours : N) | LogExpired.
Definition rotation_log (status : RotationStatus) : RotationLog :=
  match status with
  | RotationOk expires_in_secs => LogValid (expires_in_secs / 86400)
  | RenewSoon expires_in_secs => LogRenew (expires_in_secs / 86400) ((expires_in_secs mod 86400) / 3600)
  | RotationExpired => LogExpired
  end.

(** [check_and_log_rotation], with what it logs for the CA. *)
Definition check_and_log_rotation (label : string) (cert_der : bytes) (renew_before_secs : N) :
    io SignError (RotationStatus * (string * RotationLog)) :=
  status ← check_rotation_needed cert_der renew_before_secs;
  mret (status, (label, rotation_log status)).
End orchestrate.

(** ** What signing reads *)

Section orchestrate_reads.
Context {CR : Crates} {SC : SealCrates} {JS : Json} {OC : OcspCrates} {SG : SignCrates}.
Context {SM : SealMaking}.
Implicit Types (c : Config) (ca_config : CaConfig) (source : RevocationSource).

Lemma failing_reads {E A} what (m : io E A) : reads_only m -> reads_only (failing what m).
Proof. apply reads_map_err. Qed.
Lemma failing_ticks {E A} what (m : io E A) : ticks m -> ticks (failing what m).
Proof. apply ticks_map_err. Qed.
Local Hint Resolve failing_reads failing_ticks : hoike.

Lemma configured_issuer_passive ca_config : passive (configured_issuer ca_config).
Proof.
  unfold configured_issuer.
  destruct (ca_source ca_config) as [[? [p|]|]|]; split; eauto with hoike.
Qed.
Lemma decode_issuer_name_passive ca_config : passive (decode_issuer_name ca_config).
Proof.
  unfold decode_issuer_name. destruct (configured_issuer_passive ca_config).
  split; destruct (ca_issuer_name_der_b64 ca_config); (apply reads_bind || apply ticks_bind);
    try (intros [?|]); eauto with hoike.
Qed.
Lemma decode_issuer_key_passive ca_config : passive (decode_issuer_key ca_config).
Proof.
  unfold decode_issuer_key. destruct (configured_issuer_passive ca_config).
  split; destruct (ca_issuer_key_bytes_b64 ca_config); (apply reads_bind || apply ticks_bind);
    try (intros [?|]); eauto with hoike.
Qed.
Lemma load_responder_cert_passive ca_config : passive (load_responder_cert ca_config).
Proof. unfold load_responder_cert. destruct (ca_responder_cert ca_config); split; eauto with hoike. Qed.
Lemma open_store_passive p : passive (open_store p).
Proof.
  split; [apply open_store_reads|]. unfold open_store, validate_persisted.
  assert (forall st kv, ticks (check_snapshot st kv)) as Hc
    by (intros; unfold check_snapshot; eauto 10 with hoike).
  eauto 20 with hoike.
Qed.
Lemma load_seal_materials_passive ca_config e : passive (load_seal_materials ca_config e).
Proof.
  unfold load_seal_materials. split; [apply seal_material_reads|].
  unfold load_or_generate_seal_material. apply ticks_bind; [apply select_material_ticks|].
  eauto with hoike.
Qed.

Lemma load_live_material_passive ca_config : passive (load_live_material ca_config).
Proof.
  unfold load_live_material. destruct (load_responder_cert_passive ca_config),
    (decode_issuer_key_passive ca_config).
  split; destruct (ca_signing_key ca_config) as [[]|], (is_demo ca_config);
    (apply reads_bind || apply ticks_bind); eauto with hoike; intros key;
    (apply reads_bind || apply ticks_bind); eauto with hoike;
    intros [der|]; (apply reads_bind || apply ticks_bind); eauto 10 with hoike.
Qed.
End orchestrate_reads.

(** ** Live signing starts with the responder's key *)

Section live_material.
Context {CR : Crates} {SC : SealCrates} {JS : Json} {OC : OcspCrates} {SG : SignCrates}.
Context {SM : SealMaking}.
Implicit Types (ca_config : CaConfig).

(** The key that clients check signatures with is the public part of the
    signing key: the certificate's, which is valid now, or the issuer's. *)
Definition responder_bound (demo : bool) (m : LiveSigningMaterial) (clock : list (option N)) : Prop :=
  match lm_responder_cert_der m with
  | Some der => exists cert now, x509_from_der der = Ok cert /\ Some now ∈ clock /\
      to_unix_duration (xc_not_before cert) <= now < to_unix_duration (xc_not_after cert) /\
      bs_as_bytes (sp_subject_public_key (xc_spki cert)) = Some (lm_responder_key_bytes m) /\
      p256_from_sec1_bytes (lm_responder_key_bytes m) = Ok (p256_verifying_key (lm_key m))
  | None => demo = true \/
      p256_from_sec1_bytes (lm_responder_key_bytes m) = Ok (p256_verifying_key (lm_key m))
  end.

Lemma load_live_material_Done ca_config w m w' :
  load_live_material ca_config w = (Done m, w') ->
  responder_bound (is_demo ca_config) m (w_clock w) /\
  (lm_responder_cert_der m = None <-> ca_responder_cert ca_config = None) /\ same_files w w'.
Proof.
  intros H. split_and!; [..|by eapply reads_Done; [apply load_live_material_passive|exact H]].
  all: unfold load_live_material in H; apply io_bind_Done in H as (key & w1 & Hk & H);
    apply io_bind_Done in H as (cert & w2 & Hc & H);
    apply io_bind_Done in H as (kb & w3 & Hkb & H); apply io_ret_Done in H as [-> ->].
  2: { cbn. unfold load_responder_cert in Hc. destruct (ca_responder_cert ca_config); by inv_io. }
  assert (w_clock w2 `suffix_of` w_clock w) as Hs.
  { etrans; [by eapply passive_Done; [apply load_responder_cert_passive|]|].
    destruct (ca_signing_key ca_config) as [[]|]; try done; [|by inv_io].
    eapply ticks_Done, Hk. apply ticks_map_err, load_ecdsa_ticks. }
  unfold responder_bound. cbn [lm_responder_cert_der lm_responder_key_bytes lm_key].
  destruct cert as [der|].
  - inv_io. rename select (read_clock _ = _) into Hclk. simplify_eq. apply read_clock_Some in Hclk.
    rename select (negb (_ || _) = true) into Hv.
    apply negb_true_iff, orb_false_iff in Hv as [Hv1%N.ltb_ge Hv2%N.leb_gt].
    rename select (bool_decide _ = true) into Hq. apply bool_decide_eq_true in Hq as <-.
    eexists _, _. split_and!; try done. destruct Hs as [used ->]. rewrite Hclk. set_solver.
  - apply io_bind_Done in Hkb as (kb' & w4 & _ & Hkb). destruct (is_demo ca_config); [by left|right].
    inv_io. rename select (bool_decide _ = true) into Hq. by apply bool_decide_eq_true in Hq as <-.
Qed.

(** Live signing gets a key only if it is the responder's: with a configured
    responder certificate, that certificate is within its validity at the moment
    of the check and holds the public part of the signing key; without one, the
    signing key is the issuer's own (the demo key, configured as such, excepted).
    A replaced key or an expired certificate is refused before anything is signed. *)
Theorem live_material_sound ca_config w m w' :
  load_live_material ca_config w = (Done m, w') ->
  responder_bound (is_demo ca_config) m (w_clock w) /\
  (lm_responder_cert_der m = None <-> ca_responder_cert ca_config = None) /\ same_files w w'.
Proof. apply load_live_material_Done. Qed.
End live_material.

(** ** The produced bundle continues the state it was derived from *)

Section signed_scope.
Context {CR : Crates} {SC : SealCrates} {JS : Json} {OC : OcspCrates} {SG : SignCrates}.
Context {SM : SealMaking}.
Context {SH : Sha256Spec} {UU : UuidSpec} {CB : CiboriumSpec} {SGS : SignCratesSpec SG}.
Implicit Types (c : Config) (ca_config : CaConfig) (source : RevocationSource) (b : Bundle).

(** What the manifest of a produced bundle says. *)
Record produced_manifest b (kb : bytes) (epoch : N) (completeness : Completeness)
    (scopes : list CaScope) : Prop := {
  pm_producer : m_producer_id (b_manifest b) = COMBINED_PRODUCER_ID;
  pm_scopes : m_ca_scopes (b_manifest b) = scopes;
  pm_epochs : Forall (fun s => cs_epoch s = epoch /\ cs_completeness s = completeness /\
    cs_issuer_key_hash s ∈ [sha256 kb; sha1 kb]) scopes;
  pm_sha256 : exists s, s ∈ scopes /\ cs_issuer_key_hash s = sha256 kb;
}.

Lemma produced_bundle_manifest ca snapshot config signer seal_fn cert_der w file w' b :
  produce_bundle ca snapshot config signer seal_fn cert_der w = (Done file, w') ->
  config_typed config -> gc_producer_id config = COMBINED_PRODUCER_ID -> clock_typed w ->
  len file < u32_lim -> from_bytes file = Ok b ->
  exists scopes, produced_manifest b (ci_issuer_key_bytes ca) (gc_epoch config)
    (gc_completeness config) scopes.
Proof.
  intros Hrun Hct Hpid Hclk Hlen Hb.
  destruct (produce_bundle_Done _ _ _ _ _ _ _ _ _ Hrun) as (t1 & t2 & t3 & t4 & t5 & se & pa &
    kh & prepared & signed & Hc & _ & Hse & Ht1 & Hbase & Ht2 & _ & _ & _ & _ & Hbuild%map_err_Ok).
  unfold clock_typed in Hclk. rewrite Hc in Hclk. decompose_Forall_hyps.
  destruct Hct as [Hu He Hj].
  edestruct build_manifest as (i & d & n & Hm); [|exact Hbuild|done|exact Hb|].
  { split; [split|..]; cbn; try done.
    - by destruct (with_sha1 _); repeat constructor.
    - apply window_of_wf; [done|lia|done]. }
  eexists. split; rewrite ?Hm; cbn [complete_manifest m_producer_id m_ca_scopes bb_manifest
    push_entries new initial_manifest]; [done|done|..].
  - destruct (with_sha1 _); repeat constructor; set_solver.
  - eexists. split; [by left|done].
Qed.

Lemma produce_scope_bundle_Done ca_config ca snapshot config sk sc rc seed w file w' :
  produce_scope_bundle ca_config ca snapshot config sk sc rc seed w = (Done file, w') ->
  exists signer w1 seal_fn, produce_bundle ca snapshot config signer seal_fn rc w1 = (Done file, w') /\
    same_files w w1 /\ w_clock w1 `suffix_of` w_clock w.
Proof.
  unfold produce_scope_bundle, failing. intros H.
  destruct (is_ml_dsa ca_config), (ca_signing_key ca_config) as [[p| |]|]; try (by inv_io).
  - apply io_bind_Done in H as ([P key] & w1 & Hk & H). inv_io.
    destruct (passive_Done _ _ _ _ (load_ml_dsa_passive _ _) Hk). eauto 10.
  - apply io_bind_Done in H as ([P key] & w1 & Hk & H). inv_io.
    eexists _, _, _. split_and!; [eassumption|done|done].
  - inv_io. rename select (load_ecdsa_p256_key _ _ = _) into Hk.
    destruct (passive_Done _ _ _ _ (load_ecdsa_passive _) Hk). eauto 10.
  - inv_io. eexists _, _, _. split_and!; [eassumption|done|done].
Qed.

(** The marks of a CA key, under both of its hashes, are level: they were
    advanced together. *)
Definition marks_level (s : StateStore) (kb : bytes) : Prop :=
  let hw := default 0 (get_high_water s COMBINED_PRODUCER_ID (hex_encode (sha256 kb))) in
  hw + 1 < u64_lim /\
  forall hw1, get_high_water s COMBINED_PRODUCER_ID (hex_encode (sha1 kb)) = Some hw1 ->
    hw1 <= hw < hw1 + MAX_EPOCH_JUMP.

Lemma next_epoch_level s kb : marks_level s kb ->
  next_epoch s kb =
  default 0 (get_high_water s COMBINED_PRODUCER_ID (hex_encode (sha256 kb))) + 1.
Proof. intros [H _]. unfold next_epoch, saturating_add. lia. Qed.

Lemma produced_admissible s b kb completeness scopes :
  marks_level s kb -> produced_manifest b kb (next_epoch s kb) completeness scopes ->
  check_rollback s b = Ok tt.
Proof.
  intros Hl [Hp Hs He _]. pose proof (next_epoch_level s kb Hl) as Hn. destruct Hl as [_ Hl].
  apply check_rollback_Ok. rewrite Hs. eapply Forall_impl; [exact He|].
  intros scope (Hse & _ & Hk) hw Hm. unfold mark, scope_key in Hm. rewrite Hp in Hm.
  fold (get_high_water s COMBINED_PRODUCER_ID (hex_encode (cs_issuer_key_hash scope))) in Hm.
  rewrite Hse, Hn. unfold MAX_EPOCH_JUMP in *.
  apply elem_of_cons in Hk as [Hk|Hk%list_elem_of_singleton]; rewrite Hk in Hm.
  - rewrite Hm. cbn. lia.
  - specialize (Hl hw Hm). lia.
Qed.

Lemma claimed_completeness_Ok ca_config complete x :
  claimed_completeness ca_config complete = Ok x -> x = AuthoritativeComplete -> complete = true.
Proof. unfold claimed_completeness. intros H ->. by repeat case_match. Qed.

(** The run from the snapshot on: the state read, the settings derived, the production. *)
Definition scope_run c ca_config (ca : CaIdentity) (snapshot : StatusSnapshot) (complete : bool) (w : World)
    (signed : SignedScope) (w' : World) : Prop :=
  exists json store compat completeness cert_der signer seal_fn w1,
    let config := mkGenerationConfig COMBINED_PRODUCER_ID (next_epoch store (ci_issuer_key_bytes ca))
      (ca_validity_secs ca_config) (ca_jitter_secs ca_config) compat completeness
      (ca_archive_cutoff_secs ca_config) (gc_bucket_size default_generation_config) in
    w_files w !! (st_state_db (c_storage c) ++ ["state.json"%string]) = Some json /\
    json_from_str json = Ok (ss_state store) /\
    certid_compat_parse (ca_certid_compat ca_config) = Ok compat /\
    claimed_completeness ca_config complete = Ok completeness /\
    produce_bundle ca snapshot config signer seal_fn cert_der w1 = (Done (sc_bytes signed), w') /\
    w_clock w1 `suffix_of` w_clock w /\ sc_epoch signed = gc_epoch config.

Lemma generation_settings_Done c ca_config ca complete w config w' :
  generation_settings c ca_config ca complete w = (Done config, w') ->
  w_clock w' `suffix_of` w_clock w /\ same_files w w' /\
  exists json store compat completeness,
    config = mkGenerationConfig COMBINED_PRODUCER_ID (next_epoch store (ci_issuer_key_bytes ca))
      (ca_validity_secs ca_config) (ca_jitter_secs ca_config) compat completeness
      (ca_archive_cutoff_secs ca_config) (gc_bucket_size default_generation_config) /\
    w_files w !! (st_state_db (c_storage c) ++ ["state.json"%string]) = Some json /\
    json_from_str json = Ok (ss_state store) /\
    certid_compat_parse (ca_certid_compat ca_config) = Ok compat /\
    claimed_completeness ca_config complete = Ok completeness.
Proof.
  intros H. unfold generation_settings, failing in H.
  apply io_bind_Done in H as (store & w4 & Hopen%io_map_err_Done & H).
  apply io_bind_Done in H as (compat & w5 & [Hcompat ->]%io_lift_Done & H).
  apply io_bind_Done in H as (completeness & w6 & [Hcomp ->]%io_lift_Done & H). apply io_ret_Done in H as [-> ->].
  destruct (passive_Done _ _ _ _ (open_store_passive _) Hopen) as [F4 C4].
  apply open_store_Done in Hopen as (json & Hf & Hjson). split_and!; [done|done|]. by exists json, store, compat, completeness.
Qed.

Lemma sign_snapshot_run c ca_config ca snapshot complete ephemeral seed w signed w' :
  sign_snapshot c ca_config ca snapshot complete ephemeral seed w = (Done signed, w') ->
  scope_run c ca_config ca snapshot complete w signed w'.
Proof.
  intros H. unfold sign_snapshot in H.
  apply io_bind_Done in H as (config & w4 & Hset & H).
  apply io_bind_Done in H as ([] & w7 & Hlive & H).
  apply io_bind_Done in H as (cert_der & w8 & Hcert & H).
  apply io_bind_Done in H as ([seal_key seal_cert] & w9 & Hseal & H).
  apply io_bind_Done in H as (file & w10 & Hfile & H). apply io_ret_Done in H as [-> ->].
  apply generation_settings_Done in Hset as (C4 & _ & json & store & compat & completeness & -> & Hf & Hj & Hco & Hcm).
  assert (w_clock w7 `suffix_of` w_clock w4) as C5.
  { destruct (String.eqb _ _); inv_io; [|done].
    rename select (load_live_material _ _ = _) into Hl.
    by destruct (passive_Done _ _ _ _ (load_live_material_passive _) Hl). }
  destruct (passive_Done _ _ _ _ (load_responder_cert_passive _) Hcert) as [_ C6].
  destruct (passive_Done _ _ _ _ (load_seal_materials_passive _ _) Hseal) as [_ C7].
  apply produce_scope_bundle_Done in Hfile as (signer & w11 & seal_fn & Hrun & _ & C8).
  exists json, store, compat, completeness, cert_der, signer, seal_fn, w11. split_and!; try done.
  by repeat (etrans; [eassumption|]).
Qed.

Lemma clock_typed_suffix w w' : w_clock w' `suffix_of` w_clock w -> clock_typed w -> clock_typed w'.
Proof. unfold clock_typed. intros [used ->] H. by apply Forall_app in H as [_ ?]. Qed.

(** What the signer promises of a bundle made from a snapshot, for the key [kb] and the state of
    [w]. *)
Definition continues_state c (complete : bool) (kb : bytes) (signed : SignedScope) (b : Bundle) (w : World) : Prop :=
  exists json store completeness scopes,
    w_files w !! (st_state_db (c_storage c) ++ ["state.json"%string]) = Some json /\
    json_from_str json = Ok (ss_state store) /\
    sc_epoch signed = next_epoch store kb /\
    produced_manifest b kb (sc_epoch signed) completeness scopes /\
    (completeness = AuthoritativeComplete -> complete = true) /\
    (marks_level store kb -> check_rollback store b = Ok tt).

Lemma next_epoch_typed s kb : next_epoch s kb < u64_lim.
Proof. unfold next_epoch, saturating_add, u64_lim. lia. Qed.

Lemma scope_run_continues c ca_config ca snapshot complete w signed w' b :
  scope_run c ca_config ca snapshot complete w signed w' ->
  ca_jitter_secs ca_config < u64_lim -> clock_typed w -> len (sc_bytes signed) < u32_lim ->
  from_bytes (sc_bytes signed) = Ok b -> continues_state c complete (ci_issuer_key_bytes ca) signed b w.
Proof.
  intros (json & store & compat & completeness & cert_der & signer & seal_fn & w1 & Hf & Hjson & _ & Hcomp & Hrun &
    Hs & He) Hj Hclk Hlen Hb. cbn [gc_epoch] in He.
  edestruct produced_bundle_manifest as (scopes & Hpm); [exact Hrun|..|done|exact Hb|].
  { split; [done| |done]. apply next_epoch_typed. }
  { done. }
  { by eapply clock_typed_suffix. }
  exists json, store, completeness, scopes. rewrite He. split_and!; try done.
  - by eapply claimed_completeness_Ok.
  - intros Hl. by eapply produced_admissible.
Qed.

End signed_scope.

(** ** Publication *)

Section publication.
Context {CR : Crates} {SC : SealCrates} {JS : Json} {OC : OcspCrates} {SG : SignCrates}.
Context {SM : SealMaking}.
Implicit Types (c : Config) (ca_config : CaConfig) (source : RevocationSource).

Lemma crl_source_reads s ca : reads_only (rv_snapshot (crl_revocation_source s) ca).
Proof. cbn. unfold snapshot, authenticate. eauto 20 with hoike. Qed.

Lemma start_generation_reads ca snapshot config cert : reads_only (start_generation ca snapshot config cert).
Proof.
  unfold start_generation. apply reads_bind; [unfold generation_times; eauto 20 with hoike|].
  intros [[??]?]. eauto 20 with hoike.
Qed.
Lemma produce_bundle_reads ca snapshot config signer seal_fn cert :
  reads_only (produce_bundle ca snapshot config signer seal_fn cert).
Proof.
  unfold produce_bundle. apply reads_bind; [apply start_generation_reads|].
  intros [[[??]?]?]. eauto 20 with hoike.
Qed.
Lemma produce_dual_bundle_reads ca snapshot config signer1 signer2 disc seal_fn cert1 cert2 :
  reads_only (produce_dual_bundle ca snapshot config signer1 signer2 disc seal_fn cert1 cert2).
Proof.
  unfold produce_dual_bundle. apply reads_bind; [unfold generation_times; eauto 20 with hoike|].
  intros [[??]?]. eauto 20 with hoike.
Qed.

Lemma produce_scope_bundle_reads ca_config ca snapshot config sk sc rc seed :
  reads_only (produce_scope_bundle ca_config ca snapshot config sk sc rc seed).
Proof.
  unfold produce_scope_bundle, failing. pose proof produce_bundle_reads as Hp.
  destruct (is_ml_dsa ca_config), (ca_signing_key ca_config) as [[p| |]|]; eauto 10 with hoike;
    apply reads_bind; eauto with hoike; intros [P key]; eauto with hoike.
Qed.

Lemma sign_ca_scope_reads c ca_config source ephemeral seed :
  (forall ca, reads_only (rv_snapshot source ca)) ->
  reads_only (sign_ca_scope c ca_config source ephemeral seed).
Proof.
  intros Hs. unfold sign_ca_scope, sign_snapshot, generation_settings, failing.
  pose proof (fun p => pa_reads _ (open_store_passive p)).
  pose proof (fun e => pa_reads _ (load_seal_materials_passive ca_config e)).
  pose proof produce_scope_bundle_reads.
  destruct (decode_issuer_name_passive ca_config), (decode_issuer_key_passive ca_config),
    (load_responder_cert_passive ca_config), (load_live_material_passive ca_config).
  repeat (apply reads_bind; [try case_match; eauto with hoike|intros ?]).
  case_match; eauto with hoike.
Qed.

(** Sources that only read, and fresh ones do. *)
Lemma resolve_source_reads ca_config sources : reads_only (resolve_source ca_config sources).
Proof.
  unfold resolve_source, failing. destruct (sources !! _); [eauto with hoike|].
  apply reads_bind; [eauto with hoike|]. intros []; eauto 20 with hoike.
Qed.

Lemma resolve_source_Done ca_config (sources : PersistentSources) w source w' :
  resolve_source ca_config sources w = (Done source, w') ->
  (forall label s, sources !! label = Some s -> forall ca, reads_only (rv_snapshot s ca)) ->
  forall ca, reads_only (rv_snapshot source ca).
Proof.
  unfold resolve_source, failing. intros H Hs ca. destruct (sources !! _) as [ps|] eqn:E.
  - inv_io. by eapply Hs.
  - apply io_bind_Done in H as (sc & w1 & _ & H). destruct sc; inv_io. apply crl_source_reads.
Qed.

Lemma bundle_destination_find c label w d w' :
  bundle_destination c label w = (Done d, w') ->
  exists ca, List.find (fun ca => String.eqb (ca_label ca) label) (c_ca c) = Some ca /\
    d = ca_destination c ca.
Proof. unfold bundle_destination. intros H. inv_io. eauto. Qed.

(** A bundle that was signed for this CA, in the course of the run. *)
Definition signed_for c ca_config (file : bytes) : Prop :=
  exists source ephemeral seed w1 signed w2,
    sign_ca_scope c ca_config source ephemeral seed w1 = (Done signed, w2) /\ sc_bytes signed = file.

(** The state of a bundle's place after an attempt to publish [b] there. *)
Definition published (d : path) (P : bytes -> Prop) (w w' : World) : Prop :=
  stable w d -> forall x, after_crash w' d x ->
    x = w_files w !! d \/ exists b, x = Some b /\ P b.

Lemma published_same d P w w' : same_files w w' -> published d P w w'.
Proof.
  intros Hs Hst x Hx. left. apply stable_after_crash; [done|]. by eapply same_files_after_crash.
Qed.

Lemma replacement_published d b w0 w o w' :
  same_files w0 w -> replacement d b w o w' -> published d (eq b) w0 w'.
Proof.
  intros Hs Hr Hst x Hx. assert (w_files w !! d = w_files w0 !! d) as <- by (by destruct Hs as [-> _ _]).
  assert (stable w d) as Hst' by (by eapply same_files_stable).
  assert (w_files w' !! d = w_files w !! d /\ (stable w d -> stable w' d) -> x = w_files w !! d) as Hold.
  { intros [E HS]. rewrite <- E. by apply stable_after_crash; [apply HS|]. }
  destruct o as [[]|e|]; cbn in Hr.
  - destruct Hr as [Hf Hs']. right. exists b. split; [|done]. rewrite <- Hf. by apply stable_after_crash.
  - destruct e; try (left; by apply Hold). destruct Hr as [_ Hr].
    destruct (Hr x Hst' Hx); [by left|right; eauto].
  - destruct (Hr x Hst' Hx); [by left|right; eauto].
Qed.

Lemma write_bundle_spec c label b w ca :
  List.find (fun ca => String.eqb (ca_label ca) label) (c_ca c) = Some ca ->
  ~ tmp_path (ca_destination c ca) ->
  io_spec (write_bundle c label b) w (fun o w' =>
    untouched (ca_destination c ca) w w' /\ published (ca_destination c ca) (eq b) w w' /\
    (is_done o = true ->
     w_files w' !! ca_destination c ca = Some b /\ stable w' (ca_destination c ca))).
Proof.
  intros Hf Ht. unfold write_bundle, write_bundle_atomic, failing.
  apply io_spec_bind, io_spec_map_err.
  pose proof (bundle_destination_reads c label w) as Hr. unfold io_spec in *.
  destruct (bundle_destination c label w) as [[d|e|] w1] eqn:E; cbn [fst snd] in *.
  2,3: split; [by eapply same_files_untouched|split; [by apply published_same|done]].
  apply bundle_destination_find in E as (ca' & Hf' & ->). rewrite Hf in Hf'. injection Hf' as <-.
  apply io_spec_bind, io_spec_map_err. eapply io_spec_mono; [by apply write_atomic_spec|].
  intros o w2 [Hu Hrep]. apply (same_files_untouched _ _ _ _ Hr) in Hu.
  pose proof (replacement_published _ _ _ _ _ _ Hr Hrep) as Hpub.
  destruct o as [[]|e|]; (split; [done|split; [done|]]); [by intros _|done|done].
Qed.

Lemma sign_ca_scope_label c ca_config source ephemeral seed w signed w' :
  sign_ca_scope c ca_config source ephemeral seed w = (Done signed, w') ->
  sc_label signed = ca_label ca_config.
Proof.
  unfold sign_ca_scope, sign_snapshot. intros H.
  repeat first [apply io_ret_Done in H as [-> _]; done
               |apply io_bind_Done in H as ([] & ? & _ & H)
               |apply io_bind_Done in H as (? & ? & _ & H)].
Qed.

(** What a run that publishes for a CA leaves behind. *)
Definition attempted c ca_config (d : path) (w : World) (o : outcome string SignedScope)
    (w' : World) : Prop :=
  untouched d w w' /\ published d (signed_for c ca_config) w w' /\
  forall signed, o = Done signed -> signed_for c ca_config (sc_bytes signed) /\
    w_files w' !! d = Some (sc_bytes signed) /\ stable w' d.

Lemma attempted_same c ca_config d w o w' :
  same_files w w' -> is_done o = false -> attempted c ca_config d w o w'.
Proof.
  intros Hs Ho. split; [by eapply same_files_untouched|]. split; [by apply published_same|].
  by intros signed ->.
Qed.

(** C23: publication is all or nothing.  Whatever fails or crashes on the way
    from the configuration to the disk, the place of the CA's bundle holds after
    a restart what it held before, or the complete bytes of a bundle that was
    signed and sealed for this CA; success means that the new bundle is there and
    durable; and no other file has changed. *)
Theorem publication_all_or_nothing c (sources : PersistentSources) ca_config ephemeral seed w ca :
  (forall label s, sources !! label = Some s -> forall ca, reads_only (rv_snapshot s ca)) ->
  List.find (fun ca => String.eqb (ca_label ca) (ca_label ca_config)) (c_ca c) = Some ca ->
  ~ tmp_path (ca_destination c ca) -> stable w (ca_destination c ca) ->
  let '(o, w') := sign_and_write_scope c sources ca_config ephemeral seed w in
  let d := ca_destination c ca in
  (forall x, after_crash w' d x ->
     x = w_files w !! d \/ exists file, x = Some file /\ signed_for c ca_config file) /\
  (forall signed, o = Done signed -> signed_for c ca_config (sc_bytes signed) /\
     w_files w' !! d = Some (sc_bytes signed) /\ stable w' d) /\
  forall q, q <> d -> ~ tmp_path q -> kept q w w'.
Proof.
  intros Hsrc Hf Ht Hst. set (d := ca_destination c ca) in *.
  enough (io_spec (sign_and_write_scope c sources ca_config ephemeral seed) w
    (attempted c ca_config d w)) as H.
  { unfold io_spec in H. destruct (sign_and_write_scope _ _ _ _ _ _) as [o w'].
    destruct H as (Hu & Hp & Hd). split; [by apply Hp|]. split; [done|]. intros q Hq Hqt. by apply Hu. }
  unfold sign_and_write_scope. apply io_spec_bind.
  pose proof (resolve_source_reads ca_config sources w) as Hr. unfold io_spec at 1. unfold io_spec in Hr.
  destruct (resolve_source ca_config sources w) as [[source|e|] w1] eqn:Es; cbn [fst snd] in *;
    [|by apply attempted_same..].
  apply io_spec_bind. pose proof (resolve_source_Done _ _ _ _ _ Es Hsrc) as Hsr.
  pose proof (sign_ca_scope_reads c ca_config source ephemeral seed Hsr w1) as Hr1.
  unfold io_spec at 1. unfold io_spec in Hr1.
  destruct (sign_ca_scope c ca_config source ephemeral seed w1) as [[signed|e|] w2] eqn:Eg; cbn [fst snd] in *;
    pose proof (transitivity Hr Hr1) as Hr2; [|by apply attempted_same..].
  assert (sc_label signed = ca_label ca_config) as Hl by (by eapply sign_ca_scope_label).
  assert (signed_for c ca_config (sc_bytes signed)) as Hsf by (by eexists _, _, _, _, _, _).
  apply io_spec_bind. rewrite Hl. eapply io_spec_mono; [by apply write_bundle_spec|].
  intros o w3 (Hu & Hp & Hd).
  assert (published d (signed_for c ca_config) w w3) as Hp'.
  { intros _ x Hx. destruct (Hp (same_files_stable _ _ _ Hr2 Hst) x Hx) as [->|(b & -> & <-)].
    - left. by destruct Hr2 as [-> _ _].
    - right. eauto. }
  pose proof (same_files_untouched _ _ _ _ Hr2 Hu) as Hu'.
  destruct o as [p|e|]; (split; [done|split; [done|]]); [|done|done].
  intros ? [= <-]. split; [done|]. by apply Hd.
Qed.
End publication.

(** ** Witnesses *)

Module ToyOrchestrate.

Definition ca_config : CaConfig :=
  mkCaConfig "alpha" None "live" "authoritative-complete" None None None false None None
    default_batch_interval default_validity_secs default_jitter_secs "dual"
    default_max_age_fraction 0 default_urgent_revocation None None default_sig_alg
    (Some (Config.File ["key"])) (Some ["responder"]) None (Some ["seal-key"])
    (Some ["seal-cert"]).
Definition config : Config := mkConfig sample_server sample_storage [ca_config] None.
Definition source : RevocationSource :=
  mkRevocationSource (fun _ => mret (mkStatusSnapshot {[ [x2a] := Good ]} 100 (Some 90000) ∅))
    (fun _ _ => mret []) false true.
Definition sources : gmap string RevocationSource := {[ "alpha"%string := source ]}.
Definition state : bytes :=
  match @json_to_vec_pretty ToyJson.json default_state with Ok b => b | Err _ => [] end.
Definition world : World :=
  set_clock (replicate 8 (Some 150)) (set_files (fun _ => {[ ["srv"; "state.json"] := state;
    ["key"] := [x0c]; ["responder"] := [x0c]; ["seal-key"] := [x0d]; ["seal-cert"] := [x0d] ]}%string)
    sample_world).

Abbreviation live := (@load_live_material ToyMaking.seal_crates ToySign.crates ToyMaking.making).
Abbreviation sign := (@sign_ca_scope Toy.crates ToyMaking.seal_crates ToyJson.json ToySign.ocsp
  ToySign.crates ToyMaking.making).
Abbreviation publish := (@sign_and_write_scope Toy.crates ToyMaking.seal_crates ToyJson.json
  ToySign.ocsp ToySign.crates ToyMaking.making).
End ToyOrchestrate.

Lemma live_material_sound_witness :
  exists m w', ToyOrchestrate.live ToyOrchestrate.ca_config ToyOrchestrate.world = (Done m, w') /\
    @responder_bound ToyMaking.seal_crates ToySign.crates ToyMaking.making false m
      (w_clock ToyOrchestrate.world).
Proof.
  destruct (is_done_inv (ToyOrchestrate.live ToyOrchestrate.ca_config) ToyOrchestrate.world)
    as (m & w' & E); [vm_compute; reflexivity|].
  exists m, w'. split; [exact E|].
  destruct (@live_material_sound ToyMaking.seal_crates ToySign.crates ToyMaking.making _ _ _ _ E)
    as (H & _ & _). exact H.
Defined.


Lemma publication_all_or_nothing_witness :
  exists signed w', ToyOrchestrate.publish ToyOrchestrate.config ToyOrchestrate.sources
      ToyOrchestrate.ca_config x2a [] ToyOrchestrate.world = (Done signed, w') /\
    w_files w' !! ["srv"; "bundles"; "alpha.ahu"]%string = Some (sc_bytes signed).
Proof.
  destruct (is_done_inv (ToyOrchestrate.publish ToyOrchestrate.config ToyOrchestrate.sources
      ToyOrchestrate.ca_config x2a []) ToyOrchestrate.world) as (signed & w' & E);
    [vm_compute; reflexivity|].
  exists signed, w'. split; [exact E|].
  pose proof (@publication_all_or_nothing Toy.crates ToyMaking.seal_crates ToyJson.json ToySign.ocsp
    ToySign.crates ToyMaking.making ToyOrchestrate.config
    ToyOrchestrate.sources ToyOrchestrate.ca_config x2a [] ToyOrchestrate.world
    ToyOrchestrate.ca_config) as H. rewrite E in H.
  destruct H as (_ & Hd & _).
  - intros label s Hs ca w. unfold ToyOrchestrate.sources in Hs. apply lookup_singleton_Some in Hs as [_ <-]. by apply io_spec_ret.
  - reflexivity.
  - apply (not_tmp_path ["srv"; "bundles"]%string). discriminate.
  - split; [vm_compute; reflexivity|]. intros [x Hx]. vm_compute in Hx. discriminate Hx.
  - destruct (Hd signed eq_refl) as (_ & Hf & _). exact Hf.
Defined.
