(* ===== verification/Handlers.v ===== *)
(** * Handlers: answering an OCSP request over HTTP (hoike-server/src/handlers.rs,
    with the state it reads from state.rs)

    A request is answered by a stored response, a live signature, an upstream
    responder or an unsigned error.  The signing functions of
    hoike-sign/src/live.rs are an interface here, which [Live] implements; the
    HTTP client is a parameter.  Main results:
    the four ways a request can be answered and what each guarantees, that a
    stale response is never served, that forwarding stays on the permitted
    channel and is bounded.

    Not modelled: the counters and log lines of obs.rs, except for the label
    and status the counter of requests is given. *)

From stdpp Require Import base tactics list gmap strings pretty.
From Stdlib Require Import NArith ZArith SpecFloat Lia.
From S2P Require Import Prelude Crates AhuError Header Index Manifest Bundle CoreError.
From S2P Require Import Storage State Config Admission Request Router Calendar.
From S2P Require Import SignError SignCrates.
Local Open Scope N_scope.

(** ** Interfaces *)

(** [hoike_sign::live]. *)
Inductive LiveCertStatus := Good | Unknown | Revoked (revocation_time : N) (reason : option CrlReason).

Record LiveResponseSource : Type := mkLiveResponseSource {
  ls_status : LiveCertStatus;
  ls_this_update : N;
  ls_next_update : N;
}.

Record LiveSignerState (Key : Type) : Type := mkLiveSignerState {
  lv_signer : Key;
  lv_responder_key_bytes : bytes;
  lv_validity_secs : N;
  lv_responder_cert_der : option bytes;
}.
Arguments mkLiveSignerState {_}.
Arguments lv_signer {_}.
Arguments lv_responder_key_bytes {_}.
Arguments lv_validity_secs {_}.
Arguments lv_responder_cert_der {_}.

Class LiveSigning := {
  LiveSignerKey : Type;
  extract_status_for_cert : bytes -> bytes -> sign_result LiveResponseSource;
  (** certid, status, nonce, key bytes, signer, now, this update, next update, certificate *)
  sign_live_response_with_window : bytes -> LiveCertStatus -> bytes -> bytes -> LiveSignerKey ->
    N -> N -> N -> option bytes -> sign_result bytes;
}.

(** An upstream response; [up_chunks] are the results of the calls of [chunk]
    before the end of the body. *)
Record Upstream : Type := mkUpstream {
  up_success : bool;
  up_content_type : option string;
  up_content_length : option N;
  up_chunks : list (result string bytes);
}.

Class HttpClient := {
  Client : Type;
  (** [reqwest::Url::parse(url)], the scheme *)
  url_scheme : string -> option string;
  (** [client.post(url).header(..).body(..).send()] *)
  client_post : Client -> string -> bytes -> result string Upstream;
}.

(** ** Responses *)

Record Response : Type := mkResponse {
  rsp_headers : list (string * string);
  rsp_body : bytes;
}.

Definition ocsp_error_response (status_der : bytes) : Response :=
  mkResponse [("content-type", CONTENT_TYPE_OCSP_RESPONSE); ("cache-control", "no-cache, no-store")]%string
    status_der.

Definition live_response (response_bytes : bytes) : Response :=
  mkResponse [("content-type", CONTENT_TYPE_OCSP_RESPONSE); ("cache-control", "no-cache, no-store")]%string
    response_bytes.

(** *** Stored responses *)

(** [n as f64] and [x as u64]. *)
Definition f64_of_u64 (n : N) : f64 := binary_normalize f64_prec f64_emax (Z.of_N n) 0 false.
Definition u64_of_f64 (x : f64) : N :=
  match x with
  | S754_zero _ | S754_nan | S754_infinity true | S754_finite true _ _ => 0
  | S754_infinity false => u64_lim - 1
  | S754_finite false m e =>
      N.min (u64_lim - 1)
        (match e with
         | Z0 => Npos m
         | Zpos k => Npos m * 2 ^ Npos k
         | Zneg k => Npos m / 2 ^ Npos k
         end)
  end.

Definition max_age_of (window : Window) (fraction : f64) (now : N) : N :=
  let validity_secs := saturating_sub (w_next_update_min window) (w_this_update_min window) in
  let scaled := u64_of_f64 (SFmul f64_prec f64_emax (f64_of_u64 validity_secs) fraction) in
  N.min scaled (saturating_sub (w_next_update_min window) now).

(** The window does not contain the time. *)
Definition outside_window (window : Window) (now : N) : bool :=
  (now <? w_this_update_min window) || (w_next_update_min window <=? now).

Definition quote : string := String (Ascii.ascii_of_N 34) EmptyString.

Section handlers.
Context {CR : Crates} {OC : OcspCrates} {LS : LiveSigning} {HC : HttpClient}.

(** [ocsp_success_response]; [None] is a panic. *)
Definition ocsp_success_response (result : LookupResult) (now : N) : option Response :=
  let window := lr_window result in
  if outside_window window now then Some (ocsp_error_response TRY_LATER) else
  let etag := quote +:+ hex_encode (sha256 (lr_response_bytes result)) +:+ quote in
  let max_age := max_age_of window (lr_max_age_fraction result) now in
  let cache_control :=
    "max-age=" +:+ pretty max_age +:+ ", public, no-transform, must-revalidate" in
  last_modified ← date_header "last-modified" (w_this_update_min window);
  expires ← date_header "expires" (w_next_update_min window);
  Some (mkResponse
    ([("content-type", CONTENT_TYPE_OCSP_RESPONSE); ("etag", etag); ("cache-control", cache_control)]%string
     ++ last_modified ++ expires) (lr_response_bytes result)).

(** *** Forwarding *)

Definition MAX_FORWARD_RESPONSE : N := 65536.

(** [split(';').next()] and [trim]. *)
Fixpoint before_semicolon (s : string) : string :=
  match s with
  | EmptyString => EmptyString
  | String c s => if Ascii.eqb c (Ascii.ascii_of_N 59) then EmptyString else String c (before_semicolon s)
  end.
Definition is_space (c : Ascii.ascii) : bool :=
  let n := Ascii.N_of_ascii c in (n =? 32) || (9 <=? n) && (n <=? 13).
Fixpoint trim_start (s : string) : string :=
  match s with
  | String c s' => if is_space c then trim_start s' else s
  | EmptyString => EmptyString
  end.
Definition trim (s : string) : string := String.rev (trim_start (String.rev (trim_start s))).

Definition media_type_is (expected ct : string) : bool :=
  eq_ignore_ascii_case (trim (before_semicolon ct)) expected.

(** The loop over the chunks. *)
Fixpoint read_body (body : bytes) (chunks : list (result string bytes)) : result bytes bytes :=
  match chunks with
  | [] => Ok body
  | Ok chunk :: chunks =>
      if saturating_sub MAX_FORWARD_RESPONSE (len body) <? len chunk then Err INTERNAL_ERROR
      else read_body (body ++ chunk) chunks
  | Err _ :: _ => Err TRY_LATER
  end.

Definition forward_permitted (url : string) (allow_insecure : bool) : bool :=
  match url_scheme url with
  | Some scheme => String.eqb scheme "https" || (allow_insecure && String.eqb scheme "http")
  | None => false
  end.

Definition forward_request (client : Client) (url : string) (der_bytes : bytes)
    (allow_insecure : bool) : Response :=
  if negb (forward_permitted url allow_insecure) then ocsp_error_response INTERNAL_ERROR else
  match client_post client url der_bytes with
  | Ok up =>
      if negb (up_success up) then ocsp_error_response TRY_LATER else
      if negb (from_option (media_type_is CONTENT_TYPE_OCSP_RESPONSE) false (up_content_type up))
      then ocsp_error_response TRY_LATER else
      if from_option (fun n => MAX_FORWARD_RESPONSE <? n) false (up_content_length up)
      then ocsp_error_response INTERNAL_ERROR else
      match read_body [] (up_chunks up) with
      | Ok body => live_response body
      | Err status => ocsp_error_response status
      end
  | Err _ => ocsp_error_response TRY_LATER
  end.

(** *** The decision *)

(** What the handlers read of [AppState]. *)
Record AppState : Type := mkAppState {
  ap_scope_map : ScopeMap;
  ap_config : Config;
  ap_live_signers : gmap string (LiveSignerState LiveSignerKey);
  ap_forward_clients : gmap string Client;
}.

(** [forward_insecure] of the CA with this label. *)
Definition insecure_allowed (state : AppState) (ca : string) : bool :=
  from_option ca_forward_insecure false
    (List.find (fun c => String.eqb (ca_label c) ca) (c_ca (ap_config state))).

(** The status of the request counter for a stored response. *)
Definition presigned_status_label (response_bytes : bytes) : string := "served".

(** [sign_live_response]. *)
Definition sign_live_response (cert_id_der : bytes) (status : LiveCertStatus) (nonce_bytes : bytes)
    (live : LiveSignerState LiveSignerKey) (now : N) : sign_result bytes :=
  next ← ok_or (checked_add now (lv_validity_secs live)) (SignConfig "live validity overflow");
  sign_live_response_with_window cert_id_der status nonce_bytes (lv_responder_key_bytes live)
    (lv_signer live) now now next (lv_responder_cert_der live).

Abbreviation Answer := (Response * string * string)%type.

Definition malformed : Answer :=
  (ocsp_error_response MALFORMED_REQUEST, "unknown", "malformed")%string.
Definition internal_error (ca : string) : Answer :=
  (ocsp_error_response INTERNAL_ERROR, ca, "internalError"%string).
Definition unauthorized : Answer :=
  (ocsp_error_response UNAUTHORIZED, "unknown", "unauthorized")%string.

(** The branch [live] of a request with a nonce; [now] is read after the lock. *)
Definition answer_live (state : AppState) (cert_id : ParsedCertId) (nonce_bytes : bytes)
    (result : LookupResult) (now : N) : Answer :=
  let ca := lr_ca_label result in
  match ap_live_signers state !! ca with
  | Some live =>
      match extract_status_for_cert (lr_response_bytes result) (pc_certid_der cert_id) with
      | Ok source =>
          match sign_live_response_with_window (pc_certid_der cert_id) (ls_status source) nonce_bytes
            (lv_responder_key_bytes live) (lv_signer live) now (ls_this_update source)
            (N.min (N.min (ls_next_update source) (w_next_update_min (lr_window result)))
               (saturating_add now (lv_validity_secs live)))
            (lv_responder_cert_der live) with
          | Ok response_der => (live_response response_der, ca, "live"%string)
          | Err _ => internal_error ca
          end
      | Err _ => internal_error ca
      end
  | None => internal_error ca
  end.

(** The branch [forward] of a request with a nonce. *)
Definition answer_forward (state : AppState) (der_bytes : bytes) (result : LookupResult) : Answer :=
  let ca := lr_ca_label result in
  match lr_forward_to result with
  | Some url =>
      match ap_forward_clients state !! ca with
      | Some client => (forward_request client url der_bytes (insecure_allowed state ca), ca, "forwarded"%string)
      | None => internal_error ca
      end
  | None => internal_error ca
  end.

Definition answer_stored (result : LookupResult) (now : N) : option Answer :=
  response ← ocsp_success_response result now;
  Some (response, lr_ca_label result, presigned_status_label (lr_response_bytes result)).

(** The branch of a lookup that hits. *)
Definition answer_hit (state : AppState) (der_bytes : bytes) (cert_id : ParsedCertId)
    (nonce : option bytes) (result : LookupResult) (clock : nat -> N) : option Answer :=
  if outside_window (lr_window result) (clock 0%nat)
  then Some (ocsp_error_response TRY_LATER, lr_ca_label result, "tryLater"%string) else
  match nonce with
  | Some nonce_bytes =>
      if String.eqb (lr_nonce_policy result) "live" then
        Some (answer_live state cert_id nonce_bytes result (clock 1%nat))
      else if String.eqb (lr_nonce_policy result) "forward" then
        Some (answer_forward state der_bytes result)
      else answer_stored result (clock 1%nat)
  | None => answer_stored result (clock 1%nat)
  end.

(** The branch of a lookup that misses: a serial without an entry in a complete
    scope was never issued. *)
Definition answer_miss (state : AppState) (der_bytes : bytes) (cert_id : ParsedCertId)
    (nonce : option bytes) (now : N) : Answer :=
  match nonce, scope_for_certid (ap_scope_map state) cert_id with
  | Some nonce_bytes, Some (ca, true, forward_to) =>
      match ap_live_signers state !! ca with
      | Some live =>
          match sign_live_response (pc_certid_der cert_id) Unknown nonce_bytes live now with
          | Ok response_der => (live_response response_der, ca, "unknown"%string)
          | Err _ => unauthorized
          end
      | None =>
          match forward_to, ap_forward_clients state !! ca with
          | Some url, Some client =>
              (forward_request client url der_bytes (insecure_allowed state ca), ca, "forwarded"%string)
          | _, _ => unauthorized
          end
      end
  | _, _ => unauthorized
  end.

(** [process_request_inner]; [clock] gives the successive readings of the
    system clock, [None] is a panic. *)
Definition process_request_inner (state : AppState) (der_bytes : bytes) (clock : nat -> N) :
    option Answer :=
  match parse_ocsp_request der_bytes with
  | Err _ => Some malformed
  | Ok parsed =>
      match validate_nonce <$> pr_nonce parsed with
      | Some MalformedRequest => Some malformed
      | _ =>
          match head (pr_cert_ids parsed) with
          | None => Some malformed
          | Some cert_id =>
              hit ← lookup (ap_scope_map state) cert_id (pr_preferred_sig_algs parsed);
              match hit with
              | Some result => answer_hit state der_bytes cert_id (pr_nonce parsed) result clock
              | None => Some (answer_miss state der_bytes cert_id (pr_nonce parsed) (clock 0%nat))
              end
          end
      end
  end.

Definition process_request (state : AppState) (der_bytes : bytes) (clock : nat -> N) : option Response :=
  fst ∘ fst <$> process_request_inner state der_bytes clock.

Definition max_request (state : AppState) : N := sv_max_request (c_server (ap_config state)).

Definition handle_get_root : Response := ocsp_error_response MALFORMED_REQUEST.

Definition handle_get (state : AppState) (p : string) (clock : nat -> N) : option Response :=
  match decode_get_path p with
  | Err _ => Some (ocsp_error_response MALFORMED_REQUEST)
  | Ok der_bytes =>
      if max_request state <? len der_bytes then Some (ocsp_error_response MALFORMED_REQUEST)
      else process_request state der_bytes clock
  end.

(** [handle_post]: an unexpected content type is only logged. *)
Definition handle_post (state : AppState) (body : bytes) (clock : nat -> N) : option Response :=
  if max_request state <? len body then Some (ocsp_error_response MALFORMED_REQUEST)
  else process_request state body clock.
End handlers.

(** ** How a request is answered *)

Section handler_props.
Context {CR : Crates} {OC : OcspCrates} {LS : LiveSigning} {HC : HttpClient}.
Implicit Types (state : AppState).

Definition fresh (window : Window) (now : N) : Prop :=
  w_this_update_min window <= now < w_next_update_min window.

Lemma outside_window_false window now : outside_window window now = false <-> fresh window now.
Proof. unfold outside_window, fresh. by rewrite orb_false_iff, N.ltb_ge, N.leb_gt. Qed.

Definition cached_for (r : Response) (seconds : N) : Prop :=
  ("cache-control"%string,
   "max-age=" +:+ pretty seconds +:+ ", public, no-transform, must-revalidate") ∈ rsp_headers r.

(** A response that is a stored one, for at most the time it remains valid. *)
Definition stored_response (result : LookupResult) (now : N) (r : Response) : Prop :=
  rsp_body r = lr_response_bytes result /\ fresh (lr_window result) now /\
  exists seconds, cached_for r seconds /\ now + seconds <= w_next_update_min (lr_window result).

Lemma ocsp_success_response_spec result now :
  exists r, ocsp_success_response result now = Some r /\
    (r = ocsp_error_response TRY_LATER \/ stored_response result now r).
Proof.
  unfold ocsp_success_response. destruct (outside_window (lr_window result) now) eqn:E; [eauto|].
  apply outside_window_false in E.
  destruct (date_header_total "last-modified" (w_this_update_min (lr_window result))) as [lm ->].
  destruct (date_header_total "expires" (w_next_update_min (lr_window result))) as [ex ->]. cbn.
  eexists. split; [done|]. right. split; [done|]. split; [done|].
  exists (max_age_of (lr_window result) (lr_max_age_fraction result) now). split.
  - right; right; left.
  - unfold max_age_of, saturating_sub, fresh in *. lia.
Qed.

(** What a live signature attests for the CA [ca]: the status and the bounds of
    the stored response, or [Unknown] for a serial missing from a complete scope. *)
Inductive live_source state (now : N) : ParsedRequest -> ParsedCertId -> string -> LiveCertStatus -> N -> N -> Prop :=
| live_from_stored parsed cert_id result source next :
    lookup (ap_scope_map state) cert_id (pr_preferred_sig_algs parsed) = Some (Some result) ->
    lr_nonce_policy result = "live"%string ->
    extract_status_for_cert (lr_response_bytes result) (pc_certid_der cert_id) = Ok source ->
    next <= ls_next_update source -> next <= w_next_update_min (lr_window result) ->
    live_source state now parsed cert_id (lr_ca_label result) (ls_status source) (ls_this_update source) next
| live_never_issued parsed cert_id ca forward_to next :
    lookup (ap_scope_map state) cert_id (pr_preferred_sig_algs parsed) = Some None ->
    scope_for_certid (ap_scope_map state) cert_id = Some (ca, true, forward_to) ->
    live_source state now parsed cert_id ca Unknown now next.

(** The four ways to answer. *)
Inductive answered state (der : bytes) (clock : nat -> N) : Response -> Prop :=
| answered_error status :
    status ∈ [UNAUTHORIZED; MALFORMED_REQUEST; INTERNAL_ERROR; TRY_LATER] ->
    answered state der clock (ocsp_error_response status)
| answered_stored parsed cert_id result r :
    parse_ocsp_request der = Ok parsed -> head (pr_cert_ids parsed) = Some cert_id ->
    lookup (ap_scope_map state) cert_id (pr_preferred_sig_algs parsed) = Some (Some result) ->
    (pr_nonce parsed = None \/
     (lr_nonce_policy result <> "live"%string /\ lr_nonce_policy result <> "forward"%string)) ->
    fresh (lr_window result) (clock 0%nat) -> stored_response result (clock 1%nat) r ->
    answered state der clock r
| answered_live parsed cert_id nonce ca live status this_update next_update i response_der :
    parse_ocsp_request der = Ok parsed -> head (pr_cert_ids parsed) = Some cert_id ->
    pr_nonce parsed = Some nonce -> 1 <= len nonce <= 128 ->
    ap_live_signers state !! ca = Some live ->
    live_source state (clock i) parsed cert_id ca status this_update next_update ->
    next_update <= clock i + lv_validity_secs live ->
    sign_live_response_with_window (pc_certid_der cert_id) status nonce
      (lv_responder_key_bytes live) (lv_signer live) (clock i) this_update next_update
      (lv_responder_cert_der live) = Ok response_der ->
    answered state der clock (live_response response_der)
| answered_upstream parsed cert_id nonce ca url client :
    parse_ocsp_request der = Ok parsed -> head (pr_cert_ids parsed) = Some cert_id ->
    pr_nonce parsed = Some nonce -> 1 <= len nonce <= 128 ->
    ap_forward_clients state !! ca = Some client ->
    answered state der clock (forward_request client url der (insecure_allowed state ca)).

Lemma nonce_length nonce : validate_nonce nonce <> MalformedRequest -> 1 <= len nonce <= 128.
Proof.
  intros H. rewrite validate_nonce_malformed in H. destruct nonce; [tauto|].
  assert (~ 128 < len (b :: nonce)) by tauto. rewrite len_cons in *. lia.
Qed.

Lemma answer_stored_spec result now :
  exists r, answer_stored result now =
      Some (r, lr_ca_label result, presigned_status_label (lr_response_bytes result)) /\
    (r = ocsp_error_response TRY_LATER \/ stored_response result now r).
Proof.
  unfold answer_stored. destruct (ocsp_success_response_spec result now) as (r & -> & H). eauto.
Qed.

Ltac unsigned := apply answered_error; repeat first [left; done|right].

Lemma answer_live_answered state der parsed cert_id nonce result clock :
  parse_ocsp_request der = Ok parsed -> head (pr_cert_ids parsed) = Some cert_id ->
  pr_nonce parsed = Some nonce -> 1 <= len nonce <= 128 ->
  lookup (ap_scope_map state) cert_id (pr_preferred_sig_algs parsed) = Some (Some result) ->
  lr_nonce_policy result = "live"%string ->
  answered state der clock (answer_live state cert_id nonce result (clock 1%nat)).1.1.
Proof.
  intros Hp Hh Hn Hl Hk Hlive. unfold answer_live.
  destruct (ap_live_signers state !! lr_ca_label result) as [live|] eqn:El; [|unsigned].
  destruct (extract_status_for_cert _ _) as [source|] eqn:Es; [|unsigned].
  destruct (sign_live_response_with_window _ _ _ _ _ _ _ _ _) as [rd|] eqn:Er; [|unsigned].
  eapply answered_live; [exact Hp|exact Hh|exact Hn|exact Hl|exact El| | |exact Er].
  - apply (live_from_stored state (clock 1%nat) parsed cert_id result); try done; lia.
  - unfold saturating_add. lia.
Qed.

Lemma answer_forward_answered state der parsed cert_id nonce result clock :
  parse_ocsp_request der = Ok parsed -> head (pr_cert_ids parsed) = Some cert_id ->
  pr_nonce parsed = Some nonce -> 1 <= len nonce <= 128 ->
  answered state der clock (answer_forward state der result).1.1.
Proof.
  intros Hp Hh Hn Hl. unfold answer_forward. destruct (lr_forward_to result) as [url|]; [|unsigned].
  destruct (ap_forward_clients state !! lr_ca_label result) as [client|] eqn:Ec; [|unsigned].
  by eapply answered_upstream.
Qed.

Lemma answer_miss_answered state der parsed cert_id clock :
  parse_ocsp_request der = Ok parsed -> head (pr_cert_ids parsed) = Some cert_id ->
  (forall nonce, pr_nonce parsed = Some nonce -> 1 <= len nonce <= 128) ->
  lookup (ap_scope_map state) cert_id (pr_preferred_sig_algs parsed) = Some None ->
  answered state der clock (answer_miss state der cert_id (pr_nonce parsed) (clock 0%nat)).1.1.
Proof.
  intros Hp Hh Hl Hk. unfold answer_miss.
  destruct (pr_nonce parsed) as [nonce|] eqn:Hn; [|unsigned]. specialize (Hl nonce eq_refl).
  destruct (scope_for_certid _ _) as [[[ca [|]] fwd]|] eqn:Es; [|unsigned..].
  destruct (ap_live_signers state !! ca) as [live|] eqn:El.
  - destruct (sign_live_response _ _ _ _ _) as [rd|] eqn:Er; [|unsigned].
    unfold sign_live_response in Er. inv_ok. rename select (checked_add _ _ = _) into Ea.
    apply checked_add_Some in Ea as [Ea _].
    eapply answered_live; [exact Hp|exact Hh|exact Hn|exact Hl|exact El| | |eassumption].
    + by eapply live_never_issued.
    + lia.
  - destruct fwd as [url|]; [|unsigned].
    destruct (ap_forward_clients state !! ca) as [client|] eqn:Ec; [|unsigned].
    by eapply answered_upstream.
Qed.

Lemma answer_hit_answered state der parsed cert_id result clock :
  parse_ocsp_request der = Ok parsed -> head (pr_cert_ids parsed) = Some cert_id ->
  (forall nonce, pr_nonce parsed = Some nonce -> 1 <= len nonce <= 128) ->
  lookup (ap_scope_map state) cert_id (pr_preferred_sig_algs parsed) = Some (Some result) ->
  exists a, answer_hit state der cert_id (pr_nonce parsed) result clock = Some a /\
    answered state der clock a.1.1.
Proof.
  intros Hp Hh Hl Hk. unfold answer_hit.
  destruct (outside_window _ _) eqn:Eo; [eexists; split; [done|unsigned]|].
  apply outside_window_false in Eo.
  assert ((pr_nonce parsed = None \/
     (lr_nonce_policy result <> "live"%string /\ lr_nonce_policy result <> "forward"%string)) ->
    exists a, answer_stored result (clock 1%nat) = Some a /\ answered state der clock a.1.1) as Hst.
  { intros Hc. destruct (answer_stored_spec result (clock 1%nat)) as (r & -> & [->|Hr]);
      (eexists; split; [done|]); cbn [fst]; [unsigned|by eapply answered_stored]. }
  destruct (pr_nonce parsed) as [nonce|] eqn:Hn; [|by apply Hst; left].
  destruct (String.eqb_spec (lr_nonce_policy result) "live").
  { eexists. split; [done|]. by eapply answer_live_answered; [..|apply Hl| |]. }
  destruct (String.eqb_spec (lr_nonce_policy result) "forward").
  { eexists. split; [done|]. by eapply answer_forward_answered; [..|apply Hl]. }
  apply Hst. by right.
Qed.

Lemma head_cert_id der parsed :
  parse_ocsp_request der = Ok parsed -> exists cert_id, head (pr_cert_ids parsed) = Some cert_id.
Proof.
  intros (_ & _ & tbs & _ & Hne & Hf & _)%parse_ocsp_request_Ok.
  destruct Hf as [|? cert_id]; [done|]. by exists cert_id.
Qed.

Lemma process_request_answered state der clock :
  routes (ap_scope_map state) ->
  exists a, process_request_inner state der clock = Some a /\ answered state der clock a.1.1.
Proof.
  intros Hr. unfold process_request_inner.
  destruct (parse_ocsp_request der) as [parsed|e] eqn:Hp; [|eexists; split; [done|unsigned]].
  destruct (head_cert_id _ _ Hp) as [cert_id Hh]. rewrite Hh.
  assert ((forall nonce, pr_nonce parsed = Some nonce -> 1 <= len nonce <= 128) ->
    exists a, (hit ← lookup (ap_scope_map state) cert_id (pr_preferred_sig_algs parsed);
      match hit with
      | Some result => answer_hit state der cert_id (pr_nonce parsed) result clock
      | None => Some (answer_miss state der cert_id (pr_nonce parsed) (clock 0%nat))
      end) = Some a /\ answered state der clock a.1.1) as Hgo.
  { intros Hn. pose proof (lookup_answers _ cert_id (pr_preferred_sig_algs parsed) Hr) as Hk.
    rewrite Hk. cbn [mbind option_bind]. destruct (head (omap _ _)) as [result|].
    - by apply answer_hit_answered.
    - eexists. split; [done|]. by apply answer_miss_answered. }
  destruct (pr_nonce parsed) as [nonce|] eqn:En; cbn [fmap option_fmap option_map]; [|by apply Hgo].
  destruct (validate_nonce nonce) eqn:Ev; [| |eexists; split; [done|unsigned]];
    apply Hgo; intros ? [= <-]; apply nonce_length; by rewrite Ev.
Qed.

Lemma process_request_total state der clock :
  routes (ap_scope_map state) ->
  exists r, process_request state der clock = Some r /\ answered state der clock r.
Proof.
  intros Hr. unfold process_request.
  destruct (process_request_answered state der clock Hr) as (a & -> & H). by exists a.1.1.
Qed.


Lemma read_body_spec body chunks :
  match read_body body chunks with
  | Ok b => (exists parts, chunks = Ok <$> parts /\ b = body ++ concat parts) /\
            (len body <= MAX_FORWARD_RESPONSE -> len b <= MAX_FORWARD_RESPONSE)
  | Err status => status = INTERNAL_ERROR \/ status = TRY_LATER
  end.
Proof.
  revert body. induction chunks as [|[chunk|e] chunks IH]; intros body; cbn [read_body].
  - split; [by exists []; rewrite app_nil_r|done].
  - destruct (N.ltb_spec (saturating_sub MAX_FORWARD_RESPONSE (len body)) (len chunk)); [by left|].
    specialize (IH (body ++ chunk)). destruct (read_body (body ++ chunk) chunks); [|done].
    destruct IH as [(parts & -> & ->) Hlen]. split.
    + exists (chunk :: parts). cbn. by rewrite app_assoc.
    + intros Hb. apply Hlen. rewrite len_app. unfold saturating_sub in *. lia.
  - by right.
Qed.

(** A forwarded request leaves only over https, or over http where the CA
    explicitly allows it; what comes back is passed on only if it is a
    successful OCSP response that arrived completely and is at most 65536 bytes
    long, and it is never cacheable; anything else becomes an error response. *)
Theorem forward_request_safe client url der allow_insecure :
  forward_request client url der allow_insecure = ocsp_error_response INTERNAL_ERROR \/
  (exists scheme, url_scheme url = Some scheme /\
     (scheme = "https"%string \/ (allow_insecure = true /\ scheme = "http"%string))) /\
  (forward_request client url der allow_insecure = ocsp_error_response TRY_LATER \/
   exists up parts, client_post client url der = Ok up /\ up_success up = true /\
     (exists ct, up_content_type up = Some ct /\ media_type_is CONTENT_TYPE_OCSP_RESPONSE ct = true) /\
     up_chunks up = Ok <$> parts /\ len (concat parts) <= MAX_FORWARD_RESPONSE /\
     forward_request client url der allow_insecure = live_response (concat parts)).
Proof.
  unfold forward_request, forward_permitted. destruct (url_scheme url) as [scheme|]; [|by left]. cbn.
  destruct (String.eqb scheme "https" || allow_insecure && String.eqb scheme "http") eqn:Ep; cbn; [|by left].
  assert (scheme = "https"%string \/ (allow_insecure = true /\ scheme = "http"%string)) as Hs.
  { apply orb_prop in Ep as [->%String.eqb_eq|[-> ->%String.eqb_eq]%andb_prop]; auto. }
  destruct (client_post client url der) as [up|]; [|right; eauto].
  destruct (up_success up) eqn:Es; cbn; [|right; eauto].
  destruct (up_content_type up) as [ct|] eqn:Ect; cbn; [|right; eauto].
  destruct (media_type_is _ ct) eqn:Em; cbn; [|right; eauto].
  destruct (from_option _ false (up_content_length up)); [by left|].
  pose proof (read_body_spec [] (up_chunks up)) as Hb.
  destruct (read_body [] (up_chunks up)) as [body|status].
  - destruct Hb as [(parts & Hc & ->) Hlen]. right. split; [eauto|]. right.
    exists up, parts. split_and!; try done; [by exists ct|]. by apply Hlen.
  - destruct Hb as [->| ->]; [by left|]. right. eauto.
Qed.
End handler_props.

(** ** Witnesses *)

Module ToyHttp.
Definition certid : CertId := mkCertId "2.16.840.1.101.3.4.2.1" None [x01] [x02] [x07].
Definition certid_der : bytes := [x30; x01].

#[export] Instance ocsp_crates : OcspCrates := {
  ocsp_request_from_der _ := Ok (mkTbsRequest [certid] None);
  certid_to_der _ := Ok certid_der;
  octet_string_from_der b := Ok b;
  preferred_algs_from_der _ := Ok [];
  percent_decode_utf8 s := Ok s;
  base64_decode s := Ok (String.list_byte_of_string s);
}.
#[export] Instance live_signing : LiveSigning := {
  LiveSignerKey := unit;
  extract_status_for_cert _ _ := Err NoCert;
  sign_live_response_with_window _ _ _ _ _ _ _ _ _ := Err NoCert;
}.
#[export] Instance http_client : HttpClient := {
  Client := unit;
  url_scheme _ := None;
  client_post _ _ _ := Err "unreachable"%string;
}.

Definition bundle : Bundle :=
  @Builder.built Toy.crates
    (Builder.add_entry (Builder.new (served_manifest 6)) (Toy.digest certid_der) [x0a; x0b; x0c]) [].
Definition scope_map : ScopeMap :=
  mkScopeMap {[ ([x01], [x02]) := [ca_entry (ca_defaults "alpha") 0] ]} [bundle].
Definition state : @AppState live_signing http_client := mkAppState scope_map edge_config ∅ ∅.

Lemma scope_map_routes : routes scope_map.
Proof.
  intros key es e Hk. cbn [scope_map sm_entries] in Hk. apply lookup_singleton_Some in Hk as [<- <-].
  intros [->|?%not_elem_of_nil]%elem_of_cons; [|done].
  exists bundle, (mkCaScope [x60; x86] [x01] [x02] 6 (mkResponderId ByKey [xaa]) None [x2a]
    AuthoritativeComplete).
  split_and!; [reflexivity|left|reflexivity].
Qed.
End ToyHttp.

