(* ===== verification/Live.v ===== *)
(** * Live: re-signing a stored response with the client's nonce
    (hoike-sign/src/live.rs)

    The implementation of the signing interface the handlers call.  Main results:
    a live response repeats the stored status of exactly the requested CertID,
    carries the nonce, and is valid neither outside the stored response's
    validity nor outside the responder certificate's. *)

From stdpp Require Import base tactics list gmap strings.
From Stdlib Require Import NArith Lia.
From S2P Require Import Prelude Crates AhuError Manifest CoreError Config Request Router Handlers.
From S2P Require Import SignError Times SignCrates.
Local Open Scope N_scope.

Section live.
Context {SG : SignCrates}.

(** The part of [sign_live_response_with_window] that translates the status. *)
Definition ocsp_status (status : LiveCertStatus) : sign_result CertStatus :=
  match status with
  | Good => Ok OcspGood
  | Unknown => Ok OcspUnknown
  | Revoked revocation_time reason =>
      t ← ocsp_time revocation_time;
      Ok (OcspRevoked t reason)
  end.

(** The expiry, capped by the responder certificate's. *)
Definition capped_next_update (now source_next_update : N) (responder_cert_der : option bytes) :
    sign_result N :=
  match responder_cert_der with
  | Some b =>
      cert ← der_of (x509_from_der b);
      let before := to_unix_duration (xc_not_before cert) in
      let after := to_unix_duration (xc_not_after cert) in
      if (now <? before) || (after <=? now)
      then Err (SignConfig "responder certificate is not currently valid")
      else Ok (N.min source_next_update after)
  | None => Ok source_next_update
  end.

(** [sign_live_response_with_window]. *)
Definition sign_with_window (cert_id_der : bytes) (status : LiveCertStatus) (nonce_bytes : bytes)
    (responder_key_bytes : bytes) (signer : OcspSigner)
    (now source_this_update source_next_update : N) (responder_cert_der : option bytes) :
    sign_result bytes :=
  if (now <? source_this_update) || (source_next_update <=? now) ||
     (source_next_update <=? source_this_update)
  then Err (SignConfig "live source is not currently valid") else
  next_update_epoch ← capped_next_update now source_next_update responder_cert_der;
  cert_id ← der_of (certid_from_der cert_id_der);
  cert_status ← ocsp_status status;
  this_update ← ocsp_time source_this_update;
  next_update ← ocsp_time next_update_epoch;
  produced_at ← ocsp_time now;
  let single := mkSingleResponse cert_id cert_status this_update (Some next_update) in
  responder_id ← OcspByKey <$> der_of (octet_string_new (sha1 responder_key_bytes));
  nonce ← der_of (nonce_new nonce_bytes);
  certs ← match responder_cert_der with
          | Some c => Some <$> der_of (x509_from_der c)
          | None => Ok None
          end;
  ocsp_response ← map_err OcspBuilder
    (ocsp_sign signer (mkResponseData responder_id produced_at [single] (Some nonce)) certs);
  der_of (ocsp_response_to_der ocsp_response).

Definition generalized_time_to_epoch (t : DateTime) : N := to_unix_duration t.

Definition parse_basic (response_der : bytes) : sign_result ResponseData :=
  response ← der_of (ocsp_response_from_der response_der);
  ensure (or_successful response) (OcspBuilder "source OCSP response was not successful") ;;
  b ← ok_or (or_response_bytes response) (OcspBuilder "missing responseBytes");
  ensure (String.eqb (rb_response_type b) "1.3.6.1.5.5.7.48.1.1")
    (OcspBuilder "unsupported response type") ;;
  der_of (basic_response_from_der (rb_response b)).

Definition status_from_single (single : SingleResponse) : LiveCertStatus :=
  match sr_cert_status single with
  | OcspGood => Good
  | OcspUnknown => Unknown
  | OcspRevoked t reason => Revoked (generalized_time_to_epoch t) reason
  end.

(** [extract_status_for_cert]. *)
Definition status_for_cert (response_der cert_id_der : bytes) : sign_result LiveResponseSource :=
  requested ← der_of (certid_from_der cert_id_der);
  basic ← parse_basic response_der;
  match filter (fun r => sr_cert_id r = requested) (rd_responses basic) with
  | [] => Err (OcspBuilder "requested CertID absent from response")
  | [single] =>
      next ← ok_or (sr_next_update single) (OcspBuilder "live source requires nextUpdate");
      Ok (mkLiveResponseSource (status_from_single single)
            (generalized_time_to_epoch (sr_this_update single)) (generalized_time_to_epoch next))
  | _ => Err (OcspBuilder "ambiguous duplicate CertID in response")
  end.

(** Diagnostic API. *)
Definition extract_status_from_response (response_der : bytes) : sign_result LiveCertStatus :=
  basic ← parse_basic response_der;
  match rd_responses basic with
  | [single] => Ok (status_from_single single)
  | _ => Err (OcspBuilder "CertID required for a batched response")
  end.

(** What the handlers are given. *)
#[export] Instance live_signing : LiveSigning := {
  LiveSignerKey := OcspSigner;
  extract_status_for_cert := status_for_cert;
  sign_live_response_with_window := sign_with_window;
}.
End live.

(** ** Properties *)

Section live_props.
Context {SG : SignCrates} {SS : SignCratesSpec SG}.

(** The data a live response is signed over. *)
Definition live_data (cert_id : CertId) (cert_status : CertStatus) (key_bytes nonce : bytes)
    (now this next : N) : ResponseData :=
  mkResponseData (OcspByKey (sha1 key_bytes)) (civil now)
    [mkSingleResponse cert_id cert_status (civil this) (Some (civil next))] (Some nonce).

Lemma ocsp_time_civil n : n < END_SECS -> ocsp_time n = Ok (civil n).
Proof. intros. unfold ocsp_time. by rewrite epoch_to_datetime_civil. Qed.

Lemma epoch_of_civil n : n < END_SECS -> generalized_time_to_epoch (civil n) = n.
Proof.
  intros. unfold generalized_time_to_epoch. rewrite unix_duration_civil by (by apply civil_wf).
  apply datetime_to_epoch_civil.
Qed.

(** The validity of the responder certificate. *)
Definition responder_valid (cert_der : option bytes) (now next : N) : Prop :=
  forall b, cert_der = Some b -> exists cert, x509_from_der b = Ok cert /\
    to_unix_duration (xc_not_before cert) <= now /\ next <= to_unix_duration (xc_not_after cert).

Lemma capped_next_update_Ok now source_next cert_der n :
  capped_next_update now source_next cert_der = Ok n -> now < source_next ->
  now < n <= source_next /\ responder_valid cert_der now n.
Proof.
  unfold capped_next_update, responder_valid. destruct cert_der as [b|].
  - intros (cert & Hc%map_err_Ok & H)%bind_Ok Hn.
    destruct (N.ltb_spec now (to_unix_duration (xc_not_before cert))); [done|].
    destruct (N.leb_spec (to_unix_duration (xc_not_after cert)) now); [done|].
    injection H as <-. split; [lia|]. intros ? [= <-]. exists cert. split_and!; [done|lia|lia].
  - intros [= <-] Hn. split; [lia|done].
Qed.

Lemma sign_with_window_Ok cid_der status nonce kb signer now this next cert_der der :
  next < END_SECS ->
  sign_with_window cid_der status nonce kb signer now this next cert_der = Ok der ->
  this <= now < next /\ exists cid st n,
    certid_from_der cid_der = Ok cid /\ ocsp_status status = Ok st /\
    now < n <= next /\ responder_valid cert_der now n /\
    decodes_to der (live_data cid st kb nonce now this n).
Proof.
  intros Hend. unfold sign_with_window.
  destruct (N.ltb_spec now this); [done|]. destruct (N.leb_spec next now); [done|].
  destruct (N.leb_spec next this); [done|]. cbn [orb]. intros Hs. split; [lia|]. inv_ok.
  rename select (capped_next_update _ _ _ = _) into Hcap. rename select (now < next) into Hlt.
  destruct (capped_next_update_Ok _ _ _ _ Hcap Hlt) as [Hn Hr].
  rename select (OcspByKey <$> _ = _) into Hrid. apply fmap_Ok in Hrid as (kh & Hrid%map_err_Ok & ->).
  apply octet_string_new_Ok in Hrid as ->.
  unfold der_of in *. inv_ok. rename select (nonce_new _ = _) into Hno. apply nonce_new_Ok in Hno as ->.
  exists v0, v1, v. split_and!; try done; try lia.
  repeat match goal with E : ocsp_time _ = Ok _ |- _ => rewrite ocsp_time_civil in E by lia end.
  inv_ok. eapply ocsp_sign_decodes; done.
Qed.

(** Where a live status comes from. *)
Definition sole_match (data : ResponseData) (cid : CertId) (single : SingleResponse) : Prop :=
  filter (fun r => sr_cert_id r = cid) (rd_responses data) = [single].

Lemma parse_basic_Ok der data : parse_basic der = Ok data <-> decodes_to der data.
Proof.
  unfold parse_basic, decodes_to, der_of. split.
  - intros ([suc rb] & Hr%map_err_Ok & ([] & Hs%ensure_Ok & ([ty b] & Hb%ok_or_Ok & ([] &
      He%ensure_Ok & Hd%map_err_Ok)%bind_Ok)%bind_Ok)%bind_Ok)%bind_Ok.
    apply String.eqb_eq in He. cbn in *. subst. eauto.
  - intros (b & -> & Hb). cbn. by rewrite Hb.
Qed.

Lemma status_for_cert_Ok der cid_der src :
  status_for_cert der cid_der = Ok src <->
  exists cid data single next, certid_from_der cid_der = Ok cid /\ decodes_to der data /\
    sole_match data cid single /\ sr_next_update single = Some next /\
    src = mkLiveResponseSource (status_from_single single)
            (generalized_time_to_epoch (sr_this_update single)) (generalized_time_to_epoch next).
Proof.
  unfold status_for_cert, sole_match. split.
  - intros (cid & Hc%map_err_Ok & (data & Hd%parse_basic_Ok & H)%bind_Ok)%bind_Ok.
    destruct (filter _ _) as [|single [|]] eqn:E; [done| |done]. inv_ok.
    eexists cid, data, single, _. done.
  - intros (cid & data & single & next & -> & Hd%parse_basic_Ok & Hm & Hn & ->). cbn.
    rewrite Hd. cbn. rewrite Hm. cbn. by rewrite Hn.
Qed.

Lemma sole_match_dates data cid single next :
  Forall DateTime_wf (data_dates data) -> sole_match data cid single ->
  sr_next_update single = Some next ->
  DateTime_wf (sr_this_update single) /\ DateTime_wf next /\
  (forall t r, sr_cert_status single = OcspRevoked t r -> DateTime_wf t).
Proof.
  intros Hf Hm Hn.
  assert (single ∈ rd_responses data) as Hin.
  { assert (single ∈ filter (fun r => sr_cert_id r = cid) (rd_responses data)) as Hs
      by (rewrite Hm; left). by apply list_elem_of_filter in Hs as [_ ?]. }
  assert (Forall DateTime_wf (single_dates single)) as Hs.
  { rewrite Forall_forall in *. intros dt Hdt. apply Hf. right. apply list_elem_of_join.
    exists (single_dates single). split; [done|]. by apply list_elem_of_fmap_2. }
  unfold single_dates in Hs. rewrite Hn in Hs. destruct (sr_cert_status single);
    decompose_Forall_hyps; split_and!; try done. by intros ?? [= <- <-].
Qed.

Lemma decoded_dates der data : decodes_to der data -> Forall DateTime_wf (data_dates data).
Proof. intros (b & _ & Hb). by eapply basic_response_dates. Qed.

Lemma epoch_of_lt dt : DateTime_wf dt -> generalized_time_to_epoch dt < END_SECS.
Proof.
  intros Hd. unfold generalized_time_to_epoch. rewrite unix_duration_civil by done.
  by apply datetime_to_epoch_lt.
Qed.

(** The status survives being signed again. *)
Lemma ocsp_status_back single st t n :
  (forall t r, sr_cert_status single = OcspRevoked t r -> DateTime_wf t) ->
  ocsp_status (status_from_single single) = Ok st ->
  status_from_single (mkSingleResponse (sr_cert_id single) st t n) = status_from_single single.
Proof.
  unfold status_from_single.
  destruct (sr_cert_status single) as [|rt r|]; cbn [ocsp_status sr_cert_status]; intros Hd H.
  - by injection H as <-.
  - pose proof (epoch_of_lt rt (Hd rt r eq_refl)) as Hlt.
    rewrite ocsp_time_civil in H by done. injection H as <-. by rewrite epoch_of_civil.
  - by injection H as <-.
Qed.

(** [response] repeats, with the nonce, the one entry of [stored] that answers for
    the CertID: same status, same thisUpdate, an expiry after [now], no later than
    the entry's, than [limit] and than the responder certificate's. *)
Definition repeats (stored cid_der nonce response key_bytes : bytes) (cert_der : option bytes)
    (now limit : N) : Prop :=
  exists cid data single expiry st n,
    certid_from_der cid_der = Ok cid /\ decodes_to stored data /\ sole_match data cid single /\
    sr_next_update single = Some expiry /\
    let this := generalized_time_to_epoch (sr_this_update single) in
    decodes_to response (live_data cid st key_bytes nonce now this n) /\
    status_from_single (mkSingleResponse cid st (civil this) (Some (civil n))) =
      status_from_single single /\
    this <= now /\ now < n <= generalized_time_to_epoch expiry /\ n <= limit /\
    responder_valid cert_der now n.

Lemma resign_repeats stored cid_der nonce src kb signer now limit cert_der response :
  status_for_cert stored cid_der = Ok src ->
  sign_with_window cid_der (ls_status src) nonce kb signer now (ls_this_update src)
    (N.min (ls_next_update src) limit) cert_der = Ok response ->
  repeats stored cid_der nonce response kb cert_der now limit.
Proof.
  intros (cid & data & single & expiry & Hc & Hd & Hm & He & ->)%status_for_cert_Ok Hs.
  destruct (sole_match_dates _ _ _ _ (decoded_dates _ _ Hd) Hm He) as (Hw1 & Hw2 & Hw3).
  pose proof (epoch_of_lt _ Hw2) as Hlt. cbn [ls_status ls_this_update ls_next_update] in Hs.
  apply sign_with_window_Ok in Hs as (Hnow & cid' & st & n & Hc' & Hst & Hn & Hr & Hdec); [|lia].
  rewrite Hc in Hc'. injection Hc' as <-.
  exists cid, data, single, expiry, st, n. cbv zeta. split_and!; try done; try lia.
  exact (ocsp_status_back single st (civil (generalized_time_to_epoch (sr_this_update single)))
    (Some (civil n)) Hw3 Hst).
Qed.

(** Re-signing never invents or extends a status.  A live response made from a
    stored one decodes to a single entry for the requested CertID with the
    client's nonce; its status and thisUpdate are those of the only entry of the
    stored response for that CertID, and it expires after the time of signing,
    not later than that entry, than the limit the handler sets, or than the
    responder certificate, which is valid at that time.  Read back by the same
    code, it yields the same status. *)
Theorem live_resign_faithful stored cid_der nonce src kb signer now limit cert_der response :
  status_for_cert stored cid_der = Ok src ->
  sign_with_window cid_der (ls_status src) nonce kb signer now (ls_this_update src)
    (N.min (ls_next_update src) limit) cert_der = Ok response ->
  repeats stored cid_der nonce response kb cert_der now limit /\
  exists src', status_for_cert response cid_der = Ok src' /\ ls_status src' = ls_status src /\
    ls_this_update src' = ls_this_update src /\ now < ls_next_update src' <= ls_next_update src.
Proof.
  intros Hsrc Hs. pose proof (resign_repeats _ _ _ _ _ _ _ _ _ _ Hsrc Hs) as Hrep. split; [done|].
  destruct Hrep as (cid & data & single & expiry & st & n & Hc & Hd & Hm & He & Hdec & Hst & Hthis &
    Hn & _ & _).
  apply status_for_cert_Ok in Hsrc as (? & ? & ? & ? & Hc2 & Hd2 & Hm2 & He2 & ->).
  assert (Hdata : x0 = data).
  { apply parse_basic_Ok in Hd, Hd2. congruence. }
  rewrite Hc in Hc2. injection Hc2 as <-. subst x0. unfold sole_match in Hm, Hm2.
  rewrite Hm in Hm2. injection Hm2 as <-. rewrite He in He2. injection He2 as <-.
  destruct (sole_match_dates _ _ _ _ (decoded_dates _ _ Hd) Hm He) as (Hw1 & Hw2 & _).
  pose proof (epoch_of_lt _ Hw1). pose proof (epoch_of_lt _ Hw2).
  eexists. split.
  - apply status_for_cert_Ok.
    eexists cid, _, (mkSingleResponse cid st (civil _) (Some (civil n))), (civil n).
    split; [done|]. split; [exact Hdec|]. split; [|done].
    unfold sole_match, live_data. cbn [rd_responses]. by rewrite filter_cons_True, filter_nil.
  - cbn [ls_status ls_this_update ls_next_update sr_this_update]. rewrite !epoch_of_civil by lia.
    split_and!; [exact Hst|done|lia|lia].
Qed.
End live_props.

(** ** Answers of the server *)

Section live_answers.
Context {CR : Crates} {OC : OcspCrates} {SG : SignCrates} {SS : SignCratesSpec SG} {HC : HttpClient}.

Lemma answer_live_repeats (state : AppState) cert_id nonce result now response ca :
  answer_live state cert_id nonce result now = (response, ca, "live"%string) ->
  ca = lr_ca_label result /\ exists live, ap_live_signers state !! ca = Some live /\
    repeats (lr_response_bytes result) (pc_certid_der cert_id) nonce (rsp_body response)
      (lv_responder_key_bytes live) (lv_responder_cert_der live) now
      (N.min (w_next_update_min (lr_window result)) (saturating_add now (lv_validity_secs live))).
Proof.
  unfold answer_live. destruct (ap_live_signers state !! _) as [live|] eqn:El; [|done].
  destruct (extract_status_for_cert _ _) as [src|] eqn:Es; [|done].
  rewrite <- N.min_assoc.
  destruct (sign_live_response_with_window _ _ _ _ _ _ _ _ _) as [der|] eqn:Ed; [|done].
  intros [= <- <-]. split; [done|]. exists live. split; [done|].
  exact (resign_repeats _ _ _ _ _ _ _ _ _ _ Es Ed).
Qed.

End live_answers.

(** ** Witnesses *)

Module ToyLive.
Import ToySign.
Definition cid : CertId := mkCertId "2.16.840.1.101.3.4.2.1" None [x01] [x02] [x07].
Definition cid_der : bytes := Eval vm_compute in ToySign.enc cid.
Definition nonce : bytes := replicate 16 xee.

(** Every request asks for [cid] with [nonce]. *)
#[export] Instance ocsp : OcspCrates := {
  ocsp_request_from_der _ := Ok (mkTbsRequest [cid] (Some [mkExtension ID_PKIX_OCSP_NONCE nonce]));
  certid_to_der c := Ok (ToySign.enc c);
  octet_string_from_der b := Ok b;
  preferred_algs_from_der _ := Ok [];
  percent_decode_utf8 s := Ok s;
  base64_decode s := Ok (String.list_byte_of_string s);
}.

Definition stored : bytes :=
  Eval vm_compute in ToySign.enc (mkSigned (mkResponseData (OcspByKey [xaa]) (civil 100)
    [mkSingleResponse cid (OcspRevoked (civil 50) (Some KeyCompromise)) (civil 100)
       (Some (civil 185))] None) "1.2.840.10045.4.3.2" [x05] None).
Definition bundle : Bundle.Bundle :=
  Eval vm_compute in @Builder.built Toy.crates
    (Builder.add_entry (Builder.new (Admission.served_manifest 6)) (Toy.digest cid_der) stored) [].
Definition entry : ScopeEntry :=
  mkScopeEntry 0 "alpha" "live" "partial" None f64_half.
Definition scope_map : ScopeMap := mkScopeMap {[ ([x01], [x02]) := [entry] ]} [bundle].
Definition state : @AppState (@live_signing ToySign.crates) ToyHttp.http_client :=
  @mkAppState (@live_signing ToySign.crates) ToyHttp.http_client scope_map edge_config
    {[ "alpha"%string := mkLiveSignerState ToySign.signer [x04; x05] 60 None ]} ∅.
Definition run : option (Response * string * string) :=
  @process_request_inner Toy.crates ocsp (@live_signing ToySign.crates) ToyHttp.http_client state
    [x30] (fun _ => 150).
Lemma run_live : (fun a => (a.1.2, a.2)) <$> run = Some ("alpha", "live")%string.
Proof. vm_compute. reflexivity. Qed.
Lemma run_Some : exists response, run = Some (response, "alpha", "live")%string.
Proof.
  pose proof run_live as H. revert H. generalize run. intros [[[r c] s]|]; [|discriminate].
  intros [= -> ->]. by exists r.
Qed.

Definition source : LiveResponseSource :=
  Eval vm_compute in match @status_for_cert ToySign.crates stored cid_der with
                     | Ok s => s | Err _ => mkLiveResponseSource Good 0 0 end.
End ToyLive.


Lemma live_resign_faithful_witness :
  exists response, @sign_with_window ToySign.crates ToyLive.cid_der
      (ls_status ToyLive.source) ToyLive.nonce [x04; x05] ToySign.signer 150 (ls_this_update ToyLive.source)
      (N.min (ls_next_update ToyLive.source) 180) None = Ok response /\
    @repeats ToySign.crates ToyLive.stored ToyLive.cid_der ToyLive.nonce response
      [x04; x05] None 150 180.
Proof.
  eexists. split; [vm_compute; reflexivity|].
  apply (@live_resign_faithful ToySign.crates ToySign.crates_spec ToyLive.stored
    ToyLive.cid_der ToyLive.nonce ToyLive.source [x04; x05] ToySign.signer 150 180 None);
    vm_compute; reflexivity.
Defined.
