(* ===== verification/Gossip.v ===== *)
(** * Gossip: authenticated broadcasts (hoike-gossip/src/config.rs, crypto.rs, broadcast.rs)

    The signed frames that announce new bundles between nodes, the policy that
    admits them, the loading of the keys and the handler that filters what
    arrives.  Ed25519 and JSON are interfaces.  Main results: exactly the
    authentic frames are accepted; whatever sequence of packets arrives, the
    handler's tables and queue stay bounded and everything queued was signed for
    the origin it claims (in required mode); an announcement of a provisioned
    peer is delivered. *)

From stdpp Require Import base tactics list gmap strings.
From Stdlib Require Import NArith Lia.
From S2P Require Import Prelude Slices Crates Text CoreError Storage Config SignCrates.
Local Open Scope N_scope.

(** ** Messages (broadcast.rs) *)

Inductive GossipMessage :=
| GenerationAnnouncement (producer_id : string) (issuer_key_hash : bytes) (epoch : N)
    (manifest_digest : bytes) (bundle_url : option string) (origin_node : string)
| UrgentRevocation (producer_id : string) (issuer_key_hash : bytes) (epoch : N)
    (origin_node : string).
#[export] Instance GossipMessage_eq_dec : EqDecision GossipMessage.
Proof. solve_decision. Defined.

Definition scope_key (msg : GossipMessage) : string * bytes :=
  match msg with
  | GenerationAnnouncement producer_id issuer_key_hash _ _ _ _
  | UrgentRevocation producer_id issuer_key_hash _ _ => (producer_id, issuer_key_hash)
  end.
Definition message_epoch (msg : GossipMessage) : N :=
  match msg with
  | GenerationAnnouncement _ _ epoch _ _ _ | UrgentRevocation _ _ epoch _ => epoch
  end.
Definition message_origin (msg : GossipMessage) : string :=
  match msg with
  | GenerationAnnouncement _ _ _ _ _ origin_node | UrgentRevocation _ _ _ origin_node => origin_node
  end.

(** [str::len], in bytes. *)
Definition str_len (s : string) : N := N.of_nat (String.length s).

Definition valid_bounds (msg : GossipMessage) : bool :=
  let '(producer, hash) := scope_key msg in
  negb (String.eqb producer "") && (str_len producer <=? 256) &&
  (str_len (message_origin msg) <=? 256) &&
  ((len hash =? 20) || (len hash =? 32)) &&
  match msg with
  | GenerationAnnouncement _ _ _ _ (Some url) _ => str_len url <=? 1024
  | _ => true
  end.

Record BroadcastKey : Type := mkBroadcastKey {
  bk_producer_id : string;
  bk_issuer_key_hash : bytes;
  bk_epoch : N;
}.

Definition invalidates (k other : BroadcastKey) : bool :=
  String.eqb (bk_producer_id k) (bk_producer_id other) &&
  bool_decide (bk_issuer_key_hash k = bk_issuer_key_hash other) &&
  (bk_epoch other <? bk_epoch k).

(** ** Policy (config.rs) *)

Inductive AuthMode := Required | Permissive.
#[export] Instance AuthMode_eq_dec : EqDecision AuthMode.
Proof. solve_decision. Defined.

Inductive GossipCryptoError :=
| GossipIo (e : IoError)
| GossipDecode (reason : string)
| GossipConfigError (reason : string).

Definition auth_mode_from_str (s : string) : result GossipCryptoError AuthMode :=
  if String.eqb s "required" then Ok Required
  else if String.eqb s "permissive" then Ok Permissive
  else Err (GossipConfigError "invalid gossip auth_mode").

Record GossipConfig : Type := mkGossipConfig {
  gg_enabled : bool;
  gg_bind : string;
  gg_seeds : list string;
  gg_node_name : string;
  gg_auth_mode : AuthMode;
  gg_identity_key : option path;
  gg_peer_keys : list path;
  gg_peer_identities : gmap string path;
}.

(** [GossipConfig::default]; [hostname] is the variable of the environment. *)
Definition gossip_default_bind : string := "0.0.0.0:7946".
Definition gossip_default_node_name (hostname : option string) : string :=
  default "hoike-node"%string hostname.
Definition gossip_default (hostname : option string) : GossipConfig :=
  mkGossipConfig false gossip_default_bind [] (gossip_default_node_name hostname) Required None [] ∅.

(** ** Crates *)

Class GossipCrates := {
  EdSigningKey : Type;
  EdKey : Type;
  EdKey_eq_dec :: EqDecision EdKey;
  ed_from_pkcs8_pem : bytes -> result string EdSigningKey;
  ed_from_pkcs8_der : bytes -> result string EdSigningKey;
  ed_from_public_key_pem : bytes -> result string EdKey;
  ed_from_public_key_der : bytes -> result string EdKey;
  ed_verifying_key : EdSigningKey -> EdKey;
  (** [sign(..).to_bytes()] *)
  ed_sign : EdSigningKey -> bytes -> bytes;
  ed_verify : EdKey -> bytes -> bytes -> bool;
  ed_verify_strict : EdKey -> bytes -> bytes -> bool;
  (** [serde_json::to_vec] and [serde_json::from_slice] *)
  gossip_to_vec : GossipMessage -> result string bytes;
  gossip_from_slice : bytes -> result string GossipMessage;
}.

(** ** Frames and keys (crypto.rs) *)

Definition SIGNED_TAG : byte := x01.
Definition SIG_LEN : N := 64.

Section gossip.
Context {GC : GossipCrates}.

Definition load_signing_key (p : path) : io GossipCryptoError EdSigningKey :=
  b ← io_map_err GossipIo (read_file p);
  io_lift (map_err GossipDecode
    (if utf8_valid b && Text.contains (text "-----BEGIN") b then ed_from_pkcs8_pem b
     else ed_from_pkcs8_der b)).

Definition load_verifying_key (p : path) : io GossipCryptoError EdKey :=
  b ← io_map_err GossipIo (read_file p);
  io_lift (map_err GossipDecode
    (if utf8_valid b && Text.contains (text "-----BEGIN") b then ed_from_public_key_pem b
     else ed_from_public_key_der b)).

(** [GossipSigner] is its key. *)
Definition frame (signer : EdSigningKey) (payload : bytes) : bytes :=
  SIGNED_TAG :: ed_sign signer payload ++ payload.

Inductive VerifyOutcome := Accept (payload : bytes) | Reject (reason : string).

Record GossipVerifier : Type := mkGossipVerifier {
  gv_trusted : list EdKey;
  gv_mode : AuthMode;
  gv_identities : list (string * EdKey);
}.

Definition for_identities (identities : list (string * EdKey)) (mode : AuthMode) : GossipVerifier :=
  mkGossipVerifier identities.*2 mode identities.

(** [GossipVerifier::check]; the slice of 64 bytes always converts to an array. *)
Definition check (v : GossipVerifier) (data : bytes) : VerifyOutcome :=
  let unsigned :=
    match gv_mode v with
    | Permissive => Accept data
    | Required => Reject "unsigned message under required-auth policy"
    end in
  match data with
  | [] => unsigned
  | tag :: rest =>
      if bool_decide (tag = SIGNED_TAG) then
        if len data <? 1 + SIG_LEN then Reject "truncated signed frame" else
        let sig := take (N.to_nat SIG_LEN) rest in
        let payload := drop (N.to_nat SIG_LEN) rest in
        if existsb (fun k => ed_verify k payload sig) (gv_trusted v) then
          if bool_decide (gv_identities v = []) then Accept payload else
          match gossip_from_slice payload with
          | Err _ => Reject "invalid signed message"
          | Ok msg =>
              if existsb (fun '(name, key) => String.eqb name (message_origin msg) &&
                                              ed_verify_strict key payload sig) (gv_identities v)
              then Accept payload
              else Reject "signing key not authorized for origin"
          end
        else Reject "no trusted key verified signature"
      else unsigned
  end.

(** The entries of [peer_identities], a [BTreeMap], in its order. *)
Definition named_peers (m : gmap string path) : list (string * path) :=
  sort_by_key (fun kv => text kv.1) bytes_cmp (map_to_list m).

(** The body of the loop over [peer_identities]. *)
Definition load_identity (config : GossipConfig) (signer : option EdSigningKey)
    (identities : list (string * EdKey)) (kv : string * path) :
    io GossipCryptoError (list (string * EdKey)) :=
  let '(name, p) := kv in
  io_lift (ensure (negb (String.eqb name "" || (256 <? str_len name)))
    (GossipConfigError "gossip peer identity names must contain 1..=256 bytes")) ;;
  key ← io_map_err (fun _ => GossipConfigError "gossip.peer_identities") (load_verifying_key p);
  io_lift (ensure
    (negb (String.eqb name (gg_node_name config) &&
           match signer with
           | Some s => negb (bool_decide (ed_verifying_key s = key))
           | None => false
           end))
    (GossipConfigError "gossip.peer_identities maps the local node to a different key")) ;;
  mret (identities ++ [(name, key)]).

Definition load_authentication (config : GossipConfig) :
    io GossipCryptoError (option EdSigningKey * GossipVerifier) :=
  io_lift (ensure (bool_decide (gg_peer_keys config = []))
    (GossipConfigError "gossip.peer_keys is no longer safe")) ;;
  signer ← match gg_identity_key config with
           | Some p =>
               key ← io_map_err (fun _ => GossipConfigError "gossip.identity_key") (load_signing_key p);
               mret (Some key)
           | None => mret None
           end;
  io_lift (ensure (negb (bool_decide (gg_auth_mode config = Required) && bool_decide (signer = None)))
    (GossipConfigError "auth_mode required needs gossip.identity_key")) ;;
  identities ← io_fold (load_identity config signer) [] (named_peers (gg_peer_identities config));
  let identities :=
    match signer with
    | Some s =>
        if existsb (fun '(name, key) => String.eqb name (gg_node_name config) &&
                                        bool_decide (key = ed_verifying_key s)) identities
        then identities else identities ++ [(gg_node_name config, ed_verifying_key s)]
    | None => identities
    end in
  mret (signer, for_identities identities (gg_auth_mode config)).

(** ** The handler (broadcast.rs) *)

(** The sending half of a bounded channel and what it holds. *)
Record Channel : Type := mkChannel {
  ch_capacity : N;
  ch_closed : bool;
  ch_queue : list GossipMessage;
}.
Definition try_send (ch : Channel) (msg : GossipMessage) : result string Channel :=
  if ch_closed ch then Err "channel closed"%string
  else if ch_capacity ch <=? N.of_nat (length (ch_queue ch)) then Err "no available capacity"%string
  else Ok (mkChannel (ch_capacity ch) (ch_closed ch) (ch_queue ch ++ [msg])).

(** Instants are nanoseconds of a monotonic clock. *)
Record HoikeBroadcastHandler : Type := mkHandler {
  bh_tx : Channel;
  bh_verifier : GossipVerifier;
  bh_admitted : gmap (string * bytes) N;
}.
Definition handler_new (tx : Channel) (verifier : GossipVerifier) : HoikeBroadcastHandler :=
  mkHandler tx verifier ∅.

Definition MAX_FRAME : N := 2048.
Definition MAX_SCOPES : N := 4096.
Definition RETENTION_NANOS : N := 3600 * 1000000000.

Definition table_size `{Countable K} {A} (m : gmap K A) : N := N.of_nat (size m).
(** [!m.contains_key(&k) && m.len() >= 4096]. *)
Definition table_full `{Countable K} {A} (m : gmap K A) (k : K) : bool :=
  negb (bool_decide (is_Some (m !! k))) && (MAX_SCOPES <=? table_size m).

(** [BroadcastHandler::receive_item]; [t1] is the instant of the expiry check and
    [t2] the instant of the insertion. *)
Definition receive_item (h : HoikeBroadcastHandler) (t1 t2 : N) (data : bytes) :
    result string (option BroadcastKey) * HoikeBroadcastHandler :=
  if MAX_FRAME <? len data then (Ok None, h) else
  match check (bh_verifier h) data with
  | Reject _ => (Ok None, h)
  | Accept payload =>
      match gossip_from_slice payload with
      | Err e => (Err e, h)
      | Ok msg =>
          if negb (valid_bounds msg) then (Ok None, h) else
          let admitted := filter (fun kv => t1 - kv.2 < RETENTION_NANOS) (bh_admitted h) in
          let scope := scope_key msg in
          if table_full admitted scope then
            (Ok None, mkHandler (bh_tx h) (bh_verifier h) admitted) else
          let admitted := <[scope := t2]> admitted in
          let key := mkBroadcastKey scope.1 scope.2 (message_epoch msg) in
          let tx := match try_send (bh_tx h) msg with Ok tx => tx | Err _ => bh_tx h end in
          (Ok (Some key), mkHandler tx (bh_verifier h) admitted)
      end
  end.
End gossip.

(** ** Documented behaviour of the crates *)

Class GossipCratesSpec (GC : GossipCrates) : Prop := {
  ed_sign_length key m : length (ed_sign key m) = N.to_nat SIG_LEN;
  ed_sign_verifies key m : ed_verify (ed_verifying_key key) m (ed_sign key m) = true;
  ed_sign_verifies_strict key m :
    ed_verify_strict (ed_verifying_key key) m (ed_sign key m) = true;
  gossip_roundtrip msg b : gossip_to_vec msg = Ok b -> gossip_from_slice b = Ok msg;
}.

(** ** Which frames are accepted *)

Section check_props.
Context {GC : GossipCrates}.
Implicit Types (v : GossipVerifier).

(** The signature of a frame binds the payload to the origin it claims. *)
Definition attributed v (payload sig : bytes) : Prop :=
  exists msg key, gossip_from_slice payload = Ok msg /\
    (message_origin msg, key) ∈ gv_identities v /\ ed_verify_strict key payload sig = true.

(** A frame and the payload it delivers. *)
Inductive authentic v : bytes -> bytes -> Prop :=
| authentic_signed sig payload :
    length sig = N.to_nat SIG_LEN ->
    (exists key, key ∈ gv_trusted v /\ ed_verify key payload sig = true) ->
    (gv_identities v <> [] -> attributed v payload sig) ->
    authentic v (SIGNED_TAG :: sig ++ payload) payload
| authentic_unsigned data :
    gv_mode v = Permissive -> head data <> Some SIGNED_TAG -> authentic v data data.

Lemma existsb_elem {A} (f : A -> bool) l : existsb f l = true <-> exists x, x ∈ l /\ f x = true.
Proof. rewrite existsb_exists. by setoid_rewrite list_elem_of_In. Qed.

Lemma check_Accept v data payload : check v data = Accept payload <-> authentic v data payload.
Proof.
  split.
  - destruct data as [|tag rest]; cbn [check].
    { destruct (gv_mode v) eqn:Em; [done|]. intros [= <-]. by constructor. }
    case_bool_decide as Ht.
    2: { destruct (gv_mode v) eqn:Em; [done|]. intros [= <-]. apply authentic_unsigned; [done|].
         cbn. congruence. }
    subst tag. destruct (N.ltb_spec (len (SIGNED_TAG :: rest)) (1 + SIG_LEN)) as [|Hl]; [done|].
    set (n := N.to_nat SIG_LEN). pose proof (take_drop n rest) as Hr.
    assert (length (take n rest) = n) as Hn.
    { rewrite length_take. unfold len in Hl. cbn [length] in Hl. unfold n. lia. }
    revert Hn Hr. generalize (take n rest), (drop n rest). intros sig pl Hn <-. clear Hl.
    destruct (existsb _ _) eqn:Et; [|done].
    apply existsb_elem in Et. case_bool_decide as Hi.
    + intros [= <-]. by apply authentic_signed.
    + destruct (gossip_from_slice pl) as [msg|] eqn:Ej; [|done].
      destruct (existsb (fun '(name, key) => _) _) eqn:Ek; [|done]. intros [= <-].
      apply authentic_signed; [done|done|]. intros _.
      apply existsb_elem in Ek as ([name key] & Hin & [->%String.eqb_eq Hv]%andb_prop).
      by exists msg, key.
  - intros [sig pl Hn Ht Ha|d Hm Hh].
    + unfold check. rewrite bool_decide_eq_true_2 by done.
      destruct (N.ltb_spec (len (SIGNED_TAG :: sig ++ pl)) (1 + SIG_LEN)) as [Hl|_].
      { unfold len in Hl. cbn [length] in Hl. rewrite length_app in Hl. lia. }
      rewrite take_app_length' , drop_app_length' by done.
      destruct (existsb _ _) eqn:Et.
      2: { assert (existsb (fun k => ed_verify k pl sig) (gv_trusted v) = true) by
             (by apply existsb_elem). congruence. }
      case_bool_decide as Hi; [done|]. destruct (Ha Hi) as (msg & key & -> & Hin & Hv).
      destruct (existsb (fun '(name, key) => _) _) eqn:Ek; [done|].
      assert (existsb (fun '(name, key) => String.eqb name (message_origin msg) &&
        ed_verify_strict key pl sig) (gv_identities v) = true); [|congruence].
      apply existsb_elem. eexists. split; [exact Hin|]. cbn. by rewrite String.eqb_refl.
    + destruct d as [|tag d]; cbn in *; rewrite Hm; [done|]. by rewrite bool_decide_eq_false_2 by congruence.
Qed.

(** The verifier accepts exactly the authentic frames.  A frame that starts
    with the tag is accepted if and only if it holds a signature of 64 bytes over
    the payload that a trusted key verifies and (when identities are provisioned)
    that verifies strictly under a key provisioned for the origin the payload
    itself names; whatever else a frame is, it passes unchanged in permissive mode
    and is refused in required mode. *)
Theorem check_exact v data :
  match check v data with
  | Accept payload => authentic v data payload
  | Reject _ => forall payload, ~ authentic v data payload
  end.
Proof.
  destruct (check v data) as [payload|reason] eqn:E; [by apply check_Accept|].
  intros payload Ha%check_Accept. congruence.
Qed.
End check_props.

(** ** Loaded material *)

Section load_props.
Context {GC : GossipCrates}.
Implicit Types (config : GossipConfig) (v : GossipVerifier).

(** The file at [p] holds the public key, as PEM or DER. *)
Definition holds_key (w : World) (p : path) (key : EdKey) : Prop :=
  exists b, w_files w !! p = Some b /\
    (ed_from_public_key_pem b = Ok key \/ ed_from_public_key_der b = Ok key).

Lemma load_verifying_key_Done p w key w' :
  load_verifying_key p w = (Done key, w') -> holds_key w p key /\ same_files w w'.
Proof.
  unfold load_verifying_key. intros H. inv_io. rename select (read_file _ _ = _) into Hr.
  apply read_file_Done in Hr as [Hf Hs]. split; [|done]. eexists. split; [exact Hf|].
  rename select (_ = Ok key) into Hk. case_match; auto.
Qed.

Lemma load_signing_key_reads p : reads_only (load_signing_key p).
Proof. unfold load_signing_key. eauto with hoike. Qed.

(** What the loop has established for the entries [l] it has passed. *)
Record loaded config (signer : option EdSigningKey) (w : World) (l : list (string * path))
    (ids : list (string * EdKey)) : Prop := {
  lo_names : ids.*1 = l.*1;
  lo_entries : Forall2 (fun kv id => holds_key w kv.2 id.2 /\ 1 <= str_len kv.1 <= 256) l ids;
  lo_local : forall s key, signer = Some s -> (gg_node_name config, key) ∈ ids ->
    key = ed_verifying_key s;
}.

Lemma load_identity_Done config signer w0 l ids kv w ids' w' :
  same_files w0 w -> loaded config signer w0 l ids ->
  load_identity config signer ids kv w = (Done ids', w') ->
  same_files w0 w' /\ loaded config signer w0 (l ++ [kv]) ids'.
Proof.
  intros Hs [Hn He Hl] H. destruct kv as [name p]. unfold load_identity in H. inv_io.
  rename select (load_verifying_key _ _ = _) into Hk.
  apply load_verifying_key_Done in Hk as [Hh Hs']. split; [by etrans|].
  rename select (negb (_ || _) = true) into Hb.
  apply negb_true_iff, orb_false_iff in Hb as [Hb1%String.eqb_neq Hb2%N.ltb_ge].
  split.
  - by rewrite !fmap_app, Hn.
  - apply Forall2_app; [done|]. repeat constructor; cbn.
    + destruct Hh as (b & Hb & ?). exists b. destruct Hs as [<- _ _]. done.
    + unfold str_len. destruct name; [done|]. cbn. lia.
    + done.
  - intros s key Hsig [Hin|[= Hname ->]%list_elem_of_singleton]%elem_of_app; [by eapply Hl|].
    rename select (negb (_ && _) = true) into Hc. subst.
    rewrite String.eqb_refl in Hc. cbn in Hc. case_bool_decide; [done|]. done.
Qed.

Lemma load_identities_Done config signer w0 l ids done_ w ids' w' :
  same_files w0 w -> loaded config signer w0 done_ ids ->
  io_fold (load_identity config signer) ids l w = (Done ids', w') ->
  same_files w0 w' /\ loaded config signer w0 (done_ ++ l) ids'.
Proof.
  revert ids done_ w. induction l as [|kv l IH]; intros ids done_ w Hs Hl H; cbn [io_fold] in H.
  - inv_io. by rewrite app_nil_r.
  - apply io_bind_Done in H as (ids1 & w1 & H1 & H).
    destruct (load_identity_Done _ _ _ _ _ _ _ _ _ Hs Hl H1) as [Hs1 Hl1].
    rewrite cons_middle, app_assoc. by eapply IH.
Qed.

Lemma elem_of_named_peers m name p : (name, p) ∈ named_peers m <-> m !! name = Some p.
Proof. unfold named_peers. rewrite sort_by_key_perm. apply elem_of_map_to_list. Qed.

Lemma loaded_entries config signer w m ids :
  loaded config signer w (named_peers m) ids ->
  (forall name p, m !! name = Some p ->
     1 <= str_len name <= 256 /\ exists key, (name, key) ∈ ids /\ holds_key w p key) /\
  (forall name key, (name, key) ∈ ids -> exists p, m !! name = Some p /\ holds_key w p key).
Proof.
  intros [Hn He _].
  assert (forall i n p n' key, named_peers m !! i = Some (n, p) -> ids !! i = Some (n', key) ->
    n' = n) as Hsame.
  { intros i n p n' key Hi Hid. apply (f_equal (lookup i)) in Hn.
    rewrite !list_lookup_fmap, Hi, Hid in Hn. by injection Hn. }
  split.
  - intros name p Hp%elem_of_named_peers. apply list_elem_of_lookup in Hp as [i Hi].
    destruct (Forall2_lookup_l _ _ _ _ _ He Hi) as ([n' key] & Hid & Hh & Hb). split; [done|].
    rewrite <- (Hsame _ _ _ _ _ Hi Hid). exists key. split; [by eapply list_elem_of_lookup_2|done].
  - intros name key Hid. apply list_elem_of_lookup in Hid as [i Hid].
    destruct (Forall2_lookup_r _ _ _ _ _ He Hid) as ([n' p] & Hi & Hh & Hb). exists p.
    rewrite (Hsame _ _ _ _ _ Hi Hid). split; [|done].
    apply elem_of_named_peers. by eapply list_elem_of_lookup_2.
Qed.

(** The local identity is folded in once. *)
Lemma folded_local config (signer : option EdSigningKey) (ids : list (string * EdKey)) :
  let all := match signer with
    | Some s =>
        if existsb (fun '(name, key) => String.eqb name (gg_node_name config) &&
                                        bool_decide (key = ed_verifying_key s)) ids
        then ids else ids ++ [(gg_node_name config, ed_verifying_key s)]
    | None => ids
    end in
  (forall id, id ∈ ids -> id ∈ all) /\
  (forall name key, (name, key) ∈ all -> (name, key) ∈ ids \/
     name = gg_node_name config /\ exists s, signer = Some s /\ key = ed_verifying_key s) /\
  (forall s, signer = Some s -> (gg_node_name config, ed_verifying_key s) ∈ all).
Proof.
  destruct signer as [s|]; cbv zeta; [|by split; [|split; [|done]]; auto].
  destruct (existsb _ ids) eqn:E.
  - split; [done|]. split; [auto|]. intros ? [= <-].
    apply existsb_elem in E as ([name key] & Hin & [->%String.eqb_eq ->%bool_decide_eq_true]%andb_prop).
    done.
  - split; [set_solver|]. split.
    + intros name key [?|[= -> ->]%list_elem_of_singleton]%elem_of_app; [by left|right; eauto].
    + intros ? [= <-]. set_solver.
Qed.

(** The material a node runs with. *)
Record auth_loaded config (w : World) (signer : option EdSigningKey) v : Prop := {
  al_legacy : gg_peer_keys config = [];
  al_mode : gv_mode v = gg_auth_mode config;
  al_required : gg_auth_mode config = Required -> is_Some signer;
  al_trusted : gv_trusted v = (gv_identities v).*2;
  al_peers name p : gg_peer_identities config !! name = Some p ->
    1 <= str_len name <= 256 /\ exists key, (name, key) ∈ gv_identities v /\ holds_key w p key;
  al_only name key : (name, key) ∈ gv_identities v ->
    (exists p, gg_peer_identities config !! name = Some p /\ holds_key w p key) \/
    (name = gg_node_name config /\ exists s, signer = Some s /\ key = ed_verifying_key s);
  al_self s : signer = Some s ->
    (gg_node_name config, ed_verifying_key s) ∈ gv_identities v /\
    forall key, (gg_node_name config, key) ∈ gv_identities v -> key = ed_verifying_key s;
}.

Lemma load_authentication_Done config w signer v w' :
  load_authentication config w = (Done (signer, v), w') ->
  auth_loaded config w signer v /\ same_files w w'.
Proof.
  unfold load_authentication. intros H. apply io_bind_Done in H as ([] & w1 & [Hk ->]%io_lift_Done & H).
  apply ensure_Ok in Hk. apply bool_decide_eq_true in Hk.
  apply io_bind_Done in H as (sg & w2 & Hsg & H).
  assert (same_files w w2) as Hs2.
  { destruct (gg_identity_key config); inv_io; [|done].
    eapply reads_Done; [apply load_signing_key_reads|eassumption]. }
  apply io_bind_Done in H as ([] & w3 & [Hr ->]%io_lift_Done & H).
  apply ensure_Ok, negb_true_iff in Hr.
  apply io_bind_Done in H as (ids & w4 & Hids & H).
  apply (load_identities_Done _ _ w _ _ []) in Hids as [Hs4 Hlo]; [|done|].
  2: { split; [done|constructor|]. by intros ?? _ ?%elem_of_nil. }
  cbn [app] in *. apply io_ret_Done in H as [E ->]. injection E as -> ->. split; [|done].
  destruct (loaded_entries _ _ _ _ _ Hlo) as [Hpeers Honly]. destruct Hlo as [_ _ Hl].
  destruct (folded_local config sg ids) as (H1 & H2 & H3).
  split; cbn [for_identities gv_mode gv_trusted gv_identities]; try done.
  - intros Hm. rewrite Hm in Hr. by destruct sg.
  - intros name p Hp. destruct (Hpeers name p Hp) as (? & key & Hin & ?). eauto 6.
  - intros name key [Hin|Hin]%H2; [left|right]; auto.
  - intros s Hs. split; [by apply H3|]. intros key [Hin|[_ (s' & Hs' & ->)]]%H2; [by eapply Hl|congruence].
Qed.
End load_props.

(** ** Bounded tables *)

Section tables.
Context `{Countable K} {A : Type}.
Implicit Types (m : gmap K A) (k : K).

(** At most 4096 entries, each with an admissible key. *)
Definition table_ok (P : K -> Prop) m : Prop :=
  table_size m <= MAX_SCOPES /\ map_Forall (fun k _ => P k) m.

Lemma table_ok_retain P m (Q : K * A -> Prop) `{!forall x, Decision (Q x)} :
  table_ok P m -> table_ok P (filter Q m).
Proof.
  intros [Hs Hf]. split.
  - unfold table_size in *. pose proof (map_size_filter Q m). lia.
  - intros k a [Hl _]%map_lookup_filter_Some. by eapply Hf.
Qed.

Lemma table_ok_insert P m k a :
  table_ok P m -> P k -> table_full m k = false -> table_ok P (<[k := a]> m).
Proof.
  intros [Hs Hf] Hk Hg. split; [|by apply map_Forall_insert_2].
  unfold table_full, table_size in *. destruct (m !! k) as [t|] eqn:E.
  - by rewrite (map_size_insert_Some k a m) by (by rewrite E).
  - rewrite map_size_insert_None by done. cbn in Hg. apply N.leb_gt in Hg. lia.
Qed.
End tables.

(** ** The handler over any sequence of packets *)

Section handler_props.
Context {GC : GossipCrates}.
Implicit Types (h : HoikeBroadcastHandler) (v : GossipVerifier) (msg : GossipMessage).

(** A packet arrives, or the consumer takes a message off the channel. *)
Inductive handler_step : HoikeBroadcastHandler -> HoikeBroadcastHandler -> Prop :=
| step_receive h t1 t2 data r h' :
    receive_item h t1 t2 data = (r, h') -> handler_step h h'
| step_consume h msg rest :
    ch_queue (bh_tx h) = msg :: rest ->
    handler_step h (mkHandler (mkChannel (ch_capacity (bh_tx h)) (ch_closed (bh_tx h)) rest)
                      (bh_verifier h) (bh_admitted h)).

(** A message that came in an authentic frame of bounded size. *)
Definition delivered v msg : Prop :=
  valid_bounds msg = true /\ exists data payload, len data <= MAX_FRAME /\
    authentic v data payload /\ gossip_from_slice payload = Ok msg.

Definition bounded_scope (scope : string * bytes) : Prop :=
  1 <= str_len scope.1 <= 256 /\ (len scope.2 = 20 \/ len scope.2 = 32).

Record handler_ok v (capacity : N) h : Prop := {
  ho_verifier : bh_verifier h = v;
  ho_capacity : ch_capacity (bh_tx h) = capacity;
  ho_queue : N.of_nat (length (ch_queue (bh_tx h))) <= capacity;
  ho_delivered : Forall (delivered v) (ch_queue (bh_tx h));
  ho_table : table_ok bounded_scope (bh_admitted h);
}.

Lemma valid_bounds_scope msg : valid_bounds msg = true -> bounded_scope (scope_key msg).
Proof.
  unfold valid_bounds, bounded_scope. destruct (scope_key msg) as [p k]. cbn.
  intros [[[[H1 H2]%andb_prop H3]%andb_prop H4]%andb_prop _]%andb_prop.
  apply negb_true_iff, String.eqb_neq in H1. apply N.leb_le in H2.
  apply orb_prop in H4. rewrite !N.eqb_eq in H4. split; [|done].
  unfold str_len in *. destruct p; [done|]. cbn in *. lia.
Qed.

Lemma try_send_ok v capacity ch msg :
  ch_capacity ch = capacity -> N.of_nat (length (ch_queue ch)) <= capacity ->
  Forall (delivered v) (ch_queue ch) -> delivered v msg ->
  let ch' := match try_send ch msg with Ok tx => tx | Err _ => ch end in
  ch_capacity ch' = capacity /\ N.of_nat (length (ch_queue ch')) <= capacity /\
  Forall (delivered v) (ch_queue ch').
Proof.
  intros Hc Hl Hd Hm. unfold try_send. destruct (ch_closed ch); [done|].
  destruct (N.leb_spec (ch_capacity ch) (N.of_nat (length (ch_queue ch)))); [done|]. cbn.
  split; [done|]. split; [rewrite length_app; cbn; lia|]. by apply Forall_app_2; [|constructor].
Qed.

Lemma handler_step_ok v capacity h h' :
  handler_step h h' -> handler_ok v capacity h -> handler_ok v capacity h'.
Proof.
  intros [h0 t1 t2 data r h1 H|h0 msg rest Hq] [Hv Hc Hl Hd Hs].
  - unfold receive_item in H. destruct (N.ltb_spec MAX_FRAME (len data)) as [|Hlen]; [by simplify_eq|].
    destruct (check _ _) as [payload|] eqn:Ec; [|by simplify_eq].
    destruct (gossip_from_slice payload) as [msg|] eqn:Ej; [|by simplify_eq].
    destruct (valid_bounds msg) eqn:Eb; cbn [negb] in H; [|by simplify_eq].
    pose proof (table_ok_retain _ _ (fun kv => t1 - kv.2 < RETENTION_NANOS) Hs) as Hs'.
    destruct (table_full _ _) eqn:Eg; simplify_eq; [by split|].
    assert (delivered (bh_verifier h0) msg) as Hm.
    { split; [done|]. exists data, payload. by rewrite <- check_Accept. }
    destruct (try_send_ok _ _ _ _ eq_refl Hl Hd Hm) as (H1 & H2 & H3).
    split; cbn; try done. apply table_ok_insert; [done|by apply valid_bounds_scope|done].
  - rewrite Hq in Hl, Hd. apply Forall_cons in Hd as [_ Hd]. cbn [length] in Hl.
    split; cbn; try done. lia.
Qed.

Lemma reachable_ok v capacity h :
  rtc handler_step (handler_new (mkChannel capacity false []) v) h -> handler_ok v capacity h.
Proof.
  intros Hr. assert (handler_ok v capacity (handler_new (mkChannel capacity false []) v)) as H0.
  { split; cbn; try done. lia. }
  revert H0. induction Hr as [|h1 h2 h3 Hs _ IH]; [done|]. intros H. by eapply IH, handler_step_ok.
Qed.

(** In required mode, with the keys that were loaded: the message names the
    node whose provisioned key signed it. *)
Lemma delivered_required config w signer v msg :
  auth_loaded config w signer v -> gg_auth_mode config = Required -> delivered v msg ->
  exists sig payload key, authentic v (SIGNED_TAG :: sig ++ payload) payload /\
    gossip_from_slice payload = Ok msg /\ ed_verify_strict key payload sig = true /\
    ((exists p, gg_peer_identities config !! message_origin msg = Some p /\ holds_key w p key) \/
     (message_origin msg = gg_node_name config /\
      exists s, signer = Some s /\ key = ed_verifying_key s)).
Proof.
  intros Ha Hm (_ & data & payload & _ & Hau & Hj). pose proof Hau as Hau'.
  destruct Hau as [sig pl Hn Ht Hat|d Hp _]; [|by rewrite (al_mode _ _ _ _ Ha), Hm in Hp].
  destruct (al_required _ _ _ _ Ha Hm) as [s Hs].
  destruct (al_self _ _ _ _ Ha s Hs) as [Hin _].
  destruct Hat as (msg' & key & Hj' & Hid & Hv); [by intros E; rewrite E in Hin; apply elem_of_nil in Hin|].
  rewrite Hj in Hj'. injection Hj' as <-. exists sig, pl, key. split_and!; try done.
  by apply (al_only _ _ _ _ Ha).
Qed.

(** C18: whatever packets arrive, in whatever order and at whatever times, the
    handler of a node stays within its bounds and lets nothing unauthentic
    through: at most 4096 scopes are remembered, each with a name and hash of
    bounded size; the queue does not exceed the capacity of the channel; every
    queued message is within bounds and came in a frame of at most 2048 bytes
    that the policy accepts; and in required mode it was signed by the key that
    is provisioned for the very node it names as its origin. *)
Theorem handler_bounded_and_authentic config w signer v w' capacity h :
  load_authentication config w = (Done (signer, v), w') ->
  rtc handler_step (handler_new (mkChannel capacity false []) v) h ->
  handler_ok v capacity h /\
  (gg_auth_mode config = Required -> Forall (fun msg =>
     exists sig payload key, gossip_from_slice payload = Ok msg /\
       ed_verify_strict key payload sig = true /\
       ((exists p, gg_peer_identities config !! message_origin msg = Some p /\ holds_key w p key) \/
        (message_origin msg = gg_node_name config /\
         exists s, signer = Some s /\ key = ed_verifying_key s))) (ch_queue (bh_tx h))).
Proof.
  intros [Ha _]%load_authentication_Done Hr.
  pose proof (reachable_ok _ _ _ Hr) as Hok.
  split; [done|]. intros Hm. eapply Forall_impl; [apply Hok|]. intros msg Hd.
  destruct (delivered_required _ _ _ _ _ Ha Hm Hd) as (sig & payload & key & _ & ?). eauto.
Qed.
End handler_props.

(** ** Witness *)

Module ToyGossip.
Import ToySign.

#[export, refine] Instance GossipMessage_codec : Codec GossipMessage := {
  to_val m := match m with
    | GenerationAnnouncement p k e d u o =>
        VArray [to_val p; to_val k; to_val e; to_val d; opt_to_val u; to_val o]
    | UrgentRevocation p k e o => VArray [to_val p; to_val k; to_val e; to_val o]
    end;
  of_val v := match v with
    | VArray [p; k; e; d; u; o] =>
        p ← of_val p; k ← of_val k; e ← of_val e; d ← of_val d; u ← opt_of_val u; o ← of_val o;
        Some (GenerationAnnouncement p k e d u o)
    | VArray [p; k; e; o] =>
        p ← of_val p; k ← of_val k; e ← of_val e; o ← of_val o; Some (UrgentRevocation p k e o)
    | _ => None
    end }.
Proof.
  intros []; do 3 (rewrite of_to_val; cbn [mbind option_bind]).
  - rewrite of_to_val. cbn [mbind option_bind]. rewrite opt_codec. cbn [mbind option_bind].
    by rewrite of_to_val.
  - by rewrite of_to_val.
Defined.

(** A key is a byte; a signature ends with it. *)
Definition signature (k : byte) : bytes := replicate 63 x00 ++ [k].
#[export] Instance crates : GossipCrates := {|
  EdSigningKey := byte;
  EdKey := byte;
  ed_from_pkcs8_pem _ := Err "bad key"%string;
  ed_from_pkcs8_der b := match b with [x] => Ok x | _ => Err "bad key"%string end;
  ed_from_public_key_pem _ := Err "bad key"%string;
  ed_from_public_key_der b := match b with [x] => Ok x | _ => Err "bad key"%string end;
  ed_verifying_key k := k;
  ed_sign k _ := signature k;
  ed_verify k _ s := bool_decide (s = signature k);
  ed_verify_strict k _ s := bool_decide (s = signature k);
  gossip_to_vec m := Ok (enc m);
  gossip_from_slice := dec;
|}.

#[export] Instance crates_spec : GossipCratesSpec crates.
Proof.
  split.
  - done.
  - intros. cbn. by rewrite bool_decide_eq_true_2.
  - intros. cbn. by rewrite bool_decide_eq_true_2.
  - intros msg b [= <-]. apply (codec_dec_enc msg).
Qed.

Definition config : GossipConfig :=
  mkGossipConfig true gossip_default_bind [] "node-a" Required (Some ["a"%string]) []
    {[ "node-b"%string := ["b"%string] ]}.
Definition world : World :=
  set_files (fun _ => {[ ["a"] := [x0a]; ["b"] := [x0b] ]}%string) sample_world.
Definition message : GossipMessage :=
  GenerationAnnouncement "p" (replicate 32 xaa) 7 (replicate 32 xbb) None "node-b".
Definition packet : bytes := @frame crates x0b (enc message).
End ToyGossip.

(** A signed announcement and a forged one arrive; the first is queued. *)
Lemma handler_bounded_and_authentic_witness :
  exists signer v w' h, @load_authentication ToyGossip.crates ToyGossip.config ToyGossip.world
      = (Done (signer, v), w') /\
    ch_queue (bh_tx h) = [ToyGossip.message] /\ @handler_ok ToyGossip.crates v 8 h.
Proof.
  destruct (is_done_inv (@load_authentication ToyGossip.crates ToyGossip.config) ToyGossip.world)
    as ([signer v] & w' & E); [vm_compute; reflexivity|].
  set (h1 := (@receive_item ToyGossip.crates (handler_new (mkChannel 8 false []) v) 0 0
                ToyGossip.packet).2).
  set (h2 := (@receive_item ToyGossip.crates h1 5 5 (x01 :: replicate 80 x00)).2).
  exists signer, v, w', h2. split; [exact E|].
  assert (v = @for_identities ToyGossip.crates [("node-b"%string, x0b); ("node-a"%string, x0a)]
                Required) as Hv.
  { apply (f_equal (fun o => match o.1 with Done a => Some a.2 | _ => None end)) in E.
    cbn [fst snd] in E. apply (inj Some). rewrite <- E. vm_compute. reflexivity. }
  split; [subst h2 h1; rewrite Hv; vm_compute; reflexivity|].
  apply (@handler_bounded_and_authentic ToyGossip.crates _ _ _ _ _ 8 h2 E).
  apply rtc_l with h1; [|apply rtc_once].
  - eapply (step_receive _ 0 0 ToyGossip.packet). unfold h1. apply surjective_pairing.
  - eapply (step_receive _ 5 5 (x01 :: replicate 80 x00)). unfold h2. apply surjective_pairing.
Defined.
