(* ===== verification/GossipNode.v ===== *)
(** * GossipNode: a node of the mesh (hoike-gossip/src/node.rs)

    The node's identity, its start, the announcements it sends and the table of
    generations its peers announced.  The SWIM protocol (foca) and the network
    are interfaces.  Main results: an announcement of a provisioned peer reaches
    the receiver's queue; the table stays bounded, reports only what was
    announced, and within the retention time never lets a peer regress. *)

From stdpp Require Import base tactics list gmap strings relations.
From Stdlib Require Import NArith Lia.
From S2P Require Import Prelude Slices Crates Text CoreError Storage Config SignCrates Gossip.
Local Open Scope N_scope.

(** ** Identities *)

Record NodeId (Addr : Type) : Type := mkNodeId {
  ni_addr : Addr;
  ni_name : string;
  ni_incarnation : N;
}.
Arguments mkNodeId {Addr} _ _ _.
Arguments ni_addr {Addr} _.
Arguments ni_name {Addr} _.
Arguments ni_incarnation {Addr} _.

(** [renew]; the counter is a [u64] that wraps in a release build. *)
Definition renew {Addr} (id : NodeId Addr) : option (NodeId Addr) :=
  Some (mkNodeId (ni_addr id) (ni_name id) ((ni_incarnation id + 1) mod u64_lim)).
Definition win_addr_conflict {Addr} (id adversary : NodeId Addr) : bool :=
  ni_incarnation adversary <? ni_incarnation id.

Inductive MemberState := Alive | Suspect | Down.

Record MemberInfo (Addr : Type) : Type := mkMemberInfo {
  mi_name : string;
  mi_addr : Addr;
  mi_incarnation : N;
  mi_state : MemberState;
  mi_is_self : bool;
}.
Arguments mkMemberInfo {Addr} _ _ _ _ _.
Arguments mi_name {Addr} _.
Arguments mi_is_self {Addr} _.

Record GenRecord : Type := mkGenRecord {
  gr_origin_node : string;
  gr_producer_id : string;
  gr_issuer_key_hash : string;
  gr_epoch : N;
  gr_manifest_digest : string;
  gr_last_seen_unix : N;
}.

(** [(origin node, producer, issuer key hash in hexadecimal)]. *)
Abbreviation GenKey := (string * string * string)%type.

(** ** The network and foca *)

Class GossipNet {GC : GossipCrates} := {
  SocketAddr : Type;
  parse_socket_addr : string -> result string SocketAddr;
  (** [UdpSocket::bind] and [local_addr] *)
  udp_bind : SocketAddr -> io string SocketAddr;
  Foca : Type;
  (** [Foca::with_custom_broadcast], with the seed of its generator *)
  foca_new : NodeId SocketAddr -> N -> HoikeBroadcastHandler -> Foca;
  foca_announce : Foca -> NodeId SocketAddr -> Foca;
  foca_add_broadcast : Foca -> bytes -> result string Foca;
  foca_members : Foca -> list (NodeId SocketAddr * MemberState);
}.

Section node.
Context {CR : Crates} {GC : GossipCrates} {GN : GossipNet}.

Record GossipNode : Type := mkGossipNode {
  gn_foca : Foca;
  gn_config : GossipConfig;
  gn_identity : NodeId SocketAddr;
  gn_generations : gmap GenKey GenRecord;
  gn_signer : option EdSigningKey;
}.
Implicit Types (node : GossipNode).

(** An invalid seed address is skipped. *)
Definition announce_to_seed (foca : Foca) (seed : string) : Foca :=
  match parse_socket_addr seed with
  | Ok addr => foca_announce foca (mkNodeId addr "" 0)
  | Err _ => foca
  end.

(** [GossipNode::start], up to the spawning of its loops. *)
Definition start (config : GossipConfig) (msg_tx : Channel) (rng_seed : N) : io string GossipNode :=
  '(signer, verifier) ← io_map_err (fun _ => "gossip authentication"%string)
                          (load_authentication config);
  bind_addr ← io_lift (map_err (fun _ => "invalid gossip bind address"%string)
                         (parse_socket_addr (gg_bind config)));
  local_addr ← udp_bind bind_addr;
  let identity := mkNodeId local_addr (gg_node_name config) 0 in
  let foca := foca_new identity rng_seed (handler_new msg_tx verifier) in
  mret (mkGossipNode (fold_left announce_to_seed (gg_seeds config) foca) config identity ∅ signer).

(** ** Announcements *)

Definition frame_broadcast node (payload : bytes) : bytes :=
  match gn_signer node with Some signer => frame signer payload | None => payload end.

Definition with_foca node (foca : Foca) : GossipNode :=
  mkGossipNode foca (gn_config node) (gn_identity node) (gn_generations node) (gn_signer node).

(** The bytes both announcements hand to foca. *)
Definition broadcast node (msg : GossipMessage) : result string GossipNode :=
  payload ← gossip_to_vec msg;
  let data := frame_broadcast node payload in
  with_foca node <$> foca_add_broadcast (gn_foca node) data.

Definition announce_generation node (producer_id : string) (issuer_key_hash : bytes) (epoch : N)
    (manifest_digest : bytes) (bundle_url : option string) : result string GossipNode :=
  broadcast node (GenerationAnnouncement producer_id issuer_key_hash epoch manifest_digest
                    bundle_url (ni_name (gn_identity node))).

Definition announce_urgent_revocation node (producer_id : string) (issuer_key_hash : bytes)
    (epoch : N) : result string GossipNode :=
  broadcast node (UrgentRevocation producer_id issuer_key_hash epoch (ni_name (gn_identity node))).

(** ** Members and generations *)

Definition members node : list (MemberInfo SocketAddr) :=
  ((fun '(id, state) => mkMemberInfo (ni_name id) (ni_addr id) (ni_incarnation id) state false)
     <$> foca_members (gn_foca node)) ++
  [mkMemberInfo (ni_name (gn_identity node)) (ni_addr (gn_identity node))
     (ni_incarnation (gn_identity node)) Alive true].

Definition now_unix {E} : io E N := t ← read_clock; mret (default 0 t).

Definition RETENTION_SECS : N := 3600.

(** [table.retain(..)]; the subtraction saturates. *)
Definition retain_recent (now : N) (table : gmap GenKey GenRecord) : gmap GenKey GenRecord :=
  filter (fun kv => now - gr_last_seen_unix kv.2 < RETENTION_SECS) table.

(** What [record_generation] does once it has the time and the table. *)
Definition record_row (table : gmap GenKey GenRecord) (now : N) (key : GenKey) (epoch : N)
    (manifest_digest : bytes) : gmap GenKey GenRecord :=
  let '(origin_node, producer_id, ikh_hex) := key in
  let table := retain_recent now table in
  if table_full table key then table else
  let entry := default (mkGenRecord origin_node producer_id ikh_hex epoch
                          (hex_encode manifest_digest) now) (table !! key) in
  let '(new_epoch, new_digest) :=
    if gr_epoch entry <=? epoch then (epoch, hex_encode manifest_digest)
    else (gr_epoch entry, gr_manifest_digest entry) in
  <[key := mkGenRecord (gr_origin_node entry) (gr_producer_id entry) (gr_issuer_key_hash entry)
             new_epoch new_digest now]> table.

Definition with_generations node (table : gmap GenKey GenRecord) : GossipNode :=
  mkGossipNode (gn_foca node) (gn_config node) (gn_identity node) table (gn_signer node).

Definition record_generation node (msg : GossipMessage) : io string GossipNode :=
  match msg with
  | UrgentRevocation _ _ _ _ => mret node
  | GenerationAnnouncement producer_id issuer_key_hash epoch manifest_digest _ origin_node =>
      if negb (valid_bounds msg) then mret node else
      now ← now_unix;
      mret (with_generations node
        (record_row (gn_generations node) now
           (origin_node, producer_id, hex_encode issuer_key_hash) epoch manifest_digest))
  end.

Definition generations node : io string (list GenRecord * GossipNode) :=
  now ← now_unix;
  let table := retain_recent now (gn_generations node) in
  mret ((map_to_list table).*2, with_generations node table).
End node.

(** ** Identities *)

Lemma renew_wins {Addr} (id : NodeId Addr) :
  ni_incarnation id + 1 < u64_lim ->
  exists id', renew id = Some id' /\ ni_addr id' = ni_addr id /\ ni_name id' = ni_name id /\
    win_addr_conflict id' id = true /\ win_addr_conflict id id' = false.
Proof.
  intros H. eexists. split; [done|]. cbn. rewrite N.mod_small by done.
  unfold win_addr_conflict. cbn. split_and!; try done; [apply N.ltb_lt|apply N.ltb_ge]; lia.
Qed.

(** ** Delivery *)

Section delivery.
Context {CR : Crates} {GC : GossipCrates} {GN : GossipNet} {GS : GossipCratesSpec GC}.
Implicit Types (node : GossipNode) (msg : GossipMessage).

Lemma start_Done config tx rng w node w' :
  start config tx rng w = (Done node, w') ->
  exists v, auth_loaded config w (gn_signer node) v /\ gn_config node = config /\
    ni_name (gn_identity node) = gg_node_name config /\ gn_generations node = ∅.
Proof.
  unfold start. intros H. apply io_bind_Done in H as ([signer v] & w1 & Ha%io_map_err_Done & H).
  apply load_authentication_Done in Ha as [Ha _]. inv_io. by exists v.
Qed.

(** A signed frame is accepted by whoever provisioned the signer's key. *)
Lemma frame_accepted config w signer v s payload msg :
  auth_loaded config w signer v -> (message_origin msg, ed_verifying_key s) ∈ gv_identities v ->
  gossip_from_slice payload = Ok msg -> check v (frame s payload) = Accept payload.
Proof.
  intros Ha Hin Hj. apply check_Accept, authentic_signed.
  - apply ed_sign_length.
  - exists (ed_verifying_key s). split; [|apply ed_sign_verifies].
    rewrite (al_trusted _ _ _ _ Ha). by apply (list_elem_of_fmap_2 snd _ (message_origin msg, _)).
  - intros _. exists msg, (ed_verifying_key s). split_and!; [done|done|apply ed_sign_verifies_strict].
Qed.

Lemma len_frame s payload : len (frame s payload) = 65 + len payload.
Proof.
  unfold frame, len. cbn [length]. rewrite length_app, (ed_sign_length s payload).
  unfold SIG_LEN. lia.
Qed.

(** The handler has room for a message at this time. *)
Definition has_room (h : HoikeBroadcastHandler) (t1 : N) (msg : GossipMessage) : Prop :=
  table_full (filter (fun kv => t1 - kv.2 < RETENTION_NANOS) (bh_admitted h)) (scope_key msg)
    = false /\ ch_closed (bh_tx h) = false /\
  N.of_nat (length (ch_queue (bh_tx h))) < ch_capacity (bh_tx h).

End delivery.

(** ** The table of generations *)

Section generations.
Context {CR : Crates}.
Implicit Types (table : gmap GenKey GenRecord) (key : GenKey) (row : GenRecord).

(** An announcement that was recorded: when, for whom, and what. *)
Record observed : Type := mkObserved {
  ob_time : N;
  ob_key : GenKey;
  ob_epoch : N;
  ob_digest : bytes;
}.

Definition row_key row : GenKey := (gr_origin_node row, gr_producer_id row, gr_issuer_key_hash row).

(** The row after an announcement. *)
Definition updated (old : option GenRecord) (o : observed) : GenRecord :=
  let '(origin, producer, ikh) := ob_key o in
  match old with
  | None => mkGenRecord origin producer ikh (ob_epoch o) (hex_encode (ob_digest o)) (ob_time o)
  | Some row =>
      mkGenRecord (gr_origin_node row) (gr_producer_id row) (gr_issuer_key_hash row)
        (N.max (gr_epoch row) (ob_epoch o))
        (if gr_epoch row <=? ob_epoch o then hex_encode (ob_digest o) else gr_manifest_digest row)
        (ob_time o)
  end.

Lemma record_row_updated table o :
  let live := retain_recent (ob_time o) table in
  record_row table (ob_time o) (ob_key o) (ob_epoch o) (ob_digest o) =
  if table_full live (ob_key o) then live
  else <[ob_key o := updated (live !! ob_key o) o]> live.
Proof.
  unfold record_row, updated. destruct (ob_key o) as [[origin producer] ikh]. cbv zeta.
  destruct (table_full _ _); [done|]. destruct (_ !! _) as [row|]; cbn [default from_option id].
  - destruct (N.leb_spec (gr_epoch row) (ob_epoch o)).
    + by rewrite N.max_r by done.
    + by rewrite N.max_l by lia.
  - cbn. by rewrite N.leb_refl.
Qed.

Lemma retain_recent_Some now table key row :
  retain_recent now table !! key = Some row <->
  table !! key = Some row /\ now - gr_last_seen_unix row < RETENTION_SECS.
Proof. unfold retain_recent. by rewrite map_lookup_filter_Some. Qed.

Definition bounded_key key : Prop :=
  str_len key.1.1 <= 256 /\ 1 <= str_len key.1.2 <= 256.

(** The table evolves with a clock that does not go back: announcements are
    recorded, if there is room, and the table is listed. *)
Inductive fleet : N -> list observed -> gmap GenKey GenRecord -> Prop :=
| fleet_start : fleet 0 [] ∅
| fleet_record now h table o :
    fleet now h table -> now <= ob_time o -> bounded_key (ob_key o) ->
    table_full (retain_recent (ob_time o) table) (ob_key o) = false ->
    fleet (ob_time o) (o :: h)
      (record_row table (ob_time o) (ob_key o) (ob_epoch o) (ob_digest o))
| fleet_full now h table o :
    fleet now h table -> now <= ob_time o -> bounded_key (ob_key o) ->
    table_full (retain_recent (ob_time o) table) (ob_key o) = true ->
    fleet (ob_time o) h
      (record_row table (ob_time o) (ob_key o) (ob_epoch o) (ob_digest o))
| fleet_list now h table now' :
    fleet now h table -> now <= now' -> fleet now' h (retain_recent now' table).

(** The row is what was announced, and as recent as anything in the last hour. *)
Record fleet_ok (now : N) (h : list observed) table : Prop := {
  fo_table : table_ok bounded_key table;
  fo_rows key row : table !! key = Some row -> row_key row = key /\
    exists o, o ∈ h /\ ob_key o = key /\ gr_epoch row = ob_epoch o /\
      gr_manifest_digest row = hex_encode (ob_digest o);
  fo_past o : o ∈ h -> ob_time o <= now;
  fo_recent o : o ∈ h -> now - ob_time o < RETENTION_SECS ->
    exists row, table !! ob_key o = Some row /\ ob_epoch o <= gr_epoch row /\
      ob_time o <= gr_last_seen_unix row;
}.

Lemma fleet_ok_retain now h table now' :
  fleet_ok now h table -> now <= now' -> fleet_ok now' h (retain_recent now' table).
Proof.
  intros [Ht Hr Hp Hn] Hle. split.
  - by apply table_ok_retain.
  - by intros key row [Hl _]%retain_recent_Some; apply Hr.
  - intros o Ho%Hp. lia.
  - intros o Ho Hlt. destruct (Hn o Ho) as (row & Hl & He & Hs); [specialize (Hp o Ho); lia|].
    exists row. rewrite retain_recent_Some. split_and!; try done. unfold RETENTION_SECS in *. lia.
Qed.

Lemma updated_facts old o :
  (forall row, old = Some row -> row_key row = ob_key o) ->
  row_key (updated old o) = ob_key o /\ ob_epoch o <= gr_epoch (updated old o) /\
  gr_last_seen_unix (updated old o) = ob_time o /\
  (forall row, old = Some row -> gr_epoch row <= gr_epoch (updated old o)) /\
  (gr_epoch (updated old o) = ob_epoch o /\
     gr_manifest_digest (updated old o) = hex_encode (ob_digest o) \/
   exists row, old = Some row /\ gr_epoch (updated old o) = gr_epoch row /\
     gr_manifest_digest (updated old o) = gr_manifest_digest row).
Proof.
  intros Hk. unfold updated. destruct (ob_key o) as [[origin producer] ikh] eqn:Eo.
  destruct old as [row|]; cbn.
  - specialize (Hk row eq_refl). split; [done|]. split; [lia|]. split; [done|].
    split; [intros ? [= <-]; lia|].
    destruct (N.leb_spec (gr_epoch row) (ob_epoch o)); [left|right].
    + split; [lia|done].
    + exists row. split_and!; [done|lia|done].
  - split_and!; try done. by left.
Qed.

Lemma fleet_ok_record now h table o :
  fleet_ok now h table -> now <= ob_time o -> bounded_key (ob_key o) ->
  table_full (retain_recent (ob_time o) table) (ob_key o) = false ->
  fleet_ok (ob_time o) (o :: h)
    (record_row table (ob_time o) (ob_key o) (ob_epoch o) (ob_digest o)).
Proof.
  intros Hok Hle Hb Hf. rewrite record_row_updated, Hf.
  destruct (fleet_ok_retain _ _ _ _ Hok Hle) as [Ht Hr Hp Hn].
  set (live := retain_recent (ob_time o) table) in *.
  destruct (updated_facts (live !! ob_key o) o) as (Hk & He & Hs & Hm & Hd).
  { intros row Hl. by apply Hr in Hl as [? _]. }
  split.
  - by apply table_ok_insert.
  - intros key row [[<- <-]|[Hne Hl]]%lookup_insert_Some.
    + split; [done|]. destruct Hd as [[H1 H2]|(row & Hl & -> & ->)].
      * exists o. split; [by left|done].
      * destruct (Hr _ _ Hl) as (_ & o' & Ho' & ?). exists o'. split; [by right|done].
    + destruct (Hr _ _ Hl) as (? & o' & Ho' & ?). split; [done|]. exists o'. split; [by right|done].
  - intros o' [->|Ho']%elem_of_cons; [lia|by apply Hp].
  - intros o' Ho' Hlt. destruct (decide (ob_key o' = ob_key o)) as [E|E].
    + exists (updated (live !! ob_key o) o). rewrite E, lookup_insert_eq. split; [done|].
      rewrite Hs. apply elem_of_cons in Ho' as [->|Ho']; [by split|].
      destruct (Hn o' Ho' Hlt) as (row & Hl & He' & _). rewrite E in Hl.
      split; [|by apply Hp]. specialize (Hm row Hl). lia.
    + apply elem_of_cons in Ho' as [->|Ho']; [done|]. rewrite lookup_insert_ne by done. by apply Hn.
Qed.

Lemma fleet_invariant now h table : fleet now h table -> fleet_ok now h table.
Proof.
  induction 1 as [|now h table o _ IH Hle Hb Hf|now h table o _ IH Hle Hb Hf|now h table now' _ IH Hle].
  - split; [split; [done|apply map_Forall_empty]|..]; try (by intros ? ?%elem_of_nil).
    intros key row Hl. by rewrite lookup_empty in Hl.
  - by eapply fleet_ok_record.
  - rewrite record_row_updated, Hf. by eapply fleet_ok_retain.
  - by eapply fleet_ok_retain.
Qed.

(** The fleet view is sound and does not regress.  However many announcements
    arrive, the table holds at most 4096 rows with names of bounded size; the
    epoch and the manifest digest of a row belong together, to an announcement
    that was made by that node for that scope; and as long as the clock does not
    go back, every announcement recorded in the last hour is still represented,
    by a row whose epoch is at least the announced one: a delayed or replayed
    announcement cannot make a peer appear to have rolled back. *)
Theorem fleet_view_sound now h table :
  fleet now h table ->
  table_size table <= MAX_SCOPES /\
  (forall key row, table !! key = Some row -> row_key row = key /\ bounded_key key /\
     exists o, o ∈ h /\ ob_key o = key /\ gr_epoch row = ob_epoch o /\
       gr_manifest_digest row = hex_encode (ob_digest o)) /\
  (forall o, o ∈ h -> now - ob_time o < RETENTION_SECS ->
     exists row, table !! ob_key o = Some row /\ ob_epoch o <= gr_epoch row).
Proof.
  intros [[Hs Hb] Hr _ Hn]%fleet_invariant. split; [done|]. split.
  - intros key row Hl. destruct (Hr key row Hl) as [Hk Ho]. split_and!; [done| |done].
    by eapply Hb.
  - intros o Ho Hlt. destruct (Hn o Ho Hlt) as (row & ? & ? & _). eauto.
Qed.
End generations.

(** The operations of a node are steps of its table. *)
Section node_steps.
Context {CR : Crates} {GC : GossipCrates} {GN : GossipNet}.

Lemma now_unix_Done {E} w t ts now w' :
  w_clock w = Some t :: ts -> now_unix (E := E) w = (Done now, w') -> now = t.
Proof. intros Hc. unfold now_unix, read_clock, mbind, io_bind. rewrite Hc. by intros [= <- _]. Qed.

Lemma valid_bounds_key producer ikh epoch digest url origin :
  valid_bounds (GenerationAnnouncement producer ikh epoch digest url origin) = true ->
  bounded_key (origin, producer, hex_encode ikh).
Proof.
  intros Hv. pose proof (valid_bounds_scope _ Hv) as [Hp _]. split; [|done]. revert Hv.
  unfold valid_bounds. cbn. intros [[[_ H]%andb_prop _]%andb_prop _]%andb_prop. by apply N.leb_le.
Qed.

Lemma record_generation_fleet now h node msg w t ts node' w' :
  fleet now h (gn_generations node) -> w_clock w = Some t :: ts -> now <= t ->
  record_generation node msg w = (Done node', w') ->
  exists now' h', fleet now' h' (gn_generations node') /\ now <= now' <= t.
Proof.
  intros Hf Hc Hle H. unfold record_generation in H. destruct msg as [pr ikh ep dg url og|pr ikh ep og].
  - destruct (valid_bounds _) eqn:Hv; cbn [negb] in H; [|inv_io; eauto with lia].
    inv_io. rename select (now_unix _ = _) into Hn. apply (now_unix_Done _ _ _ _ _ Hc) in Hn as ->.
    set (o := mkObserved t (og, pr, hex_encode ikh) ep dg).
    apply valid_bounds_key in Hv.
    destruct (table_full (retain_recent (ob_time o) (gn_generations node)) (ob_key o)) eqn:E.
    + exists (ob_time o), h. split; [by apply (fleet_full now h _ o)|cbn; lia].
    + exists (ob_time o), (o :: h). split; [by apply (fleet_record now h _ o)|cbn; lia].
  - inv_io. eauto with lia.
Qed.

Lemma generations_fleet now h node w t ts rows node' w' :
  fleet now h (gn_generations node) -> w_clock w = Some t :: ts -> now <= t ->
  generations node w = (Done (rows, node'), w') ->
  fleet t h (gn_generations node') /\ rows = (map_to_list (gn_generations node')).*2.
Proof.
  intros Hf Hc Hle H. unfold generations in H. inv_io. rename select (now_unix _ = _) into Hn.
  apply (now_unix_Done _ _ _ _ _ Hc) in Hn as ->. split; [by apply (fleet_list now)|done].
Qed.
End node_steps.

(** ** Witnesses *)

Module ToyNode.
#[export] Instance net : @GossipNet ToyGossip.crates := {|
  SocketAddr := N;
  parse_socket_addr _ := Ok 7946;
  udp_bind a := mret a;
  Foca := list bytes;
  foca_new _ _ _ := [];
  foca_announce f _ := f;
  foca_add_broadcast f data := Ok (f ++ [data]);
  foca_members _ := [];
|}.
Definition sender : GossipConfig :=
  mkGossipConfig true gossip_default_bind [] "node-b" Required (Some ["b"%string]) [] ∅.
Abbreviation run := (@start ToyGossip.crates net sender (mkChannel 4 false []) 0 ToyGossip.world).
Definition payload : bytes := @ToySign.enc _ ToyGossip.GossipMessage_codec ToyGossip.message.
Definition first : observed := mkObserved 100 ("node-a", "p", "aa")%string 7 [xbb].
Definition replayed : observed := mkObserved 200 ("node-a", "p", "aa")%string 5 [xcc].
End ToyNode.


(** A replayed announcement of an older epoch leaves the row at the newer one. *)
Lemma fleet_view_sound_witness :
  exists table row, @fleet Toy.crates 200 [ToyNode.replayed; ToyNode.first] table /\
    table !! ("node-a", "p", "aa")%string = Some row /\ 7 <= gr_epoch row.
Proof.
  assert (@fleet Toy.crates 200 [ToyNode.replayed; ToyNode.first]
    (@record_row Toy.crates (@record_row Toy.crates ∅ 100 ("node-a", "p", "aa")%string 7 [xbb])
       200 ("node-a", "p", "aa")%string 5 [xcc])) as Hf.
  { apply (@fleet_record Toy.crates 100 [ToyNode.first] _ ToyNode.replayed);
      [|vm_compute; discriminate|split; [|split]; vm_compute; discriminate|reflexivity].
    apply (@fleet_record Toy.crates 0 [] _ ToyNode.first);
      [apply fleet_start|vm_compute; discriminate|split; [|split]; vm_compute; discriminate|reflexivity]. }
  destruct (@fleet_view_sound Toy.crates _ _ _ Hf) as (_ & _ & Hn).
  destruct (Hn ToyNode.first) as (row & Hl & He); [by right; left|reflexivity|].
  eexists _, row. split; [exact Hf|]. split; [exact Hl|exact He].
Defined.
