(* ===== verification/Sessions.v ===== *)
(** * Sessions: operators and their sessions (hoike-server/src/state.rs, admin/auth.rs,
    admin/rbac.rs)

    Login with its admission limits, logout, the check of a bearer token and of
    the role.  Password hashing and the parsing of the request body are
    parameters.  Main results, over any interleaving of logins, logouts and
    checks: sessions and pending logins stay bounded, logins are limited in every
    minute, and an accepted token was issued to an operator who gave the right
    password, has not expired and was not logged out. *)

From stdpp Require Import base tactics list gmap strings relations.
From Stdlib Require Import NArith Lia.
From S2P Require Import Prelude Slices Crates Storage Config.
Local Open Scope N_scope.

(** ** Roles (state.rs) *)

Inductive OperatorRole := Administrator | Operator | Viewer.
#[export] Instance OperatorRole_eq_dec : EqDecision OperatorRole.
Proof. solve_decision. Defined.

Definition rank (r : OperatorRole) : N :=
  match r with Viewer => 1 | Operator => 2 | Administrator => 3 end.
Definition has_at_least (r min : OperatorRole) : bool := rank min <=? rank r.

Definition role_from_str (s : string) : result string OperatorRole :=
  if String.eqb s "administrator" then Ok Administrator
  else if String.eqb s "operator" then Ok Operator
  else if String.eqb s "viewer" then Ok Viewer
  else Err "unknown role"%string.
Definition role_to_string (r : OperatorRole) : string :=
  match r with Administrator => "administrator" | Operator => "operator" | Viewer => "viewer" end.

(** Instants are nanoseconds of a monotonic clock. *)
Record Session : Type := mkSession {
  se_operator_name : string;
  se_role : OperatorRole;
  se_expires_at : N;
}.
Definition secs (n : N) : N := n * 1000000000.

(** A refusal: the status code and its detail. *)
Record Refusal : Type := mkRefusal { rf_status : N; rf_detail : string }.

(** ** Admission of logins (auth.rs) *)

(** The two process-wide limits: permits in use and the window of the rate. *)
Record LoginGate : Type := mkLoginGate {
  lg_in_use : N;
  lg_rate : option (N * N);
}.
Definition LOGIN_SLOTS : N := 4.
Definition LOGIN_RATE : N := 60.
Definition RATE_WINDOW : N := secs 60.

Definition try_acquire (g : LoginGate) : option LoginGate :=
  if lg_in_use g <? LOGIN_SLOTS then Some (mkLoginGate (lg_in_use g + 1) (lg_rate g)) else None.
Definition release (g : LoginGate) : LoginGate := mkLoginGate (lg_in_use g - 1) (lg_rate g).

(** [admit_login]; [t0] initialises the window, [t1] is read to test its age and
    [t2] to reset it. *)
Definition admit_login (rate : option (N * N)) (t0 t1 t2 : N) : bool * (N * N) :=
  let '(start, count) := default (t0, 0) rate in
  let '(start, count) := if RATE_WINDOW <=? t1 - start then (t2, 0) else (start, count) in
  if LOGIN_RATE <=? count then (false, (start, count)) else (true, (start, count + 1)).

(** The part of [login] before the body is read; a refused login drops its permit. *)
Definition login_admit (g : LoginGate) (t0 t1 t2 : N) : result Refusal unit * LoginGate :=
  match try_acquire g with
  | None => (Err (mkRefusal 429 "login capacity exhausted"), g)
  | Some g =>
      let '(ok, rate) := admit_login (lg_rate g) t0 t1 t2 in
      let g := mkLoginGate (lg_in_use g) (Some rate) in
      if ok then (Ok tt, g) else (Err (mkRefusal 429 "login rate exceeded"), release g)
  end.

(** ** Login *)

Record LoginRequest : Type := mkLoginRequest { lr_name : string; lr_password : string }.
Record LoginResponse : Type := mkLoginResponse {
  lp_session_token : string;
  lp_role : OperatorRole;
  lp_operator : string;
  lp_expires_in_secs : N;
}.

(** What reading the body gave: the bytes, too many, or nothing in time. *)
Inductive BodyRead := BodyBytes (b : bytes) | BodyTooLarge | BodyTimeout.

Class LoginCrates := {
  login_from_slice : bytes -> result string LoginRequest;
  bcrypt_verify : string -> string -> result string bool;
}.

Definition DUMMY_HASH : string := "$2b$12$R9h/cIPz0gi.URNNX3kh2OPST9/PgBkqquzi.Ss7KIUgO2t0jWMUW".
Definition MAX_SESSIONS : N := 4096.

Section login.
Context {LC : LoginCrates}.

(** The credentials of the request, checked against the configuration. *)
Definition login_operator (admin_config : option AdminConfig) (body : BodyRead) :
    result Refusal (AdminConfig * OperatorConfig) :=
  b ← match body with
      | BodyBytes b => Ok b
      | BodyTooLarge => Err (mkRefusal 413 "login body exceeds 4096 bytes")
      | BodyTimeout => Err (mkRefusal 408 "login body timed out")
      end;
  req ← map_err (fun _ => mkRefusal 400 "invalid login request") (login_from_slice b);
  ensure (negb ((256 <? N.of_nat (String.length (lr_name req))) ||
                (72 <? N.of_nat (String.length (lr_password req)))))
    (mkRefusal 400 "login fields exceed supported lengths") ;;
  config ← ok_or admin_config (mkRefusal 503 "admin API not configured");
  let operator := List.find (fun op => String.eqb (op_name op) (lr_name req)) (ad_operators config) in
  let hash := from_option op_password_hash DUMMY_HASH operator in
  let password_ok := match bcrypt_verify (lr_password req) hash with Ok v => v | Err _ => false end in
  match operator with
  | Some op => if password_ok then Ok (config, op) else Err (mkRefusal 401 "invalid credentials")
  | None => Err (mkRefusal 401 "invalid credentials")
  end.

(** The store after a login: [t1] sets the expiry, [t2] prunes. *)
Definition login_insert (sessions : gmap string Session) (config : AdminConfig) (op : OperatorConfig)
    (token : string) (t1 t2 : N) : result Refusal LoginResponse * gmap string Session :=
  let role := match role_from_str (op_role op) with Ok r => r | Err _ => Viewer end in
  let ttl := ad_session_ttl_secs config in
  let session := mkSession (op_name op) role (t1 + secs ttl) in
  let sessions := filter (fun kv => t2 < se_expires_at kv.2) sessions in
  if MAX_SESSIONS <=? N.of_nat (size sessions)
  then (Err (mkRefusal 503 "session capacity exhausted"), sessions)
  else (Ok (mkLoginResponse token role (op_name op) ttl), <[token := session]> sessions).

Definition login_finish (sessions : gmap string Session) (admin_config : option AdminConfig)
    (body : BodyRead) (token : string) (t1 t2 : N) :
    result Refusal LoginResponse * gmap string Session :=
  match login_operator admin_config body with
  | Err e => (Err e, sessions)
  | Ok (config, op) => login_insert sessions config op token t1 t2
  end.

(** [generate_token], from the bytes drawn. *)
Definition generate_token {CR : Crates} (drawn : bytes) : string := hex_encode drawn.
End login.

(** ** Logout and authentication *)

(** [strip_prefix("Bearer ")]. *)
Fixpoint strip_prefix (prefix s : string) : option string :=
  match prefix, s with
  | EmptyString, _ => Some s
  | String a prefix, String b s => if Ascii.eqb a b then strip_prefix prefix s else None
  | String _ _, EmptyString => None
  end.
(** The header, if it is there and printable. *)
Definition extract_bearer_token (authorization : option string) : option string :=
  h ← authorization; strip_prefix "Bearer " h.

Definition logout (sessions : gmap string Session) (authorization : option string) :
    gmap string Session :=
  match extract_bearer_token authorization with
  | Some token => delete token sessions
  | None => sessions
  end.

Record Authenticated : Type := mkAuthenticated {
  au_operator_name : string;
  au_role : OperatorRole;
}.

(** [Authenticated::from_request_parts], at the instant [t]. *)
Definition authenticate_request (sessions : gmap string Session) (authorization : option string)
    (t : N) : result Refusal Authenticated * gmap string Session :=
  match extract_bearer_token authorization with
  | None => (Err (mkRefusal 401 "missing or invalid Authorization header"), sessions)
  | Some token =>
      match sessions !! token with
      | None => (Err (mkRefusal 401 "invalid or expired session"), sessions)
      | Some session =>
          if se_expires_at session <? t
          then (Err (mkRefusal 401 "session expired"), delete token sessions)
          else (Ok (mkAuthenticated (se_operator_name session) (se_role session)), sessions)
      end
  end.

Definition require_role (auth : Authenticated) (min : OperatorRole) : result Refusal unit :=
  if has_at_least (au_role auth) min then Ok tt else Err (mkRefusal 403 "insufficient permissions").

(** ** The rate of logins *)

Section rate.
Implicit Types (l cur prev : list N) (a now : N).

(** Admissions in the minute that starts at [a]. *)
Definition count_in a l : nat := length (filter (fun t => a <= t < a + RATE_WINDOW) l).

Lemma count_in_app a l1 l2 : count_in a (l1 ++ l2) = (count_in a l1 + count_in a l2)%nat.
Proof. unfold count_in. by rewrite filter_app, length_app. Qed.
Lemma count_in_length a l : (count_in a l <= length l)%nat.
Proof. apply length_filter. Qed.
Lemma count_in_none a l : Forall (fun t => t < a \/ a + RATE_WINDOW <= t) l -> count_in a l = 0%nat.
Proof.
  unfold count_in. induction 1 as [|t l Ht _ IH]; [done|].
  rewrite filter_cons_False by lia. done.
Qed.

(** The admissions so far: those of the current window, and those before it. *)
Inductive rate_inv now : list N -> option (N * N) -> Prop :=
| rate_none : rate_inv now [] None
| rate_some start n cur prev :
    N.of_nat (length cur) = n -> n <= LOGIN_RATE -> start <= now ->
    Forall (fun t => start <= t <= now) cur -> Forall (fun t => t <= start) prev ->
    (forall a, start < a + RATE_WINDOW -> (count_in a prev <= 60)%nat) ->
    (forall a, (count_in a prev <= 120)%nat) ->
    rate_inv now (cur ++ prev) (Some (start, n)).

Lemma rate_inv_bound now l rate a : rate_inv now l rate -> (count_in a l <= 120)%nat.
Proof.
  intros [|start n cur prev Hn Hb Hs Hc Hp H60 H120]; [cbn; lia|]. rewrite count_in_app.
  destruct (decide (start < a + RATE_WINDOW)) as [Ha|Ha].
  - pose proof (count_in_length a cur). specialize (H60 a Ha). unfold LOGIN_RATE in Hb. lia.
  - rewrite (count_in_none a cur); [apply H120|]. eapply Forall_impl; [exact Hc|]. cbn. lia.
Qed.

Lemma rate_inv_mono now now' l rate : now <= now' -> rate_inv now l rate -> rate_inv now' l rate.
Proof.
  intros Hle [|start n cur prev Hn Hb Hs Hc Hp H60 H120]; [constructor|].
  constructor; try done; [lia|]. eapply Forall_impl; [exact Hc|]. cbn. lia.
Qed.

Lemma rate_inv_times now l rate : rate_inv now l rate -> Forall (fun t => t <= now) l.
Proof.
  intros [|start n cur prev Hn Hb Hs Hc Hp H60 H120]; [constructor|]. apply Forall_app_2.
  - eapply Forall_impl; [exact Hc|]. cbn. lia.
  - eapply Forall_impl; [exact Hp|]. cbn. lia.
Qed.

(** A new window starts empty. *)
Lemma rate_inv_reset now l start n t :
  rate_inv now l (Some (start, n)) -> now <= t -> start + RATE_WINDOW <= t ->
  rate_inv t l (Some (t, 0)).
Proof.
  intros Hr Hle Ht. change l with ([] ++ l). pose proof (rate_inv_times _ _ _ Hr) as Hts.
  constructor; [done|done|done|constructor| | |].
  - eapply Forall_impl; [exact Hts|]. cbn. lia.
  - intros a Ha. inversion Hr as [|s' n' cur prev Hn Hb Hs Hc Hp H60 H120]; subst.
    rewrite count_in_app, (count_in_none a prev).
    + pose proof (count_in_length a cur). unfold LOGIN_RATE in Hb. lia.
    + eapply Forall_impl; [exact Hp|]. cbn. lia.
  - intros a. by eapply rate_inv_bound.
Qed.

Lemma rate_inv_count now l start n t :
  rate_inv now l (Some (start, n)) -> now <= t -> n < LOGIN_RATE ->
  rate_inv t (t :: l) (Some (start, n + 1)).
Proof.
  intros Hr Hle Hn. inversion Hr as [|s' n' cur prev Hl Hb Hs Hc Hp H60 H120]; subst.
  change (t :: cur ++ prev) with ((t :: cur) ++ prev). constructor; try done.
  - cbn. lia.
  - lia.
  - lia.
  - constructor; [lia|]. eapply Forall_impl; [exact Hc|]. cbn. lia.
Qed.

Lemma admit_login_inv now l rate t0 t1 t2 ok rate' :
  rate_inv now l rate -> now <= t0 -> t0 <= t1 -> t1 <= t2 ->
  admit_login rate t0 t1 t2 = (ok, rate') ->
  rate_inv t2 (if ok then t2 :: l else l) (Some rate').
Proof.
  intros Hr H0 H1 H2 H. unfold admit_login in H.
  assert (exists start n now', default (t0, 0) rate = (start, n) /\
    rate_inv now' l (Some (start, n)) /\ now' <= t0) as (start & n & now' & Hd & Hr' & Hn').
  { destruct Hr as [|start n cur prev]; [|by eexists _, _, now; split; [|split; [constructor|]]].
    exists t0, 0, t0. split; [done|]. split; [|done].
    apply (rate_some t0 t0 0 [] []); try done; intros; cbn; lia. }
  rewrite Hd in H. destruct (N.leb_spec RATE_WINDOW (t1 - start)) as [Hw|Hw].
  - cbn in H. injection H as <- <-. change (Some (t2, 1)) with (Some (t2, 0 + 1)).
    assert (RATE_WINDOW <> 0) by (by vm_compute).
    apply (rate_inv_count t2); [|done|done]. eapply rate_inv_reset; [exact Hr'|lia|lia].
  - destruct (N.leb_spec LOGIN_RATE n); injection H as <- <-.
    + eapply rate_inv_mono; [|exact Hr']. lia.
    + eapply rate_inv_count; [exact Hr'|lia|done].
Qed.
End rate.

(** ** Runs *)

Inductive event :=
| LoginStarted (t : N)
| LoggedIn (token : string) (body : BodyRead) (t : N)
| LoggedOut (token : string).

Definition admissions (h : list event) : list N :=
  omap (fun e => match e with LoginStarted t => Some t | _ => None end) h.

Section runs.
Context {LC : LoginCrates}.
Variable admin_config : option AdminConfig.
Implicit Types (g : LoginGate) (s : gmap string Session) (h : list event).

(** Steps of concurrent requests: a login is admitted, its permit is released
    when the password check ends, it completes; a logout; a check. *)
Inductive admin_run : N -> list event -> LoginGate -> gmap string Session -> Prop :=
| run_start : admin_run 0 [] (mkLoginGate 0 None) ∅
| run_admit now h g s t0 t1 t2 r g' :
    admin_run now h g s -> now <= t0 -> t0 <= t1 -> t1 <= t2 ->
    login_admit g t0 t1 t2 = (r, g') ->
    admin_run t2 (if is_ok r then LoginStarted t2 :: h else h) g' s
| run_release now h g s :
    admin_run now h g s -> 0 < lg_in_use g -> admin_run now h (release g) s
| run_login now h g s body token t1 t2 r s' :
    admin_run now h g s -> now <= t1 -> t1 <= t2 ->
    login_finish s admin_config body token t1 t2 = (r, s') ->
    admin_run t2 (if is_ok r then LoggedIn token body t1 :: h else h) g s'
| run_logout now h g s authorization t :
    admin_run now h g s -> now <= t ->
    admin_run t (match extract_bearer_token authorization with
                 | Some token => LoggedOut token :: h | None => h end) g (logout s authorization)
| run_check now h g s authorization t r s' :
    admin_run now h g s -> now <= t -> authenticate_request s authorization t = (r, s') ->
    admin_run t h g s'.

(** The session is the one a login issued with this token, after which nobody
    logged out with it. *)
Definition issued h (token : string) (session : Session) : Prop :=
  exists h1 h2 body t config op, h = h1 ++ LoggedIn token body t :: h2 /\ ~ LoggedOut token ∈ h1 /\
    login_operator admin_config body = Ok (config, op) /\
    session = mkSession (op_name op)
      (match role_from_str (op_role op) with Ok r => r | Err _ => Viewer end)
      (t + secs (ad_session_ttl_secs config)).

Definition sessions_ok h s : Prop :=
  N.of_nat (size s) <= MAX_SESSIONS /\ map_Forall (issued h) s.

Lemma issued_cons e h token session :
  e <> LoggedOut token -> issued h token session -> issued (e :: h) token session.
Proof.
  intros He (h1 & h2 & body & t & config & op & -> & Hn & ?).
  exists (e :: h1), h2, body, t, config, op. split; [done|]. split; [|done].
  by intros [?|?]%elem_of_cons.
Qed.

Lemma sessions_ok_delete h s token : sessions_ok h s -> sessions_ok h (delete token s).
Proof.
  intros [Hs Hf]. split; [|by apply map_Forall_delete].
  pose proof (map_subseteq_size _ _ (delete_subseteq s token)). lia.
Qed.

Lemma sessions_ok_filter h s (P : string * Session -> Prop) `{!forall x, Decision (P x)} :
  sessions_ok h s -> sessions_ok h (filter P s).
Proof.
  intros [Hs Hf]. split; [pose proof (map_size_filter P s); lia|].
  intros k x [Hl _]%map_lookup_filter_Some. by apply Hf.
Qed.

Lemma login_finish_ok h s body token t1 t2 r s' :
  sessions_ok h s -> login_finish s admin_config body token t1 t2 = (r, s') ->
  sessions_ok (if is_ok r then LoggedIn token body t1 :: h else h) s'.
Proof.
  intros Hs H. unfold login_finish in H.
  destruct (login_operator admin_config body) as [[config op]|e] eqn:E; [|by simplify_eq].
  unfold login_insert in H. set (live := filter _ s) in H.
  assert (sessions_ok h live) as [Hl Hf] by (by apply sessions_ok_filter).
  destruct (N.leb_spec MAX_SESSIONS (N.of_nat (size live))); simplify_eq; [by split|]. cbn [is_ok]. split.
  - destruct (live !! token) eqn:El.
    + rewrite map_size_insert_Some by (by rewrite El). done.
    + rewrite map_size_insert_None by done. lia.
  - intros k x [[<- <-]|[Hne Hk]]%lookup_insert_Some.
    + exists [], h, body, t1, config, op. split_and!; try done. apply not_elem_of_nil.
    + apply issued_cons; [done|]. by apply Hf.
Qed.

Record admin_ok (now : N) h g s : Prop := {
  ao_slots : lg_in_use g <= LOGIN_SLOTS;
  ao_rate : rate_inv now (admissions h) (lg_rate g);
  ao_sessions : sessions_ok h s;
}.

Lemma login_admit_ok now h g t0 t1 t2 r g' :
  lg_in_use g <= LOGIN_SLOTS -> rate_inv now (admissions h) (lg_rate g) ->
  now <= t0 -> t0 <= t1 -> t1 <= t2 -> login_admit g t0 t1 t2 = (r, g') ->
  lg_in_use g' <= LOGIN_SLOTS /\
  rate_inv t2 (admissions (if is_ok r then LoginStarted t2 :: h else h)) (lg_rate g').
Proof.
  intros Hs Hr H0 H1 H2 H. unfold login_admit, try_acquire in H.
  destruct (N.ltb_spec (lg_in_use g) LOGIN_SLOTS).
  - cbn [lg_rate] in H. destruct (admit_login (lg_rate g) t0 t1 t2) as [ok rate] eqn:Ea.
    eapply (admit_login_inv now) in Ea; [|exact Hr|done..].
    destruct ok; simplify_eq; cbn [is_ok release lg_in_use lg_rate]; (split; [lia|exact Ea]).
  - simplify_eq. split; [done|]. eapply rate_inv_mono; [|exact Hr]. lia.
Qed.

Lemma admin_invariant now h g s : admin_run now h g s -> admin_ok now h g s.
Proof.
  induction 1 as [|now h g s t0 t1 t2 r g' _ [Hl Hr Hs] H0 H1 H2 H|now h g s _ [Hl Hr Hs] Hu
    |now h g s body token t1 t2 r s' _ [Hl Hr Hs] H1 H2 H|now h g s authorization t _ [Hl Hr Hs] Ht
    |now h g s authorization t r s' _ [Hl Hr Hs] Ht H].
  - split; [done|constructor|]. split; [done|]. apply map_Forall_empty.
  - destruct (login_admit_ok _ _ _ _ _ _ _ _ Hl Hr H0 H1 H2 H). split; try done.
    destruct (is_ok r); [|done]. destruct Hs as [Hz Hf]. split; [done|].
    eapply map_Forall_impl; [exact Hf|]. intros k x. by apply issued_cons.
  - split; [cbn; lia|done|done].
  - split; [done| |by eapply login_finish_ok].
    assert (rate_inv t2 (admissions h) (lg_rate g)) by (eapply rate_inv_mono; [|exact Hr]; lia).
    by destruct (is_ok r).
  - assert (rate_inv t (admissions h) (lg_rate g)) by (by eapply rate_inv_mono).
    unfold logout. destruct (extract_bearer_token authorization) as [token|]; [|by split].
    split; [done|done|]. destruct (sessions_ok_delete h s token Hs) as [Hz Hf]. split; [done|].
    intros k x Hk. apply issued_cons; [|by apply Hf].
    intros [= ->]. by rewrite lookup_delete_eq in Hk.
  - assert (rate_inv t (admissions h) (lg_rate g)) by (by eapply rate_inv_mono).
    unfold authenticate_request in H. repeat case_match; simplify_eq; split; try done;
      by apply sessions_ok_delete.
Qed.

(** C33: the admin API cannot be made to grow or to hash without limit.  However
    requests interleave, at most 4 logins hold a permit, at most 4096 sessions
    are stored, and in any 60 seconds whatsoever at most 120 logins are admitted
    (60 in each window of the counter, of which a minute can meet two). *)
Theorem admin_bounded now h g s :
  admin_run now h g s ->
  lg_in_use g <= 4 /\ N.of_nat (size s) <= 4096 /\
  forall a, (count_in a (admissions h) <= 120)%nat.
Proof.
  intros [Hl Hr [Hs _]]%admin_invariant. split; [done|]. split; [done|]. intros a.
  by eapply rate_inv_bound.
Qed.

Lemma login_operator_Ok body config op :
  login_operator admin_config body = Ok (config, op) ->
  admin_config = Some config /\ op ∈ ad_operators config /\
  exists b req, body = BodyBytes b /\ login_from_slice b = Ok req /\ op_name op = lr_name req /\
    bcrypt_verify (lr_password req) (op_password_hash op) = Ok true.
Proof.
  unfold login_operator. intros H. inv_ok. destruct body as [b| |]; [|done..]. inv_ok.
  rename select (match List.find _ _ with _ => _ end = _) into Hm.
  destruct (List.find _ _) as [op'|] eqn:Ef; [|done]. apply find_some in Ef as [Hin Hn].
  cbn in Hm. destruct (bcrypt_verify _ _) as [[]|] eqn:Eb; simplify_eq.
  apply String.eqb_eq in Hn. split; [done|]. split; [by apply list_elem_of_In|].
  eexists _, _. split; [done|]. split; [eassumption|]. split; [exact Hn|exact Eb].
Qed.

(** C19: who is let in.  A request that is authenticated carries a token that a
    login issued, to an operator of the configuration who gave the password that
    matches that operator's hash; it acts under exactly that operator's name and
    role; the session has not expired; and nobody has logged out with the token
    since.  A token that was logged out, or of a session that has expired, is
    refused. *)
Theorem authenticated_sound now h g s authorization t :
  admin_run now h g s ->
  match (authenticate_request s authorization t).1 with
  | Ok auth => exists token h1 h2 b req t1 config op,
      extract_bearer_token authorization = Some token /\
      h = h1 ++ LoggedIn token (BodyBytes b) t1 :: h2 /\ ~ LoggedOut token ∈ h1 /\
      admin_config = Some config /\ op ∈ ad_operators config /\
      login_from_slice b = Ok req /\ op_name op = lr_name req /\
      bcrypt_verify (lr_password req) (op_password_hash op) = Ok true /\
      auth = mkAuthenticated (op_name op)
        (match role_from_str (op_role op) with Ok r => r | Err _ => Viewer end) /\
      t <= t1 + secs (ad_session_ttl_secs config)
  | Err e => rf_status e = 401
  end /\
  is_ok (authenticate_request (logout s authorization) authorization t).1 = false.
Proof.
  intros [_ _ [_ Hf]]%admin_invariant. unfold authenticate_request, logout.
  destruct (extract_bearer_token authorization) as [token|] eqn:Et; [|done].
  split; [|by rewrite lookup_delete_eq].
  destruct (s !! token) as [session|] eqn:El; [|done].
  destruct (N.ltb_spec (se_expires_at session) t) as [|Hlt]; [done|]. cbn [fst].
  destruct (Hf _ _ El) as (h1 & h2 & body & t1 & config & op & Hh & Hn & Ho & ->).
  destruct (login_operator_Ok _ _ _ Ho) as (Hc & Hin & b & req & -> & Hreq & Hname & Hb).
  exists token, h1, h2, b, req, t1, config, op. split_and!; try done.
Qed.
End runs.

(** ** Witnesses *)

Module ToyLogin.
(** The body is the name and the password, a byte each; the hash is the password. *)
#[export] Instance crates : LoginCrates := {|
  login_from_slice b := match b with
    | [n; p] => Ok (mkLoginRequest (String (Ascii.ascii_of_byte n) "")
                      (String (Ascii.ascii_of_byte p) ""))
    | _ => Err "invalid"%string end;
  bcrypt_verify p hash := Ok (String.eqb p hash);
|}.
Definition config : option AdminConfig :=
  Some (mkAdminConfig 900 [mkOperatorConfig "a" "x" "operator"]).
Definition body : BodyRead := BodyBytes [x61; x78].
Definition header : option string := Some "Bearer t0"%string.
Definition sessions : gmap string Session :=
  (@login_finish crates ∅ config body "t0" 10 10).2.

Lemma run : @admin_run crates config 10 [LoggedIn "t0" body 10; LoginStarted 5]
  (mkLoginGate 1 (Some (5, 1))) sessions.
Proof.
  apply (@run_login crates config 5 [LoginStarted 5] _ ∅ body "t0" 10 10
    (Ok (mkLoginResponse "t0" Operator "a" 900)));
    [|vm_compute; discriminate|vm_compute; discriminate|vm_compute; reflexivity].
  apply (@run_admit crates config 0 [] (mkLoginGate 0 None) ∅ 5 5 5 (Ok tt));
    [apply run_start|vm_compute; discriminate..|vm_compute; reflexivity].
Qed.
End ToyLogin.

Lemma admin_bounded_witness : (count_in 0 (admissions [LoggedIn "t0" ToyLogin.body 10; LoginStarted 5]) <= 120)%nat.
Proof. apply (@admin_bounded ToyLogin.crates ToyLogin.config _ _ _ _ ToyLogin.run). Defined.

Lemma authenticated_sound_witness :
  (authenticate_request ToyLogin.sessions ToyLogin.header 20).1 = Ok (mkAuthenticated "a" Operator) /\
  is_ok (authenticate_request (logout ToyLogin.sessions ToyLogin.header) ToyLogin.header 20).1 = false.
Proof.
  split; [vm_compute; reflexivity|].
  apply (@authenticated_sound ToyLogin.crates ToyLogin.config _ _ _ _ ToyLogin.header 20 ToyLogin.run).
Defined.
