(* ===== verification/AdminApi.v ===== *)
(** * AdminApi: the operations of the admin API (hoike-server/src/admin/bundles.rs,
    signing.rs and query.rs, forwarding.rs, state.rs, lib.rs)

    What an authenticated operator can do: reload, sign, rotate keys, examine
    uploaded bundles and query the responder; the announcement of produced
    bundles; and the clients that forwarding uses.  Responses are records of what
    the handlers put into JSON.  Main results: every operation that changes state
    checks the role first and leaves the responder serving what it served when it
    fails; a rotation installs only a key that belongs to the responder; the
    verdict on an upload is authentication; forwarding trusts exactly the roots
    configured for the CA. *)

From stdpp Require Import base tactics list gmap strings.
From Stdlib Require Import NArith Lia.
From S2P Require Import Prelude Slices Crates Text AhuError Header Index Manifest Bundle Builder.
From S2P Require Import Verify Ops Seal CoreError Storage State Config Admission Request Router Install.
From S2P Require Import SignError Times SignCrates Source SealDer SealCreate Crl Generate Orchestrate.
From S2P Require Import Handlers Live Gossip GossipNode Sessions.
Local Open Scope N_scope.

(** ** Forwarding clients (forwarding.rs) *)

(** What a [reqwest::Client] was built with. *)
Inductive TrustRoots (Cert : Type) := BuiltInRoots | OnlyRoots (roots : list Cert).
Arguments BuiltInRoots {Cert}.
Arguments OnlyRoots {Cert} _.
Record ForwardClient (Cert : Type) : Type := mkForwardClient {
  cl_timeout_secs : N;
  cl_follow_redirects : bool;
  cl_roots : TrustRoots Cert;
}.
Arguments mkForwardClient {Cert} _ _ _.
Arguments cl_timeout_secs {Cert} _.
Arguments cl_follow_redirects {Cert} _.
Arguments cl_roots {Cert} _.

Class HttpClients := {
  RootCert : Type;
  (** [Certificate::from_pem_bundle] *)
  from_pem_bundle : bytes -> result string (list RootCert);
  (** [ClientBuilder::build] can refuse what it was given. *)
  client_build : ForwardClient RootCert -> result string (ForwardClient RootCert);
}.

Section forwarding.
Context {HC : HttpClients}.

Definition base_client_builder : ForwardClient RootCert := mkForwardClient 10 false BuiltInRoots.

Definition forward_client (ca : CaConfig) (url : string) : io string (ForwardClient RootCert) :=
  builder ←
    match ca_forward_ca ca with
    | Some ca_path =>
        io_lift (ensure (Config.starts_with "https://" url)
          "forward_ca requires an https:// forward_to"%string) ;;
        pem ← failing "cannot read forward_ca" (read_file ca_path);
        roots ← io_lift (map_err (fun _ => "invalid forward_ca PEM bundle"%string) (from_pem_bundle pem));
        io_lift (ensure (negb (bool_decide (length roots = 0%nat)))
          "forward_ca contains no certificates"%string) ;;
        mret (mkForwardClient (cl_timeout_secs base_client_builder)
                (cl_follow_redirects base_client_builder) (OnlyRoots roots))
    | None => mret base_client_builder
    end;
  io_lift (map_err (fun _ => "building forwarding client"%string) (client_build builder)).

(** The body of the loop over the CAs. *)
Definition add_forward_client (acc : gset string * gmap string (ForwardClient RootCert)) (ca : CaConfig) :
    io string (gset string * gmap string (ForwardClient RootCert)) :=
  let '(labels, clients) := acc in
  io_lift (ensure (bool_decide (ca_label ca ∉ labels)) "duplicate CA label"%string) ;;
  let labels := {[ca_label ca]} ∪ labels in
  match ca_forward_to ca with
  | None => mret (labels, clients)
  | Some url =>
      client ← forward_client ca url;
      mret (labels, <[ca_label ca := client]> clients)
  end.

Definition build_forward_clients (c : Config) : io string (gmap string (ForwardClient RootCert)) :=
  '(_, clients) ← io_fold add_forward_client (∅, ∅) (c_ca c);
  mret clients.
End forwarding.

(** ** Queries (query.rs) *)

Definition push_der_length (n : N) : bytes :=
  if n <? 128 then [u8 n]
  else if n <? 256 then [x81; u8 n]
  else [x82; u8 (N.shiftr n 8); u8 n].
Definition der_octet_string (data : bytes) : bytes := [x04] ++ push_der_length (len data) ++ data.
Definition der_integer (data : bytes) : bytes :=
  let high := match data with b :: _ => negb (N.land (Byte.to_N b) 0x80 =? 0) | [] => false end in
  if high then [x02] ++ push_der_length (len data + 1) ++ [x00] ++ data
  else [x02] ++ push_der_length (len data) ++ data.

Definition sha256_algorithm_der : bytes :=
  [x30; x0d; x06; x09; x60; x86; x48; x01; x65; x03; x04; x02; x01; x05; x00].

Definition build_certid_der (inh ikh serial : bytes) : bytes :=
  let inh_tagged := der_octet_string inh in
  let ikh_tagged := der_octet_string ikh in
  let serial_tagged := der_integer serial in
  let inner_len := len sha256_algorithm_der + len inh_tagged + len ikh_tagged + len serial_tagged in
  [x30] ++ push_der_length inner_len ++ sha256_algorithm_der ++ inh_tagged ++ ikh_tagged ++ serial_tagged.

Definition parse_preferred_algs (prefs : list string) : list N :=
  omap (fun s =>
    if String.eqb s "ecdsa-p256" then Some ALG_DISC_DEFAULT
    else if String.eqb s "ml-dsa-44" then Some ALG_DISC_ML_DSA_44
    else if String.eqb s "ml-dsa-65" then Some ALG_DISC_ML_DSA_65
    else if String.eqb s "ml-dsa-87" then Some ALG_DISC_ML_DSA_87
    else None) prefs.

(** ** The API *)

(** [std::process::Output] of a command, with whether it exited successfully. *)
Record CommandOutput : Type := mkCommandOutput {
  co_success : bool;
  co_stderr : bytes;
}.

(** [Command::new("sh").arg("-c").arg(command).output()]: an external program, which may
    change any file. *)
Class RotationCommand := { sh_output : string -> io string CommandOutput }.

(** [run_rotation_command] of rotation.rs; the standard error is logged. *)
Definition run_rotation_command {RC : RotationCommand} (ca_label command : string) : io string unit :=
  output ← failing "failed to execute rotation command" (sh_output command);
  if co_success output then mret tt
  else io_fail "rotation command exited"%string.

Record BundleVerdict : Type := mkBundleVerdict {
  bv_result : VerifyResult;
  bv_trust_status : string;
  bv_signer_sha256 : option string;
  bv_overall_ok : bool;
}.
Inductive QueryAnswer : Type :=
| Found (ca_label : string) (response_bytes_len : N) (nonce_policy : string) (window : Window)
| NotFound.
Record SignedAnswer : Type := mkSignedAnswer {
  sg_scopes : list (string * N * N);
  sg_bundle_count : nat;
  sg_total_entries : N;
}.

Section api.
Context {CR : Crates} {SC : SealCrates} {JS : Json} {OC : OcspCrates} {SG : SignCrates}.
Context {SM : SealMaking} {GC : GossipCrates} {GN : GossipNet}.
Context {RC : RotationCommand}.

(** The part of [AppState] the API changes. *)
Record AdminContext : Type := mkAdminContext {
  ax_responder : ResponderState;
  ax_config : Config;
  ax_signer : option PersistentSources;
  ax_gossip : option GossipNode;
  ax_live_signers : gmap string (LiveSignerState OcspSigner);
}.
Implicit Types (st : AdminContext) (auth : Authenticated).

Definition with_responder st (rs : ResponderState) : AdminContext :=
  mkAdminContext rs (ax_config st) (ax_signer st) (ax_gossip st) (ax_live_signers st).
Definition with_gossip_node st (g : option GossipNode) : AdminContext :=
  mkAdminContext (ax_responder st) (ax_config st) (ax_signer st) g (ax_live_signers st).
Definition with_live st (live : gmap string (LiveSignerState OcspSigner)) : AdminContext :=
  mkAdminContext (ax_responder st) (ax_config st) (ax_signer st) (ax_gossip st) live.

(** A handler answers or refuses, and may change the context. *)
Abbreviation handler A := (io string (result Refusal A * AdminContext)).
Definition refuse {A} st (status : N) (detail : string) : handler A :=
  mret (Err (mkRefusal status detail), st).

(** *** Announcements (lib.rs) *)

Definition announce_bundle_scopes (gossip : GossipNode) (b : bytes) : GossipNode :=
  match from_bytes b with
  | Err _ => gossip
  | Ok bundle =>
      let producer_id := m_producer_id (b_manifest bundle) in
      let manifest_digest := sha256 (b_manifest_bytes bundle) in
      fold_left (fun gossip scope =>
        match announce_generation gossip producer_id (cs_issuer_key_hash scope) (cs_epoch scope)
                manifest_digest None with
        | Ok gossip' => gossip'
        | Err _ => gossip
        end) (m_ca_scopes (b_manifest bundle)) gossip
  end.

(** *** Live signers (state.rs) *)

Definition live_from_config (ca : CaConfig) : io string (LiveSignerState OcspSigner) :=
  material ← load_live_material ca;
  mret (mkLiveSignerState (ocsp_signer (EcdsaSigner (lm_key material)))
          (lm_responder_key_bytes material) (ca_validity_secs ca) (lm_responder_cert_der material)).

Definition reload_live_signer st (ca : CaConfig) : io string AdminContext :=
  if negb (String.eqb (ca_nonce_policy ca) "live") then mret st else
  live ← live_from_config ca;
  mret (with_live st (<[ca_label ca := live]> (ax_live_signers st))).

(** *** Signing (signing.rs) *)

Definition find_ca_label (c : Config) (label : string) : option CaConfig :=
  List.find (fun ca => String.eqb (ca_label ca) label) (c_ca c).

Definition signed_answer st (signed : list SignedScope) : SignedAnswer :=
  mkSignedAnswer ((fun s => (sc_label s, sc_epoch s, sc_entry_count s)) <$> signed)
    (bundle_count (rs_scope_map (ax_responder st))) (total_entries (rs_scope_map (ax_responder st))).

(** What both handlers do with the scopes they signed. *)
Definition serve_signed st (signed : list SignedScope) : handler SignedAnswer :=
  r ← io_try (reload (ax_responder st));
  match r with
  | Err _ => refuse st 500 "signed but reload failed"
  | Ok rs =>
      let st := with_responder st rs in
      let gossip := (fun g => fold_left (fun g s => announce_bundle_scopes g (sc_bytes s)) signed g)
                      <$> ax_gossip st in
      let st := with_gossip_node st gossip in
      mret (Ok (signed_answer st signed), st)
  end.

Definition sign_ca st auth (label : string) (ephemeral : P256SigningKey) (seed : bytes) :
    handler SignedAnswer :=
  match require_role auth Operator with
  | Err e => mret (Err e, st)
  | Ok _ =>
      if negb (needs_signing (ax_config st)) then refuse st 400 "server mode does not support signing"
      else match find_ca_label (ax_config st) label with
      | None => refuse st 404 "CA not found"
      | Some ca_config =>
          match ax_signer st with
          | None => refuse st 500 "signing context not initialized"
          | Some sources =>
              r ← io_try (sign_and_write_scope (ax_config st) sources ca_config ephemeral seed);
              match r with
              | Err _ => refuse st 500 "signing failed"
              | Ok signed => serve_signed st [signed]
              end
          end
      end
  end.

Definition sign_all st auth (ephemeral : string -> P256SigningKey) (seed : string -> bytes) :
    handler SignedAnswer :=
  match require_role auth Operator with
  | Err e => mret (Err e, st)
  | Ok _ =>
      if negb (needs_signing (ax_config st)) then refuse st 400 "server mode does not support signing"
      else match ax_signer st with
      | None => refuse st 500 "signing context not initialized"
      | Some sources =>
          r ← io_try (sign_and_write_all (ax_config st) sources ephemeral seed);
          match r with
          | Err _ => refuse st 500 "signing failed"
          | Ok signed => serve_signed st signed
          end
      end
  end.

Definition rotate_ca st auth (label : string) : handler string :=
  match require_role auth Administrator with
  | Err e => mret (Err e, st)
  | Ok _ =>
      match find_ca_label (ax_config st) label with
      | None => refuse st 404 "CA not found"
      | Some ca =>
          match ax_signer st with
          | None => refuse st 400 "rotation requires a signer node"
          | Some _ =>
              match (kr ← ca_key_rotation ca; kr_rotation_command kr) with
              | None => refuse st 400 "no rotation_command configured"
              | Some command =>
                  r ← io_try (run_rotation_command label command);
                  match r with
                  | Err _ => refuse st 500 "rotation command failed"
                  | Ok _ =>
                      r ← io_try (reload_live_signer st ca);
                      match r with
                      | Ok st' => mret (Ok label, st')
                      | Err _ => refuse st 500 "replacement material was rejected"
                      end
                  end
              end
          end
      end
  end.

(** *** Bundles (bundles.rs) *)

Definition reload_bundles st auth : handler (nat * N) :=
  match require_role auth Operator with
  | Err e => mret (Err e, st)
  | Ok _ =>
      r ← io_try (reload (ax_responder st));
      match r with
      | Err _ => refuse st 500 "reload failed"
      | Ok rs => mret (Ok (bundle_count (rs_scope_map rs), total_entries (rs_scope_map rs)),
                       with_responder st rs)
      end
  end.

Definition bad_request {A B} (detail : string) (r : result A B) : result Refusal B :=
  map_err (fun _ => mkRefusal 400 detail) r.

Definition inspect_bundle auth (body : bytes) : result Refusal (Manifest * bool * nat) :=
  require_role auth Operator ;;
  bundle ← bad_request "failed to parse bundle" (from_bytes body);
  Ok (b_manifest bundle, negb (bool_decide (b_seal_bytes bundle = [])), length (b_index bundle)).

Definition verify_bundle (storage : StorageConfig) auth (body : bytes) : io Refusal BundleVerdict :=
  io_lift (require_role auth Operator) ;;
  bundle ← io_lift (bad_request "failed to parse bundle" (from_bytes body));
  result ← io_lift (bad_request "invalid bundle structure" (Verify.verify_structure bundle));
  t ← read_clock;
  now ← io_lift (ok_or t (mkRefusal 500 "cannot determine verification time"));
  trust ← io_try (authenticate_bundle bundle storage now);
  let '(trust_status, signer_sha256) :=
    match trust with
    | Ok seal => ("authenticated"%string, Some (sv_signer_sha256 seal))
    | Err _ => ("failed"%string, None)
    end in
  mret (mkBundleVerdict result trust_status signer_sha256
    (String.eqb trust_status "authenticated" && vr_header_ok result && vr_manifest_ok result &&
     vr_index_digest_ok result && vr_data_digest_ok result && vr_sort_order_ok result &&
     vr_entry_bounds_ok result && vr_entry_count_matches result)).

Definition b64_decode (s : bytes) : result Refusal bytes :=
  bad_request "invalid base64" (base64_standard_decode s).

Definition diff_bundles auth (a b : bytes) : result Refusal DiffResult :=
  require_role auth Operator ;;
  a_bytes ← b64_decode a;
  b_bytes ← b64_decode b;
  a ← bad_request "failed to parse bundle A" (from_bytes a_bytes);
  b ← bad_request "failed to parse bundle B" (from_bytes b_bytes);
  Ok (diff a b).

Definition extract_entry auth (certid : string) (body : bytes) : result Refusal (option bytes) :=
  require_role auth Viewer ;;
  entry_key ← bad_request "invalid certid hex" (hex_decode certid);
  ensure (len entry_key =? 32) (mkRefusal 400 "entry key must be 32 bytes") ;;
  bundle ← bad_request "failed to parse bundle" (from_bytes body);
  Ok (Bundle.lookup bundle entry_key).

(** A delta of the request: decoded, parsed and verified. *)
Definition parse_delta (d_b64 : bytes) : result Refusal Bundle :=
  d_bytes ← b64_decode d_b64;
  delta ← bad_request "failed to parse delta" (from_bytes d_bytes);
  bad_request "delta failed verification" (Verify.verify_structure delta) ;;
  Ok delta.

Definition apply_deltas auth (base : bytes) (deltas : list bytes) : result Refusal ApplyResult :=
  require_role auth Operator ;;
  base_bytes ← b64_decode base;
  base ← bad_request "failed to parse base bundle" (from_bytes base_bytes);
  bad_request "base bundle failed verification" (Verify.verify_structure base) ;;
  deltas ← mapM parse_delta deltas;
  bad_request "apply failed" (apply base deltas).

(** *** Queries (query.rs) *)

(** The outer [None] is a panic of the lookup. *)
Definition ocsp_query st auth (serial issuer_name_hash issuer_key_hash : string)
    (prefer : list string) : option (result Refusal QueryAnswer) :=
  match (require_role auth Viewer ;;
         inh ← bad_request "invalid issuer_name_hash hex" (hex_decode issuer_name_hash);
         ikh ← bad_request "invalid issuer_key_hash hex" (hex_decode issuer_key_hash);
         serial ← bad_request "invalid serial hex" (hex_decode serial);
         Ok (inh, ikh, serial)) with
  | Err e => Some (Err e)
  | Ok (inh, ikh, serial) =>
      let certid_der := build_certid_der inh ikh serial in
      let parsed := mkParsedCertId (sha256 certid_der) certid_der inh ikh serial sha256_oid in
      hit ← Router.lookup (rs_scope_map (ax_responder st)) parsed (parse_preferred_algs prefer);
      Some (Ok match hit with
               | Some result => Found (lr_ca_label result) (len (lr_response_bytes result))
                                  (lr_nonce_policy result) (lr_window result)
               | None => NotFound
               end)
  end.
End api.

(** ** Roles *)

Section role_props.
Context {CR : Crates} {SC : SealCrates} {JS : Json} {OC : OcspCrates} {SG : SignCrates}.
Context {SM : SealMaking} {GC : GossipCrates} {GN : GossipNet}.
Context {RC : RotationCommand}.
Implicit Types (st : AdminContext) (auth : Authenticated).

Lemma require_role_Ok auth min u : require_role auth min = Ok u <-> rank min <= rank (au_role auth).
Proof.
  unfold require_role, has_at_least. destruct (N.leb_spec (rank min) (rank (au_role auth))), u; split;
    done || lia.
Qed.

Lemma require_role_Err auth min :
  rank (au_role auth) < rank min ->
  require_role auth min = Err (mkRefusal 403 "insufficient permissions").
Proof. intros H. unfold require_role, has_at_least. by rewrite (proj2 (N.leb_gt _ _) H). Qed.

Lemma serve_signed_Done st signed w r st' w' :
  serve_signed st signed w = (Done (r, st'), w') ->
  match r with
  | Ok _ => reload (ax_responder st) w = (Done (ax_responder st'), w')
  | Err _ => st' = st
  end.
Proof.
  unfold serve_signed, refuse. intros H. apply io_bind_Done in H as (o & w1 & Hr%io_try_Done & H).
  by destruct o as [rs|e]; inv_io.
Qed.

(** The operations of the admin API that change state are guarded.  Without
    the rank of an operator (of an administrator, for key rotation) a request is
    refused with 403 and neither the node nor the disk is touched.  A signing
    request that answers has published a bundle for the configured CA on a node
    whose mode signs and has reloaded the responder after it; one that is refused
    leaves the responder serving what it served. *)
Theorem admin_operations_guarded st auth label ephemeral seed w :
  (rank (au_role auth) < rank Operator ->
     sign_ca st auth label ephemeral seed w =
       (Done (Err (mkRefusal 403 "insufficient permissions"), st), w) /\
     reload_bundles st auth w = (Done (Err (mkRefusal 403 "insufficient permissions"), st), w)) /\
  (rank (au_role auth) < rank Administrator ->
     rotate_ca st auth label w = (Done (Err (mkRefusal 403 "insufficient permissions"), st), w)) /\
  (forall r st' w', sign_ca st auth label ephemeral seed w = (Done (r, st'), w') ->
     match r with
     | Ok _ => needs_signing (ax_config st) = true /\
         exists ca sources signed w1, find_ca_label (ax_config st) label = Some ca /\
           ax_signer st = Some sources /\
           sign_and_write_scope (ax_config st) sources ca ephemeral seed w = (Done signed, w1) /\
           reload (ax_responder st) w1 = (Done (ax_responder st'), w')
     | Err _ => st' = st
     end).
Proof.
  split; [|split].
  - intros Hr. unfold sign_ca, reload_bundles. by rewrite (require_role_Err _ _ Hr).
  - intros Hr. unfold rotate_ca. by rewrite (require_role_Err _ _ Hr).
  - intros r st' w' H. unfold sign_ca, refuse in H.
    destruct (require_role auth Operator); [|by inv_io].
    destruct (needs_signing (ax_config st)) eqn:En; cbn [negb] in H; [|by inv_io].
    destruct (find_ca_label (ax_config st) label) as [ca|] eqn:Ef; [|by inv_io].
    destruct (ax_signer st) as [sources|] eqn:Es; [|by inv_io].
    apply io_bind_Done in H as (o & w1 & Ho%io_try_Done & H).
    destruct o as [signed|e]; [|by inv_io]. apply serve_signed_Done in H.
    destruct r; [|done]. split; [done|]. by exists ca, sources, signed, w1.
Qed.

(** Rotation installs only a key that belongs to the responder.  When a
    rotation request answers, the live signer of that CA was loaded after the
    rotation command ran, with a responder certificate valid at that moment that
    holds the key's public part (or as the issuer's own key); the live signers of
    the other CAs are untouched.  When the command fails or the replacement is
    rejected, every signer stays as it was. *)
Theorem rotation_installs_bound_key st auth label w r st' w' :
  rotate_ca st auth label w = (Done (r, st'), w') ->
  match r with
  | Err _ => st' = st
  | Ok _ => Administrator = au_role auth /\
      exists ca, find_ca_label (ax_config st) label = Some ca /\
        (ca_nonce_policy ca <> "live"%string -> st' = st) /\
        (ca_nonce_policy ca = "live"%string -> exists m clock,
           responder_bound (is_demo ca) m clock /\
           ax_live_signers st' !! label = Some (mkLiveSignerState
             (ocsp_signer (EcdsaSigner (lm_key m))) (lm_responder_key_bytes m)
             (ca_validity_secs ca) (lm_responder_cert_der m)) /\
           forall other, other <> label -> ax_live_signers st' !! other = ax_live_signers st !! other)
  end.
Proof.
  intros H. unfold rotate_ca, refuse in H.
  destruct (require_role auth Administrator) eqn:Er; [|by inv_io]. apply require_role_Ok in Er.
  destruct (find_ca_label (ax_config st) label) as [ca|] eqn:Ef; [|by inv_io].
  destruct (ax_signer st); [|by inv_io]. destruct (ca_key_rotation ca ≫= _); [|by inv_io].
  apply io_bind_Done in H as (o & w1 & _ & H). destruct o; [|by inv_io].
  apply io_bind_Done in H as (o & w2 & Ho%io_try_Done & H). destruct o as [st1|e]; [|by inv_io].
  inv_io. split; [by destruct (au_role auth)|]. exists ca. split; [done|].
  apply find_some in Ef as [_ Hl%String.eqb_eq]. unfold reload_live_signer in Ho.
  destruct (String.eqb_spec (ca_nonce_policy ca) "live"); cbn [negb] in Ho.
  - split; [done|]. intros _. unfold live_from_config in Ho. inv_io.
    rename select (load_live_material _ _ = _) into Hm.
    apply load_live_material_Done in Hm as (Hb & _ & _).
    eexists _, _. split; [exact Hb|]. cbn [with_live ax_live_signers]. rewrite Hl.
    split; [by rewrite lookup_insert_eq|]. intros other Hne. by rewrite lookup_insert_ne.
  - inv_io. done.
Qed.

(** The verdict on an uploaded bundle is authentication.  It is positive only
    if the upload parses, passes structural verification and its seal is
    authenticated under the configured anchors and pins at the time of the check,
    even on a node that serves unauthenticated bundles; the signer it reports is
    the authenticated one; and verifying changes no file. *)
Theorem upload_verdict_sound storage auth body w v w' :
  verify_bundle storage auth body w = (Done v, w') ->
  rank Operator <= rank (au_role auth) /\ same_files w w' /\
  exists b now w1, from_bytes body = Ok b /\ Verify.verify_structure b = Ok (bv_result v) /\
    Some now ∈ w_clock w /\ same_files w w1 /\
    (bv_overall_ok v = true -> exists seal, authenticated b storage w1 now seal /\
       bv_signer_sha256 v = Some (sv_signer_sha256 seal)).
Proof.
  unfold verify_bundle. intros H. apply io_bind_Done in H as ([] & w0 & [Hr ->]%io_lift_Done & H).
  apply require_role_Ok in Hr. split; [done|]. unfold bad_request in H.
  apply io_bind_Done in H as (b & w1 & [Hb%map_err_Ok ->]%io_lift_Done & H).
  apply io_bind_Done in H as (result & w2 & [Hs%map_err_Ok ->]%io_lift_Done & H).
  apply io_bind_Done in H as (t & w3 & Ht & H).
  apply io_bind_Done in H as (now & w4 & [Hn%ok_or_Ok ->]%io_lift_Done & H). subst t.
  apply io_bind_Done in H as (trust & w5 & Ha & H).
  pose proof (reads_Done _ _ _ _ reads_clock Ht) as F1.
  pose proof (reads_Done _ _ _ _ (reads_try _ (authenticate_reads b storage now)) Ha) as F2.
  apply read_clock_Some in Ht. apply io_try_Done in Ha.
  assert (same_files w w5) by (by etrans).
  destruct trust as [seal|e]; apply io_ret_Done in H as [-> ->]; (split; [done|]).
  - apply authenticate_bundle_Done in Ha as [Ha _].
    exists b, now, w3. split_and!; try done; [rewrite Ht; by left|]. intros _. by exists seal.
  - exists b, now, w3. split_and!; try done. rewrite Ht. by left.
Qed.
End role_props.

(** ** Forwarding clients *)

Section forward_props.
Context {HC : HttpClients}.
Implicit Types (c : Config) (ca : CaConfig).

(** What the client of a CA is built from. *)
Definition forward_policy (w : World) ca (url : string) (builder : ForwardClient RootCert) : Prop :=
  cl_timeout_secs builder = 10 /\ cl_follow_redirects builder = false /\
  match ca_forward_ca ca with
  | None => cl_roots builder = BuiltInRoots
  | Some p => Config.starts_with "https://" url = true /\ exists pem roots,
      w_files w !! p = Some pem /\ from_pem_bundle pem = Ok roots /\ roots <> [] /\
      cl_roots builder = OnlyRoots roots
  end.

Definition client_of (w : World) ca (client : option (ForwardClient RootCert)) : Prop :=
  match ca_forward_to ca with
  | None => client = None
  | Some url => exists builder cl, client = Some cl /\ client_build builder = Ok cl /\
      forward_policy w ca url builder
  end.

Lemma forward_client_Done ca url w0 w cl w' :
  same_files w0 w -> forward_client ca url w = (Done cl, w') ->
  same_files w0 w' /\
  exists builder, client_build builder = Ok cl /\ forward_policy w0 ca url builder.
Proof.
  intros Hs. unfold forward_client, failing, forward_policy. intros H.
  destruct (ca_forward_ca ca) as [p|].
  - inv_io. rename select (read_file _ _ = _) into Hr. apply read_file_Done in Hr as [Hf Hs'].
    split; [by etrans|]. eexists. split; [eassumption|]. split; [done|]. split; [done|].
    split; [done|]. eexists _, _. split; [by destruct Hs as [<- _ _]|]. split; [eassumption|].
    split; [|done]. rename select (negb _ = true) into Hn.
    apply negb_true_iff, bool_decide_eq_false in Hn. by intros ->.
  - inv_io. split; [done|]. eexists. by split.
Qed.

(** The clients after some of the CAs. *)
Record clients_for (w : World) (cas : list CaConfig) (labels : gset string)
    (clients : gmap string (ForwardClient RootCert)) : Prop := {
  cf_labels : labels = list_to_set (ca_label <$> cas);
  cf_nodup : NoDup (ca_label <$> cas);
  cf_clients ca : ca ∈ cas -> client_of w ca (clients !! ca_label ca);
  cf_keys label : is_Some (clients !! label) -> label ∈ ca_label <$> cas;
}.

Lemma clients_for_snoc w cas labels clients ca o :
  clients_for w cas labels clients -> ca_label ca ∉ ca_label <$> cas -> client_of w ca o ->
  clients_for w (cas ++ [ca]) ({[ca_label ca]} ∪ labels)
    (partial_alter (fun _ => o) (ca_label ca) clients).
Proof.
  intros [Hl Hn Hc Hk] Hd Ho. split.
  - rewrite fmap_app, list_to_set_app_L, Hl. cbn. set_solver.
  - rewrite fmap_app. apply NoDup_app. split_and!; [done| |apply NoDup_singleton].
    intros x Hx ->%list_elem_of_singleton. done.
  - intros ca' [Hin|Hin]%elem_of_app.
    + rewrite lookup_partial_alter_ne; [by apply Hc|]. intros E. apply Hd. rewrite E.
      by apply list_elem_of_fmap_2.
    + apply list_elem_of_singleton in Hin as ->. by rewrite lookup_partial_alter_eq.
  - intros label Hlabel. rewrite fmap_app. apply elem_of_app.
    destruct (decide (label = ca_label ca)) as [->|E]; [right; by left|left].
    rewrite lookup_partial_alter_ne in Hlabel by done. by apply Hk.
Qed.

Lemma add_forward_client_Done w0 cas labels clients ca w acc w' :
  same_files w0 w -> clients_for w0 cas labels clients ->
  add_forward_client (labels, clients) ca w = (Done acc, w') ->
  same_files w0 w' /\ clients_for w0 (cas ++ [ca]) acc.1 acc.2.
Proof.
  intros Hs Hcf H. unfold add_forward_client in H.
  apply io_bind_Done in H as ([] & w1 & [Hd%ensure_Ok ->]%io_lift_Done & H).
  apply bool_decide_eq_true in Hd. rewrite (cf_labels _ _ _ _ Hcf), elem_of_list_to_set in Hd.
  destruct (ca_forward_to ca) as [url|] eqn:Ef.
  - apply io_bind_Done in H as (cl & w2 & Hcl & H). apply io_ret_Done in H as [-> ->].
    destruct (forward_client_Done _ _ _ _ _ _ Hs Hcl) as (Hs2 & builder & Hb & Hp).
    split; [done|]. apply (clients_for_snoc _ _ _ _ _ (Some cl)); [done|done|].
    unfold client_of. rewrite Ef. eauto.
  - apply io_ret_Done in H as [-> ->]. split; [done|]. cbn [fst snd].
    assert (clients !! ca_label ca = None) as Hnone
      by (apply eq_None_not_Some; by intros ?%(cf_keys _ _ _ _ Hcf)).
    rewrite <- (delete_id clients (ca_label ca)) by done.
    apply (clients_for_snoc _ _ _ _ _ None); [done|done|]. unfold client_of. by rewrite Ef.
Qed.

Lemma add_forward_clients_Done w0 l cas labels clients w acc w' :
  same_files w0 w -> clients_for w0 cas labels clients ->
  io_fold add_forward_client (labels, clients) l w = (Done acc, w') ->
  same_files w0 w' /\ clients_for w0 (cas ++ l) acc.1 acc.2.
Proof.
  revert cas labels clients w. induction l as [|ca l IH]; intros cas labels clients w Hs Hc H;
    cbn [io_fold] in H.
  - apply io_ret_Done in H as [-> ->]. by rewrite app_nil_r.
  - apply io_bind_Done in H as ([labels1 clients1] & w1 & H1 & H).
    destruct (add_forward_client_Done _ _ _ _ _ _ _ _ Hs Hc H1) as [Hs1 Hc1].
    rewrite cons_middle, app_assoc. by eapply IH.
Qed.

(** Forwarding trusts, for each CA, exactly what is configured for it.  When
    the clients are built, the labels are distinct, every CA that forwards has
    its own client and no other label has one; the client waits ten seconds,
    follows no redirect, and trusts the certificates of the CA's own root file
    and nothing else (a file that parses and is not empty, on an https target),
    or the built-in roots if none is configured. *)
Theorem forward_clients_exact c w clients w' :
  build_forward_clients c w = (Done clients, w') ->
  NoDup (ca_label <$> c_ca c) /\ same_files w w' /\
  (forall ca, ca ∈ c_ca c -> client_of w ca (clients !! ca_label ca)) /\
  (forall label, is_Some (clients !! label) -> label ∈ ca_label <$> c_ca c).
Proof.
  unfold build_forward_clients. intros H. apply io_bind_Done in H as ([labels cl] & w1 & H1 & H).
  apply io_ret_Done in H as [-> ->].
  apply (add_forward_clients_Done w _ []) in H1 as [Hs [_ Hn Hc Hk]]; [done|done|].
  split; [done|constructor|by intros ? ?%elem_of_nil|].
  intros label [x Hx]. by rewrite lookup_empty in Hx.
Qed.
End forward_props.

(** ** The CertID of a query *)

Section certid_props.

Lemma push_der_length_encode n : n < 65536 -> push_der_length n = encode_der_length n.
Proof.
  intros Hn. unfold push_der_length, encode_der_length.
  destruct (n <? 128); [done|]. destruct (n <? 256); [done|].
  rewrite (proj2 (N.ltb_lt n 65536)) by done. do 3 f_equal.
  rewrite (N.land_ones n 8 : N.land n 255 = _). apply (inj Byte.to_N). rewrite !to_N_byte_of_N.
  change (2 ^ 8) with 256. by rewrite N.Div0.mod_mod.
Qed.

(** The contents of the INTEGER: the number, with a zero in front of a high bit. *)
Definition positive_integer (serial : bytes) : bytes :=
  match serial with
  | b :: _ => if 128 <=? Byte.to_N b then x00 :: serial else serial
  | [] => []
  end.

Lemma der_integer_tlv serial :
  len serial < 65535 -> der_integer serial = tlv x02 (positive_integer serial).
Proof.
  intros Hl. unfold der_integer, positive_integer, tlv. destruct serial as [|b serial].
  - by rewrite push_der_length_encode.
  - rewrite high_bit. destruct (128 <=? Byte.to_N b).
    + rewrite len_cons in *. rewrite !push_der_length_encode by lia. rewrite !len_cons. do 2 f_equal.
      f_equal. lia.
    + by rewrite push_der_length_encode by lia.
Qed.

Lemma len_positive_integer serial : len serial <= len (positive_integer serial) <= len serial + 1.
Proof. destruct serial as [|b s]; cbn; [lia|]. case_match; rewrite ?len_cons; lia. Qed.

Lemma len_tlv tag content : len content < 65536 -> len (tlv tag content) <= len content + 4.
Proof.
  intros Hl. unfold tlv, encode_der_length. rewrite !len_app.
  rewrite (proj2 (N.ltb_lt _ _) Hl). change (len [tag]) with 1.
  destruct (_ <? 128); [|destruct (_ <? 256)];
    [change (len [_]) with 1|change (len [_; _]) with 2|change (len [_; _; _]) with 3]; lia.
Qed.

Lemma build_certid_der_tlv inh ikh serial :
  len inh + len ikh + len serial < 65500 ->
  build_certid_der inh ikh serial =
  tlv x30 (sha256_algorithm_der ++ tlv x04 inh ++ tlv x04 ikh ++ tlv x02 (positive_integer serial)) /\
  len (sha256_algorithm_der ++ tlv x04 inh ++ tlv x04 ikh ++ tlv x02 (positive_integer serial)) < 65536.
Proof.
  intros Hl. unfold build_certid_der, der_octet_string.
  rewrite der_integer_tlv, (push_der_length_encode (len inh)), (push_der_length_encode (len ikh)) by lia.
  fold (tlv x04 inh) (tlv x04 ikh).
  pose proof (len_positive_integer serial). pose proof (len_tlv x04 inh ltac:(lia)).
  pose proof (len_tlv x04 ikh ltac:(lia)).
  pose proof (len_tlv x02 (positive_integer serial) ltac:(lia)).
  assert (len sha256_algorithm_der = 15) as E by done.
  rewrite push_der_length_encode by lia. split; [|rewrite !len_app; lia].
  match goal with |- _ = tlv x30 ?body => change (tlv x30 body) with
    ([x30] ++ encode_der_length (len body) ++ body) end.
  rewrite !len_app. by rewrite !N.add_assoc.
Qed.

(** The CertID a query is looked up with is the DER of the fields given.
    Read back, it is a SEQUENCE of the SHA-256 algorithm, the two hashes exactly
    as given and an INTEGER that is not negative and has the value of the serial
    number, with nothing left over; up to contents of 65,500 bytes, beyond which
    the two length bytes would overflow. *)
Theorem certid_der_roundtrip inh ikh serial :
  len inh + len ikh + len serial < 65500 ->
  exists body r1 r2 r3 algorithm number,
    read_tlv (build_certid_der inh ikh serial) = Some (x30, body, []) /\
    read_tlv body = Some (x30, algorithm, r1) /\ read_tlv algorithm = Some (x06, sha256_oid_bytes, NULL_DER) /\
    read_tlv r1 = Some (x04, inh, r2) /\ read_tlv r2 = Some (x04, ikh, r3) /\
    read_tlv r3 = Some (x02, number, []) /\ be_decode number = be_decode serial /\
    match number with b :: _ => Byte.to_N b < 128 | [] => serial = [] end.
Proof.
  intros Hl. destruct (build_certid_der_tlv inh ikh serial Hl) as [-> Hb].
  pose proof (len_positive_integer serial) as Hp.
  eexists _, _, _, _, _, _. split; [apply read_tlv_end; lia|].
  split; [apply (read_tlv_tlv x30 [x06; x09; x60; x86; x48; x01; x65; x03; x04; x02; x01; x05; x00]); done|].
  split; [reflexivity|]. split; [apply read_tlv_tlv; lia|]. split; [apply read_tlv_tlv; lia|].
  split; [apply read_tlv_end; lia|]. destruct serial as [|b serial]; [done|]. cbn [positive_integer].
  destruct (N.leb_spec 128 (Byte.to_N b)); [|done]. by rewrite be_decode_cons.
Qed.
End certid_props.

(** ** Witnesses *)

Module ToyApi.
#[export] Instance rotation : RotationCommand := { sh_output _ := mret (mkCommandOutput true []) }.
#[export] Instance clients : HttpClients := {|
  RootCert := bytes;
  from_pem_bundle b := Ok [b];
  client_build c := Ok c;
|}.
Definition ca_config : CaConfig :=
  mkCaConfig "alpha" None "live" "partial" None None (Some "https://up"%string) false
    (Some ["roots"%string]) None
    default_batch_interval default_validity_secs default_jitter_secs "dual"
    default_max_age_fraction 0 default_urgent_revocation None None default_sig_alg
    (Some (Config.File ["key"%string])) (Some ["responder"%string])
    (Some (mkKeyRotationConfigToml 30 24 (Some "rotate"%string))) None None.
Definition config : Config := mkConfig sample_server sample_storage [ca_config] None.
Definition world : World :=
  put_file ["roots"%string] [x2a] ToyOrchestrate.world.
Definition admin : Authenticated := mkAuthenticated "root" Administrator.
Definition context : @AdminContext ToyGossip.crates ToyNode.net :=
  mkAdminContext (mkResponderState (mkScopeMap ∅ []) config store1 edge_guard) config (Some ∅)
    None ∅.
Abbreviation rotate := (@rotate_ca ToyMaking.seal_crates ToySign.crates ToyMaking.making ToyGossip.crates
  ToyNode.net rotation).
End ToyApi.

Lemma rotation_installs_bound_key_witness :
  exists r st' w', ToyApi.rotate ToyApi.context ToyApi.admin "alpha" ToyApi.world
      = (Done (Ok r, st'), w') /\ is_Some (ax_live_signers st' !! "alpha"%string).
Proof.
  destruct (is_done_inv (ToyApi.rotate ToyApi.context ToyApi.admin "alpha") ToyApi.world)
    as ([r st'] & w' & E); [vm_compute; reflexivity|].
  pose proof (@rotation_installs_bound_key ToyMaking.seal_crates ToySign.crates ToyMaking.making
    ToyGossip.crates ToyNode.net ToyApi.rotation _ _ _ _ _ _ _ E) as H.
  assert (match (ToyApi.rotate ToyApi.context ToyApi.admin "alpha" ToyApi.world).1 with
    | Done (Ok _, _) => true | _ => false end = true) as Hok by (vm_compute; reflexivity).
  rewrite E in Hok. cbn [fst] in Hok. destruct r as [label|e]; [|discriminate Hok].
  destruct H as (_ & ca & Hf & _ & Hl). injection Hf as <-.
  destruct (Hl eq_refl) as (m & clock & _ & Hs & _).
  exists label, st', w'. split; [exact E|]. eexists. exact Hs.
Defined.

Lemma upload_verdict_sound_witness :
  exists v w' b w1 seal, @verify_bundle Toy.crates ToySeal.seal_crates sample_storage ToyApi.admin
      (served_file 6) (set_clock [Some 150] trusting_world) = (Done v, w') /\
    @from_bytes Toy.crates (served_file 6) = Ok b /\
    @authenticated Toy.crates ToySeal.seal_crates b sample_storage w1 150 seal.
Proof.
  destruct (is_done_inv (@verify_bundle Toy.crates ToySeal.seal_crates sample_storage ToyApi.admin
    (served_file 6)) (set_clock [Some 150] trusting_world)) as (v & w' & E); [vm_compute; reflexivity|].
  assert (bv_overall_ok v = true) as Hv.
  { apply (f_equal (fun o => match o.1 with Done v => bv_overall_ok v | _ => false end)) in E.
    cbn [fst] in E. rewrite <- E. vm_compute. reflexivity. }
  destruct (@upload_verdict_sound Toy.crates ToySeal.seal_crates _ _ _ _ _ _ E)
    as (_ & _ & b & now & w1 & Hb & _ & Hn & _ & Ha).
  apply list_elem_of_singleton in Hn. injection Hn as ->. destruct (Ha Hv) as (seal & Hs & _).
  exists v, w', b, w1, seal. split; [exact E|]. split; [exact Hb|exact Hs].
Defined.

Lemma forward_clients_exact_witness :
  exists clients w', @build_forward_clients ToyApi.clients ToyApi.config ToyApi.world
      = (Done clients, w') /\
    @client_of ToyApi.clients ToyApi.world ToyApi.ca_config (clients !! "alpha"%string).
Proof.
  destruct (is_done_inv (@build_forward_clients ToyApi.clients ToyApi.config) ToyApi.world)
    as (clients & w' & E); [vm_compute; reflexivity|].
  exists clients, w'. split; [exact E|].
  apply (@forward_clients_exact ToyApi.clients _ _ _ _ E). left.
Defined.

Lemma certid_der_roundtrip_witness :
  exists body r1 r2 r3 algorithm number,
    read_tlv (build_certid_der [x01] [x02] [x80]) = Some (x30, body, []) /\
    read_tlv body = Some (x30, algorithm, r1) /\ read_tlv r1 = Some (x04, [x01], r2) /\
    read_tlv r2 = Some (x04, [x02], r3) /\ read_tlv r3 = Some (x02, number, []) /\
    be_decode number = 128.
Proof.
  destruct (certid_der_roundtrip [x01] [x02] [x80] eq_refl)
    as (body & r1 & r2 & r3 & algorithm & number & H1 & H2 & _ & H3 & H4 & H5 & H6 & _).
  exists body, r1, r2, r3, algorithm, number. split; [exact H1|]. split; [exact H2|].
  split; [exact H3|]. split; [exact H4|]. split; [exact H5|exact H6].
Defined.
