(* ===== verification/LdapRecord.v ===== *)
(** * LdapRecord: certificate records of a directory (hoike-sign/src/dogtag_sync.rs)

    The parsing of the attributes of a certificate record: serial numbers in
    decimal and in hexadecimal, times, revocation reasons and the status.  Main
    results: both spellings of a serial number give the one canonical byte
    string the index is built from, a date is converted exactly, and a
    certificate counts as good only if its record says that it is valid.  Text
    is UTF-8 bytes. *)

From stdpp Require Import base tactics list gmap strings.
From Stdlib Require Import NArith ZArith Lia.
From S2P Require Import Prelude Slices Crates Text AhuError CoreError Storage SignError Calendar Times.
From S2P Require Import SignCrates Source SealDer.
Local Open Scope N_scope.

(** ** Numbers in text *)

(** [u8::is_ascii_digit]. *)
Definition is_ascii_digit (c : byte) : bool := (48 <=? Byte.to_N c) && (Byte.to_N c <=? 57).

Definition decimal (ds : bytes) : N :=
  fold_left (fun acc c => acc * 10 + (Byte.to_N c - 48)) ds 0.

(** [str::parse] at an unsigned type with values below [lim]: a sign is allowed. *)
Definition parse_unsigned (lim : N) (s : bytes) : option N :=
  let ds := match s with x2b :: r => r | _ => s end in
  if bool_decide (ds = []) || negb (forallb is_ascii_digit ds) then None
  else if decimal ds <? lim then Some (decimal ds) else None.

(** The crate num_bigint, with [BigUint] as [N]. *)
Class BigUint := {
  (** [BigUint::parse_bytes(.., 10)] *)
  biguint_parse_bytes : bytes -> option N;
  biguint_to_bytes_be : N -> bytes;
}.

(** [parse_decimal_serial]. *)
Definition parse_decimal_serial {BU : BigUint} (dec : bytes) : option bytes :=
  if bool_decide (dec = []) || (49 <? len dec) || negb (forallb is_ascii_digit dec) then None else
  n ← biguint_parse_bytes dec;
  let b := biguint_to_bytes_be n in
  if 20 <? len b then None
  else if bool_decide (b = []) then Some [x00] else Some b.

(** [hex.strip_prefix("0x").or(hex.strip_prefix("0X")).unwrap_or(hex)]. *)
Definition strip_0x (hex : bytes) : bytes :=
  match hex with
  | x30 :: x78 :: r => r
  | x30 :: x58 :: r => r
  | _ => hex
  end.

(** [parse_hex_serial].  [strip_zeros] is the slice from the first byte that is
    not zero, or from the last. *)
Definition parse_hex_serial {CR : Crates} (hex : bytes) : option bytes :=
  let hex := strip_0x hex in
  let hex := if negb (len hex mod 2 =? 0) then x30 :: hex else hex in
  if (40 <? len hex) || bool_decide (hex = []) then None else
  match hex_decode (String.string_of_list_byte hex) with
  | Ok b => Some (strip_zeros b)
  | Err _ => None
  end.

(** [crl_reason_from_u32]. *)
Definition crl_reason_from_u32 (code : N) : option CrlReason :=
  match code with
  | 0 => Some Unspecified
  | 1 => Some KeyCompromise
  | 2 => Some CaCompromise
  | 3 => Some AffiliationChanged
  | 4 => Some Superseded
  | 5 => Some CessationOfOperation
  | 6 => Some CertificateHold
  | 8 => Some RemoveFromCRL
  | 9 => Some PrivilegeWithdrawn
  | 10 => Some AaCompromise
  | _ => None
  end.

(** ** Times *)

Definition i64_lim : N := 2 ^ 63.

(** [s.strip_suffix('Z').unwrap_or(s)]. *)
Definition strip_z (s : bytes) : bytes :=
  match rev s with x5a :: r => rev r | _ => s end.

(** [digits[a..b].parse::<i64>().ok()]. *)
Definition num (digits : bytes) (a b : nat) : option Z :=
  Z.of_N <$> parse_unsigned i64_lim (take (b - a) (drop a digits)).

(** The days from the epoch to a civil date; divisions truncate. *)
Definition days_from_civil (year month day : Z) : Z :=
  (let y := if month <=? 2 then year - 1 else year in
   let era := Z.quot (if 0 <=? y then y else y - 399) 400 in
   let yoe := y - era * 400 in
   let doy := Z.quot (153 * (if 2 <? month then month - 3 else month + 9) + 2) 5 + day - 1 in
   let doe := yoe * 365 + Z.quot yoe 4 - Z.quot yoe 100 + doy in
   era * 146097 + doe - 719468)%Z.

(** [parse_generalized_time]. *)
Definition parse_generalized_time (s : bytes) : option N :=
  let s := trim s in
  if (13 <=? len s) && negb (len s =? 14) && forallb is_ascii_digit s then
    (fun ms => ms / 1000) <$> parse_unsigned u64_lim s
  else
  let digits := strip_z s in
  if negb (len digits =? 14) || negb (forallb is_ascii_digit digits) then None else
  year ← num digits 0 4;
  month ← num digits 4 6;
  day ← num digits 6 8;
  hour ← num digits 8 10;
  min ← num digits 10 12;
  sec ← num digits 12 14;
  if (negb ((1 <=? month) && (month <=? 12)) || negb ((1 <=? day) && (day <=? 31)) ||
      (23 <? hour) || (59 <? min) || (60 <? sec))%Z
  then None else
  let secs := (days_from_civil year month day * 86400 + hour * 3600 + min * 60 + sec)%Z in
  if (0 <=? secs)%Z then Some (Z.to_N secs) else None.

(** ** Records *)

(** [StoredRecord]. *)
Record StoredRecord : Type := mkStoredRecord {
  sr_serial : bytes;
  sr_revoked : option (N * option N);
  sr_excluded : bool;
  sr_not_after : option N;
}.
#[export] Instance StoredRecord_eq_dec : EqDecision StoredRecord.
Proof. solve_decision. Defined.

(** [StoredRecord::status]. *)
Definition record_status (r : StoredRecord) : CertificateStatus :=
  match sr_revoked r with
  | None => Good
  | Some (revocation_time, reason) => Revoked revocation_time (code ← reason; crl_reason_from_u32 code)
  end.

(** [SearchEntry] of ldap3: its text attributes, in the order of the map. *)
Record SearchEntry : Type := mkSearchEntry { se_attrs : list (bytes * list bytes) }.

(** [u8::to_ascii_lowercase] and [str::eq_ignore_ascii_case]. *)
Definition to_ascii_lowercase (c : byte) : N :=
  let n := Byte.to_N c in if (65 <=? n) && (n <=? 90) then n + 32 else n.
Definition eq_ignore_ascii_case (a b : bytes) : bool :=
  bool_decide (to_ascii_lowercase <$> a = to_ascii_lowercase <$> b).

(** The closure [attr] of [parse_cert_entry]: an attribute with one value. *)
Definition attr (entry : SearchEntry) (name : string) : option bytes :=
  match List.find (fun '(k, _) => eq_ignore_ascii_case k (text name)) (se_attrs entry) with
  | Some (_, [v]) => Some v
  | _ => None
  end.

Definition or_else {A} (a b : option A) : option A := match a with Some x => Some x | None => b end.

(** The serial number of a record. *)
Definition entry_serial {CR : Crates} {BU : BigUint} (entry : SearchEntry) : option bytes :=
  or_else (s ← attr entry "cn"; parse_decimal_serial s)
    (s ← attr entry "serialno";
     if starts_with (text "0x") s || starts_with (text "0X") s
     then parse_hex_serial s else parse_decimal_serial s).

(** The time and the reason of a revocation. *)
Definition entry_revocation (entry : SearchEntry) : sign_result (N * option N) :=
  time ← ok_or (s ← attr entry "revokedOn"; or_else (parse_unsigned u64_lim s) (parse_generalized_time s))
    (SignConfig "missing or invalid revocation time");
  reason ← match attr entry "revReason" with
           | None => Ok None
           | Some s =>
               match (v ← parse_unsigned u32_lim s; _ ← crl_reason_from_u32 v; Some v) with
               | Some v => Ok (Some v)
               | None => Err (SignConfig "invalid revocation reason")
               end
           end;
  Ok (time / 1000, reason).

(** [parse_cert_entry]. *)
Definition parse_cert_entry {CR : Crates} {BU : BigUint} (entry : SearchEntry) :
    sign_result (option StoredRecord) :=
  serial ← ok_or (entry_serial entry) (SignConfig "missing or invalid certificate serial");
  status ← ok_or (attr entry "certStatus") (SignConfig "missing certificate status");
  let not_after := s ← attr entry "notAfter"; parse_generalized_time s in
  if bool_decide (status = text "VALID") then
    Ok (Some (mkStoredRecord serial None false not_after))
  else if bool_decide (status = text "INVALID") || bool_decide (status = text "EXPIRED") then
    Ok (Some (mkStoredRecord serial None true not_after))
  else if bool_decide (status = text "REVOKED") || bool_decide (status = text "REVOKED_EXPIRED") then
    revoked ← entry_revocation entry;
    Ok (Some (mkStoredRecord serial (Some revoked) false not_after))
  else Err (SignConfig "unknown certificate status").

(** ** Serial numbers *)

(** The byte strings that spell a number without needless zeros in front. *)
Definition canonical (s : bytes) : Prop := s = [x00] \/ exists b r, s = b :: r /\ b <> x00.

(** What num_bigint documents of the two functions on digits. *)
Class BigUintSpec (BU : BigUint) : Prop := {
  biguint_parse_digits ds : ds <> [] -> forallb is_ascii_digit ds = true ->
    biguint_parse_bytes ds = Some (decimal ds);
  biguint_value n : be_decode (biguint_to_bytes_be n) = n;
  biguint_canonical n : canonical (biguint_to_bytes_be n);
}.

Definition hex_digit (c : byte) : option N :=
  let n := Byte.to_N c in
  if (48 <=? n) && (n <=? 57) then Some (n - 48)
  else if (97 <=? n) && (n <=? 102) then Some (n - 87)
  else if (65 <=? n) && (n <=? 70) then Some (n - 55)
  else None.

(** The number hexadecimal digits spell. *)
Definition hex_value (ds : bytes) : N := fold_left (fun acc c => acc * 16 + default 0 (hex_digit c)) ds 0.

Definition hex_digits (ds : bytes) : bool := forallb (fun c => bool_decide (is_Some (hex_digit c))) ds.

(** [hex::decode] accepts digits of either case, two for each byte. *)
Class HexDecodeSpec (CR : Crates) : Prop := {
  hex_decode_Ok s b : hex_decode (String.string_of_list_byte s) = Ok b ->
    hex_digits s = true /\ len s = 2 * len b /\ be_decode b = hex_value s;
  hex_decode_total s : hex_digits s = true -> len s mod 2 = 0 ->
    exists b, hex_decode (String.string_of_list_byte s) = Ok b;
}.

Lemma be_decode_ge b r : b <> x00 -> 256 ^ len r <= be_decode (b :: r).
Proof.
  intros Hb. rewrite be_decode_cons. assert (Byte.to_N b <> 0) by (by destruct b).
  pose proof (pow256_pos (len r)). nia.
Qed.

Lemma be_decode_len_lt b r n : b <> x00 -> be_decode (b :: r) < 256 ^ n -> len r < n.
Proof.
  intros Hb Hv. apply (N.pow_lt_mono_r_iff 256); [done|].
  eapply N.le_lt_trans; [by apply be_decode_ge|done].
Qed.

Lemma be_decode_inj s1 s2 : len s1 = len s2 -> be_decode s1 = be_decode s2 -> s1 = s2.
Proof.
  intros Hl Hv. rewrite <- (be_encode_decode s1), <- (be_encode_decode s2), Hv.
  unfold len in Hl. f_equal. lia.
Qed.

Lemma canonical_unique s1 s2 :
  canonical s1 -> canonical s2 -> be_decode s1 = be_decode s2 -> s1 = s2.
Proof.
  assert (forall b r s, b <> x00 -> canonical s -> be_decode (b :: r) = be_decode s ->
    len s <= len (b :: r)) as Hle.
  { intros b r s Hb Hs Hv. pose proof (be_decode_bound (b :: r)) as Hd.
    destruct Hs as [->|(b' & r' & -> & Hb')].
    - rewrite (len_cons b r). change (len [x00]) with 1. lia.
    - rewrite Hv in Hd. apply be_decode_len_lt in Hd; [|done]. rewrite (len_cons b'). lia. }
  intros H1 H2 Hv. destruct H1 as [->|(b1 & r1 & -> & Hb1)], H2 as [->|(b2 & r2 & -> & Hb2)].
  - done.
  - pose proof (be_decode_ge b2 r2 Hb2). pose proof (pow256_pos (len r2)).
    change (be_decode [x00]) with 0 in Hv. lia.
  - pose proof (be_decode_ge b1 r1 Hb1). pose proof (pow256_pos (len r1)).
    change (be_decode [x00]) with 0 in Hv. lia.
  - apply be_decode_inj; [|done].
    assert (canonical (b1 :: r1)) by (right; eauto). assert (canonical (b2 :: r2)) by (right; eauto).
    pose proof (Hle b1 r1 (b2 :: r2) Hb1 ltac:(done) Hv).
    pose proof (Hle b2 r2 (b1 :: r1) Hb2 ltac:(done) (eq_sym Hv)). lia.
Qed.

Lemma canonical_len s n : 1 <= n -> canonical s -> be_decode s < 256 ^ n -> len s <= n.
Proof.
  intros Hn [->|(b & r & -> & Hb)] Hv; [by change (len [x00]) with 1|].
  apply be_decode_len_lt in Hv; [|done]. rewrite len_cons. lia.
Qed.

Lemma strip_zeros_canonical v : v <> [] -> canonical (strip_zeros v).
Proof.
  intros (b & r & -> & Hz & _)%strip_zeros_shape. unfold canonical.
  destruct (decide (b = x00)) as [->|Hb]; [left; by rewrite Hz|right; eauto].
Qed.

Section serials.
Context {CR : Crates} {BU : BigUint} {HD : HexDecodeSpec CR} {BS : BigUintSpec BU}.

Lemma parse_decimal_serial_Some dec s :
  parse_decimal_serial dec = Some s <->
  dec <> [] /\ len dec <= 49 /\ forallb is_ascii_digit dec = true /\ decimal dec < 256 ^ 20 /\
  canonical s /\ be_decode s = decimal dec.
Proof.
  unfold parse_decimal_serial. case_bool_decide as Hn; cbn [orb]; [naive_solver|].
  destruct (N.ltb_spec 49 (len dec)) as [Hl|Hl]; cbn [orb].
  { split; [done|]. intros (_ & ? & _). lia. }
  destruct (forallb is_ascii_digit dec) eqn:Hd; cbn [negb]; [|naive_solver].
  rewrite biguint_parse_digits by done. cbn [mbind option_bind].
  pose proof (biguint_value (decimal dec)) as Hv. pose proof (biguint_canonical (decimal dec)) as Hc.
  set (b := biguint_to_bytes_be (decimal dec)) in *.
  assert (b <> []) as Hb by (destruct Hc as [->|(? & ? & -> & _)]; done).
  rewrite (bool_decide_eq_false_2 (b = [])) by done.
  destruct (N.ltb_spec 20 (len b)) as [H20|H20].
  - split; [done|]. intros (_ & _ & _ & Hlt & _). pose proof (canonical_len b 20 ltac:(done) Hc). lia.
  - split.
    + intros [= <-]. split_and!; try done. rewrite <- Hv.
      eapply N.lt_le_trans; [apply be_decode_bound|]. by apply N.pow_le_mono_r.
    + intros (_ & _ & _ & _ & Hcs & Hvs). f_equal. apply canonical_unique; congruence.
Qed.

Lemma hex_value_zero ds : hex_value (x30 :: ds) = hex_value ds.
Proof. done. Qed.

Lemma parse_hex_serial_Some hex s :
  parse_hex_serial hex = Some s <->
  strip_0x hex <> [] /\ len (strip_0x hex) <= 40 /\ hex_digits (strip_0x hex) = true /\
  canonical s /\ be_decode s = hex_value (strip_0x hex).
Proof.
  unfold parse_hex_serial. set (h := strip_0x hex).
  set (p := if negb (len h mod 2 =? 0) then x30 :: h else h).
  assert (len p mod 2 = 0 /\ (len p = len h \/ len p = len h + 1 /\ len h mod 2 = 1) /\
    hex_value p = hex_value h /\ hex_digits p = hex_digits h /\ (p = [] <-> h = [])) as (Hp & Hlp & Hvp & Hdp & Hnp).
  { unfold p. destruct (N.eqb_spec (len h mod 2) 0) as [E|E]; cbn [negb]; [by split_and!; auto|].
    assert (len h mod 2 = 1) as E1 by (revert E; generalize (N.mod_upper_bound (len h) 2 ltac:(done)); generalize (len h mod 2); lia).
    rewrite len_cons. split_and!; try done; try lia.
    - by rewrite N.Div0.add_mod, E1.
    - split; [done|]. intros E0. rewrite E0 in E. by change (len []) with 0 in E. }
  clearbody p. clearbody h.
  destruct (N.ltb_spec 40 (len p)) as [Hl|Hl]; cbn [orb].
  { split; [done|]. intros (_ & Hle & _). destruct Hlp as [?|[? H1]]; [lia|].
    replace (len h) with 40 in H1 by lia. done. }
  case_bool_decide as Hn; [naive_solver|].
  destruct (hex_decode (String.string_of_list_byte p)) as [b|e] eqn:E.
  - apply hex_decode_Ok in E as (Hd & Hlen & Hv).
    assert (b <> []) as Hb by (intros ->; change (len []) with 0 in Hlen; destruct p; [done|]; rewrite len_cons in Hlen; lia).
    pose proof (strip_zeros_canonical b Hb) as Hc. pose proof (strip_zeros_value b) as Hsv. split.
    + intros [= <-]. split_and!; [naive_solver|lia|congruence|done|congruence].
    + intros (_ & _ & _ & Hcs & Hvs). f_equal. apply canonical_unique; congruence.
  - split; [done|]. intros (_ & _ & Hd & _). rewrite <- Hdp in Hd.
    destruct (hex_decode_total p Hd Hp) as [b Hb]. congruence.
Qed.

(** A serial number has one spelling in the index.  The decimal reader
    accepts exactly the non-empty digit strings of at most 49 characters whose
    number fits 20 bytes, the hexadecimal reader exactly those of at most 40
    digits, with or without prefix, in either case and of odd or even length;
    each answers the canonical big-endian bytes of the number that was written.
    So the two attributes of a record agree if and only if they name the same
    number, whatever zeros they start with. *)
Theorem serial_forms_agree dec hex :
  (forall s, parse_decimal_serial dec = Some s <->
     dec <> [] /\ len dec <= 49 /\ forallb is_ascii_digit dec = true /\ decimal dec < 256 ^ 20 /\
     canonical s /\ be_decode s = decimal dec) /\
  (forall s, parse_hex_serial hex = Some s <->
     strip_0x hex <> [] /\ len (strip_0x hex) <= 40 /\ hex_digits (strip_0x hex) = true /\
     canonical s /\ be_decode s = hex_value (strip_0x hex)) /\
  (forall s1 s2, parse_decimal_serial dec = Some s1 -> parse_hex_serial hex = Some s2 ->
     s1 = s2 <-> decimal dec = hex_value (strip_0x hex)).
Proof.
  split_and!; [apply parse_decimal_serial_Some|apply parse_hex_serial_Some|].
  intros s1 s2 (_ & _ & _ & _ & Hc1 & Hv1)%parse_decimal_serial_Some
    (_ & _ & _ & Hc2 & Hv2)%parse_hex_serial_Some. split; [congruence|].
  intros. apply canonical_unique; congruence.
Qed.
End serials.

(** ** Times *)

(** The reader and the two loops of [datetime_to_epoch] count the same days. *)
Lemma days_of_years_start y : 1970 <= y -> days_of_years y + 719162 = year_start (y - 1).
Proof.
  intros Hy. replace y with (1970 + (y - 1970)) by lia. generalize (y - 1970). clear y Hy.
  induction n as [|n IH] using N.peano_ind; [done|].
  replace (1970 + N.succ n - 1) with (1970 + n - 1 + 1) by lia. rewrite year_length.
  replace (1970 + N.succ n) with (1970 + n + 1) by lia.
  rewrite days_of_years_next by lia. replace (1970 + n - 1 + 1) with (1970 + n) by lia. lia.
Qed.

Lemma year_start_era (y : Z) : (0 <= y)%Z ->
  (let era := Z.quot y 400 in let yoe := y - era * 400 in
   era * 146097 + (yoe * 365 + Z.quot yoe 4 - Z.quot yoe 100) = Z.of_N (year_start (Z.to_N y)))%Z.
Proof.
  intros Hy. cbv zeta. unfold year_start. rewrite (Z.quot_div_nonneg y) by lia.
  pose proof (Z.div_mod y 400 ltac:(done)). pose proof (Z.mod_pos_bound y 400 ltac:(done)).
  set (e := (y / 400)%Z) in *. replace (y - e * 400)%Z with (y mod 400)%Z by lia.
  set (r := (y mod 400)%Z) in *. rewrite !Z.quot_div_nonneg by lia.
  assert (y / 4 = 100 * e + r / 4)%Z as H4.
  { replace y with (100 * e * 4 + r)%Z by lia. by rewrite Z.div_add_l. }
  assert (y / 100 = 4 * e + r / 100)%Z as H100.
  { replace y with (4 * e * 100 + r)%Z by lia. by rewrite Z.div_add_l. }
  assert (r / 100 <= r / 4)%Z by (apply Z.div_le_compat_l; lia).
  assert (Z.to_N y / 100 <= 365 * Z.to_N y + Z.to_N y / 4) as Hs.
  { etrans; [apply (N.Div0.div_le_upper_bound _ _ (Z.to_N y)); lia|]. generalize (Z.to_N y / 4). lia. }
  rewrite N2Z.inj_add, N2Z.inj_sub, !N2Z.inj_add, N2Z.inj_mul, !N2Z.inj_div, Z2N.id by first [exact Hs | lia].
  cbn. fold e. lia.
Qed.

(** The days before a month of a year that is a leap year or not. *)
Definition month_start (lp : bool) (m : N) : N := days_of_months (if lp then 2000 else 2001) m 0.

Lemma days_of_months_start y m n : days_of_months y m n = n + month_start (leap y) m.
Proof.
  rewrite <- (N.add_0_l n) at 1. rewrite days_of_months_shift, N.add_comm. f_equal.
  unfold month_start, days_of_months. by destruct (leap y).
Qed.

Lemma days_from_civil_date y m d :
  1970 <= y <= 9999 -> date_ok y m d ->
  days_from_civil (Z.of_N y) (Z.of_N m) (Z.of_N d) = Z.of_N (days_of_date y m d).
Proof.
  intros Hy [Hm Hd]. unfold days_of_date. rewrite days_of_months_start.
  pose proof (days_of_years_start y ltac:(lia)) as Hb.
  pose proof (year_length (y - 1)) as Hl. replace (y - 1 + 1) with y in Hl by lia.
  assert (forall (k : Z), (k = Z.of_N y \/ k = Z.of_N y - 1)%Z ->
    (let era := Z.quot (if 0 <=? k then k else k - 399) 400 in let yoe := k - era * 400 in
     era * 146097 + (yoe * 365 + Z.quot yoe 4 - Z.quot yoe 100) = Z.of_N (year_start (Z.to_N k)))%Z) as Hk.
  { intros k Hk. destruct (Z.leb_spec 0 k); [|lia]. by apply year_start_era. }
  unfold days_from_civil. cbv zeta in Hk |- *.
  pose proof (Hk (Z.of_N y) (or_introl eq_refl)) as K1.
  pose proof (Hk (Z.of_N y - 1)%Z (or_intror eq_refl)) as K2. clear Hk.
  rewrite N2Z.id in K1. replace (Z.to_N (Z.of_N y - 1)) with (y - 1) in K2 by lia.
  assert (m ∈ range 1 13) as Hin.
  { apply list_elem_of_fmap. exists (N.to_nat (m - 1)). split; [lia|]. apply elem_of_seq. lia. }
  change (range 1 13) with [1; 2; 3; 4; 5; 6; 7; 8; 9; 10; 11; 12] in Hin.
  rewrite !elem_of_cons, elem_of_nil in Hin.
  destruct_or? Hin; subst; try done; cbn [Z.leb Z.ltb Z.of_N Z.compare Pos.compare Pos.compare_cont];
    destruct (leap y);
    match goal with |- context [month_start ?a ?b] =>
      let v := eval vm_compute in (month_start a b) in change (month_start a b) with v end;
    match goal with |- context [Z.quot ?a 5] =>
      let v := eval vm_compute in (Z.quot a 5) in change (Z.quot a 5) with v end; lia.
Qed.

(** A number in [w] decimal digits, and a date as GeneralizedTime without [Z]. *)
Fixpoint digits_of (w : nat) (n : N) : bytes :=
  match w with
  | O => []
  | S w => digits_of w (n / 10) ++ [byte_of_N (48 + n mod 10)]
  end.
Definition generalized_time (dt : DateTime) : bytes :=
  digits_of 4 (dt_year dt) ++ digits_of 2 (dt_month dt) ++ digits_of 2 (dt_day dt) ++
  digits_of 2 (dt_hour dt) ++ digits_of 2 (dt_minutes dt) ++ digits_of 2 (dt_seconds dt).

Lemma length_digits_of w n : length (digits_of w n) = w.
Proof. revert n. induction w as [|w IH]; intros n; cbn; [done|]. rewrite length_app, IH. cbn. lia. Qed.

Lemma digit_byte n : n < 10 -> Byte.to_N (byte_of_N (48 + n)) = 48 + n.
Proof. intros. rewrite to_N_byte_of_N. apply N.mod_small. lia. Qed.

Lemma digits_of_digits w n : forallb is_ascii_digit (digits_of w n) = true.
Proof.
  revert n. induction w as [|w IH]; intros n; cbn [digits_of]; [done|].
  rewrite forallb_app, IH. cbn. unfold is_ascii_digit.
  pose proof (N.mod_lt n 10 ltac:(done)) as Hn. rewrite digit_byte by done.
  revert Hn. generalize (n mod 10). intros k Hk.
  rewrite andb_true_r. apply andb_true_iff. rewrite !N.leb_le. lia.
Qed.

Lemma decimal_digits_of w n : decimal (digits_of w n) = n mod 10 ^ N.of_nat w.
Proof.
  revert n. induction w as [|w IH]; intros n; [by rewrite N.mod_1_r|].
  cbn [digits_of]. unfold decimal. rewrite fold_left_app. cbn [fold_left]. fold (decimal (digits_of w (n / 10))).
  pose proof (N.mod_lt n 10 ltac:(done)). rewrite IH, digit_byte by done.
  replace (N.of_nat (S w)) with (1 + N.of_nat w) by lia. rewrite N.pow_add_r, N.pow_1_r.
  rewrite (N.Div0.mod_mul_r n 10 (10 ^ N.of_nat w)).
  generalize (n mod 10), (n / 10 mod 10 ^ N.of_nat w). lia.
Qed.

Lemma num_digits l w n r :
  n < 10 ^ N.of_nat w -> (0 < w <= 4)%nat ->
  num (l ++ digits_of w n ++ r) (length l) (length l + w) = Some (Z.of_N n).
Proof.
  intros Hn Hw. unfold num. rewrite drop_app_length. replace (length l + w - length l)%nat with w by lia.
  rewrite take_app_length' by (by rewrite length_digits_of). unfold parse_unsigned.
  assert (forall s, forallb is_ascii_digit s = true -> match s with x2b :: r => r | _ => s end = s) as Hp.
  { intros [|[] s] H; done. }
  rewrite Hp by apply digits_of_digits. rewrite digits_of_digits. cbn [negb orb].
  rewrite bool_decide_eq_false_2, decimal_digits_of, N.mod_small by
    (try done; intros E; apply (f_equal length) in E; rewrite length_digits_of in E; cbn in E; lia).
  cbn [orb]. destruct (N.ltb_spec n i64_lim) as [_|Hge]; [done|]. exfalso.
  assert (10 ^ N.of_nat w <= 10 ^ 4) by (apply N.pow_le_mono_r; lia). unfold i64_lim in Hge. lia.
Qed.

(** Visible characters are not trimmed. *)
Definition visible (c : byte) : bool := (33 <=? Byte.to_N c) && (Byte.to_N c <=? 126).

Lemma trim_front_visible spaces n c l :
  forallb (fun w => negb (from_option visible true (head w))) spaces = true -> visible c = true ->
  trim_front spaces n (c :: l) = c :: l.
Proof.
  intros Hs Hc. destruct n as [|n]; cbn [trim_front]; [done|].
  destruct (List.find _ spaces) as [w|] eqn:E; [|done]. apply find_some in E as [Hin Hw].
  rewrite forallb_forall in Hs. specialize (Hs w Hin). destruct w as [|x w]; [done|]. cbn in Hs, Hw.
  apply andb_prop in Hw as [->%bool_decide_eq_true _]. by rewrite Hc in Hs.
Qed.

Lemma trim_visible l : forallb visible l = true -> trim l = l.
Proof.
  intros Hl. rewrite forallb_forall in Hl. unfold trim, trim_start. destruct l as [|c l]; [done|].
  rewrite trim_front_visible; [|done|by apply Hl; left].
  unfold trim_end. destruct (rev (c :: l)) as [|d r] eqn:E.
  - apply (f_equal (@rev byte)) in E. by rewrite rev_involutive in E.
  - rewrite trim_front_visible; [|done|].
    + by rewrite <- E, rev_involutive.
    + apply Hl. apply in_rev. rewrite E. by left.
Qed.

Lemma digits_visible ds : forallb is_ascii_digit ds = true -> forallb visible ds = true.
Proof.
  rewrite !forallb_forall. intros H x Hx. specialize (H x Hx). unfold is_ascii_digit, visible in *.
  apply andb_prop in H as [H1%N.leb_le H2%N.leb_le]. apply andb_true_iff. rewrite !N.leb_le. lia.
Qed.

Lemma generalized_time_digits dt : forallb is_ascii_digit (generalized_time dt) = true.
Proof. unfold generalized_time. by rewrite !forallb_app, !digits_of_digits. Qed.

Lemma length_generalized_time dt : len (generalized_time dt) = 14.
Proof. unfold generalized_time, len. by rewrite !length_app, !length_digits_of. Qed.

(** A suffix a date may have. *)
Definition zulu (z : bytes) : Prop := z = [] \/ z = [x5a].

Lemma strip_z_digits ds z : forallb is_ascii_digit ds = true -> zulu z -> strip_z (ds ++ z) = ds.
Proof.
  intros Hd [->| ->]; unfold strip_z.
  - rewrite app_nil_r. destruct (rev ds) as [|c r] eqn:E; [done|].
    assert (is_ascii_digit c = true) as Hc.
    { rewrite forallb_forall in Hd. apply Hd, in_rev. rewrite E. by left. }
    by destruct c.
  - rewrite rev_app_distr. cbn. apply rev_involutive.
Qed.

Lemma num_fields dt :
  DateTime_wf dt ->
  num (generalized_time dt) 0 4 = Some (Z.of_N (dt_year dt)) /\
  num (generalized_time dt) 4 6 = Some (Z.of_N (dt_month dt)) /\
  num (generalized_time dt) 6 8 = Some (Z.of_N (dt_day dt)) /\
  num (generalized_time dt) 8 10 = Some (Z.of_N (dt_hour dt)) /\
  num (generalized_time dt) 10 12 = Some (Z.of_N (dt_minutes dt)) /\
  num (generalized_time dt) 12 14 = Some (Z.of_N (dt_seconds dt)).
Proof.
  intros [Hy [Hm Hd] Hh Hmi Hs].
  assert (dt_day dt <= 31) by (unfold month_length in Hd; repeat case_match; lia).
  assert (10 ^ N.of_nat 2 = 100 /\ 10 ^ N.of_nat 4 = 10000) as [E2 E4] by done.
  assert (forall l w n r k, length l = k -> n < 10 ^ N.of_nat w -> (0 < w <= 4)%nat ->
    num (l ++ digits_of w n ++ r) k (k + w) = Some (Z.of_N n)) as Hnum.
  { intros l w n r k <- Hn Hw. by apply num_digits. }
  unfold generalized_time. split_and!.
  - apply (Hnum [] 4%nat); [done|lia|lia].
  - apply (Hnum (digits_of 4 _) 2%nat); [apply length_digits_of|lia|lia].
  - rewrite app_assoc. apply (Hnum _ 2%nat); [by rewrite !length_app, !length_digits_of|lia|lia].
  - rewrite !app_assoc, <- !(app_assoc _ _ (digits_of 2 (dt_seconds dt))), <- (app_assoc _ (digits_of 2 (dt_hour dt))).
    apply (Hnum _ 2%nat); [by rewrite !length_app, !length_digits_of|lia|lia].
  - rewrite !app_assoc, <- (app_assoc _ (digits_of 2 (dt_minutes dt))).
    apply (Hnum _ 2%nat); [by rewrite !length_app, !length_digits_of|lia|lia].
  - rewrite !app_assoc. rewrite <- (app_nil_r (_ ++ digits_of 2 (dt_seconds dt))), <- app_assoc.
    apply (Hnum _ 2%nat); [by rewrite !length_app, !length_digits_of|lia|lia].
Qed.

Lemma parse_generalized_date dt z :
  DateTime_wf dt -> zulu z ->
  parse_generalized_time (generalized_time dt ++ z) = Some (datetime_to_epoch dt).
Proof.
  intros Hdt Hz. pose proof (generalized_time_digits dt) as Hd. pose proof (length_generalized_time dt) as Hl.
  unfold parse_generalized_time. rewrite trim_visible.
  2: { rewrite forallb_app, digits_visible by done. by destruct Hz as [->| ->]. }
  replace (_ && _ && _) with false.
  2: { rewrite len_app, Hl, forallb_app, Hd. by destruct Hz as [->| ->]. }
  rewrite strip_z_digits by done. rewrite Hl, Hd.
  destruct (num_fields dt Hdt) as (-> & -> & -> & -> & -> & ->). cbn [mbind option_bind negb orb].
  change (negb (14 =? 14)) with false. cbn [orb].
  destruct Hdt as [Hy [Hm Hdy] Hh Hmi Hs].
  assert (dt_day dt <= 31) by (unfold month_length in Hdy; repeat case_match; lia).
  rewrite days_from_civil_date by done. unfold datetime_to_epoch.
  replace (_ || _ || _ || _ || _)%bool with false.
  2: { symmetry. rewrite !orb_false_iff, !negb_false_iff, !andb_true_iff.
       rewrite !Z.leb_le, !Z.ltb_ge. lia. }
  destruct (Z.leb_spec 0 (Z.of_N (days_of_date (dt_year dt) (dt_month dt) (dt_day dt)) * 86400 +
    Z.of_N (dt_hour dt) * 3600 + Z.of_N (dt_minutes dt) * 60 + Z.of_N (dt_seconds dt))); [f_equal; lia|lia].
Qed.

Lemma parse_milliseconds ds :
  forallb is_ascii_digit ds = true -> 13 <= len ds -> len ds <> 14 -> decimal ds < u64_lim ->
  parse_generalized_time ds = Some (decimal ds / 1000).
Proof.
  intros Hd Hl Hn Hv. unfold parse_generalized_time. rewrite trim_visible by (by apply digits_visible).
  rewrite Hd. destruct (N.leb_spec 13 (len ds)); [|lia]. destruct (N.eqb_spec (len ds) 14); [done|].
  cbn [negb andb]. unfold parse_unsigned.
  replace (match ds with x2b :: r => r | _ => ds end) with ds by (destruct ds as [|[] ?]; done).
  rewrite Hd. case_bool_decide as He; [by rewrite He in Hl|]. cbn [orb negb].
  by destruct (N.ltb_spec (decimal ds) u64_lim); [|lia].
Qed.

(** A date a directory gives for [notAfter] is read exactly: GeneralizedTime with
    or without [Z] is the epoch of that date, and a longer digit string is
    milliseconds. *)
Theorem generalized_time_exact :
  (forall dt z, DateTime_wf dt -> zulu z ->
     parse_generalized_time (generalized_time dt ++ z) = Some (datetime_to_epoch dt)) /\
  (forall ds, forallb is_ascii_digit ds = true -> 13 <= len ds -> len ds <> 14 -> decimal ds < u64_lim ->
     parse_generalized_time ds = Some (decimal ds / 1000)).
Proof. split; [apply parse_generalized_date|apply parse_milliseconds]. Qed.

(** ** Records *)

Lemma parse_unsigned_digits lim ds :
  ds <> [] -> forallb is_ascii_digit ds = true -> decimal ds < lim ->
  parse_unsigned lim ds = Some (decimal ds).
Proof.
  intros Hn Hd Hv. unfold parse_unsigned.
  replace (match ds with x2b :: r => r | _ => ds end) with ds by (destruct ds as [|[] ?]; done).
  rewrite Hd, bool_decide_eq_false_2 by done. cbn [orb negb]. by destruct (N.ltb_spec (decimal ds) lim); [|lia].
Qed.

Lemma parse_unsigned_zulu lim ds : forallb is_ascii_digit ds = true -> parse_unsigned lim (ds ++ [x5a]) = None.
Proof.
  intros Hd. unfold parse_unsigned.
  assert (forall ds, forallb is_ascii_digit (ds ++ [x5a]) = false) as Hz.
  { intros l. rewrite forallb_app. apply andb_false_r. }
  destruct (match ds ++ [x5a] with x2b :: r => r | _ => ds ++ [x5a] end) as [|c r] eqn:E; [by rewrite orb_true_l|].
  replace (forallb is_ascii_digit (c :: r)) with false; [by rewrite orb_true_r|].
  destruct ds as [|d ds]; cbn [app] in E; [by simplify_eq|].
  assert (d :: ds ++ [x5a] = c :: r) as <- by (destruct d; done).
  by rewrite <- (Hz (d :: ds)).
Qed.

(** The time of a revocation is read in one unit only.  A value in
    milliseconds becomes the second it names.  A GeneralizedTime, which is how
    the directory stores it according to the comment in the source, is first
    converted to seconds and then divided by 1000 once more, so that the
    recorded time is wrong for every revocation after the first second of 1970
    (a revocation of 2026 is dated January 1970). *)
Theorem revocation_time_units entry :
  attr entry "revReason" = None ->
  (forall ds, ds <> [] -> forallb is_ascii_digit ds = true -> decimal ds < u64_lim ->
     attr entry "revokedOn" = Some ds -> entry_revocation entry = Ok (decimal ds / 1000, None)) /\
  (forall dt, DateTime_wf dt -> attr entry "revokedOn" = Some (generalized_time dt ++ [x5a]) ->
     entry_revocation entry = Ok (datetime_to_epoch dt / 1000, None) /\
     (0 < datetime_to_epoch dt -> datetime_to_epoch dt / 1000 < datetime_to_epoch dt)).
Proof.
  intros Hr. split.
  - intros ds Hn Hd Hv Ha. unfold entry_revocation. rewrite Ha, Hr. cbn [mbind option_bind].
    by rewrite parse_unsigned_digits.
  - intros dt Hdt Ha. split.
    + unfold entry_revocation. rewrite Ha, Hr. cbn [mbind option_bind].
      rewrite parse_unsigned_zulu by apply generalized_time_digits. cbn [or_else].
      by rewrite parse_generalized_date by (try done; by right).
    + intros Hp. by apply N.div_lt.
Qed.

Section records.
Context {CR : Crates} {BU : BigUint} {HD : HexDecodeSpec CR} {BS : BigUintSpec BU}.

Lemma entry_serial_canonical entry s : entry_serial entry = Some s -> canonical s /\ len s <= 20.
Proof.
  assert (forall d s, parse_decimal_serial d = Some s -> canonical s /\ len s <= 20) as Hd.
  { intros d s0 (_ & _ & _ & Hv & Hc & E)%parse_decimal_serial_Some. split; [done|].
    apply canonical_len; [done|done|congruence]. }
  assert (forall d s, parse_hex_serial d = Some s -> canonical s /\ len s <= 20) as Hh.
  { intros d s0 H. split; [by apply parse_hex_serial_Some in H as (_ & _ & _ & ? & _)|].
    unfold parse_hex_serial in H.
    set (p := if negb (len (strip_0x d) mod 2 =? 0) then _ else _) in H.
    destruct (N.ltb_spec 40 (len p)); [done|]. cbn [orb] in H. case_bool_decide as Hp; [done|].
    destruct (hex_decode _) as [b|] eqn:E; [|done]. apply hex_decode_Ok in E as (_ & Hl & _).
    simplify_eq. destruct (strip_zeros_shape b) as (? & ? & _ & _ & Hle); [|lia].
    intros ->. change (len []) with 0 in Hl. destruct p; [done|]. rewrite len_cons in Hl. lia. }
  unfold entry_serial. destruct (s' ← attr entry "cn"; parse_decimal_serial s') as [s'|] eqn:E; cbn.
  - intros [= <-]. destruct (attr entry "cn"); [by eapply Hd|done].
  - destruct (attr entry "serialno") as [v|]; [|done]. cbn. destruct (_ || _); eauto.
Qed.

(** What a record that is accepted says, by the status of its entry. *)
Lemma parse_cert_entry_Ok entry o :
  parse_cert_entry entry = Ok o -> exists r status,
  o = Some r /\ entry_serial entry = Some (sr_serial r) /\ attr entry "certStatus" = Some status /\
  (status = text "VALID" /\ sr_revoked r = None /\ sr_excluded r = false \/
   (status = text "INVALID" \/ status = text "EXPIRED") /\ sr_revoked r = None /\ sr_excluded r = true \/
   (status = text "REVOKED" \/ status = text "REVOKED_EXPIRED") /\ sr_excluded r = false /\
     exists revoked, sr_revoked r = Some revoked /\ entry_revocation entry = Ok revoked).
Proof.
  unfold parse_cert_entry.
  destruct (entry_serial entry) as [serial|] eqn:Hs; [|done].
  destruct (attr entry "certStatus") as [status|] eqn:Ha; [|done].
  cbn [ok_or mbind result_bind].
  case_bool_decide as H1; [intros; simplify_eq; eexists _, _; split_and!; eauto|].
  case_bool_decide as H2; cbn [orb]; [intros; simplify_eq; eexists _, _; split_and!; eauto 7|].
  case_bool_decide as H3; [intros; simplify_eq; eexists _, _; split_and!; eauto 7|].
  destruct (bool_decide (_ = text "REVOKED") || _) eqn:E; [|done].
  apply orb_true_iff in E. rewrite !bool_decide_eq_true in E. intros H. inv_ok.
  eexists _, _. split_and!; [done..|]. right. right. split; [done|]. eauto.
Qed.

(** The reason of a revocation is given exactly if its attribute has a value, and is known. *)
Lemma entry_revocation_reason entry t reason :
  entry_revocation entry = Ok (t, reason) ->
  is_Some (attr entry "revReason") <-> is_Some (code ← reason; crl_reason_from_u32 code).
Proof.
  unfold entry_revocation. intros H. inv_ok. rename select (_ = Ok reason) into Hr. 
  destruct (attr entry "revReason") as [s|]; [|simplify_eq/=; split; intros []; done].
  destruct (parse_unsigned u32_lim s) as [n|]; cbn in *; [|done].
  destruct (crl_reason_from_u32 n) as [r|] eqn:E; cbn in *; [|done]. simplify_eq/=. rewrite E.
  split; intros _; [by exists r|by exists s].
Qed.

(** A certificate is good only if its record says so.  A record that is
    accepted has a serial number in canonical form of at most 20 bytes and a
    status that is one of the five known; it counts as good, to be answered so,
    exactly if that status is VALID; a revoked one carries a time and, if a
    reason is given at all, a reason of the standard; an entry without a serial
    number, without a status, with several values for one, with an unknown status
    or with an unreadable revocation stops the synchronization. *)
Theorem record_says_good entry :
  match parse_cert_entry entry with
  | Ok o => exists r, o = Some r /\ canonical (sr_serial r) /\ len (sr_serial r) <= 20 /\
      (sr_excluded r = false /\ record_status r = Good <-> attr entry "certStatus" = Some (text "VALID")) /\
      (forall t reason, record_status r = Revoked t reason ->
         (attr entry "certStatus" = Some (text "REVOKED") \/
          attr entry "certStatus" = Some (text "REVOKED_EXPIRED")) /\
         (is_Some (attr entry "revReason") <-> is_Some reason))
  | Err _ =>
      entry_serial entry = None \/ attr entry "certStatus" = None \/
      ((attr entry "certStatus" = Some (text "REVOKED") \/
        attr entry "certStatus" = Some (text "REVOKED_EXPIRED")) /\
       exists e, entry_revocation entry = Err e) \/
      Forall (fun s => attr entry "certStatus" <> Some (text s))
        ["VALID"; "INVALID"; "EXPIRED"; "REVOKED"; "REVOKED_EXPIRED"]%string
  end.
Proof.
  destruct (parse_cert_entry entry) as [o|e] eqn:E.
  - destruct (parse_cert_entry_Ok _ _ E) as (r & status & -> & Hs & Ha & Hc).
    destruct (entry_serial_canonical _ _ Hs) as [Hcan Hlen]. exists r. split_and!; [done..| |].
    + rewrite Ha. unfold record_status.
      destruct Hc as [(-> & -> & ->)|[([->| ->] & -> & ->)|([->| ->] & -> & [t reason] & -> & _)]];
        (split; [by intros [??]|intros H; by simplify_eq]).
    + unfold record_status. intros t reason.
      destruct Hc as [(-> & -> & _)|[(_ & -> & _)|(Hst & _ & [t' reason'] & -> & Hr)]]; [done..|].
      intros [= -> <-]. split; [destruct Hst as [->| ->]; auto|].
      by eapply entry_revocation_reason.
  - destruct (entry_serial entry) as [serial|] eqn:Hs; [right|by left].
    destruct (attr entry "certStatus") as [status|] eqn:Ha; [right|by left].
    unfold parse_cert_entry in E. rewrite Hs, Ha in E. cbn [ok_or mbind result_bind] in E.
    assert (entry_revocation entry ≫= (fun revoked => Ok (Some (mkStoredRecord serial (Some revoked) false
      (s ← attr entry "notAfter"; parse_generalized_time s)))) = Err e -> exists e', entry_revocation entry = Err e')
      by (destruct (entry_revocation entry); [done|eauto]).
    do 5 (case_bool_decide; cbn [orb] in E; [solve [by subst | left; subst; eauto]|]).
    right. repeat constructor; congruence.
Qed.
End records.

(** ** Concrete instances *)
Module ToyRecord.

#[export] Instance biguint : BigUint := {|
  biguint_parse_bytes ds :=
    if bool_decide (ds = []) || negb (forallb is_ascii_digit ds) then None else Some (decimal ds);
  biguint_to_bytes_be n := strip_zeros (be_encode (S (N.to_nat (N.size n))) n);
|}.

#[export] Instance biguint_spec : BigUintSpec biguint.
Proof.
  split; cbn [biguint_parse_bytes biguint_to_bytes_be biguint].
  - intros ds Hn Hd. by rewrite bool_decide_eq_false_2, Hd.
  - intros n. rewrite strip_zeros_value, be_decode_encode; [done|].
    rewrite Nat2N.inj_succ, N2Nat.id. pose proof (N.size_gt n).
    eapply N.lt_le_trans; [done|]. change 256 with (2 ^ 8). rewrite <- N.pow_mul_r.
    apply N.pow_le_mono_r; lia.
  - intros n. apply strip_zeros_canonical. intros E%(f_equal length). by rewrite length_be_encode in E.
Qed.

Lemma unnibble_digit c : Toy.unnibble (Ascii.ascii_of_byte c) = hex_digit c.
Proof. by destruct c. Qed.

Lemma hex_digit_lt c n : hex_digit c = Some n -> n < 16.
Proof. destruct c; intros [= <-]; lia. Qed.

(** The digits of a pair and those of the rest. *)
Lemma hex_value_acc ds acc :
  fold_left (fun acc c => acc * 16 + default 0 (hex_digit c)) ds acc = acc * 16 ^ len ds + hex_value ds.
Proof.
  unfold hex_value. revert acc. induction ds as [|c ds IH]; intros acc; [change (len []) with 0; rewrite N.pow_0_r; cbn [fold_left]; lia|].
  cbn [fold_left]. rewrite IH, (IH (0 * 16 + _)), len_cons, N.pow_add_r. lia.
Qed.

Lemma of_hex_spec s b :
  Toy.of_hex (String.string_of_list_byte s) = Ok b ->
  hex_digits s = true /\ len s = 2 * len b /\ be_decode b = hex_value s.
Proof.
  revert b. induction s as [s IH] using (induction_ltof1 _ length). unfold ltof in IH.
  intros b. destruct s as [|a [|c s]]; [by intros [= <-]|done|].
  change (String.string_of_list_byte (a :: c :: s)) with
    (String (Ascii.ascii_of_byte a) (String (Ascii.ascii_of_byte c) (String.string_of_list_byte s))).
  cbn [Toy.of_hex]. rewrite !unnibble_digit.
  destruct (hex_digit a) as [h|] eqn:Ha; [|done]. destruct (hex_digit c) as [l|] eqn:Hc; [|done].
  intros H. inv_ok. rename select (Toy.of_hex _ = _) into Hs.
  apply IH in Hs as (Hd & Hl & Hv); [|cbn; lia].
  apply hex_digit_lt in Ha as Hh. apply hex_digit_lt in Hc as Hlt. split_and!.
  - cbn [hex_digits forallb]. fold (hex_digits s). by rewrite Ha, Hc, Hd.
  - rewrite !len_cons, Hl. lia.
  - rewrite be_decode_cons, to_N_byte_of_N, N.mod_small, Hv by lia.
    unfold hex_value at 2. cbn [fold_left]. rewrite Ha, Hc, hex_value_acc. cbn [default].
    rewrite Hl, N.pow_mul_r. change (16 ^ 2) with 256. unfold id. lia.
Qed.

Lemma of_hex_total s :
  hex_digits s = true -> len s mod 2 = 0 -> exists b, Toy.of_hex (String.string_of_list_byte s) = Ok b.
Proof.
  induction s as [s IH] using (induction_ltof1 _ length). unfold ltof in IH.
  destruct s as [|a [|c s]]; [by eexists|done|]. cbn [hex_digits forallb]. fold (hex_digits s).
  intros (Ha%bool_decide_eq_true & (Hc%bool_decide_eq_true & Hs)%andb_prop)%andb_prop Hl.
  rewrite !len_cons in Hl. replace (1 + (1 + len s)) with (len s + 1 * 2) in Hl by lia.
  rewrite N.Div0.mod_add in Hl. destruct (IH s) as [b Hb]; [cbn; lia|done..|].
  change (String.string_of_list_byte (a :: c :: s)) with
    (String (Ascii.ascii_of_byte a) (String (Ascii.ascii_of_byte c) (String.string_of_list_byte s))).
  cbn [Toy.of_hex]. rewrite !unnibble_digit, Hb. destruct Ha as [? ->], Hc as [? ->]. by eexists.
Qed.

#[export] Instance hex_spec : HexDecodeSpec Toy.crates.
Proof. split; [apply of_hex_spec|apply of_hex_total]. Qed.

(** An entry with the attributes of a revocation. *)
Definition entry (status revoked_on : string) (reason : list (bytes * list bytes)) : SearchEntry :=
  mkSearchEntry ([(text "cn", [text "256"]); (text "CertStatus", [text status]);
    (text "revokedOn", [text revoked_on])] ++ reason).
Definition date : DateTime := mkDateTime 2026 10 30 17 33 28.
End ToyRecord.

#[local] Existing Instances Toy.crates ToyRecord.biguint ToyRecord.biguint_spec ToyRecord.hex_spec.

Lemma serial_forms_agree_witness :
  parse_decimal_serial (text "0256") = Some [x01; x00] /\ parse_hex_serial (text "0x100") = Some [x01; x00] /\
  decimal (text "0256") = hex_value (strip_0x (text "0x100")).
Proof.
  assert (parse_decimal_serial (text "0256") = Some [x01; x00]) as Hd by (vm_compute; reflexivity).
  assert (parse_hex_serial (text "0x100") = Some [x01; x00]) as Hh by (vm_compute; reflexivity).
  split; [exact Hd|]. split; [exact Hh|].
  by apply (proj2 (proj2 (serial_forms_agree (text "0256") (text "0x100"))) _ _ Hd Hh).
Defined.

Lemma revocation_time_units_witness :
  datetime_to_epoch ToyRecord.date = 1793381608 /\
  entry_revocation (ToyRecord.entry "REVOKED" "20261030173328Z" []) = Ok (1793381, None).
Proof.
  split; [vm_compute; reflexivity|].
  pose proof (proj2 (revocation_time_units (ToyRecord.entry "REVOKED" "20261030173328Z" []) eq_refl)
    ToyRecord.date) as H.
  rewrite (proj1 (H ltac:(split; vm_compute; done) ltac:(vm_compute; reflexivity))).
  vm_compute. reflexivity.
Defined.

Lemma record_says_good_witness :
  match parse_cert_entry (ToyRecord.entry "VALID" "" []) with
  | Ok (Some r) => sr_excluded r = false /\ record_status r = Good
  | _ => False
  end.
Proof.
  pose proof (record_says_good (ToyRecord.entry "VALID" "" [])) as H.
  destruct (parse_cert_entry (ToyRecord.entry "VALID" "" [])) as [[r|]|] eqn:E; [|vm_compute in E; discriminate E..].
  destruct H as (r' & [= ->] & _ & _ & H & _). apply H. vm_compute. reflexivity.
Defined.
