(* ===== verification/DogtagSync.v ===== *)
(** * DogtagSync: the directory source (hoike-sign/src/dogtag_sync.rs)

    The source that keeps a copy of a certificate repository in step with an
    LDAP directory: the reducer of RFC 4533 synchronization messages, the full
    poll it falls back to, the checkpoint that is written after every complete
    refresh, and the snapshot that is made from it.  The directory is an
    argument: what it answers on each connection.  Main results: the copy of
    each entry is what the messages about that entry say; a refresh that returns
    has a complete, unambiguous copy that is also on disk; a failure or a crash
    leaves the old checkpoint or the complete new one; and what a snapshot calls
    good, the directory called valid. *)

From stdpp Require Import base tactics list gmap strings.
From Stdlib Require Import NArith Lia.
From S2P Require Import Prelude Slices Crates Text AhuError CoreError Storage SignError Calendar Times.
From S2P Require Import SignCrates Source SealDer LdapRecord.
Local Open Scope N_scope.

(** ** What is used of the crates ldap3, rustls and serde_json *)

(** [ldap3::controls::RawControl]; the critical flag is in the request only. *)
Record RawControl : Type := mkRawControl {
  rc_ctype : string;
  rc_crit : bool;
  rc_val : option bytes;
}.

(** [ldap3::controls::EntryState] and [SyncState]. *)
Inductive EntryState := EntryPresent | EntryAdd | EntryModify | EntryDelete.

Record SyncState : Type := mkSyncState {
  sy_state : EntryState;
  sy_entry_uuid : bytes;
  sy_cookie : option bytes;
}.

(** [ldap3::controls::SyncInfo]; [refresh_done] is not looked at. *)
Inductive SyncInfo :=
| NewCookie (cookie : bytes)
| RefreshDelete (cookie : option bytes)
| RefreshPresent (cookie : option bytes)
| SyncIdSet (cookie : option bytes) (refresh_deletes : bool) (sync_uuids : list bytes).

Record SyncDone : Type := mkSyncDone {
  sd_cookie : option bytes;
  sd_refresh_deletes : bool;
}.

(** [ldap3::LdapResult]. *)
Record LdapResult : Type := mkLdapResult {
  lr_rc : N;
  lr_ctrls : list RawControl;
}.

(** A function that may panic on a malformed value gives [None] there. *)
Class Ldap := {
  ResultEntry : Type;
  (** [is_intermediate], and the controls of an entry *)
  is_intermediate : ResultEntry -> bool;
  entry_controls : ResultEntry -> list RawControl;
  parse_syncinfo : ResultEntry -> option SyncInfo;
  parse_sync_state : RawControl -> option SyncState;
  parse_sync_done : RawControl -> option SyncDone;
  (** [SearchEntry::construct] *)
  construct : ResultEntry -> option SearchEntry;
  (** the value of [SyncRequest] with [RefreshOnly] as a control *)
  sync_request_value : option bytes -> bytes;
  (** [LdapResult::success] *)
  ldap_success : LdapResult -> result string LdapResult;
  (** [rustls_pemfile::certs], [RootCertStore::add] and the protocol versions *)
  pemfile_certs : bytes -> list (result string bytes);
  roots_add : bytes -> result string unit;
  safe_default_protocol_versions : result string unit;
}.

(** [LdapConnSettings] as far as they are set. *)
Record LdapConnSettings : Type := mkLdapConnSettings {
  lc_starttls : bool;
  (** the trust anchors of the client configuration, if one is set *)
  lc_roots : option (list bytes);
}.

(** What the directory does on one connection. *)
Record Directory `{!Ldap} : Type := mkDirectory {
  dr_connect : LdapConnSettings -> string -> result string unit;
  dr_simple_bind : string -> string -> result string LdapResult;
  (** the items of the stream, and the result after the last one *)
  dr_streaming_search : list RawControl -> string -> string -> list string ->
    result string (list (result string ResultEntry) * LdapResult);
  dr_search : string -> string -> list string -> result string (list ResultEntry * LdapResult);
}.

(** ** Configuration and checkpoints *)

Record DogtagSyncConfig : Type := mkDogtagSyncConfig {
  dg_ldap_url : string;
  dg_base_dn : string;
  dg_bind_dn : string;
  dg_bind_password : string;
  dg_cookie_path : path;
  dg_filter : string;
  dg_tls : string;
  dg_ca_cert : option path;
}.

(** [DogtagSyncConfig::attrs]. *)
Definition attrs : list string :=
  ["cn"; "serialno"; "certStatus"; "revokedOn"; "revReason"; "notAfter"]%string.

Record Checkpoint : Type := mkCheckpoint {
  cp_version : N;
  cp_binding : string;
  cp_cookie : option bytes;
  cp_records : gmap string StoredRecord;
  cp_complete : bool;
}.

(** [Checkpoint::default()], and the empty checkpoint of a binding. *)
Definition default_checkpoint : Checkpoint := mkCheckpoint 0 "" None ∅ false.
Definition fresh_checkpoint (binding : string) : Checkpoint := mkCheckpoint 1 binding None ∅ false.

Definition set_cookie (c : option bytes) (cp : Checkpoint) : Checkpoint :=
  mkCheckpoint (cp_version cp) (cp_binding cp) c (cp_records cp) (cp_complete cp).
(** [if cookie.is_some() { self.cookie = cookie }]. *)
Definition update_cookie (c : option bytes) (cp : Checkpoint) : Checkpoint :=
  match c with Some _ => set_cookie c cp | None => cp end.
Definition set_records (f : gmap string StoredRecord -> gmap string StoredRecord) (cp : Checkpoint) : Checkpoint :=
  mkCheckpoint (cp_version cp) (cp_binding cp) (cp_cookie cp) (f (cp_records cp)) (cp_complete cp).
Definition set_complete (b : bool) (cp : Checkpoint) : Checkpoint :=
  mkCheckpoint (cp_version cp) (cp_binding cp) (cp_cookie cp) (cp_records cp) b.

(** [serde_json] at the identity of a source and at checkpoints. *)
Class SyncJson := {
  identity_to_vec : string * string * string * string * string * option path * list string * bytes * bytes -> bytes;
  checkpoint_to_vec : Checkpoint -> result string bytes;
  checkpoint_from_slice : bytes -> result string Checkpoint;
}.

(** How a synchronization thread ends early. *)
Inductive thread_error := Panicked | Returned (e : SignError).

(** An error of the code, and a value that may be a panic. *)
Definition config_error (m : string) : thread_error := Returned (SignConfig m).
Definition or_panic {A} (o : option A) : result thread_error A := ok_or o Panicked.

Section sync.
Context {CR : Crates} {BU : BigUint} {LD : Ldap} {SJ : SyncJson}.

(** ** The reducer *)

(** [Checkpoint::apply_entry]. *)
Definition apply_entry (cp : Checkpoint) (state : SyncState) (record : option StoredRecord)
    (present : gset string) : sign_result (Checkpoint * gset string) :=
  ensure (len (sy_entry_uuid state) =? 16) (SignConfig "invalid sync UUID") ;;
  let id := hex_encode (sy_entry_uuid state) in
  let cp := update_cookie (sy_cookie state) cp in
  match sy_state state with
  | EntryDelete => Ok (set_records (delete id) cp, present)
  | EntryPresent =>
      ensure (bool_decide (is_Some (cp_records cp !! id)))
        (SignConfig "present UUID absent from checkpoint") ;;
      Ok (cp, {[id]} ∪ present)
  | EntryAdd | EntryModify =>
      record ← ok_or record (SignConfig "sync update has no parsed record");
      Ok (set_records <[id := record]> cp, {[id]} ∪ present)
  end.

(** The values of a [BTreeMap] with string keys, in its order. *)
Definition btree_values {A} (m : gmap string A) : list A :=
  (sort_by_key (fun kv => text kv.1) bytes_cmp (map_to_list m)).*2.

(** The loop over the serial numbers in [finish]. *)
Definition add_serial (serials : gset bytes) (record : StoredRecord) : sign_result (gset bytes) :=
  ensure (bool_decide (sr_serial record ∉ serials))
    (SignConfig "duplicate certificate serial in source") ;;
  Ok ({[sr_serial record]} ∪ serials).

(** [Checkpoint::finish]. *)
Definition finish (cp : Checkpoint) (present : gset string) (refresh_deletes : bool) :
    sign_result Checkpoint :=
  let cp := if refresh_deletes then cp
            else set_records (filter (fun '(id, _) => id ∈ present)) cp in
  _ ← fold_result add_serial ∅ (btree_values (cp_records cp));
  Ok (set_complete true cp).

Definition SYNC_REQUEST_OID : string := "1.3.6.1.4.1.4203.1.9.1.1".
Definition SYNC_STATE_OID : string := "1.3.6.1.4.1.4203.1.9.1.2".
Definition SYNC_DONE_OID : string := "1.3.6.1.4.1.4203.1.9.1.3".

(** The loop over [sync_uuids]. *)
Definition apply_uuid (refresh_deletes : bool) (s : Checkpoint * gset string) (uuid : bytes) :
    sign_result (Checkpoint * gset string) :=
  let '(staged, present) := s in
  ensure (len uuid =? 16) (SignConfig "invalid sync UUID") ;;
  let id := hex_encode uuid in
  if refresh_deletes then Ok (set_records (delete id) staged, present)
  else Ok (staged, {[id]} ∪ present).

(** [SyncInfo] messages. *)
Definition apply_info (s : Checkpoint * gset string) (info : SyncInfo) :
    sign_result (Checkpoint * gset string) :=
  let '(staged, present) := s in
  match info with
  | NewCookie cookie => Ok (set_cookie (Some cookie) staged, present)
  | RefreshDelete cookie | RefreshPresent cookie => Ok (update_cookie cookie staged, present)
  | SyncIdSet cookie refresh_deletes sync_uuids =>
      fold_result (apply_uuid refresh_deletes) (update_cookie cookie staged, present) sync_uuids
  end.

Definition controls_of (oid : string) (cs : list RawControl) : list RawControl :=
  List.filter (fun c => bool_decide (rc_ctype c = oid)) cs.

(** The only control of a kind. *)
Definition the_control (cs : list RawControl) (e : string) : result thread_error RawControl :=
  match cs with [c] => Ok c | _ => Err (config_error e) end.

(** One iteration of the loop over the stream. *)
Definition sync_step (s : Checkpoint * gset string) (raw : ResultEntry) :
    result thread_error (Checkpoint * gset string) :=
  if is_intermediate raw then
    info ← or_panic (parse_syncinfo raw);
    map_err Returned (apply_info s info)
  else
    control ← the_control (controls_of SYNC_STATE_OID (entry_controls raw))
                "missing or duplicate Sync State control";
    state ← or_panic (parse_sync_state control);
    record ← match sy_state state with
             | EntryAdd | EntryModify =>
                 entry ← or_panic (construct raw);
                 map_err Returned (parse_cert_entry entry)
             | _ => Ok None
             end;
    map_err Returned (apply_entry s.1 state record s.2).

(** The loop: an item of the stream may be an error. *)
Definition sync_item (s : Checkpoint * gset string) (item : result string ResultEntry) :
    result thread_error (Checkpoint * gset string) :=
  raw ← map_err (fun _ => config_error "LDAP stream") item;
  sync_step s raw.
Definition sync_loop := fold_result sync_item.

(** ** Connections *)

(** The loop of [client_config_with_ca]. *)
Definition add_anchor (roots : list bytes) (cert : result string bytes) : sign_result (list bytes) :=
  cert ← map_err (fun _ => SignConfig "parsing LDAP CA") cert;
  map_err (fun _ => SignConfig "adding LDAP CA anchor") (roots_add cert) ;;
  Ok (roots ++ [cert]).

(** [client_config_with_ca]: the anchors of the configuration. *)
Definition client_config_with_ca (ca_path : path) : io SignError (list bytes) :=
  pem ← io_map_err (fun _ => SignConfig "opening LDAP CA") (read_file ca_path);
  roots ← io_lift (fold_result add_anchor [] (pemfile_certs pem));
  io_lift (ensure (negb (bool_decide (roots = []))) (SignConfig "no certificates found in LDAP CA")) ;;
  io_lift (map_err (fun _ => SignConfig "LDAP TLS protocol setup") safe_default_protocol_versions) ;;
  mret roots.

(** [connect]. *)
Definition connect (d : Directory) (ldap_url tls : string) (ca_cert : option path) : io SignError unit :=
  starttls ← io_lift
    (if bool_decide (tls = "starttls"%string) then Ok true
     else if bool_decide (tls = "ldaps"%string) then
       ensure (String.prefix "ldaps://" ldap_url) (SignConfig "ldaps requires an ldaps:// URL") ;; Ok false
     else if bool_decide (tls = "none"%string) then Ok false
     else Err (SignConfig "invalid tls mode"));
  roots ← match ca_cert with
          | Some ca_path => roots ← client_config_with_ca ca_path; mret (Some roots)
          | None => mret None
          end;
  io_lift (map_err (fun _ => SignConfig "LDAP connect")
    (dr_connect d (mkLdapConnSettings starttls roots) ldap_url)).

(** [conn.simple_bind(..)?.success()?]. *)
Definition bind_to (d : Directory) (config : DogtagSyncConfig) : sign_result unit :=
  r ← map_err (fun _ => SignConfig "LDAP bind")
        (dr_simple_bind d (dg_bind_dn config) (dg_bind_password config));
  map_err (fun _ => SignConfig "LDAP bind") (ldap_success r) ;;
  Ok tt.

(** ** Synchronization *)

(** The loop of [do_full_poll]. *)
Definition poll_entry (s : Checkpoint * gset string) (entry : ResultEntry) :
    result thread_error (Checkpoint * gset string) :=
  let '(staged, present) := s in
  search_entry ← or_panic (construct entry);
  record ← map_err Returned (parse_cert_entry search_entry);
  match record with
  | Some record =>
      let id := hex_encode (sr_serial record) in
      Ok (set_records <[id := record]> staged, {[id]} ∪ present)
  | None => Ok (staged, present)
  end.

(** [do_full_poll]. *)
Definition do_full_poll (d : Directory) (config : DogtagSyncConfig) (binding : string) :
    io thread_error Checkpoint :=
  io_map_err Returned (connect d (dg_ldap_url config) (dg_tls config) (dg_ca_cert config)) ;;
  io_lift (map_err Returned (bind_to d config)) ;;
  '(entries, r) ← io_lift (map_err (fun _ => config_error "LDAP search")
    (dr_search d (dg_base_dn config) (dg_filter config) attrs));
  io_lift (map_err (fun _ => config_error "LDAP search") (ldap_success r)) ;;
  '(staged, present) ← io_lift (fold_result poll_entry (fresh_checkpoint binding, ∅) entries);
  io_lift (map_err Returned (finish staged present false)).

(** [if staged.cookie.is_none() { .. }]. *)
Definition start_sync (staged : Checkpoint) : Checkpoint :=
  match cp_cookie staged with
  | None => set_complete false (set_records (fun _ => ∅) staged)
  | Some _ => staged
  end.

(** The request: [encode_sync_request] in a critical control. *)
Definition sync_control (staged : Checkpoint) : RawControl :=
  mkRawControl SYNC_REQUEST_OID true (Some (sync_request_value (cp_cookie staged))).

(** After the last message of the stream. *)
Definition sync_end (staged : Checkpoint) (present : gset string) (r : LdapResult) :
    result thread_error Checkpoint :=
  r ← map_err (fun _ => config_error "LDAP search completion") (ldap_success r);
  control ← the_control (controls_of SYNC_DONE_OID (lr_ctrls r)) "missing or duplicate Sync Done control";
  done ← or_panic (parse_sync_done control);
  map_err Returned (finish (update_cookie (sd_cookie done) staged) present (sd_refresh_deletes done)).

(** [do_sync]; [d] is the directory on the first connection, [d'] on that of the poll. *)
Definition do_sync (d d' : Directory) (config : DogtagSyncConfig) (staged : Checkpoint) :
    io thread_error Checkpoint :=
  io_map_err Returned (connect d (dg_ldap_url config) (dg_tls config) (dg_ca_cert config)) ;;
  io_lift (map_err Returned (bind_to d config)) ;;
  let staged := start_sync staged in
  '(items, r) ← io_lift (map_err (fun _ => config_error "LDAP search")
    (dr_streaming_search d [sync_control staged] (dg_base_dn config) (dg_filter config) attrs));
  '(staged, present) ← io_lift (sync_loop (staged, ∅) items);
  if lr_rc r =? 4096 then io_fail (config_error "syncRefreshRequired")
  else if lr_rc r =? 12 then do_full_poll d' config (cp_binding staged)
  else io_lift (sync_end staged present r).

(** ** The checkpoint file *)

(** [binding]. *)
Definition binding (config : DogtagSyncConfig) (ca : CaIdentity) : string :=
  hex_encode (sha256 (identity_to_vec
    (dg_ldap_url config, dg_base_dn config, dg_filter config, dg_bind_dn config, dg_tls config,
     dg_ca_cert config, attrs, ci_issuer_name_der ca, ci_issuer_key_bytes ca))).

(** [checkpoint_path]: the suffix goes to the last component. *)
Definition checkpoint_path (config : DogtagSyncConfig) (binding : string) : path :=
  removelast (dg_cookie_path config) ++
  [List.last (dg_cookie_path config) "" +:+ "." +:+ binding +:+ ".json"]%string.

(** [load_checkpoint]. *)
Definition load_checkpoint (p : path) (binding : string) : io SignError (option Checkpoint) :=
  b ← io_try (read_file p);
  mret (b ← to_option b;
        state ← to_option (checkpoint_from_slice b);
        if (cp_version state =? 1) && bool_decide (cp_binding state = binding) && cp_complete state
        then Some state else None).

Definition sync_temp (p : path) (uuid : string) : path :=
  parent_dir p ++ [".hoike-sync-" +:+ uuid +:+ ".tmp"]%string.

(** The closure [write] of [save_checkpoint]. *)
Definition write_checkpoint (temp p : path) (state : Checkpoint) : io SignError unit :=
  io_map_err (fun _ => SignConfig "checkpoint create") (create_new temp) ;;
  match checkpoint_to_vec state with
  | Err _ => io_fail (SignConfig "checkpoint encode")
  | Ok b => io_map_err (fun _ => SignConfig "checkpoint encode") (write_all temp b)
  end ;;
  io_map_err (fun _ => SignConfig "checkpoint sync") (sync_all temp) ;;
  io_map_err (fun _ => SignConfig "checkpoint replace") (rename temp p) ;;
  io_map_err (fun _ => SignConfig "checkpoint directory sync") (sync_dir (parent_dir p)).

(** [save_checkpoint]; [uuid] is the one that is drawn for the temporary name. *)
Definition save_checkpoint (uuid : string) (p : path) (state : Checkpoint) : io SignError unit :=
  io_map_err (fun _ => SignConfig "checkpoint directory") (create_dir_all (parent_dir p)) ;;
  let temp := sync_temp p uuid in
  result ← io_try (write_checkpoint temp p state);
  match result with
  | Err e => io_try (E := IoError) (remove_file temp) ;; io_fail e
  | Ok _ => mret tt
  end.

(** ** The source *)

(** [std::thread::spawn(..).join()]. *)
Definition join {A} (m : io thread_error A) : io SignError A :=
  io_map_err (fun e => match e with
                       | Panicked => SignConfig "malformed LDAP synchronization response"
                       | Returned e => e
                       end) m.

(** The checkpoint that a refresh starts from. *)
Definition resume (config : DogtagSyncConfig) (current : Checkpoint) (ca : CaIdentity) : io SignError Checkpoint :=
  let b := binding config ca in
  if bool_decide (cp_binding current = b) then mret current
  else loaded ← load_checkpoint (checkpoint_path config b) b;
       mret (default (fresh_checkpoint b) loaded).

(** One or two runs of [do_sync]; [ds] is the directory on each connection. *)
Definition synchronize (ds : nat -> Directory) (config : DogtagSyncConfig) (b : string)
    (candidate : Checkpoint) : io SignError Checkpoint :=
  result ← io_try (do_sync (ds 0%nat) (ds 1%nat) config candidate);
  match result with
  | Ok value => mret value
  | Err Panicked => io_fail (SignConfig "malformed LDAP synchronization response")
  | Err (Returned (SignConfig message)) =>
      if bool_decide (message = "syncRefreshRequired"%string) then
        join (do_sync (ds 2%nat) (ds 3%nat) config (fresh_checkpoint b))
      else io_fail (SignConfig message)
  | Err (Returned err) => io_fail err
  end.

(** [refresh], with the state under the lock: the result, and the state left behind. *)
Definition refresh (ds : nat -> Directory) (uuid : string) (config : DogtagSyncConfig)
    (current : Checkpoint) (ca : CaIdentity) : io SignError (sign_result Checkpoint * Checkpoint) :=
  let b := binding config ca in
  current ← resume config current ca;
  staged ← io_try (
    staged ← synchronize ds config b current;
    save_checkpoint uuid (checkpoint_path config b) staged ;;
    mret staged);
  mret match staged with
       | Ok staged => (Ok staged, staged)
       | Err e => (Err e, current)
       end.

(** [snapshot]. *)
Definition included (cp : Checkpoint) : list StoredRecord :=
  List.filter (fun r => negb (sr_excluded r)) (btree_values (cp_records cp)).

Definition snapshot_of (state : Checkpoint) (now next : N) : StatusSnapshot :=
  mkStatusSnapshot
    (list_to_map (rev ((fun r => (sr_serial r, record_status r)) <$> included state)))
    now (Some next)
    (list_to_map (rev (omap (fun r => ts ← sr_not_after r; Some (sr_serial r, ts)) (included state)))).

Definition dogtag_snapshot (ds : nat -> Directory) (uuid : string) (config : DogtagSyncConfig)
    (current : Checkpoint) (ca : CaIdentity) :
    io SignError (sign_result StatusSnapshot * Checkpoint) :=
  '(state, current) ← refresh ds uuid config current ca;
  match state with
  | Err e => mret (Err e, current)
  | Ok state =>
      now ← io_try unix_now;
      mret (now ← now;
            next ← ok_or (if now + 86400 <? u64_lim then Some (now + 86400) else None)
                     (SignConfig "source clock overflow");
            Ok (snapshot_of state now next), current)
  end.

(** [changes_since]. *)
Definition dogtag_changes_since (ds : nat -> Directory) (uuid : string) (config : DogtagSyncConfig)
    (current : Checkpoint) (ca : CaIdentity) (since : N) :
    io SignError (sign_result (list StatusChange) * Checkpoint) :=
  '(snap, current) ← dogtag_snapshot ds uuid config current ca;
  mret (snap ← snap;
        Ok ((fun '(serial, status) => mkStatusChange serial status (ss_this_update snap))
              <$> btree_list (ss_entries snap)), current).

(** [is_authoritative_complete], of the state under the lock. *)
Definition dogtag_authoritative_complete (current : Checkpoint) : bool := cp_complete current.
End sync.

(** ** The copy of one entry *)

Section entries.
Context {CR : Crates} {BU : BigUint} {LD : Ldap}.

(** The entry update a message carries. *)
Definition message_state (raw : ResultEntry) : option SyncState :=
  match controls_of SYNC_STATE_OID (entry_controls raw) with
  | [control] => parse_sync_state control
  | _ => None
  end.

Definition message_record (raw : ResultEntry) : option StoredRecord :=
  entry ← construct raw;
  record ← to_option (parse_cert_entry entry);
  record.

Inductive change := Updated (record : option StoredRecord) | Removed | Seen.

(** What a message says of the entry [id], if it names it. *)
Definition about (id : string) (raw : ResultEntry) : option change :=
  if is_intermediate raw then
    match parse_syncinfo raw with
    | Some (SyncIdSet _ deletes uuids) =>
        if bool_decide (id ∈ hex_encode <$> uuids) then Some (if deletes then Removed else Seen) else None
    | _ => None
    end
  else
    state ← message_state raw;
    if bool_decide (hex_encode (sy_entry_uuid state) = id) then
      Some match sy_state state with
           | EntryDelete => Removed
           | EntryPresent => Seen
           | EntryAdd | EntryModify => Updated (message_record raw)
           end
    else None.

(** The record of an entry and whether it was seen, after a message. *)
Definition entry_after (id : string) (s : option StoredRecord * bool) (raw : ResultEntry) :
    option StoredRecord * bool :=
  match about id raw with
  | None => s
  | Some (Updated record) => (record, true)
  | Some Removed => (None, s.2)
  | Some Seen => (s.1, true)
  end.

(** The state of the reducer, seen from one entry. *)
Definition tracks (id : string) (st : Checkpoint * gset string) (s : option StoredRecord * bool) : Prop :=
  cp_records st.1 !! id = s.1 /\ (id ∈ st.2 <-> s.2 = true).

Lemma update_cookie_records c cp : cp_records (update_cookie c cp) = cp_records cp.
Proof. by destruct c. Qed.

Lemma apply_uuids_tracks dels id uuids st st' s :
  fold_result (apply_uuid dels) st uuids = Ok st' -> tracks id st s ->
  tracks id st' (if bool_decide (id ∈ hex_encode <$> uuids)
                 then (if dels then (None, s.2) else (s.1, true)) else s).
Proof.
  revert st s. induction uuids as [|u us IH]; intros [cp pr] s H Ht.
  - cbn in H. simplify_eq. rewrite bool_decide_eq_false_2; [done|]. by intros ?%elem_of_nil.
  - cbn [fold_result] in H. apply bind_Ok in H as ([cp1 pr1] & H1 & H).
    unfold apply_uuid in H1. apply bind_Ok in H1 as (? & _ & H1).
    assert (tracks id (cp1, pr1) (if bool_decide (id = hex_encode u)
              then (if dels then (None, s.2) else (s.1, true)) else s)) as Ht1.
    { clear IH H. destruct Ht as [Hr Hp]. cbn [fst snd] in Hr, Hp. case_bool_decide as Hid.
      - subst id. destruct dels; injection H1 as <- <-; split; cbn [fst snd cp_records set_records];
          [apply lookup_delete_eq|done|done|]. rewrite elem_of_union, elem_of_singleton. naive_solver.
      - destruct dels; injection H1 as <- <-; split; cbn [fst snd cp_records set_records];
          [by rewrite lookup_delete_ne|done|done|]. rewrite elem_of_union, elem_of_singleton. naive_solver. }
    apply (IH _ _ H) in Ht1. clear -Ht1. rewrite fmap_cons.
    rewrite (bool_decide_ext (id ∈ hex_encode u :: _) (id = hex_encode u \/ id ∈ hex_encode <$> us))
      by apply elem_of_cons.
    rewrite bool_decide_or. do 2 case_bool_decide; destruct dels; done.
Qed.

Lemma apply_info_tracks id info st st' s :
  apply_info st info = Ok st' -> tracks id st s ->
  tracks id st' (match info with
                 | SyncIdSet _ deletes uuids =>
                     if bool_decide (id ∈ hex_encode <$> uuids)
                     then (if deletes then (None, s.2) else (s.1, true)) else s
                 | _ => s
                 end).
Proof.
  destruct st as [cp pr]. unfold tracks at 1. cbn [fst snd]. intros H [Hr Hp].
  assert (forall c, tracks id (update_cookie c cp, pr) s) as Ht.
  { intros c. split; cbn [fst snd]; [by rewrite update_cookie_records|done]. }
  destruct info as [c|c|c|c dels uuids]; cbn in H.
  1-3: injection H as <-; try apply Ht. 1: done.
  by eapply apply_uuids_tracks.
Qed.

Lemma apply_entry_tracks id cp state record pr st' s :
  apply_entry cp state record pr = Ok st' -> tracks id (cp, pr) s ->
  tracks id st' (if bool_decide (hex_encode (sy_entry_uuid state) = id) then
                   match sy_state state with
                   | EntryDelete => (None, s.2)
                   | EntryPresent => (s.1, true)
                   | EntryAdd | EntryModify => (record, true)
                   end
                 else s).
Proof.
  unfold apply_entry. intros (_ & _ & H)%bind_Ok [Hr Hp]. cbn [fst snd] in Hr, Hp.
  rewrite <- (update_cookie_records (sy_cookie state)) in Hr.
  revert H Hr. generalize (update_cookie (sy_cookie state) cp), (hex_encode (sy_entry_uuid state)).
  clear cp. intros cp id' H Hr.
  destruct (sy_state state); [apply bind_Ok in H as (_ & _ & H)|
    apply bind_Ok in H as (r & ->%ok_or_Ok & H)..|]; injection H as <-;
    (case_bool_decide; [subst id'|]); split; cbn [fst snd cp_records set_records]; try done;
    try (rewrite elem_of_union, elem_of_singleton; intuition congruence).
  1,3: apply lookup_insert_eq. 1,2: by rewrite lookup_insert_ne.
  - apply lookup_delete_eq.
  - by rewrite lookup_delete_ne.
Qed.

Lemma sync_step_tracks id st raw st' s :
  sync_step st raw = Ok st' -> tracks id st s -> tracks id st' (entry_after id s raw).
Proof.
  unfold sync_step, entry_after, about. destruct (is_intermediate raw).
  - intros (info & ->%ok_or_Ok & H%map_err_Ok)%bind_Ok Ht.
    pose proof (apply_info_tracks id _ _ _ _ H Ht) as Ht'.
    destruct info as [| | |? [] ?]; try done; by case_bool_decide.
  - unfold message_state, the_control. intros H. apply bind_Ok in H as (c & Hc & H).
    destruct (controls_of _ _) as [|c' [|]]; try done. injection Hc as ->.
    apply bind_Ok in H as (state & ->%ok_or_Ok & H). apply bind_Ok in H as (record & Hrec & H%map_err_Ok).
    intros Ht. destruct st as [cp pr]. pose proof (apply_entry_tracks id _ _ _ _ _ _ H Ht) as Ht'.
    cbn [mbind option_bind]. case_bool_decide; [|done].
    assert (sy_state state = EntryAdd \/ sy_state state = EntryModify -> record = message_record raw) as Hr.
    { unfold message_record. intros [E|E]; rewrite E in Hrec;
        apply bind_Ok in Hrec as (e & ->%ok_or_Ok & Hp%map_err_Ok); cbn [mbind option_bind];
        rewrite Hp; by destruct record. }
    destruct (sy_state state); try done; by rewrite <- Hr by auto.
Qed.

Lemma sync_loop_items st items st' :
  sync_loop st items = Ok st' -> exists raws, items = Ok <$> raws /\ fold_result sync_step st raws = Ok st'.
Proof.
  unfold sync_loop. revert st. induction items as [|i items IH]; intros st; cbn [fold_result].
  - intros [= <-]. by exists [].
  - intros (st1 & H1 & (raws & -> & H2)%IH)%bind_Ok. unfold sync_item in H1.
    apply bind_Ok in H1 as (raw & ->%map_err_Ok & H1). exists (raw :: raws). split; [done|].
    cbn [fold_result]. by rewrite H1.
Qed.

Lemma sync_steps_tracks id raws st st' s :
  fold_result sync_step st raws = Ok st' -> tracks id st s ->
  tracks id st' (fold_left (entry_after id) raws s).
Proof.
  revert st s. induction raws as [|raw raws IH]; intros st s; cbn [fold_result fold_left].
  - by intros [= <-].
  - intros (st1 & H1 & H2)%bind_Ok Ht. eapply IH; [done|]. by eapply sync_step_tracks.
Qed.

Lemma finish_records cp pr dels cp' :
  finish cp pr dels = Ok cp' -> forall id,
  cp_records cp' !! id = if dels || bool_decide (id ∈ pr) then cp_records cp !! id else None.
Proof.
  unfold finish. intros (_ & _ & [= <-])%bind_Ok id. cbn [cp_records set_complete].
  destruct dels; cbn [orb]; [done|]. cbn [cp_records set_records]. rewrite map_lookup_filter.
  destruct (cp_records cp !! id); cbn; case_bool_decide; rewrite ?option_guard_True, ?option_guard_False by done; done.
Qed.

Lemma entry_after_silent id raws s :
  (forall raw, raw ∈ raws -> about id raw = None) -> fold_left (entry_after id) raws s = s.
Proof.
  revert s. induction raws as [|raw raws IH]; intros s H; cbn [fold_left]; [done|].
  unfold entry_after at 2. rewrite H by left. apply IH. intros. apply H. by right.
Qed.

Lemma sync_content_of cp items cp' pr dels cp'' :
  sync_loop (cp, ∅) items = Ok (cp', pr) -> finish cp' pr dels = Ok cp'' ->
  exists raws, items = Ok <$> raws /\ forall id,
  cp_records cp'' !! id =
    let '(record, seen) := fold_left (entry_after id) raws (cp_records cp !! id, false) in
    if dels || seen then record else None.
Proof.
  intros (raws & -> & Hl)%sync_loop_items Hf. exists raws. split; [done|]. intros id.
  destruct (sync_steps_tracks id _ _ _ (cp_records cp !! id, false) Hl) as [Hr Hp].
  { split; [done|]. cbn. split; [by intros ?%elem_of_empty|done]. }
  rewrite (finish_records _ _ _ _ Hf). destruct (fold_left _ _ _) as [r seen]. cbn [fst snd] in *.
  rewrite <- Hr. destruct dels; [done|]. cbn [orb]. destruct seen; case_bool_decide; naive_solver.
Qed.

(** C6: the copy of a directory follows its messages, entry by entry.  After a
    stream that was read to its end and finished, an entry that no message named
    is as it was in a refresh with explicit deletions and is gone in one without;
    an entry whose last message was an update has the record of that message; one
    whose last message was a deletion is gone; and one that was only confirmed
    last has the record the messages before say.  Messages about other entries
    and cookies make no difference. *)
Theorem sync_content cp items cp' present deletes cp'' id :
  sync_loop (cp, ∅) items = Ok (cp', present) -> finish cp' present deletes = Ok cp'' ->
  exists raws, items = Ok <$> raws /\
  ((forall raw, raw ∈ raws -> about id raw = None) ->
     cp_records cp'' !! id = if deletes then cp_records cp !! id else None) /\
  (forall before raw change after, raws = before ++ raw :: after -> about id raw = Some change ->
     (forall raw', raw' ∈ after -> about id raw' = None) ->
     cp_records cp'' !! id =
       match change with
       | Updated record => record
       | Removed => None
       | Seen => (fold_left (entry_after id) before (cp_records cp !! id, false)).1
       end).
Proof.
  intros Hl Hf. destruct (sync_content_of _ _ _ _ _ _ Hl Hf) as (raws & -> & H). exists raws.
  split; [done|]. specialize (H id). split.
  - intros Hs. rewrite entry_after_silent, orb_false_r in H by done. done.
  - intros before raw change after -> Ha Hs. rewrite fold_left_app in H. cbn [fold_left] in H.
    rewrite entry_after_silent in H by done. unfold entry_after at 1 in H. rewrite Ha in H.
    destruct change; rewrite ?orb_true_r in H; [done| |done]. rewrite H. by destruct (deletes || _).
Qed.
End entries.

(** ** Complete checkpoints *)

(** No serial number is in two records. *)
Definition unambiguous (m : gmap string StoredRecord) : Prop :=
  forall i j r r', m !! i = Some r -> m !! j = Some r' -> sr_serial r = sr_serial r' -> i = j.

Lemma btree_values_perm {A} (m : gmap string A) : btree_values m ≡ₚ (map_to_list m).*2.
Proof. unfold btree_values. by rewrite sort_by_key_perm. Qed.

Lemma elem_of_btree_values {A} (m : gmap string A) x : x ∈ btree_values m <-> exists k, m !! k = Some x.
Proof.
  rewrite btree_values_perm, list_elem_of_fmap. split.
  - intros ([k y] & -> & H%elem_of_map_to_list). eauto.
  - intros [k H]. exists (k, x). by rewrite elem_of_map_to_list.
Qed.

Lemma add_serials l seen :
  is_ok (fold_result add_serial seen l) = true <->
  NoDup (sr_serial <$> l) /\ (forall r, r ∈ l -> sr_serial r ∉ seen).
Proof.
  revert seen. induction l as [|r l IH]; intros seen; cbn [fold_result].
  - split; [|done]. intros _. split; [constructor|]. by intros r ?%elem_of_nil.
  - rewrite fmap_cons, NoDup_cons, list_elem_of_fmap.
    unfold add_serial at 2, ensure. case_bool_decide as Hr; cbn [mbind result_bind].
    + rewrite IH. setoid_rewrite elem_of_cons. setoid_rewrite not_elem_of_union.
      setoid_rewrite not_elem_of_singleton. split.
      * intros [Hn H]. split_and!; [|done|].
        -- intros (r' & E & Hin). destruct (H r' Hin); congruence.
        -- intros r' [->|Hin]; [done|]. by apply H.
      * intros [[Hx Hn] H]. split; [done|]. intros r' Hin. split; [|by apply H; right].
        intros E. apply Hx. eauto.
    + split; [done|]. intros [_ H]. exfalso. apply (H r); [by left|done].
Qed.

Lemma unambiguous_NoDup m : unambiguous m <-> NoDup (sr_serial <$> btree_values m).
Proof.
  rewrite btree_values_perm, <- list_fmap_compose. split.
  - intros H. apply NoDup_fmap_2_strong; [|apply NoDup_map_to_list].
    intros [i r] [j r'] Hi%elem_of_map_to_list Hj%elem_of_map_to_list E. cbn in E.
    assert (i = j) as -> by (by eapply H). congruence.
  - intros H i j r r' Hi%elem_of_map_to_list Hj%elem_of_map_to_list E.
    apply list_elem_of_lookup in Hi as [a Ha]. apply list_elem_of_lookup in Hj as [b Hb].
    assert (a = b) as ->.
    { eapply NoDup_lookup; [exact H|rewrite list_lookup_fmap, Ha; reflexivity|].
      rewrite list_lookup_fmap, Hb. cbn. by rewrite E. }
    congruence.
Qed.

Lemma finish_Ok cp pr dels cp' :
  finish cp pr dels = Ok cp' ->
  cp_version cp' = cp_version cp /\ cp_binding cp' = cp_binding cp /\ cp_cookie cp' = cp_cookie cp /\
  cp_complete cp' = true /\ unambiguous (cp_records cp').
Proof.
  unfold finish. intros (s & Hs & [= <-])%bind_Ok. rewrite unambiguous_NoDup.
  cbn [cp_version cp_binding cp_cookie cp_complete cp_records set_complete]. split_and!; try by destruct dels.
  by apply (add_serials _ ∅); rewrite Hs.
Qed.

(** The parts that a synchronization never changes. *)
Definition same_source (cp cp' : Checkpoint) : Prop :=
  cp_version cp' = cp_version cp /\ cp_binding cp' = cp_binding cp.

#[export] Instance same_source_preorder : PreOrder same_source.
Proof. split; [done|]. intros ??? [??] [??]. split; congruence. Qed.

Lemma update_cookie_source c cp : same_source cp (update_cookie c cp).
Proof. by destruct c. Qed.

Section sources.
Context {CR : Crates} {BU : BigUint} {LD : Ldap} {SJ : SyncJson}.

Lemma apply_entry_source cp state record pr st :
  apply_entry cp state record pr = Ok st -> same_source cp st.1.
Proof.
  unfold apply_entry. intros (_ & _ & H)%bind_Ok. etrans; [apply (update_cookie_source (sy_cookie state))|].
  destruct (sy_state state); [apply bind_Ok in H as (_ & _ & H)|apply bind_Ok in H as (? & _ & H)..|];
    by injection H as <-.
Qed.

Lemma apply_info_source st info st' : apply_info st info = Ok st' -> same_source st.1 st'.1.
Proof.
  destruct st as [cp pr]. destruct info as [c|c|c|c dels uuids]; cbn [apply_info fst].
  - by intros [= <-].
  - intros [= <-]. apply update_cookie_source.
  - intros [= <-]. apply update_cookie_source.
  - intros H. etrans; [apply (update_cookie_source c)|].
    apply (fold_result_inv _ (fun st => same_source (update_cookie c cp) st.1) _ _ _) in H; [done| |done].
    intros [cp1 pr1] u st2 _ Hs. cbn in *. intros (_ & _ & H2)%bind_Ok. by destruct dels; injection H2 as <-.
Qed.

Lemma sync_loop_source st items st' : sync_loop st items = Ok st' -> same_source st.1 st'.1.
Proof.
  intros (raws & _ & H)%sync_loop_items.
  apply (fold_result_inv _ (fun s => same_source st.1 s.1) _ _ _) in H; [done| |done].
  intros s raw s' _ Hs. unfold sync_step. destruct (is_intermediate raw).
  - intros (info & _ & H2%map_err_Ok)%bind_Ok. etrans; [done|]. by eapply apply_info_source.
  - intros H2. apply bind_Ok in H2 as (c & _ & H2). apply bind_Ok in H2 as (state & _ & H2).
    apply bind_Ok in H2 as (record & _ & H2%map_err_Ok). etrans; [done|]. by eapply apply_entry_source.
Qed.

(** What is common to the ways a synchronization can end well. *)
Definition published (b : string) (cp : Checkpoint) : Prop :=
  cp_binding cp = b /\ cp_complete cp = true /\ unambiguous (cp_records cp).

Lemma do_full_poll_Done d config b w cp w' :
  do_full_poll d config b w = (Done cp, w') -> published b cp /\ cp_version cp = 1.
Proof.
  unfold do_full_poll. intros H. inv_io. destruct select (_ * _)%type as [entries r]. inv_io. destruct select (_ * _)%type as [staged pr]. inv_io.
  rename select (fold_result _ _ _ = _) into Hl. rename select (finish _ _ _ = _) into Hf.
  assert (same_source (fresh_checkpoint b) staged) as [E1 E2].
  { apply (fold_result_inv _ (fun s => same_source (fresh_checkpoint b) s.1) _ _ _) in Hl; [done| |done].
    intros [cp1 pr1] e st2 _ Hs. unfold poll_entry. intros Hp. inv_ok.
    by repeat case_match; simplify_eq. }
  apply finish_Ok in Hf as (? & ? & _ & ? & ?). cbn in E1, E2. split; [split_and!|]; (done || congruence).
Qed.

Lemma start_sync_source cp : same_source cp (start_sync cp).
Proof. unfold start_sync. by destruct (cp_cookie cp). Qed.

Lemma do_sync_Done d d' config staged w cp w' :
  do_sync d d' config staged w = (Done cp, w') ->
  published (cp_binding staged) cp /\ (cp_version staged = 1 -> cp_version cp = 1).
Proof.
  unfold do_sync. intros H. inv_io. destruct select (_ * _)%type as [items r]. inv_io. destruct select (_ * _)%type as [staged' pr].
  rename select (sync_loop _ _ = _) into Hl. apply sync_loop_source in Hl.
  assert (same_source staged staged') as [E1 E2] by (etrans; [apply start_sync_source|done]).
  destruct (lr_rc r =? 4096); [inv_io|]. destruct (lr_rc r =? 12).
  - rename select (do_full_poll _ _ _ _ = _) into Hp. apply do_full_poll_Done in Hp.
    rewrite E2 in Hp. tauto.
  - inv_io. unfold sync_end in *. inv_ok. rename select (finish _ _ _ = _) into Hf.
    apply finish_Ok in Hf as (Hv & Hb & _ & Hc & Hu). rename select SyncDone into done.
    destruct (update_cookie_source (sd_cookie done) staged') as [E3 E4].
    split; [split_and!|]; (done || congruence).
Qed.

Lemma synchronize_Done ds config b candidate w cp w' :
  cp_binding candidate = b -> synchronize ds config b candidate w = (Done cp, w') ->
  published b cp /\ (cp_version candidate = 1 -> cp_version cp = 1).
Proof.
  intros Hb. unfold synchronize. intros H. apply io_bind_Done in H as (r & w1 & H1 & H).
  apply io_try_Done in H1. destruct r as [v|[|e]].
  - inv_io. apply do_sync_Done in H1. by rewrite Hb in H1.
  - inv_io.
  - destruct e; try (inv_io; done). case_bool_decide; [|inv_io].
    unfold join in H. inv_io. rename select (do_sync _ _ _ _ _ = _) into Hd.
    apply do_sync_Done in Hd as [Hp Hv]. split; [done|]. intros _. by apply Hv.
Qed.

(** ** The checkpoint file *)

(** The old file, or the new one, whatever happened to the temporary file. *)
Definition old_or_new (t p : path) (state : Checkpoint) (w w' : World) : Prop :=
  only_at t w w' \/ exists b, checkpoint_to_vec state = Ok b /\ replaced t p b w w'.

Lemma replaced_then t p b w1 w2 w3 :
  t <> p -> replaced t p b w1 w2 -> only_at t w2 w3 -> replaced t p b w1 w3.
Proof.
  intros Hne (Hd & Hf & Hs & Hq) [Hd2 H2]. split_and!; [congruence|..].
  - by rewrite (proj1 (H2 p ltac:(congruence))).
  - by apply (H2 p ltac:(congruence)).
  - intros q Hqt Hqp. destruct (H2 q Hqt) as [-> ->]. by apply Hq.
Qed.

Lemma replaced_after t p b w1 w2 w3 : only_at t w1 w2 -> replaced t p b w2 w3 -> replaced t p b w1 w3.
Proof.
  intros [Hd1 H1] (Hd & Hf & Hs & Hq). split_and!; [congruence|done..|].
  intros q Hqt Hqp. destruct (Hq q Hqt Hqp) as [-> ->]. by apply H1.
Qed.

Lemma old_or_new_then t p state w1 w2 w3 :
  t <> p -> old_or_new t p state w1 w2 -> only_at t w2 w3 -> old_or_new t p state w1 w3.
Proof.
  intros Hne [H1|(b & Hb & H1)] H2; [left; by eapply only_at_trans|right].
  exists b. split; [done|]. by eapply replaced_then.
Qed.

Lemma old_or_new_after t p state w1 w2 w3 :
  only_at t w1 w2 -> old_or_new t p state w2 w3 -> old_or_new t p state w1 w3.
Proof.
  intros H1 [H2|(b & Hb & H2)]; [left; by eapply only_at_trans|right].
  exists b. split; [done|]. by eapply replaced_after.
Qed.

Lemma old_or_new_crash t p state w w' c :
  t <> p -> old_or_new t p state w w' -> stable w p -> after_crash w' p c ->
  c = w_files w !! p \/ exists b, checkpoint_to_vec state = Ok b /\ c = Some b.
Proof.
  intros Hne [H|(b & Hb & H)] Hs Hc.
  - left. rewrite <- (proj1 (proj2 H p ltac:(congruence))).
    apply stable_after_crash; [|done]. by eapply only_at_stable; [..|done]; [done|congruence].
  - destruct (replaced_after_crash _ _ _ _ _ _ H Hs Hc); eauto.
Qed.

Lemma write_checkpoint_spec t p state w :
  t <> p ->
  io_spec (write_checkpoint t p state) w (fun o w' =>
    (o <> Done tt -> old_or_new t p state w w') /\
    (o = Done tt -> exists b, checkpoint_to_vec state = Ok b /\ w_files w' !! p = Some b /\ stable w' p)).
Proof.
  intros Hne. unfold write_checkpoint.
  apply io_spec_bind, io_spec_map_err. eapply io_spec_mono; [apply create_new_spec|].
  intros [[]|e|] w1 [Ho1 Hf1]; [|by split; [left|]..]. specialize (Hf1 eq_refl).
  destruct (checkpoint_to_vec state) as [b|e] eqn:Eb; [|by split; [left|]].
  apply io_spec_bind, io_spec_map_err. eapply io_spec_mono; [by apply write_all_spec|].
  intros [[]|e|] w2 [Ho2 Hf2]; pose proof (only_at_trans _ _ _ _ Ho1 Ho2) as Ho2'; [|by split; [left|]..].
  apply io_spec_bind, io_spec_map_err. eapply io_spec_mono; [by apply (sync_all_spec t b), Hf2|].
  intros [[]|e|] w3 [Ho3 Hf3]; pose proof (only_at_trans _ _ _ _ Ho2' Ho3) as Ho3'; [|by split; [left|]..].
  destruct (Hf3 eq_refl) as [Hf3' Hs3].
  apply io_spec_bind, io_spec_map_err. eapply io_spec_mono; [by apply (rename_spec t p b _ w)|].
  intros [[]|e|] w4 H4; [|by split; [left|]|split; [intros _; destruct H4 as [H4|H4]; [by left|right; by exists b]|done]].
  apply io_spec_map_err, io_spec_syscall; intros; cbn [fst snd].
  - split; [done|]. intros _. exists b. destruct H4 as (Hd & Hf & Hs & _). split_and!; [done..|].
    split; [|done]. rewrite do_sync_dir_durable. by rewrite !decide_True.
  - split; [|done]. intros _. right. by exists b.
  - split; [|done]. intros _. right. by exists b.
Qed.

(** The outcomes of [save_checkpoint]. *)
Lemma save_checkpoint_spec uuid p state w :
  sync_temp p uuid <> p ->
  io_spec (save_checkpoint uuid p state) w (fun o w' =>
    match o with
    | Done _ => exists b, checkpoint_to_vec state = Ok b /\ w_files w' !! p = Some b /\ stable w' p
    | _ => old_or_new (sync_temp p uuid) p state w w'
    end).
Proof.
  intros Hne. set (t := sync_temp p uuid) in *. unfold save_checkpoint.
  apply io_spec_bind, io_spec_map_err. eapply io_spec_mono; [apply (create_dir_all_spec t)|].
  intros o w1 Ho1. destruct o as [[]|e|]; [|by left..]. fold t.
  apply io_spec_bind, io_spec_try. eapply io_spec_mono; [by apply write_checkpoint_spec|].
  intros o w2 [Hbad Hgood]. destruct o as [[]|e|]; [by apply Hgood| |].
  - apply io_spec_bind, io_spec_try. eapply io_spec_mono; [apply (remove_file_spec t)|].
    intros o w3 Ho3. assert (old_or_new t p state w w3) as H; [|by destruct o].
    eapply old_or_new_after; [done|]. eapply old_or_new_then; [done|by apply Hbad|done].
  - eapply old_or_new_after; [done|]. by apply Hbad.
Qed.

Lemma text_app a b : text (a +:+ b) = text a ++ text b.
Proof. induction a as [|c a IH]; [done|]. change (text (String c a +:+ b)) with (Ascii.byte_of_ascii c :: text (a +:+ b)). by rewrite IH. Qed.

(** The temporary file has another name than the checkpoint. *)
Lemma sync_temp_ne config b uuid : sync_temp (checkpoint_path config b) uuid <> checkpoint_path config b.
Proof.
  unfold sync_temp, checkpoint_path. intros [_ E]%app_inj_2; [|done]. injection E as E.
  apply (f_equal (fun s => list.last (text s))) in E. rewrite !text_app in E.
  rewrite !app_assoc, !last_app in E. done.
Qed.

Lemma reads_client_config ca : reads_only (client_config_with_ca ca).
Proof. unfold client_config_with_ca. eauto 10 with hoike. Qed.
Lemma reads_connect d url tls ca : reads_only (connect d url tls ca).
Proof.
  unfold connect. apply reads_bind; [eauto with hoike|]. intros starttls.
  apply reads_bind; [|eauto with hoike]. destruct ca; [|eauto with hoike].
  apply reads_bind; [apply reads_client_config|eauto with hoike].
Qed.
Lemma reads_full_poll d config b : reads_only (do_full_poll d config b).
Proof.
  unfold do_full_poll. apply reads_bind; [apply reads_map_err, reads_connect|]. intros _.
  apply reads_bind; [eauto with hoike|]. intros _. apply reads_bind; [eauto with hoike|]. intros [entries r].
  apply reads_bind; [eauto with hoike|]. intros _. apply reads_bind; [eauto with hoike|]. intros [staged pr].
  eauto with hoike.
Qed.
Lemma reads_sync d d' config staged : reads_only (do_sync d d' config staged).
Proof.
  unfold do_sync. apply reads_bind; [apply reads_map_err, reads_connect|]. intros _.
  apply reads_bind; [eauto with hoike|]. intros _. apply reads_bind; [eauto with hoike|]. intros [items r].
  apply reads_bind; [eauto with hoike|]. intros [staged' pr].
  destruct (_ =? 4096); [eauto with hoike|]. destruct (_ =? 12); [apply reads_full_poll|eauto with hoike].
Qed.
Lemma reads_synchronize ds config b candidate : reads_only (synchronize ds config b candidate).
Proof.
  unfold synchronize. apply reads_bind; [apply reads_try, reads_sync|].
  intros [v|[|[]]]; eauto with hoike. case_bool_decide; [|eauto with hoike].
  apply reads_map_err, reads_sync.
Qed.
Lemma reads_resume config current ca : reads_only (resume config current ca).
Proof. unfold resume, load_checkpoint. case_bool_decide; eauto 10 with hoike. Qed.

(** A refresh starts from the state in memory if it is of this source, else from
    the checkpoint on disk, else from nothing. *)
Lemma resume_Done config current ca w cp w' :
  resume config current ca w = (Done cp, w') ->
  let b := binding config ca in
  cp_binding cp = b /\
  (cp = current \/ cp_version cp = 1 /\
    (cp = fresh_checkpoint b \/ cp_complete cp = true /\ exists bs, w_files w !! checkpoint_path config b = Some bs /\
       checkpoint_from_slice bs = Ok cp)).
Proof.
  unfold resume, load_checkpoint. case_bool_decide as Hb; intros H; [inv_io; auto|].
  inv_io. rename select (io_try _ _ = _) into Ht. apply io_try_Done in Ht.
  destruct v0 as [bs|e]; [|by split; [|right; split; [|left]]].
  apply read_file_Done in Ht as [Hf _]. cbn [to_option mbind option_bind].
  destruct (checkpoint_from_slice bs) as [state|e] eqn:E; cbn; [|by split; [|right; split; [|left]]].
  destruct (_ && _) eqn:Ec; cbn; [|by split; [|right; split; [|left]]].
  apply andb_prop in Ec as [[Hv%N.eqb_eq Hbd%bool_decide_eq_true]%andb_prop Hc].
  split; [done|]. right. split; [done|]. right. eauto.
Qed.

(** What serde_json documents of a value that was written. *)
Class SyncJsonSpec : Prop := {
  checkpoint_from_to cp b : checkpoint_to_vec cp = Ok b -> checkpoint_from_slice b = Ok cp;
}.
Context {HS : HexSpec} {SS : Sha256Spec} {SP : SyncJsonSpec}.

Lemma binding_nonempty config ca : binding config ca <> ""%string.
Proof.
  unfold binding. intros E%(f_equal String.length). rewrite hex_encode_length, sha256_length in E. done.
Qed.

(** The states a source can be in between refreshes. *)
Definition source_inv (current : Checkpoint) : Prop := current = default_checkpoint \/ cp_version current = 1.

Lemma resume_version config current ca w cp w' :
  source_inv current -> resume config current ca w = (Done cp, w') ->
  cp_binding cp = binding config ca /\ cp_version cp = 1.
Proof.
  intros Hi (Hb & Hc)%resume_Done. split; [done|]. destruct Hc as [->|[? _]]; [|done].
  destruct Hi as [->|?]; [|done]. by destruct (binding_nonempty config ca).
Qed.

Lemma resume_restart config ca cp b w :
  checkpoint_from_slice b = Ok cp -> published (binding config ca) cp -> cp_version cp = 1 ->
  w_files w !! checkpoint_path config (binding config ca) = Some b -> w_events w = [] ->
  resume config default_checkpoint ca w = (Done cp, w).
Proof.
  intros Hs (Hb & Hc & _) Hv Hf He. unfold resume, load_checkpoint.
  rewrite bool_decide_eq_false_2 by (intros E; by destruct (binding_nonempty config ca)).
  cbv [mbind io_bind io_try]. unfold read_file, syscall. rewrite He, Hf. cbn.
  rewrite Hs. cbn [to_option mbind option_bind]. by rewrite Hv, Hb, Hc, bool_decide_eq_true_2.
Qed.

(** The old file, or a complete checkpoint of the source. *)
Definition old_or_complete (b : string) (old c : option bytes) : Prop :=
  c = old \/ exists bs cp, c = Some bs /\ checkpoint_from_slice bs = Ok cp /\ published b cp /\ cp_version cp = 1.

Lemma refresh_spec ds uuid config current ca w :
  source_inv current ->
  stable w (checkpoint_path config (binding config ca)) ->
  let b := binding config ca in
  let p := checkpoint_path config b in
  io_spec (refresh ds uuid config current ca) w (fun o w' =>
  match o with
  | Done (Ok cp, current') =>
      current' = cp /\ published b cp /\ cp_version cp = 1 /\
      forall c, after_crash w' p c -> exists bs, c = Some bs /\ checkpoint_from_slice bs = Ok cp
  | Done (Err _, current') =>
      cp_binding current' = b /\ cp_version current' = 1 /\
      forall c, after_crash w' p c -> old_or_complete b (w_files w !! p) c
  | Failed _ => False
  | Crashed => forall c, after_crash w' p c -> old_or_complete b (w_files w !! p) c
  end).
Proof.
  intros Hi Hst b p. unfold refresh. fold b.
  assert (forall w', same_files w w' -> forall c, after_crash w' p c -> old_or_complete b (w_files w !! p) c) as Hold.
  { intros w' Hsf c Hc. left. apply stable_after_crash; [done|]. by eapply same_files_after_crash. }
  apply io_spec_bind. unfold io_spec at 1.
  pose proof (reads_resume config current ca w) as Hsf1. unfold io_spec in Hsf1.
  destruct (resume config current ca w) as [[prior|e|] w1] eqn:Hr; cbn [fst snd] in *.
  2: { revert Hr. unfold resume, load_checkpoint. case_bool_decide; [done|].
       cbv [mbind io_bind io_try]. by destruct (read_file _ _) as [[]]. }
  2: { by apply Hold. }
  destruct (resume_version _ _ _ _ _ _ Hi Hr) as [Hb Hv].
  apply io_spec_bind, io_spec_try, io_spec_bind. unfold io_spec at 1.
  pose proof (reads_synchronize ds config b prior w1) as Hsf2. unfold io_spec in Hsf2.
  destruct (synchronize ds config b prior w1) as [[staged|e|] w2] eqn:Hsy; cbn [fst snd] in *.
  2: { split_and!; [done|done|]. apply Hold. by etrans. }
  2: { apply Hold. by etrans. }
  destruct (synchronize_Done _ _ _ _ _ _ _ Hb Hsy) as [Hpub Hv2]. specialize (Hv2 Hv).
  assert (same_files w w2) as Hsf by (by etrans).
  apply io_spec_bind. eapply io_spec_mono; [apply save_checkpoint_spec, sync_temp_ne|]. fold p.
  intros o w3 Ho.
  assert (match o with Done _ => False | _ => True end ->
    forall c, after_crash w3 p c -> old_or_complete b (w_files w !! p) c) as Hbad.
  { intros Hcase c Hc. destruct o; [done|..].
    all: destruct (old_or_new_crash _ _ _ _ _ _ (sync_temp_ne config b uuid) Ho
           (same_files_stable _ _ _ Hsf Hst) Hc) as [->|(bs & Hbs & ->)];
      [left; by rewrite (sf_files _ _ Hsf)|right; exists bs, staged; eauto using checkpoint_from_to]. }
  destruct o as [[]|e|].
  - destruct Ho as (bs & Hbs & Hf & Hst3). split_and!; [done..|]. intros c Hc. exists bs.
    split; [|by apply checkpoint_from_to]. rewrite <- Hf. by apply stable_after_crash.
  - split_and!; [done..|]. by apply Hbad.
  - by apply Hbad.
Qed.


(** ** Where records come from *)

(** The directory sent an entry, in a stream or in a full search. *)
Definition sent (config : DogtagSyncConfig) (d : Directory) (raw : ResultEntry) : Prop :=
  (exists cp items r, dr_streaming_search d [sync_control cp] (dg_base_dn config) (dg_filter config) attrs =
     Ok (items, r) /\ Ok raw ∈ items) \/
  (exists entries r, dr_search d (dg_base_dn config) (dg_filter config) attrs = Ok (entries, r) /\ raw ∈ entries).

Lemma entry_after_source id raws s r :
  (fold_left (entry_after id) raws s).1 = Some r ->
  s.1 = Some r \/ exists raw, raw ∈ raws /\ message_record raw = Some r.
Proof.
  revert s. induction raws as [|raw raws IH]; intros s; cbn [fold_left]; [auto|].
  intros [H|(raw' & Hin & H)]%IH; [|right; exists raw'; split; [by right|done]].
  unfold entry_after, about in H.
  assert (s.1 = Some r \/ message_record raw = Some r) as [?|?]; [|by left|right; exists raw; by split; [left|]].
  destruct (is_intermediate raw).
  - destruct (parse_syncinfo raw) as [[| | |? [] ?]|]; try case_bool_decide; naive_solver.
  - destruct (message_state raw) as [state|]; cbn in H; [|auto]. case_bool_decide; [|auto].
    destruct (sy_state state); naive_solver.
Qed.

Lemma finish_cookie c cp pr dels cp' :
  finish (update_cookie c cp) pr dels = Ok cp' ->
  exists cp0, finish cp pr dels = Ok cp0 /\ cp_records cp0 = cp_records cp'.
Proof.
  unfold finish. intros (s & Hs & [= <-])%bind_Ok. exists (set_complete true (if dels then cp
    else set_records (filter (fun '(id, _) => id ∈ pr)) cp)).
  assert (forall f, cp_records (set_records f (update_cookie c cp)) = cp_records (set_records f cp)) as E
    by (by destruct c).
  destruct dels; rewrite ?E, ?update_cookie_records in Hs; rewrite Hs; (split; [done|]); by destruct c.
Qed.

Lemma poll_source entries cp pr st :
  fold_result poll_entry (cp, pr) entries = Ok st -> forall id r, cp_records st.1 !! id = Some r ->
  cp_records cp !! id = Some r \/ exists raw, raw ∈ entries /\ message_record raw = Some r.
Proof.
  revert cp pr. induction entries as [|e entries IH]; intros cp pr; cbn [fold_result].
  - intros [= <-]. auto.
  - intros ([cp1 pr1] & H1 & H)%bind_Ok id r Hr.
    destruct (IH _ _ H id r Hr) as [H2|(raw & Hin & ?)]; [|right; exists raw; split; [by right|done]].
    unfold poll_entry in H1. apply bind_Ok in H1 as (se & Hse%ok_or_Ok & H1).
    apply bind_Ok in H1 as (record & Hp%map_err_Ok & H1). destruct record as [record|]; simplify_eq; [|auto].
    cbn in H2. apply lookup_insert_Some in H2 as [[_ ->]|[_ ?]]; [|auto].
    right. exists e. split; [by left|]. unfold message_record. by rewrite Hse; cbn; rewrite Hp.
Qed.

Lemma do_sync_source d d' config staged w cp w' :
  do_sync d d' config staged w = (Done cp, w') -> forall id r, cp_records cp !! id = Some r ->
  cp_records (start_sync staged) !! id = Some r \/
  exists raw, (sent config d raw \/ sent config d' raw) /\ message_record raw = Some r.
Proof.
  unfold do_sync. intros H id r Hr. inv_io. destruct select (_ * _)%type as [items res].
  inv_io. destruct select (_ * _)%type as [staged' pr].
  rename select (sync_loop _ _ = _) into Hl. rename select (dr_streaming_search _ _ _ _ _ = _) into Hs.
  destruct (lr_rc res =? 4096); [inv_io|]. destruct (lr_rc res =? 12).
  - right. unfold do_full_poll in *. inv_io. destruct select (_ * _)%type as [entries res'].
    inv_io. destruct select (_ * _)%type as [cp1 pr1]. inv_io.
    rename select (finish _ _ _ = _) into Hf. rewrite (finish_records _ _ _ _ Hf) in Hr.
    rename select (fold_result poll_entry _ _ = _) into Hp.
    destruct (poll_source _ _ _ _ Hp id r) as [?|(raw & Hin & Hm)].
    + by destruct (_ || _).
    + done.
    + exists raw. split; [right; right; eauto|done].
  - inv_io. unfold sync_end in *. inv_ok. rename select (finish _ _ _ = _) into Hf.
    rename select SyncDone into done.
    apply finish_cookie in Hf as (cp0 & Hf0 & E).
    destruct (sync_content_of _ _ _ _ _ _ Hl Hf0) as (raws & -> & Hc). rewrite <- E, Hc in Hr.
    destruct (fold_left _ _ _) as [record seen] eqn:Efold.
    destruct (entry_after_source id raws (cp_records (start_sync staged) !! id, false) r) as [?|(raw & Hin & Hm)].
    + rewrite Efold. by destruct (_ || _).
    + by left.
    + right. exists raw. split; [left; left|done]. exists (start_sync staged), (Ok <$> raws), res.
      split; [done|]. by apply list_elem_of_fmap_2.
Qed.

Lemma synchronize_source ds config b candidate w cp w' :
  synchronize ds config b candidate w = (Done cp, w') -> forall id r, cp_records cp !! id = Some r ->
  cp_records (start_sync candidate) !! id = Some r \/
  exists k raw, sent config (ds k) raw /\ message_record raw = Some r.
Proof.
  unfold synchronize. intros H id r Hr. apply io_bind_Done in H as (v & w1 & H1 & H).
  apply io_try_Done in H1. destruct v as [v|[|e]].
  - inv_io. destruct (do_sync_source _ _ _ _ _ _ _ H1 id r Hr) as [?|(raw & [?|?] & ?)]; eauto.
  - inv_io.
  - destruct e; try (inv_io; done). case_bool_decide; [|inv_io].
    unfold join in H. inv_io. rename select (do_sync _ _ _ (fresh_checkpoint _) _ = _) into Hd.
    destruct (do_sync_source _ _ _ _ _ _ _ Hd id r Hr) as [Hf|(raw & [?|?] & ?)]; eauto.
    cbn in Hf. by rewrite lookup_empty in Hf.
Qed.

(** ** Snapshots *)

Lemma elem_of_included cp r :
  r ∈ included cp <-> sr_excluded r = false /\ exists id, cp_records cp !! id = Some r.
Proof.
  unfold included. rewrite list_elem_of_In, filter_In, negb_true_iff, <- list_elem_of_In, elem_of_btree_values.
  tauto.
Qed.

Lemma NoDup_included cp : unambiguous (cp_records cp) -> NoDup (sr_serial <$> included cp).
Proof.
  rewrite unambiguous_NoDup. unfold included. induction (btree_values (cp_records cp)) as [|r l IH]; [done|].
  rewrite fmap_cons, NoDup_cons. intros [Hn Hd]. cbn [List.filter]. destruct (negb _); [|by apply IH].
  rewrite fmap_cons, NoDup_cons. split; [|by apply IH]. intros (r' & E & Hin)%list_elem_of_fmap. apply Hn.
  apply list_elem_of_fmap. exists r'. split; [done|].
  by apply list_elem_of_In, filter_In in Hin as [Hin%list_elem_of_In _].
Qed.

Lemma snapshot_entries cp now next serial status :
  unambiguous (cp_records cp) ->
  ss_entries (snapshot_of cp now next) !! serial = Some status <->
  exists id r, cp_records cp !! id = Some r /\ sr_excluded r = false /\ sr_serial r = serial /\
    record_status r = status.
Proof.
  intros Hu. cbn [ss_entries snapshot_of]. rewrite <- elem_of_list_to_map.
  - rewrite list_elem_of_In, <- in_rev, <- list_elem_of_In, list_elem_of_fmap.
    setoid_rewrite elem_of_included. split.
    + intros (r & [= -> ->] & He & id & Hid). eauto 6.
    + intros (id & r & Hid & He & <- & <-). eauto.
  - rewrite <- Permutation_rev, <- list_fmap_compose. by apply NoDup_included.
Qed.

Lemma message_record_good raw r :
  message_record raw = Some r -> sr_excluded r = false -> record_status r = Good ->
  exists entry, construct raw = Some entry /\ attr entry "certStatus" = Some (text "VALID") /\
    entry_serial entry = Some (sr_serial r).
Proof.
  unfold message_record. destruct (construct raw) as [entry|]; [|done]. cbn.
  destruct (parse_cert_entry entry) as [o|] eqn:E; [|done]. cbn. intros -> He Hg. exists entry.
  apply parse_cert_entry_Ok in E as (r' & status & [= <-] & Hs & Ha & Hc). split_and!; [done| |done].
  unfold record_status in Hg. destruct Hc as [(-> & _)|[(_ & _ & ?)|(_ & _ & [??] & Hr & _)]]; [done|congruence|].
  by rewrite Hr in Hg.
Qed.

Lemma refresh_Done ds uuid config current ca w cp current' w' :
  refresh ds uuid config current ca w = (Done (Ok cp, current'), w') ->
  exists prior w1 w2, resume config current ca w = (Done prior, w1) /\ current' = cp /\
    synchronize ds config (binding config ca) prior w1 = (Done cp, w2).
Proof.
  unfold refresh. intros H. apply io_bind_Done in H as (prior & w1 & Hr & H).
  apply io_bind_Done in H as (staged & w2 & Ht & H). apply io_ret_Done in H as [H ->].
  destruct staged as [staged|e]; [|done]. injection H as -> ->. apply io_try_Done in Ht.
  apply io_bind_Done in Ht as (cp' & w3 & Hs & Ht). inv_io. eauto 7.
Qed.

Lemma dogtag_snapshot_Done ds uuid config current ca w snap current' w' :
  dogtag_snapshot ds uuid config current ca w = (Done (Ok snap, current'), w') ->
  exists cp now next w1, refresh ds uuid config current ca w = (Done (Ok cp, current'), w1) /\
    snap = snapshot_of cp now next /\ next = now + 86400.
Proof.
  unfold dogtag_snapshot. intros H. apply io_bind_Done in H as ([state cur] & w1 & Hr & H).
  destruct state as [cp|e]; [|by inv_io]. apply io_bind_Done in H as (t & w2 & Ht & H).
  apply io_ret_Done in H as [H ->]. injection H as H ->. destruct t as [now|e]; [|done].
  cbn [mbind result_bind] in H. destruct (_ <? _); [|done]. injection H as ->.
  by exists cp, now, (now + 86400), w1.
Qed.

(** The directory says that a certificate is good: in the checkpoint [prior] that an incremental refresh
    goes on from, or in an entry it sends with the status VALID. *)
Definition directory_word (ds : nat -> Directory) (config : DogtagSyncConfig) (prior : Checkpoint)
    (serial : bytes) : Prop :=
  (is_Some (cp_cookie prior) /\ exists id r, cp_records prior !! id = Some r /\ sr_excluded r = false /\
     sr_serial r = serial /\ record_status r = Good) \/
  (exists k raw entry, sent config (ds k) raw /\ construct raw = Some entry /\
     attr entry "certStatus" = Some (text "VALID") /\ entry_serial entry = Some serial).

(** A snapshot, the checkpoint it was made from, and the one the refresh resumed. *)
Lemma snapshot_records ds uuid config current ca w snap cp w' :
  dogtag_snapshot ds uuid config current ca w = (Done (Ok snap, cp), w') ->
  unambiguous (cp_records cp) /\ cp_complete cp = true /\ (exists now next, snap = snapshot_of cp now next) /\
  exists prior w1, resume config current ca w = (Done prior, w1) /\
    forall id r, cp_records cp !! id = Some r -> sr_excluded r = false -> record_status r = Good ->
      directory_word ds config prior (sr_serial r).
Proof.
  intros (cp' & now & next & w1 & Hr & -> & _)%dogtag_snapshot_Done.
  apply refresh_Done in Hr as (prior & w2 & w3 & Hres & -> & Hsy).
  destruct (resume_Done _ _ _ _ _ _ Hres) as [Hb _].
  destruct (synchronize_Done _ _ _ _ _ _ _ Hb Hsy) as [(_ & Hc & Hu) _].
  split_and!; [done..|eauto|]. exists prior, w2. split; [done|]. intros id r Hid He Hg.
  destruct (synchronize_source _ _ _ _ _ _ _ Hsy id r Hid) as [Hp|(k & raw & Hs & Hm)].
  - left. unfold start_sync in Hp. destruct (cp_cookie prior); [|cbn in Hp; by rewrite lookup_empty in Hp]. eauto 8.
  - right. destruct (message_record_good raw r Hm He Hg) as (entry & ? & ? & ?). eauto 8.
Qed.

(** A certificate is answered good only on the word of the directory.  A
    snapshot lists exactly the records of the published checkpoint that are not
    excluded, each with its status, so that no revocation is dropped; and every
    certificate it lists as good either was good in the checkpoint that an
    incremental refresh resumed from, or the directory sent, during this refresh,
    a record with that serial number and the status VALID. *)
Theorem snapshot_good_is_valid ds uuid config current ca w snap current' w' :
  dogtag_snapshot ds uuid config current ca w = (Done (Ok snap, current'), w') ->
  (forall serial status, ss_entries snap !! serial = Some status <->
     exists id r, cp_records current' !! id = Some r /\ sr_excluded r = false /\ sr_serial r = serial /\
       record_status r = status) /\
  exists prior w1, resume config current ca w = (Done prior, w1) /\
  forall serial, ss_entries snap !! serial = Some Good -> directory_word ds config prior serial.
Proof.
  intros (Hu & _ & (now & next & ->) & prior & w1 & Hres & Hw)%snapshot_records.
  split; [intros; by apply snapshot_entries|]. exists prior, w1. split; [done|].
  intros serial (id & r & Hid & He & <- & Hg)%snapshot_entries; [|done]. by eapply Hw.
Qed.

(** ** The full poll *)

(** A poll keeps each record under its serial number. *)
Definition by_serial (st : Checkpoint * gset string) : Prop :=
  (forall id r, cp_records st.1 !! id = Some r -> id = hex_encode (sr_serial r)) /\
  (forall id, id ∈ st.2 <-> is_Some (cp_records st.1 !! id)).

Lemma poll_entry_Ok st e st' :
  poll_entry st e = Ok st' ->
  match message_record e with
  | Some r => st' = (set_records <[hex_encode (sr_serial r) := r]> st.1, {[hex_encode (sr_serial r)]} ∪ st.2)
  | None => st' = st
  end.
Proof.
  destruct st as [cp pr]. unfold poll_entry, message_record. intros (se & ->%ok_or_Ok & H)%bind_Ok.
  apply bind_Ok in H as (record & Hp%map_err_Ok & H). cbn [mbind option_bind]. rewrite Hp. cbn.
  by destruct record; injection H as <-.
Qed.

Lemma poll_by_serial entries st st' :
  fold_result poll_entry st entries = Ok st' -> by_serial st -> by_serial st'.
Proof.
  intros H Hb. apply (fold_result_inv poll_entry by_serial entries st st'); [|done..].
  intros st1 e st2 _ [Hk Hp] H1%poll_entry_Ok. destruct (message_record e) as [r|]; subst; [|done].
  split; cbn [fst snd cp_records set_records].
  - intros id r' [[<- <-]|[_ ?]]%lookup_insert_Some; [done|by apply Hk].
  - intros id. rewrite elem_of_union, elem_of_singleton, lookup_insert_is_Some, Hp.
    destruct (decide (hex_encode (sr_serial r) = id)); naive_solver.
Qed.

(** The records of a serial number among entries, in order. *)
Definition records_of (serial : bytes) (entries : list ResultEntry) : list StoredRecord :=
  filter (fun r => sr_serial r = serial) (omap message_record entries).

Lemma poll_lookup serial entries st st' :
  fold_result poll_entry st entries = Ok st' ->
  cp_records st'.1 !! hex_encode serial =
    match list.last (records_of serial entries) with
    | Some r => Some r
    | None => cp_records st.1 !! hex_encode serial
    end.
Proof.
  unfold records_of. revert st. induction entries as [|e entries IH]; intros st; cbn [fold_result].
  - by intros [= <-].
  - intros (st1 & H1%poll_entry_Ok & H)%bind_Ok. rewrite (IH _ H). cbn [omap list_omap].
    destruct (message_record e) as [r|]; [|by subst]. rewrite filter_cons, H1.
    cbn [fst cp_records set_records]. case_decide as Hs.
    + rewrite Hs, lookup_insert_eq. rewrite last_cons. by destruct (list.last _).
    + rewrite lookup_insert_ne; [done|]. by intros ?%(inj hex_encode).
Qed.

(** Of several entries with one serial number a full poll keeps the last, in
    the order in which the directory sent them, and the check for duplicate
    serial numbers that follows never refuses: the records are stored under
    their serial numbers, so a duplicate is overwritten before the check.  A
    certificate that has a REVOKED and, later in the answer, a VALID record is
    good. *)
Theorem full_poll_last_wins b entries staged present :
  fold_result poll_entry (fresh_checkpoint b, ∅) entries = Ok (staged, present) ->
  exists cp, finish staged present false = Ok cp /\ cp_complete cp = true /\
  forall serial, cp_records cp !! hex_encode serial = list.last (records_of serial entries).
Proof.
  intros H. pose proof (poll_by_serial _ _ _ H) as [Hk Hp]; 
    [split; cbn; intros id; rewrite lookup_empty; [done|split; [by intros ?%elem_of_empty|by intros []]]|].
  cbn [fst snd] in Hk, Hp.
  assert (unambiguous (filter (fun '(id, _) => id ∈ present) (cp_records staged))) as Hu.
  { intros i j r r' [Hi _]%map_lookup_filter_Some [Hj _]%map_lookup_filter_Some E.
    apply Hk in Hi as ->. apply Hk in Hj as ->. by rewrite E. }
  rewrite unambiguous_NoDup in Hu. destruct (finish staged present false) as [cp|e] eqn:Hf.
  - exists cp. apply finish_Ok in Hf as Hf'. split_and!; [done|tauto|]. intros serial.
    rewrite (finish_records _ _ _ _ Hf). cbn [orb]. pose proof (poll_lookup serial _ _ _ H) as Hl. cbn [fst] in Hl.
    case_bool_decide as Hin; rewrite Hp in Hin; rewrite Hl in *.
    + by destruct (list.last _).
    + destruct (list.last _); [|done]. by destruct Hin.
  - exfalso. unfold finish in Hf. cbn [cp_records set_records] in Hf.
    assert (is_ok (fold_result add_serial ∅ (btree_values
      (filter (fun '(id, _) => id ∈ present) (cp_records staged)))) = true) as Hok.
    { apply add_serials. split; [done|]. intros r _. apply not_elem_of_empty. }
    by destruct (fold_result add_serial _ _).
Qed.
End sources.

(** ** Concrete instances *)
Module ToySync.

Import ToySign.

#[export, refine] Instance revoked_codec : Codec (N * option N) := {
  to_val r := VArray [to_val r.1; opt_to_val r.2];
  of_val v := match v with
     | VArray [t; r] => t ← of_val t; r ← opt_of_val r; Some (t, r)
     | _ => None end }.
Proof. intros [t r]. cbn [fst snd]. rewrite of_to_val. cbn [mbind option_bind]. by rewrite opt_codec. Defined.

(** Records with their keys. *)
#[export, refine] Instance keyed_codec : Codec (string * StoredRecord) := {
  to_val kr := VArray [to_val kr.1; to_val (sr_serial kr.2); opt_to_val (sr_revoked kr.2);
     VBool (sr_excluded kr.2); opt_to_val (sr_not_after kr.2)];
  of_val v := match v with
     | VArray [k; s; r; VBool e; n] =>
         k ← of_val k; s ← of_val s; r ← opt_of_val r; n ← opt_of_val n;
         Some (k, mkStoredRecord s r e n)
     | _ => None end }.
Proof.
  intros [k [s r e n]]. cbn [fst snd sr_serial sr_revoked sr_excluded sr_not_after].
  do 2 (rewrite of_to_val; cbn [mbind option_bind]). do 2 (rewrite opt_codec; cbn [mbind option_bind]). done.
Defined.

#[export, refine] Instance Checkpoint_codec : Codec Checkpoint := {
  to_val cp := VArray [to_val (cp_version cp); to_val (cp_binding cp); opt_to_val (cp_cookie cp);
     seq_to_val (map_to_list (cp_records cp)); VBool (cp_complete cp)];
  of_val v := match v with
     | VArray [ve; b; c; r; VBool f] =>
         ve ← of_val ve; b ← of_val b; c ← opt_of_val c; r ← seq_of_val r;
         Some (mkCheckpoint ve b c (list_to_map r) f)
     | _ => None end }.
Proof.
  intros [ve b c m f]. cbn [cp_version cp_binding cp_cookie cp_records cp_complete].
  do 2 (rewrite of_to_val; cbn [mbind option_bind]). rewrite opt_codec. cbn [mbind option_bind].
  rewrite seq_codec. cbn [mbind option_bind]. by rewrite list_to_map_to_list.
Defined.

#[export] Instance json : SyncJson := {
  identity_to_vec '(url, base, f, dn, tls, ca, at_, name, key) :=
    enc (url +:+ base +:+ f +:+ dn +:+ tls)%string ++ concat (enc <$> default [] ca) ++ concat (enc <$> at_) ++
    enc name ++ enc key;
  checkpoint_to_vec cp := Ok (enc cp);
  checkpoint_from_slice b := dec b;
}.

#[export] Instance json_spec : SyncJsonSpec.
Proof. split. intros cp b [= <-]. apply codec_dec_enc. Qed.

(** Messages of a directory. *)
Inductive message := Info (info : SyncInfo) | Entry (controls : list RawControl) (entry : SearchEntry).

#[export] Instance ldap : Ldap := {|
  ResultEntry := message;
  is_intermediate m := match m with Info _ => true | Entry _ _ => false end;
  entry_controls m := match m with Info _ => [] | Entry cs _ => cs end;
  parse_syncinfo m := match m with Info i => Some i | Entry _ _ => None end;
  parse_sync_state c :=
    match rc_val c with
    | Some (x00 :: uuid) => Some (mkSyncState EntryPresent uuid None)
    | Some (x01 :: uuid) => Some (mkSyncState EntryAdd uuid None)
    | Some (x02 :: uuid) => Some (mkSyncState EntryModify uuid None)
    | Some (x03 :: uuid) => Some (mkSyncState EntryDelete uuid None)
    | _ => None
    end;
  parse_sync_done c := Some (mkSyncDone (rc_val c) false);
  construct m := match m with Info _ => None | Entry _ e => Some e end;
  sync_request_value c := default [] c;
  ldap_success r := if lr_rc r =? 0 then Ok r else Err "failure"%string;
  pemfile_certs b := [Ok b];
  roots_add _ := Ok tt;
  safe_default_protocol_versions := Ok tt;
|}.

Definition uuid (c : byte) : bytes := replicate 16 c.
Definition entry (tag c : byte) (serial status : string) : message :=
  Entry [mkRawControl SYNC_STATE_OID false (Some (tag :: uuid c))]
    (mkSearchEntry [(text "cn", [text serial]); (text "certStatus", [text status]);
       (text "revokedOn", [text "1719878400000"])]).

(** The first certificate is good, the second is revoked after it was added. *)
Definition stream : list message :=
  [entry x01 xaa "42" "VALID"; entry x01 xbb "43" "VALID"; entry x02 xbb "43" "REVOKED";
   Info (NewCookie [x07])].
Definition items : list (result string (@ResultEntry ldap)) := Ok <$> stream.

Definition directory : Directory := {|
  dr_connect _ _ := Ok tt;
  dr_simple_bind _ _ := Ok (mkLdapResult 0 []);
  dr_streaming_search _ _ _ _ :=
    Ok (items, mkLdapResult 0 [mkRawControl SYNC_DONE_OID false (Some [x08])]);
  dr_search _ _ _ := Err "not polled"%string;
|}.

Definition config : DogtagSyncConfig :=
  mkDogtagSyncConfig "ldaps://ds.example" "ou=ca" "cn=admin" "secret" ["srv"; "cookie"]%string
    "(objectClass=*)" "ldaps" None.
Definition ca : CaIdentity := mkCaIdentity "alpha" [x01] [x02].
Definition world : World := set_clock [Some 1750000000] sample_world.
End ToySync.

#[local] Existing Instances Toy.crates Toy.hex_spec Toy.sha256_spec ToyRecord.biguint
  ToySync.json ToySync.json_spec ToySync.ldap.

(** The second certificate is revoked by the last message about it. *)
Lemma sync_content_witness :
  exists cp' present cp'',
  sync_loop (default_checkpoint, ∅) ToySync.items = Ok (cp', present) /\
  finish cp' present false = Ok cp'' /\
  cp_records cp'' !! hex_encode (ToySync.uuid xbb) =
    Some (mkStoredRecord [x2b] (Some (1719878400, None)) false None).
Proof.
  assert (is_ok (st ← map_err (fun _ => NoCert) (sync_loop (default_checkpoint, ∅) ToySync.items);
    finish st.1 st.2 false) = true) as Hok by (vm_compute; reflexivity).
  destruct (sync_loop (default_checkpoint, ∅) ToySync.items) as [[cp' pr]|] eqn:El; [|discriminate Hok].
  cbn [map_err mbind result_bind fst snd] in Hok.
  destruct (finish cp' pr false) as [cp''|] eqn:Ef; [|discriminate Hok].
  exists cp', pr, cp''. split; [done|]. split; [done|].
  destruct (sync_content default_checkpoint _ _ _ _ _ (hex_encode (ToySync.uuid xbb)) El Ef) as (raws & E & _ & H).
  assert (ToySync.stream = raws) as <-
    by (refine (list_fmap_eq_inj (Ok (E := string)) _ _ _ E); intros ?? [= ->]; done).
  rewrite (H (take 2 ToySync.stream) (ToySync.entry x02 xbb "43" "REVOKED")
    (Updated (Some (mkStoredRecord [x2b] (Some (1719878400, None)) false None))) (drop 3 ToySync.stream)).
  - reflexivity.
  - reflexivity.
  - vm_compute. reflexivity.
  - intros raw' Hin. apply list_elem_of_singleton in Hin as ->. reflexivity.
Defined.

Definition toy_refresh := refresh (fun _ => ToySync.directory) "1" ToySync.config default_checkpoint ToySync.ca.
Definition toy_snapshot :=
  dogtag_snapshot (fun _ => ToySync.directory) "1" ToySync.config default_checkpoint ToySync.ca.

(** The result of a source's operation that succeeds. *)
Definition succeeds {A} (o : outcome SignError (sign_result A * Checkpoint)) : option A :=
  match o with Done (Ok a, _) => Some a | _ => None end.


Lemma snapshot_good_is_valid_witness :
  exists snap cur w', toy_snapshot ToySync.world = (Done (Ok snap, cur), w') /\
  ss_entries snap !! [x2a] = Some Good /\ ss_entries snap !! [x2b] = Some (Revoked 1719878400 None) /\
  exists raw entry, sent ToySync.config ToySync.directory raw /\ construct raw = Some entry /\
    attr entry "certStatus" = Some (text "VALID").
Proof.
  pose proof (snapshot_good_is_valid (fun _ => ToySync.directory) "1" ToySync.config default_checkpoint ToySync.ca
    ToySync.world) as H. fold toy_snapshot in H.
  assert ((fun s => ss_entries s !! [x2a]) <$> succeeds (toy_snapshot ToySync.world).1 = Some (Some Good) /\
    (fun s => ss_entries s !! [x2b]) <$> succeeds (toy_snapshot ToySync.world).1 = Some (Some (Revoked 1719878400 None)))
    as [Hg Hv] by (split; vm_compute; reflexivity).
  assert ((cp_cookie <$> match (resume ToySync.config default_checkpoint ToySync.ca ToySync.world).1 with
    | Done cp => Some cp | _ => None end) = Some None) as Hn by (vm_compute; reflexivity).
  destruct (toy_snapshot ToySync.world) as [[[[snap|e] cur]|e|] w']; [|discriminate Hg..].
  injection Hg as Hg. injection Hv as Hv. exists snap, cur, w'. split_and!; [reflexivity|exact Hg|exact Hv|].
  destruct (H _ _ _ eq_refl) as [_ (prior & w1 & Hr & H')]. rewrite Hr in Hn.
  destruct (H' _ Hg) as [[Hc _]|(k & raw & entry & Hs & Hcon & Ha & _)].
  - cbn in Hn. injection Hn as Hn. rewrite Hn in Hc. by destruct Hc.
  - exists raw, entry. auto.
Defined.

(** A certificate with a revoked and then a valid record. *)
Definition toy_polled : list (@ResultEntry ToySync.ldap) :=
  [ToySync.entry x01 xaa "42" "REVOKED"; ToySync.entry x01 xbb "42" "VALID"].

Lemma full_poll_last_wins_witness :
  exists staged present cp, fold_result poll_entry (fresh_checkpoint "b", ∅) toy_polled = Ok (staged, present) /\
  finish staged present false = Ok cp /\ record_status <$> cp_records cp !! hex_encode [x2a] = Some Good.
Proof.
  assert (is_ok (fold_result poll_entry (fresh_checkpoint "b", ∅) toy_polled) = true) as Hok
    by (vm_compute; reflexivity).
  destruct (fold_result poll_entry (fresh_checkpoint "b", ∅) toy_polled) as [[st pr]|] eqn:E; [|discriminate Hok].
  destruct (full_poll_last_wins _ _ _ _ E) as (cp & Hf & _ & H). exists st, pr, cp.
  split; [reflexivity|]. split; [exact Hf|]. rewrite H. vm_compute. reflexivity.
Defined.
