(* ===== verification/AhuCli.v ===== *)
(** * AhuCli: the commands on bundle files (hoike-cli/src/ahu_commands.rs, with
    the check of response signatures of hoike-sign/src/verify.rs)

    The operator's commands: [verify], [extract], [diff] and [apply], composed of
    the operations of ahu, of the admission of the server and of the seal.  What
    they print is their result here.  Main results: a bundle that [verify] calls
    authenticated is, by the same policy by which the server admits one, and with
    [--entries] every response in it has a signature that verifies; and [apply]
    publishes a sealed file only if every input was sealed by a pinned signer and
    its own seal verifies, and otherwise leaves the destination as it was. *)

From stdpp Require Import base tactics list gmap strings sorting.
From Stdlib Require Import NArith Lia.
From S2P Require Import Prelude Slices Crates Text AhuError Header Index Manifest Bundle Builder Verify Ops.
From S2P Require Import Seal CoreError Storage Config Admission Router Calendar SignError Times SignCrates.
From S2P Require Import Source SealDer SealCreate Orchestrate.
Local Open Scope N_scope.

(** ** The distribution of discriminators *)

(** [disc_counts]. *)
Definition count_disc (counts : gmap N N) (record : IndexRecord) : gmap N N :=
  <[ir_discriminator record := default 0 (counts !! ir_discriminator record) + 1]> counts.
Definition disc_counts (index : list IndexRecord) : gmap N N := fold_left count_disc index ∅.

Definition disc_name (disc : N) : string :=
  if disc =? 0 then "default/classical"
  else if disc =? 2 then "ML-DSA-44"
  else if disc =? 3 then "ML-DSA-65"
  else if disc =? 4 then "ML-DSA-87"
  else "unknown".

(** The order of the map. *)
Definition disc_le (a b : N * N) : Prop := a.1 <= b.1.
#[export] Instance disc_le_dec a b : Decision (disc_le a b).
Proof. unfold disc_le. apply _. Defined.
#[export] Instance disc_le_total : Total disc_le.
Proof. intros a b. unfold disc_le. lia. Qed.
#[export] Instance disc_le_trans : Transitive disc_le.
Proof. intros a b c. unfold disc_le. lia. Qed.

(** The entries of the map in its order. *)
Definition disc_lines (counts : gmap N N) : list (N * N * string) :=
  (fun kv => (kv, disc_name kv.1)) <$> merge_sort disc_le (map_to_list counts).

(** What is printed: nothing if every record has the default discriminator. *)
Definition discriminators (index : list IndexRecord) : list (N * N * string) :=
  let counts := disc_counts index in
  if (1 <? N.of_nat (size counts)) || existsb (fun kv => negb (kv.1 =? 0)) (map_to_list counts)
  then disc_lines counts else [].

(** ** Signatures of responses *)

Section commands.
Context {CR : Crates} {SC : SealCrates} {SG : SignCrates} {SM : SealMaking}.

(** [extract_public_key]. *)
Definition extract_public_key (basic : BasicOcspResponse Name) : sign_result bytes :=
  cert ← ok_or (certs ← bo_certs basic; head certs) NoCert;
  Ok (bs_raw_bytes (sp_subject_public_key (xc_spki cert))).

(** [verify_ecdsa_p256]; the signature is over the SHA-256 of the message. *)
Definition verify_ecdsa_p256 (tbs_der sig_bytes pub_key_bytes : bytes) : sign_result unit :=
  vk ← map_err (fun _ => SignVerify "invalid P-256 public key") (p256_from_sec1_bytes pub_key_bytes);
  sig ← map_err (fun _ => SignVerify "invalid ECDSA DER signature") (p256_signature_from_bytes sig_bytes);
  ensure (p256_verify_prehash vk (sha256 tbs_der) sig) (SignVerify "ECDSA-P256 signature verification failed").

(** [verify_ml_dsa]. *)
Definition verify_ml_dsa (P : MlDsa) (tbs_der sig_bytes pub_key_bytes : bytes) : sign_result unit :=
  vk ← ok_or (ml_dsa_key P pub_key_bytes) (SignVerify "invalid ML-DSA public key");
  sig ← ok_or (ml_dsa_signature P sig_bytes) (SignVerify "invalid ML-DSA signature");
  ensure (ml_dsa_verify P vk tbs_der sig) (SignVerify "ML-DSA signature verification failed").

Definition ECDSA_WITH_SHA256_OID : string := "1.2.840.10045.4.3.2".

(** The dispatch on the algorithm. *)
Definition verify_signature (sig_alg_oid : string) (tbs_der sig_bytes pub_key_bytes : bytes) : sign_result unit :=
  if bool_decide (sig_alg_oid = ECDSA_WITH_SHA256_OID) then verify_ecdsa_p256 tbs_der sig_bytes pub_key_bytes
  else if bool_decide (sig_alg_oid = ml_dsa_oid MlDsa44) then verify_ml_dsa MlDsa44 tbs_der sig_bytes pub_key_bytes
  else if bool_decide (sig_alg_oid = ml_dsa_oid MlDsa65) then verify_ml_dsa MlDsa65 tbs_der sig_bytes pub_key_bytes
  else if bool_decide (sig_alg_oid = ml_dsa_oid MlDsa87) then verify_ml_dsa MlDsa87 tbs_der sig_bytes pub_key_bytes
  else Err (SignVerify "unsupported signature algorithm").

(** [verify_ocsp_response_signature]. *)
Definition verify_ocsp_response_signature (response_der : bytes) : sign_result unit :=
  ocsp_resp ← map_err (fun _ => SignVerify "parse OcspResponse") (ocsp_response_from_der response_der);
  if negb (or_successful ocsp_resp) then Ok tt else
  response_bytes ← ok_or (or_response_bytes ocsp_resp) (SignVerify "successful response has no responseBytes");
  basic ← map_err (fun _ => SignVerify "parse BasicOcspResponse")
            (basic_ocsp_response_from_der (rb_response response_bytes));
  tbs_der ← map_err (fun _ => SignVerify "re-encode tbsResponseData")
              (response_data_to_der (bo_tbs_response_data basic));
  pub_key_bytes ← extract_public_key basic;
  verify_signature (bo_signature_algorithm basic) tbs_der (bo_signature basic) pub_key_bytes.

(** ** [verify] *)

Inductive entry_check := CheckVerified | CheckFailed | CheckUnchecked | CheckUnsigned | CheckMissing.

(** The body of the loop over the records that are not tombstones. *)
Definition check_entry (bundle : Bundle) (record : IndexRecord) : entry_check :=
  match entry_bytes bundle record with
  | None => CheckMissing
  | Some entry =>
      let verification :=
        match ocsp_response_from_der entry with
        | Ok response =>
            if negb (or_successful response) then
              match or_response_bytes response with
              | None => None
              | Some _ => Some (Err (SignVerify "OCSP error response must not contain responseBytes"))
              end
            else Some (verify_ocsp_response_signature entry)
        | Err _ => Some (Err (SignVerify "parse OcspResponse"))
        end in
      match verification with
      | None => CheckUnsigned
      | Some (Ok _) => CheckVerified
      | Some (Err NoCert) => CheckUnchecked
      | Some (Err _) => CheckFailed
      end
  end.

Record EntryCounts : Type := mkEntryCounts {
  ec_verified : nat;
  ec_failed : nat;
  ec_unchecked : nat;
  ec_unsigned_errors : nat;
  ec_missing : nat;
}.

Definition count_entry (bundle : Bundle) (n : EntryCounts) (record : IndexRecord) : EntryCounts :=
  if is_tombstone record then n else
  let '(mkEntryCounts v f u e m) := n in
  match check_entry bundle record with
  | CheckVerified => mkEntryCounts (S v) f u e m
  | CheckFailed => mkEntryCounts v (S f) u e m
  | CheckUnchecked => mkEntryCounts v f (S u) e m
  | CheckUnsigned => mkEntryCounts v f u (S e) m
  | CheckMissing => mkEntryCounts v f u e (S m)
  end.

Definition verify_bundle_entries (bundle : Bundle) : result string EntryCounts :=
  let n := fold_left (count_entry bundle) (b_index bundle) (mkEntryCounts 0 0 0 0 0) in
  ensure (negb ((0 <? ec_failed n)%nat || (0 <? ec_missing n)%nat)) "entry signature verification failed"%string ;;
  ensure (negb (0 <? ec_unchecked n)%nat) "entry signature verification incomplete"%string ;;
  Ok n.

(** What [verify] prints at its end. *)
Inductive Verdict := StructureValid | BundleAuthenticated.

Record VerifyOutput : Type := mkVerifyOutput {
  vo_structure : VerifyResult;
  vo_signer_sha256 : option string;
  vo_entries : option EntryCounts;
  vo_discriminators : list (N * N * string);
  vo_verdict : Verdict;
}.

(** [Config::from_file]. *)
Variable load_config : path -> io CoreError Config.

(** [SystemTime::now().duration_since(UNIX_EPOCH)?]. *)
Definition cli_now : io string N :=
  now ← read_clock;
  io_lift (ok_or now "system time before the epoch"%string).

(** The configuration that a verification uses, by its options. *)
Definition verify_mode (config_path : option path) (structure_only verify_entries : bool) : io string (option Config) :=
  match config_path, structure_only, verify_entries with
  | Some path, false, _ => c ← failing "config" (load_config path); mret (Some c)
  | None, true, false => mret None
  | _, _, _ => io_fail "select --config PATH [--entries] or --structure-only"%string
  end.

Definition ahu_verify (p : path) (config_path : option path) (structure_only verify_entries : bool) :
    io string VerifyOutput :=
  config ← verify_mode config_path structure_only verify_entries;
  bundle ← failing "bundle" (from_file p);
  result ← io_lift (map_err (fun _ => "structure"%string) (Verify.verify_structure bundle));
  io_lift (ensure (vr_entry_count_matches result)
    "bundle entry count does not match index record count"%string) ;;
  signer ← match config with
           | Some config =>
               now ← cli_now;
               seal ← failing "bundle authentication failed"
                        (authenticate_bundle bundle (c_storage config) now);
               mret (Some (sv_signer_sha256 seal))
           | None => mret None
           end;
  entries ← if verify_entries then n ← io_lift (verify_bundle_entries bundle); mret (Some n)
            else mret None;
  mret (mkVerifyOutput result signer entries (discriminators (b_index bundle))
    (if structure_only then StructureValid else BundleAuthenticated)).

(** ** [extract] and [diff] *)

(** [std::fs::write]: a failure or a crash may leave any prefix. *)
Definition fs_write (p : path) (b : bytes) : io IoError unit :=
  let partial k w := put_file p (take k b) w in
  syscall (fun w => (Done tt, put_file p b w)) partial partial.

(** [extract]; without an output file the entry is printed. *)
Definition ahu_extract (p : path) (certid_hex : string) (output : option path) : io string bytes :=
  bundle ← failing "bundle" (from_file p);
  key_bytes ← io_lift (map_err (fun _ => "entry key is not hex"%string) (hex_decode certid_hex));
  io_lift (ensure (len key_bytes =? 32) "entry key must be 32 bytes"%string) ;;
  match Bundle.lookup bundle key_bytes with
  | Some response_bytes =>
      match output with
      | Some out_path => failing "write" (fs_write out_path response_bytes)
      | None => mret tt
      end ;;
      mret response_bytes
  | None => io_fail "no entry found for key"%string
  end.

Definition ahu_diff (a_path b_path : path) : io string DiffResult :=
  a ← failing "bundle" (from_file a_path);
  b ← failing "bundle" (from_file b_path);
  mret (diff a b).

(** ** [apply] *)

(** [read_certificate]. *)
Definition read_certificate (p : path) : io string bytes :=
  bytes ← failing "read" (read_file p);
  cert ← io_lift (map_err (fun _ => "certificate"%string)
    (if Text.starts_with (text "-----BEGIN") bytes then cert_from_pem bytes else cert_from_der bytes));
  io_lift (cert_to_der cert).

(** A bundle that is loaded and verified. *)
Definition load_bundle (p : path) : io string Bundle :=
  bundle ← failing "bundle" (from_file p);
  io_lift (map_err (fun _ => "structure"%string) (Verify.verify_structure bundle)) ;;
  mret bundle.

Definition push {A B E} (f : A -> io E B) (l : list A) : io E (list B) :=
  io_fold (fun out x => y ← f x; mret (out ++ [y])) [] l.

(** The branch that seals its output. *)
Definition apply_signed (base : Bundle) (deltas : list Bundle) (key_path cert_path : path)
    (input_signer_pins : list path) : io string ApplyResult :=
  now ← cli_now;
  pins ← push read_certificate input_signer_pins;
  io_for_each (fun bundle => io_lift (map_err (fun _ => "input seal"%string)
    (verify_seal_with_pins (b_manifest_bytes bundle) (b_seal_bytes bundle) pins now) ;; Ok tt)) (base :: deltas) ;;
  key ← failing "seal key" (load_ecdsa_p256_key key_path);
  cert ← read_certificate cert_path;
  applied ← io_lift (map_err (fun _ => "apply"%string) (apply_sealed base deltas (fun manifest =>
    map_err (fun _ => SealInvalid "seal"%string) (create_cms_seal manifest (SealEcdsaP256 key) cert))));
  output ← io_lift (map_err (fun _ => "output"%string) (from_bytes (ar_bytes applied)));
  io_lift (map_err (fun _ => "output seal"%string)
    (verify_seal_with_pins (b_manifest_bytes output) (b_seal_bytes output) [cert] now)) ;;
  mret applied.

(** What [apply] computes before it writes. *)
Definition apply_result (base_path : path) (delta_paths : list path)
    (seal_key_path seal_cert_path : option path) (input_signer_pins : list path) : io string ApplyResult :=
  io_lift (ensure (bool_decide (is_Some seal_key_path <-> is_Some seal_cert_path))
    "--seal-key and --seal-cert must be supplied together"%string) ;;
  io_lift (ensure (negb (bool_decide (is_Some seal_key_path) && bool_decide (input_signer_pins = [])))
    "signed output requires --input-signer-pin to authenticate every input bundle"%string) ;;
  base ← load_bundle base_path;
  deltas ← push load_bundle delta_paths;
  match seal_key_path, seal_cert_path with
  | Some key_path, Some cert_path => apply_signed base deltas key_path cert_path input_signer_pins
  | _, _ => io_lift (map_err (fun _ => "apply"%string) (apply base deltas))
  end.

Definition ahu_apply (base_path : path) (delta_paths : list path) (output_path : path)
    (seal_key_path seal_cert_path : option path) (input_signer_pins : list path) : io string ApplyResult :=
  result ← apply_result base_path delta_paths seal_key_path seal_cert_path input_signer_pins;
  write_bundle_atomic output_path (ar_bytes result) ;;
  mret result.
End commands.

(** ** Signatures *)

Section signatures.
Context {CR : Crates} {SC : SealCrates} {SG : SignCrates}.

(** A signature of one of the supported algorithms is valid under a key. *)
Inductive signature_valid : string -> bytes -> bytes -> bytes -> Prop :=
| valid_p256 tbs sig key vk s :
    p256_from_sec1_bytes key = Ok vk -> p256_signature_from_bytes sig = Ok s ->
    p256_verify_prehash vk (sha256 tbs) s = true ->
    signature_valid ECDSA_WITH_SHA256_OID tbs sig key
| valid_ml_dsa P tbs sig key vk s :
    ml_dsa_key P key = Some vk -> ml_dsa_signature P sig = Some s -> ml_dsa_verify P vk tbs s = true ->
    signature_valid (ml_dsa_oid P) tbs sig key.

Lemma verify_signature_Ok oid tbs sig key :
  verify_signature oid tbs sig key = Ok tt <-> signature_valid oid tbs sig key.
Proof.
  assert (forall P, verify_ml_dsa P tbs sig key = Ok tt <-> exists vk s, ml_dsa_key P key = Some vk /\
    ml_dsa_signature P sig = Some s /\ ml_dsa_verify P vk tbs s = true) as Hml.
  { intros P. unfold verify_ml_dsa. split; [intros H; inv_ok; eauto|].
    intros (vk & s & -> & -> & E). cbn. by rewrite E. }
  unfold verify_signature. split.
  - case_bool_decide as H1; [intros H; subst; unfold verify_ecdsa_p256 in H; inv_ok; by econstructor|].
    do 3 (case_bool_decide; [rewrite Hml; intros (? & ? & ? & ? & ?); subst; by econstructor|]). done.
  - intros H. destruct H as [tbs sig key vk s Hk Hs Hv|P tbs sig key vk s Hk Hs Hv].
    + rewrite bool_decide_eq_true_2 by done. unfold verify_ecdsa_p256. rewrite Hk, Hs. cbn. by rewrite Hv.
    + destruct P; cbn; by apply Hml; eauto.
Qed.

(** A successful response whose signature verifies under its first certificate. *)
Definition response_signed (der : bytes) : Prop :=
  exists rb basic tbs cert certs,
    ocsp_response_from_der der = Ok (mkOcspResponse true (Some rb)) /\
    basic_ocsp_response_from_der (rb_response rb) = Ok basic /\
    response_data_to_der (bo_tbs_response_data basic) = Ok tbs /\
    bo_certs basic = Some (cert :: certs) /\
    signature_valid (bo_signature_algorithm basic) tbs (bo_signature basic)
      (bs_raw_bytes (sp_subject_public_key (xc_spki cert))).

(** An error response, which has no signature. *)
Definition response_unsigned_error (der : bytes) : Prop :=
  ocsp_response_from_der der = Ok (mkOcspResponse false None).

Lemma verify_ocsp_response_signature_Ok der :
  verify_ocsp_response_signature der = Ok tt <->
  response_signed der \/ exists rb, ocsp_response_from_der der = Ok (mkOcspResponse false rb).
Proof.
  unfold verify_ocsp_response_signature, response_signed. split.
  - intros H. apply bind_Ok in H as ([succ rb] & Hp%map_err_Ok & H).
    destruct succ; cbn in H; [|by right; exists rb]. left.
    apply bind_Ok in H as (rb' & Hrb%ok_or_Ok & H). cbn in Hrb. subst rb.
    apply bind_Ok in H as (basic & Hb%map_err_Ok & H). apply bind_Ok in H as (tbs & Ht%map_err_Ok & H).
    apply bind_Ok in H as (key & Hk & H%verify_signature_Ok). unfold extract_public_key in Hk.
    apply bind_Ok in Hk as (c & Hc%ok_or_Ok & [= <-]).
    destruct (bo_certs basic) as [[|c' cs]|] eqn:Ec; try done. injection Hc as ->. by exists rb', basic, tbs, c, cs.
  - intros [(rb & basic & tbs & c & cs & -> & Hb & Ht & Hc & Hv)|[rb ->]]; [|done].
    cbn. rewrite Hb. cbn. rewrite Ht. cbn. unfold extract_public_key. rewrite Hc. cbn.
    by apply verify_signature_Ok.
Qed.
End signatures.

(** ** [verify] *)

Section verify_command.
Context {CR : Crates} {SC : SealCrates} {SG : SignCrates}.
Variable load_config : path -> io CoreError Config.
Hypothesis load_config_reads : forall p, reads_only (load_config p).

Lemma check_entry_Ok b r :
  check_entry b r = CheckVerified \/ check_entry b r = CheckUnsigned ->
  exists entry, entry_bytes b r = Some entry /\ (response_signed entry \/ response_unsigned_error entry).
Proof.
  unfold check_entry. destruct (entry_bytes b r) as [entry|]; [|by intros []]. intros H. exists entry.
  split; [done|]. destruct (ocsp_response_from_der entry) as [[[] rb]|e] eqn:E; cbn in H.
  - left. destruct (verify_ocsp_response_signature entry) as [[]|err] eqn:Ev; [|by destruct err, H].
    apply verify_ocsp_response_signature_Ok in Ev as [?|[? ?]]; [done|congruence].
  - right. unfold response_unsigned_error. destruct rb; [by destruct H|done].
  - by destruct H.
Qed.

(** Nothing failed so far exactly if no record of the prefix failed. *)
Lemma count_entries_clean b l n :
  let n' := fold_left (count_entry b) l n in
  ec_failed n' = 0%nat /\ ec_missing n' = 0%nat /\ ec_unchecked n' = 0%nat <->
  (ec_failed n = 0%nat /\ ec_missing n = 0%nat /\ ec_unchecked n = 0%nat) /\
  Forall (fun r => is_tombstone r = false ->
    check_entry b r = CheckVerified \/ check_entry b r = CheckUnsigned) l.
Proof.
  revert n. induction l as [|r l IH]; intros n; cbn [fold_left]; [by split; [intros|intros []]|].
  cbv zeta in *. rewrite IH, Forall_cons. unfold count_entry at 1 2 3. destruct n as [v f u e m].
  destruct (is_tombstone r); [naive_solver|].
  destruct (check_entry b r); cbn [ec_failed ec_missing ec_unchecked]; naive_solver lia.
Qed.

Lemma verify_bundle_entries_Ok b n :
  verify_bundle_entries b = Ok n ->
  Forall (fun r => is_tombstone r = false -> exists entry, entry_bytes b r = Some entry /\
    (response_signed entry \/ response_unsigned_error entry)) (b_index b).
Proof.
  unfold verify_bundle_entries.
  set (n' := fold_left (count_entry b) (b_index b) (mkEntryCounts 0 0 0 0 0)).
  intros (? & H1%ensure_Ok & (? & H2%ensure_Ok & _)%bind_Ok)%bind_Ok.
  apply negb_true_iff in H1, H2. apply orb_false_iff in H1 as [H1 H3].
  apply Nat.ltb_ge in H1, H2, H3.
  pose proof (count_entries_clean b (b_index b) (mkEntryCounts 0 0 0 0 0)) as Hc. cbv zeta in Hc. fold n' in Hc.
  destruct Hc as [Hc _]. destruct Hc as [_ Hall]; [lia|].
  eapply Forall_impl; [exact Hall|]. intros r Hr Ht. by apply check_entry_Ok, Hr.
Qed.

Lemma from_file_Done p w b w' :
  from_file p w = (Done b, w') ->
  (exists file, w_files w !! p = Some file /\ from_bytes file = Ok b) /\ same_files w w'.
Proof.
  unfold from_file. intros H. inv_io. rename select (read_file _ _ = _) into Hr.
  apply read_file_Done in Hr as [Hf Hs]. eauto.
Qed.

Lemma cli_now_reads : reads_only cli_now.
Proof. unfold cli_now. eauto with hoike. Qed.

(** The verdict of the command is true.  A bundle it reports on has passed
    structural verification and has as many records as its manifest says.  It is
    called authenticated only with a configuration, by whose trust policy its
    manifest is sealed by the reported signer, exactly as for admission to the
    server; without one the report says only that the structure is valid, names
    no signer and counts no signatures.  If entries were checked, every record
    that is not a tombstone holds a response whose signature verifies under its
    embedded certificate, or an unsigned error response. *)
Theorem cli_verify_sound p config_path structure_only verify_entries w out w' :
  ahu_verify load_config p config_path structure_only verify_entries w = (Done out, w') ->
  exists file b m, w_files w !! p = Some file /\ from_bytes file = Ok b /\ verified b m /\
    len (b_index b) = m_entry_count m /\
    (match vo_verdict out with
     | StructureValid => config_path = None /\ vo_signer_sha256 out = None /\ vo_entries out = None
     | BundleAuthenticated => exists cp config w1 w2 now v, config_path = Some cp /\
         load_config cp w = (Done config, w1) /\ same_files w w2 /\
         authenticated b (c_storage config) w2 now v /\ vo_signer_sha256 out = Some (sv_signer_sha256 v)
     end) /\
    (vo_entries out = None <-> verify_entries = false) /\
    (verify_entries = true ->
     Forall (fun r => is_tombstone r = false -> exists entry, entry_bytes b r = Some entry /\
       (response_signed entry \/ response_unsigned_error entry)) (b_index b)).
Proof.
  unfold ahu_verify, verify_mode. intros H. apply io_bind_Done in H as (config & w1 & Hc & H).
  apply io_bind_Done in H as (b & w2 & Hb%io_map_err_Done & H).
  apply from_file_Done in Hb as [(file & Hf & Hfb) Hs2].
  assert (same_files w w1) as Hs1.
  { destruct config_path as [cp|], structure_only, verify_entries; inv_io; try done;
      unfold failing in *; inv_io; eapply reads_Done; eauto. }
  apply io_bind_Done in H as (vr & w3 & [Hv%map_err_Ok ->]%io_lift_Done & H).
  apply io_bind_Done in H as ([] & w3 & [Hn%ensure_Ok ->]%io_lift_Done & H).
  apply Verify.verify_structure_Ok in Hv as (m & Hm & ->). cbn in Hn. apply N.eqb_eq in Hn.
  apply io_bind_Done in H as (signer & w4 & Hsig & H). apply io_bind_Done in H as (n & w5 & Hent & H).
  apply io_ret_Done in H as [-> ->]. exists file, b, m. cbn [vo_verdict vo_signer_sha256 vo_entries].
  split_and!; [by rewrite <- (sf_files _ _ Hs1)|done..| | |].
  - destruct config_path as [cp|], structure_only, verify_entries; inv_io; try done.
    all: unfold failing in *; inv_io; rename select (authenticate_bundle _ _ _ _ = _) into Ha;
      apply authenticate_bundle_Done in Ha as [Ha _].
    all: rename select (cli_now _ = _) into Hnow; apply reads_Done in Hnow; [|apply cli_now_reads].
    all: eexists _, _, _, _, _, _; split_and!; [done|done| |exact Ha|done]; by etrans; [|etrans].
  - destruct verify_entries; inv_io; by split.
  - intros ->. inv_io. by eapply verify_bundle_entries_Ok.
Qed.
End verify_command.

(** ** [apply] *)

Lemma push_Done {A B E} (f : A -> io E B) l w ys w' :
  (forall x, reads_only (f x)) -> push f l w = (Done ys, w') ->
  Forall2 (fun x y => exists w1 w2, same_files w w1 /\ f x w1 = (Done y, w2)) l ys /\ same_files w w'.
Proof.
  intros Hf. unfold push.
  assert (forall out w0, same_files w w0 ->
    io_fold (fun out x => y ← f x; mret (out ++ [y])) out l w0 = (Done ys, w') ->
    exists ys', ys = out ++ ys' /\
      Forall2 (fun x y => exists w1 w2, same_files w w1 /\ f x w1 = (Done y, w2)) l ys' /\ same_files w w') as H.
  { revert ys w'. induction l as [|x l IH]; intros ys w' out w0 Hs H; cbn in H.
    - apply io_ret_Done in H as [-> ->]. exists []. by rewrite app_nil_r.
    - apply io_bind_Done in H as (out' & w1 & H1 & H). apply io_bind_Done in H1 as (y & w2 & Hy & H1).
      apply io_ret_Done in H1 as [-> ->]. apply IH in H as (ys' & -> & Hall & Hs').
      + exists (y :: ys'). rewrite <- app_assoc. split_and!; [done| |done]. constructor; [eauto|done].
      + etrans; [done|]. by eapply reads_Done. }
  intros (ys' & -> & Hall & Hs)%H; [|done]. done.
Qed.

Lemma io_for_each_pure {E A} (f : A -> result E unit) l w w' :
  io_for_each (fun x => io_lift (f x)) l w = (Done tt, w') -> w' = w /\ Forall (fun x => f x = Ok tt) l.
Proof.
  revert w. induction l as [|x l IH]; intros w; cbn.
  - intros H. by apply io_ret_Done in H as [_ ->].
  - intros ([] & w1 & [Hx ->]%io_lift_Done & [-> Hl]%IH)%io_bind_Done. auto.
Qed.

(** Reading, checking and building first, and one atomic write at the end. *)
Lemma publish_spec {A} (m : io string A) (f : A -> bytes) (P : A -> Prop) out w :
  ~ tmp_path out -> stable w out -> reads_only m -> (forall r w', m w = (Done r, w') -> P r) ->
  let '(o, w') := (r ← m; write_bundle_atomic out (f r) ;; mret r) w in
  (forall c, after_crash w' out c -> c = w_files w !! out \/ exists r, P r /\ c = Some (f r)) /\
  match o with
  | Done r => P r /\ forall c, after_crash w' out c -> c = Some (f r)
  | _ => True
  end.
Proof.
  intros Ht Hst Hm HP. pose proof (Hm w) as Hs. unfold io_spec in Hs.
  assert (forall w', same_files w w' -> forall c, after_crash w' out c -> c = w_files w !! out) as Hold.
  { intros w' Hsf c Hc. apply stable_after_crash; [done|]. by eapply same_files_after_crash. }
  cbv [mbind io_bind]. destruct (m w) as [[r|e|] w1] eqn:Hr; cbn [fst snd] in Hs.
  2,3: split; [|done]; intros c Hc; left; by eapply Hold.
  specialize (HP r w1 eq_refl). unfold write_bundle_atomic, failing, io_map_err.
  pose proof (write_atomic_spec out (f r) w1 Ht) as [_ Hrep].
  destruct (write_atomic out (f r) w1) as [o w2]. cbn [fst snd] in Hrep.
  apply (same_files_replacement _ _ w) in Hrep; [|done]. unfold replacement in Hrep.
  destruct o as [[]|e|]; cbn [mret io_ret].
  - destruct Hrep as [Hf Hs2].
    assert (forall c, after_crash w2 out c -> c = Some (f r)) as Hnew
      by (intros c Hc; rewrite <- Hf; by apply stable_after_crash).
    split; [|done]. intros c Hc. right. exists r. split; [done|by apply Hnew].
  - split; [|done]. intros c Hc.
    assert (c = w_files w !! out \/ c = Some (f r)) as [?|?]; [|by left|right; by exists r].
    destruct e; try (destruct Hrep as [Hf Hs2]; left; rewrite <- Hf; apply stable_after_crash; [by apply Hs2|done]).
    by apply Hrep.
  - split; [|done]. intros c Hc. destruct (Hrep c Hst Hc); [by left|right; by exists r].
Qed.

Section apply_command.
Context {CR : Crates} {SC : SealCrates} {SM : SealMaking}.

(** A file that holds a bundle which passes verification. *)
Definition bundle_at (w : World) (p : path) (b : Bundle) : Prop :=
  exists file m, w_files w !! p = Some file /\ from_bytes file = Ok b /\ verified b m.

(** A seal by one of the pinned signers. *)
Definition sealed_by (pins : list bytes) (now : N) (b : Bundle) : Prop :=
  exists v, verify_seal_with_pins (b_manifest_bytes b) (b_seal_bytes b) pins now = Ok v.

(** What [apply] may publish: the materialisation of the inputs; with a seal key,
    all of them sealed by pinned signers and itself sealed by the given one. *)
Definition publishable (w : World) (base_path : path) (delta_paths : list path)
    (seal_key_path seal_cert_path : option path) (pin_paths : list path) (r : ApplyResult) : Prop :=
  exists base deltas, bundle_at w base_path base /\ Forall2 (bundle_at w) delta_paths deltas /\
  match seal_key_path, seal_cert_path with
  | Some _, Some cert_path => pin_paths <> [] /\
      exists now pins cert seal_fn out, Forall2 (configured_cert w) pin_paths pins /\
        configured_cert w cert_path cert /\ Forall (sealed_by pins now) (base :: deltas) /\
        apply_sealed base deltas seal_fn = Ok r /\ from_bytes (ar_bytes r) = Ok out /\ sealed_by [cert] now out
  | None, None => apply base deltas = Ok r
  | _, _ => False
  end.

Lemma read_certificate_Done p w c w' :
  read_certificate p w = (Done c, w') -> configured_cert w p c /\ same_files w w'.
Proof.
  unfold read_certificate, failing. intros H. inv_io. rename select (read_file _ _ = _) into Hr.
  apply read_file_Done in Hr as [Hf Hs]. split; [|done]. eexists _, _. split; [done|]. split; [|done].
  destruct (Text.starts_with _ _); auto.
Qed.
Lemma read_certificate_reads p : reads_only (read_certificate p).
Proof. unfold read_certificate, failing. eauto 10 with hoike. Qed.

Lemma load_bundle_Done p w b w' : load_bundle p w = (Done b, w') -> bundle_at w p b /\ same_files w w'.
Proof.
  unfold load_bundle, failing. intros H. inv_io. rename select (from_file _ _ = _) into Hf.
  apply from_file_Done in Hf as [(file & Hf & Hb) Hs]. rename select (Verify.verify_structure _ = _) into Hv.
  apply Verify.verify_structure_Ok in Hv as (m & Hm & _). split; [|done]. by exists file, m.
Qed.
Lemma load_bundle_reads p : reads_only (load_bundle p).
Proof. unfold load_bundle, failing, from_file. eauto 10 with hoike. Qed.

Lemma same_files_cert w w1 p c : same_files w w1 -> configured_cert w1 p c -> configured_cert w p c.
Proof. intros Hs (co & ce & Hf & H). exists co, ce. by rewrite (sf_files _ _ Hs) in Hf. Qed.

Lemma same_files_bundle w w1 p b : same_files w w1 -> bundle_at w1 p b -> bundle_at w p b.
Proof. intros Hs (f & m & Hf & H). exists f, m. by rewrite (sf_files _ _ Hs) in Hf. Qed.

Lemma push_certificates l w cs w' :
  push read_certificate l w = (Done cs, w') -> Forall2 (configured_cert w) l cs /\ same_files w w'.
Proof.
  intros [H Hs]%push_Done; [|apply read_certificate_reads]. split; [|done].
  eapply Forall2_impl; [done|]. intros p c (w1 & w2 & Hs1 & [Hc _]%read_certificate_Done).
  by eapply same_files_cert.
Qed.

Lemma push_bundles l w bs w' :
  push load_bundle l w = (Done bs, w') -> Forall2 (bundle_at w) l bs /\ same_files w w'.
Proof.
  intros [H Hs]%push_Done; [|apply load_bundle_reads]. split; [|done].
  eapply Forall2_impl; [done|]. intros p c (w1 & w2 & Hs1 & [Hc _]%load_bundle_Done).
  by eapply same_files_bundle.
Qed.

Lemma apply_result_Done bp dps kp cp pins w r w' :
  apply_result bp dps kp cp pins w = (Done r, w') -> publishable w bp dps kp cp pins r.
Proof.
  unfold apply_result, publishable. intros H.
  apply io_bind_Done in H as ([] & w0 & [H1%ensure_Ok ->]%io_lift_Done & H).
  apply io_bind_Done in H as ([] & w0 & [H2%ensure_Ok ->]%io_lift_Done & H).
  apply io_bind_Done in H as (base & w1 & [Hb Hs1]%load_bundle_Done & H).
  apply io_bind_Done in H as (deltas & w2 & [Hds Hs2]%push_bundles & H).
  assert (same_files w w2) as Hs by (by etrans). exists base, deltas. split_and!; [done| |].
  { eapply Forall2_impl; [done|]. intros ? ?. by apply (same_files_bundle w w1). }
  apply bool_decide_eq_true in H1. destruct kp as [kp|], cp as [cp|].
  - split. { intros ->. by cbn in H2. }
    unfold apply_signed, failing in H.
    apply io_bind_Done in H as (now & w3 & Hn & H). apply reads_Done in Hn as Hs3; [|apply cli_now_reads].
    apply io_bind_Done in H as (pin_ders & w4 & [Hp Hs4]%push_certificates & H).
    apply io_bind_Done in H as ([] & w5 & [-> Hin]%io_for_each_pure & H).
    apply io_bind_Done in H as (key & w6 & Hk%io_map_err_Done & H).
    assert (same_files w4 w6) as Hs6.
    { eapply reads_Done; [|exact Hk]. unfold load_ecdsa_p256_key. eauto with hoike. }
    apply io_bind_Done in H as (cert & w7 & [Hc _]%read_certificate_Done & H). inv_io.
    assert (same_files w w3) as Hw3 by (by etrans). assert (same_files w w6) as Hw6 by (by etrans; [|etrans]).
    eexists now, pin_ders, cert, _, _. split_and!; [| | |done|done|by eexists].
    + eapply Forall2_impl; [done|]. intros ? ?. by apply (same_files_cert w w3).
    + by apply (same_files_cert w w6).
    + eapply Forall_impl; [exact Hin|]. intros b (sv & Hv%map_err_Ok & _)%bind_Ok. by exists sv.
  - by destruct (proj1 H1 (mk_is_Some _ _ eq_refl)).
  - by destruct (proj2 H1 (mk_is_Some _ _ eq_refl)).
  - by inv_io.
Qed.

Lemma apply_result_reads bp dps kp cp pins : reads_only (apply_result bp dps kp cp pins).
Proof.
  assert (forall A B (f : A -> io string B) l, (forall x, reads_only (f x)) -> reads_only (push f l)) as Hpush.
  { intros A B f l Hf. unfold push. apply reads_fold. intros. apply reads_bind; [apply Hf|eauto with hoike]. }
  unfold apply_result. apply reads_bind; [eauto with hoike|]. intros _.
  apply reads_bind; [eauto with hoike|]. intros _. apply reads_bind; [apply load_bundle_reads|]. intros base.
  apply reads_bind; [apply Hpush, load_bundle_reads|]. intros deltas.
  destruct kp, cp; [|eauto with hoike..]. unfold apply_signed, failing.
  apply reads_bind; [apply cli_now_reads|]. intros now.
  apply reads_bind; [apply Hpush, read_certificate_reads|]. intros ps.
  apply reads_bind; [eauto with hoike|]. intros _.
  apply reads_bind; [apply reads_map_err; unfold load_ecdsa_p256_key; eauto with hoike|]. intros key.
  apply reads_bind; [apply read_certificate_reads|]. eauto 10 with hoike.
Qed.

(** Nothing unverified is published.  Whatever [apply] returns, and whatever
    fails or crashes, the destination holds what it held before or the complete
    materialisation of the given base and deltas, each of which passed structural
    verification; if a seal key was given, then also every input is sealed by a
    signer of the given pins, and the seal of the published file verifies under
    the given certificate.  A success means that the file is there and durable. *)
Theorem cli_apply_publishes_verified bp dps out kp cp pins w :
  ~ tmp_path out -> stable w out ->
  let '(o, w') := ahu_apply bp dps out kp cp pins w in
  (forall c, after_crash w' out c ->
     c = w_files w !! out \/ exists r, publishable w bp dps kp cp pins r /\ c = Some (ar_bytes r)) /\
  match o with
  | Done r => publishable w bp dps kp cp pins r /\ forall c, after_crash w' out c -> c = Some (ar_bytes r)
  | _ => True
  end.
Proof.
  intros Ht Hst. apply (publish_spec _ ar_bytes); [done|done|apply apply_result_reads|].
  apply apply_result_Done.
Qed.
End apply_command.

(** ** Witnesses *)

Module ToyCli.
(** A response that the key [5] signed, which every entry decodes to. *)
Definition signed_response : BasicOcspResponse bytes :=
  mkBasicOcspResponse (mkResponseData (OcspByKey [x05]) ToySign.epoch [] None) ECDSA_WITH_SHA256_OID
    ([x05] ++ Toy.digest [x09]) (Some [ToySign.cert [x05]]).
#[export] Instance crates : SignCrates := ToySign.crates_with (fun _ => Ok signed_response) (fun _ => Ok [x09]).

Definition load_config (p : path) : io CoreError Config := mret sample_config.
Definition bundle_path : path := ["srv"; "bundle.ahu"]%string.
Definition world : World := set_clock [Some 150] (put_file bundle_path (served_file 6) trusting_world).

(** A bundle sealed by the key [42], with its key and certificate. *)
Definition sealed_file : bytes :=
  match @Builder.build Toy.crates (served_builder 6) (fun m => map_err (fun _ => SealInvalid "seal"%string)
    (@create_cms_seal Toy.crates ToyMaking.seal_crates ToyMaking.making m (@SealEcdsaP256 _ ToyMaking.making x2a) [x2a])) with
  | Ok file => file
  | Err _ => []
  end.
Definition key_path : path := ["srv"; "seal.key"]%string.
Definition cert_path : path := ["srv"; "seal.der"]%string.
Definition out_path : path := ["srv"; "out.ahu"]%string.
Definition apply_world : World :=
  set_clock [Some 150] (put_file key_path [x2a] (put_file cert_path [x2a]
    (put_file bundle_path sealed_file sample_world))).
Definition applied :=
  @ahu_apply Toy.crates ToyMaking.seal_crates ToyMaking.making bundle_path [] out_path
    (Some key_path) (Some cert_path) [cert_path].
End ToyCli.

Lemma cli_verify_sound_witness :
  exists out w', @ahu_verify Toy.crates ToySeal.seal_crates ToyCli.crates ToyCli.load_config
    ToyCli.bundle_path (Some ["srv"; "hoike.toml"]%string) false true ToyCli.world = (Done out, w') /\
  vo_verdict out = BundleAuthenticated /\
  exists file b, w_files ToyCli.world !! ToyCli.bundle_path = Some file /\ @from_bytes Toy.crates file = Ok b /\
  Forall (fun r => is_tombstone r = false -> exists entry, entry_bytes b r = Some entry /\
    (@response_signed Toy.crates ToySeal.seal_crates ToyCli.crates entry \/
     @response_unsigned_error ToyCli.crates entry)) (b_index b).
Proof.
  destruct (is_done_inv (@ahu_verify Toy.crates ToySeal.seal_crates ToyCli.crates
    ToyCli.load_config ToyCli.bundle_path (Some ["srv"; "hoike.toml"]%string) false true) ToyCli.world)
    as (out & w' & E); [vm_compute; reflexivity|].
  destruct (@cli_verify_sound Toy.crates ToySeal.seal_crates ToyCli.crates ToyCli.load_config
    (fun _ => reads_ret _) _ _ _ _ _ _ _ E) as (file & b & m & Hf & Hb & _ & _ & Hv & _ & Hall).
  exists out, w'. split; [exact E|]. split.
  - destruct (vo_verdict out); [by destruct Hv|reflexivity].
  - exists file, b. split; [exact Hf|]. split; [exact Hb|]. by apply Hall.
Defined.

Lemma cli_apply_publishes_verified_witness :
  exists r w', ToyCli.applied ToyCli.apply_world = (Done r, w') /\
    forall c, after_crash w' ToyCli.out_path c -> c = Some (ar_bytes r).
Proof.
  pose proof (@cli_apply_publishes_verified Toy.crates ToyMaking.seal_crates ToyMaking.making ToyCli.bundle_path []
    ToyCli.out_path (Some ToyCli.key_path) (Some ToyCli.cert_path) [ToyCli.cert_path] ToyCli.apply_world) as H.
  fold ToyCli.applied in H.
  assert (is_done (ToyCli.applied ToyCli.apply_world).1 = true) as Hok by (vm_compute; reflexivity).
  destruct (ToyCli.applied ToyCli.apply_world) as [[r|e|] w']; [|discriminate Hok..].
  exists r, w'. split; [reflexivity|]. apply H.
  - apply (not_tmp_path ["srv"]%string "out.ahu"). done.
  - assert (w_files ToyCli.apply_world !! ToyCli.out_path = None) as Hn by (vm_compute; reflexivity).
    split; [vm_compute; reflexivity|intros [? Hs]; congruence].
Defined.
