(* ===== verification/EntryChecks.v ===== *)
(** * EntryChecks: what is signed verifies (hoike-sign/src/ml_dsa_bridge.rs, generate.rs, live.rs and
    verify.rs, with the check of entries of hoike-cli/src/ahu_commands.rs)

    The producer's signatures meet the checks that operators run on bundles.  Main
    results: with a responder certificate that holds the public part of the signing
    key, every entry of a produced bundle passes the check of [ahu verify --entries],
    and so does every live response of a key that was loaded; a bundle produced
    without a certificate is never reported as completely checked. *)

From stdpp Require Import base tactics list gmap strings.
From Stdlib Require Import NArith Lia.
From S2P Require Import Prelude Slices Crates Text AhuError Header Index Manifest Bundle Builder Verify.
From S2P Require Import CoreError Storage Config Admission Request Router SignError Times Seal SignCrates.
From S2P Require Import Source SealDer SealCreate Generate Orchestrate Handlers Live AhuCli.
Local Open Scope N_scope.

Section entry_checks.
Context {CR : Crates} {SC : SealCrates} {OC : OcspCrates} {SG : SignCrates} {SM : SealMaking}.
Context {SH : Sha256Spec} {UU : UuidSpec} {CB : CiboriumSpec} {SGS : SignCratesSpec SG} {SS : SealMakingSpec SM}.
Implicit Types (snapshot : StatusSnapshot) (config : GenerationConfig) (ca : CaIdentity).
Implicit Types (signer : SoftwareSigner) (cert : X509Cert Name) (b : Bundle).

(** ** Signers *)

Definition public_key cert : bytes := bs_raw_bytes (sp_subject_public_key (xc_spki cert)).

(** The certificate holds the public part of the key. *)
Definition signer_bound signer cert : Prop :=
  match signer with
  | EcdsaSigner key => p256_from_sec1_bytes (public_key cert) = Ok (p256_verifying_key key)
  | MlDsaSigner P key => public_key cert = ml_verifying_key_bytes P key /\
      is_Some (ml_dsa_key P (public_key cert))
  end.

(** What the signer signs is valid under the certificate. *)
Definition signer_valid (key : OcspSigner) cert : Prop :=
  forall alg tbs sig, os_algorithm key = Ok alg -> os_try_sign key tbs = Ok sig ->
    signature_valid (ai_oid alg) tbs sig (public_key cert).

Lemma ocsp_signer_valid signer cert : signer_bound signer cert -> signer_valid (ocsp_signer signer) cert.
Proof.
  intros Hb alg tbs sig. revert Hb. destruct signer as [key|P key]; cbn [signer_bound ocsp_signer os_algorithm os_try_sign].
  - intros Hk Ha%p256_signs_with_sha256 (s & Hs & Hv)%p256_try_sign_verifies. rewrite Ha. by econstructor.
  - intros [Hk [vk Hvk]] [= <-] Hs%map_err_Ok. rewrite Hk in Hvk.
    destruct (ml_sign_verifies _ _ _ _ _ Hs Hvk) as (s & Hs' & Hv). rewrite Hk. by econstructor.
Qed.

(** ** Responses *)

(** A response with the certificate of its signer is signed. *)
Lemma ocsp_sign_signed (key : OcspSigner) data cert response der :
  ocsp_sign key data (Some cert) = Ok response -> ocsp_response_to_der response = Ok der ->
  signer_valid key cert -> response_signed der.
Proof.
  intros H1 H2 Hb. destruct (ocsp_sign_basic _ _ _ _ _ H1 H2) as (basic & tbs & alg & sig & Hd & Ht & Ha & Hs & Hbd).
  eexists _, _, tbs, cert, []. split_and!; [exact Hd|exact Hbd|exact Ht|done|].
  by apply Hb.
Qed.

(** A response without a certificate cannot be checked. *)
Lemma ocsp_sign_no_cert (key : OcspSigner) data response der :
  ocsp_sign key data None = Ok response -> ocsp_response_to_der response = Ok der ->
  (exists rb, ocsp_response_from_der der = Ok (mkOcspResponse true rb)) /\
  verify_ocsp_response_signature der = Err NoCert.
Proof.
  intros H1 H2. destruct (ocsp_sign_basic _ _ _ _ _ H1 H2) as (basic & tbs & alg & sig & Hd & Ht & Ha & Hs & Hbd).
  split; [eauto|]. unfold verify_ocsp_response_signature. rewrite Hd. cbn. rewrite Hbd. cbn. by rewrite Ht.
Qed.

(** Every response of the buckets is a signed one. *)
Lemma signed_buckets_Forall (P : bytes -> Prop) prepared n (key : OcspSigner) rid cert_der t signed (cert : option (X509Cert Name)) :
  signed_buckets prepared n key rid cert_der t = Ok signed ->
  match cert_der with Some c => Some <$> x509_from_der c | None => Ok None end = Ok cert ->
  (forall data response der, ocsp_sign key data cert = Ok response -> ocsp_response_to_der response = Ok der ->
     P der) ->
  Forall P signed.*2.
Proof.
  intros (cert' & Hc & Hm%mapM_Ok)%bind_Ok Hcert HP. assert (cert' = cert) as ->.
  { destruct cert_der as [c|]; unfold der_of in Hc; [|congruence].
    apply fmap_Ok in Hc as (x & Hx%map_err_Ok & ->). rewrite Hx in Hcert. by injection Hcert. }
  induction Hm as [|c [keys der] cs signed Hc' _ IH]; [constructor|]. constructor; [|exact IH]. cbn.
  unfold sign_bucket, der_of in Hc'. inv_ok. simplify_eq. eauto.
Qed.

(** ** Bundles *)

(** The records of a produced bundle hold the responses of the buckets. *)
Lemma built_entry ca snapshot config key cert_der now pa b prepared signed se kh r :
  built_from ca snapshot config key cert_der now pa b prepared signed se kh -> r ∈ b_index b ->
  is_tombstone r = false /\ exists der, entry_bytes b r = Some der /\ der ∈ signed.*2.
Proof.
  intros [[m Hv] Hsv _ _ Hmap _ Hnd _ _ _ _ _] Hr.
  pose proof (sb_no_tombstone _ Hsv) as Ht. rewrite Forall_forall in Ht. split; [by apply Ht|].
  assert (bundle_map b !! record_key r = Some (entry_bytes b r)) as Hl.
  { apply bundle_map_Some; [exact (vf_sorted _ _ Hv)|]. eauto. }
  rewrite Hmap in Hl. apply entry_map_Some in Hl as (e & He & Hk & Hp); [|by apply bucket_records_unique].
  pose proof (bucket_entries_payload 0 signed) as Hpay. rewrite Forall_forall in Hpay.
  exists e.2. split; [|by apply Hpay]. rewrite <- Hp. unfold pending_value.
  pose proof (bucket_entries_Forall (fun e => is_tombstone e.1 = false) 0 signed ltac:(done)) as Hnt.
  rewrite Forall_forall in Hnt. by rewrite (Hnt e He).
Qed.

Lemma check_entry_signed b r der :
  entry_bytes b r = Some der -> response_signed der -> check_entry b r = CheckVerified.
Proof.
  intros He Hs. unfold check_entry. rewrite He.
  rewrite (proj2 (verify_ocsp_response_signature_Ok der)) by (by left).
  destruct Hs as (rb & basic & tbs & c & cs & Hd & _). by rewrite Hd.
Qed.

Lemma check_entry_no_cert b r der rb :
  entry_bytes b r = Some der -> ocsp_response_from_der der = Ok (mkOcspResponse true rb) ->
  verify_ocsp_response_signature der = Err NoCert -> check_entry b r = CheckUnchecked.
Proof. intros He Hd Hv. unfold check_entry. by rewrite He, Hd, Hv. Qed.

Definition verified_only (n : nat) : EntryCounts := mkEntryCounts n 0 0 0 0.
Definition unchecked_only (n : nat) : EntryCounts := mkEntryCounts 0 0 n 0 0.

Lemma count_uniform b (count : nat -> EntryCounts) l n :
  (forall r k, r ∈ l -> count_entry b (count k) r = count (S k)) ->
  fold_left (count_entry b) l (count n) = count (length l + n)%nat.
Proof.
  revert n. induction l as [|r l IH]; intros n H; [done|]. cbn [fold_left]. rewrite H by left.
  rewrite IH; [cbn; f_equal; lia|]. intros r' k Hr'. apply H. by right.
Qed.
Lemma checked_entries b :
  Forall (fun r => is_tombstone r = false /\ check_entry b r = CheckVerified) (b_index b) ->
  verify_bundle_entries b = Ok (verified_only (length (b_index b))).
Proof.
  rewrite Forall_forall. intros H. unfold verify_bundle_entries.
  change (mkEntryCounts 0 0 0 0 0) with (verified_only 0).
  rewrite count_uniform, Nat.add_0_r; [done|].
  intros r k Hr. unfold count_entry. by destruct (H r Hr) as [-> ->].
Qed.

Lemma unchecked_entries b :
  Forall (fun r => is_tombstone r = false /\ check_entry b r = CheckUnchecked) (b_index b) -> b_index b <> [] ->
  verify_bundle_entries b = Err "entry signature verification incomplete"%string.
Proof.
  rewrite Forall_forall. intros H Hne. unfold verify_bundle_entries.
  change (mkEntryCounts 0 0 0 0 0) with (unchecked_only 0). rewrite count_uniform, Nat.add_0_r.
  - by destruct (b_index b).
  - intros r k Hr. unfold count_entry. by destruct (H r Hr) as [-> ->].
Qed.

(** The entries of a bundle produced by a signer whose signatures are valid verify. *)
Lemma valid_entries_verify ca snapshot config key seal_fn cert_der cert w file w' t3 produced_at :
  produce_bundle ca snapshot config key seal_fn (Some cert_der) w = (Done file, w') ->
  config_typed config -> clock_typed w -> len file < u32_lim ->
  w_clock w !! 2%nat = Some (Some t3) -> ocsp_time t3 = Ok produced_at ->
  digests_apart ca snapshot config key (Some cert_der) produced_at ->
  x509_from_der cert_der = Ok cert -> signer_valid key cert ->
  exists b, from_bytes file = Ok b /\ verify_bundle_entries b = Ok (verified_only (length (b_index b))).
Proof.
  intros Hrun Hct Hclk Hlen E3 Hpa Hda Hc Hb.
  destruct (produce_bundle_built _ _ _ _ _ _ _ _ _ Hrun Hct Hclk Hlen) as (t2 & t3' & pa & _ & E3' & Hpa' & H).
  simplify_eq. rewrite Hpa in Hpa'. injection Hpa' as <-.
  destruct (H Hda) as (b & prepared & signed & se & kh & Hfb & Hbf). exists b. split; [done|].
  apply checked_entries, Forall_forall. intros r Hr.
  destruct (built_entry _ _ _ _ _ _ _ _ _ _ _ _ _ Hbf Hr) as (Ht & der & He & Hin). split; [done|].
  assert (Forall response_signed signed.*2) as Hall.
  { eapply (signed_buckets_Forall _ _ _ _ _ _ _ _ (Some cert)); [eapply bf_signed, Hbf|cbn; by rewrite Hc|].
    intros data response der' H1 H2. by eapply ocsp_sign_signed. }
  rewrite Forall_forall in Hall. by eapply check_entry_signed, Hall.
Qed.

(** C25: what the producer signs, the operator's check verifies.  If the responder
    certificate holds the public part of the signing key, of whichever algorithm, the
    bundle that [produce_bundle] returns (below 4 GiB, with no digest collisions) is
    one of which [ahu verify --entries] finds every entry verified: none fails, none
    is missing and none is left unchecked. *)
Theorem produced_entries_verify ca snapshot config signer seal_fn cert_der cert w file w' t3 produced_at :
  produce_bundle ca snapshot config (ocsp_signer signer) seal_fn (Some cert_der) w = (Done file, w') ->
  config_typed config -> clock_typed w -> len file < u32_lim ->
  w_clock w !! 2%nat = Some (Some t3) -> ocsp_time t3 = Ok produced_at ->
  digests_apart ca snapshot config (ocsp_signer signer) (Some cert_der) produced_at ->
  x509_from_der cert_der = Ok cert -> signer_bound signer cert ->
  exists b, from_bytes file = Ok b /\
    verify_bundle_entries b = Ok (mkEntryCounts (length (b_index b)) 0 0 0 0).
Proof. intros. by eapply valid_entries_verify; [..|by apply ocsp_signer_valid]. Qed.

(** A bundle that was produced without a responder certificate, as [hoike sign] produces
    it, and that has entries, is not reported as completely checked: the check of its
    entries ends in an error. *)
Theorem certless_entries_unchecked ca snapshot config key seal_fn w file w' t3 produced_at :
  produce_bundle ca snapshot config key seal_fn None w = (Done file, w') ->
  config_typed config -> clock_typed w -> len file < u32_lim ->
  w_clock w !! 2%nat = Some (Some t3) -> ocsp_time t3 = Ok produced_at ->
  digests_apart ca snapshot config key None produced_at ->
  exists b, from_bytes file = Ok b /\
    (b_index b <> [] -> verify_bundle_entries b = Err "entry signature verification incomplete"%string).
Proof.
  intros Hrun Hct Hclk Hlen E3 Hpa Hda.
  destruct (produce_bundle_built _ _ _ _ _ _ _ _ _ Hrun Hct Hclk Hlen) as (t2 & t3' & pa & _ & E3' & Hpa' & H).
  simplify_eq. rewrite Hpa in Hpa'. injection Hpa' as <-.
  destruct (H Hda) as (b & prepared & signed & se & kh & Hfb & Hbf). exists b. split; [done|].
  apply unchecked_entries, Forall_forall. intros r Hr.
  destruct (built_entry _ _ _ _ _ _ _ _ _ _ _ _ _ Hbf Hr) as (Ht & der & He & Hin). split; [done|].
  assert (Forall (fun der => (exists rb, ocsp_response_from_der der = Ok (mkOcspResponse true rb)) /\
    verify_ocsp_response_signature der = Err NoCert) signed.*2) as Hall.
  { eapply (signed_buckets_Forall _ _ _ _ _ _ _ _ None); [eapply bf_signed, Hbf|done|].
    intros data response der'. apply ocsp_sign_no_cert. }
  rewrite Forall_forall in Hall. destruct (Hall der Hin) as [[rb Hrb] Hv]. by eapply check_entry_no_cert.
Qed.

(** ** Live responses *)

(** A live response signed with material that was loaded for a responder certificate
    verifies under that certificate. *)
Theorem live_response_verifies ca_config w m w' cert_der cert_id_der status nonce now this next der :
  load_live_material ca_config w = (Done m, w') -> lm_responder_cert_der m = Some cert_der ->
  sign_with_window cert_id_der status nonce (lm_responder_key_bytes m) (ocsp_signer (EcdsaSigner (lm_key m)))
    now this next (lm_responder_cert_der m) = Ok der ->
  response_signed der.
Proof.
  intros (Hb & _ & _)%load_live_material_Done Hc Hs. unfold responder_bound in Hb. rewrite Hc in Hb, Hs.
  destruct Hb as (cert & t & Hx & _ & _ & Hkb & Hk). unfold sign_with_window, der_of in Hs.
  case_match; [done|]. inv_ok. rename select (ocsp_sign _ _ _ = _) into Hsign.
  rename select (Some <$> _ = Ok _) into Hp. apply fmap_Ok in Hp as (cert' & Hp%map_err_Ok & ->).
  rewrite Hx in Hp. injection Hp as <-. eapply ocsp_sign_signed; [exact Hsign|done|]. apply ocsp_signer_valid. cbn. unfold public_key. unfold bs_as_bytes in Hkb. case_match; [|done]. by injection Hkb as ->.
Qed.
End entry_checks.

(** ** Witness *)

Module ToyChecks.
(** The key [5] and a certificate that holds it. *)
Definition signer : @SoftwareSigner ToyMaking.seal_crates ToyMaking.making :=
  @EcdsaSigner ToyMaking.seal_crates ToyMaking.making x05.
Abbreviation key := (@ocsp_signer ToyMaking.seal_crates ToyMaking.making signer).
Abbreviation run := (ToyGenerate.produce ToyGenerate.ca ToyGenerate.snapshot ToyGenerate.config key
  ToyGenerate.seal_fn (Some [x05])).
End ToyChecks.

Lemma produced_entries_verify_witness :
  exists file w' b, ToyChecks.run ToyGenerate.world = (Done file, w') /\ @from_bytes Toy.crates file = Ok b /\
    @verify_bundle_entries Toy.crates ToyMaking.seal_crates ToySign.crates b
      = Ok (mkEntryCounts (length (b_index b)) 0 0 0 0) /\ length (b_index b) = 4%nat.
Proof.
  destruct (is_done_inv ToyChecks.run ToyGenerate.world) as (file & w' & E); [vm_compute; reflexivity|].
  pose proof (ToyGenerate.returned_small _ _ _ _ E ltac:(vm_compute; reflexivity)) as Hl.
  assert (match ToyGenerate.returned (ToyChecks.run ToyGenerate.world) with
    | Some f => match @from_bytes Toy.crates f with Ok b => length (b_index b) | Err _ => 0%nat end
    | None => 0%nat end = 4%nat) as Hn by (vm_compute; reflexivity).
  rewrite E in Hn. cbn [ToyGenerate.returned fst] in Hn.
  destruct (@produced_entries_verify Toy.crates ToyMaking.seal_crates ToySign.ocsp ToySign.crates ToyMaking.making
    Toy.sha256_spec Toy.uuid_spec Toy.ciborium_spec ToySign.crates_spec ToyMaking.making_spec
    _ _ _ ToyChecks.signer _ _ (ToySign.cert [x05]) _ _ _ 100003 ToyGenerate.produced_at
    E ToyGenerate.typed ToyGenerate.clock Hl eq_refl ltac:(vm_compute; reflexivity) (ToyGenerate.apart _ _ _)
    eq_refl eq_refl) as (b & Hb & Hv).
  rewrite Hb in Hn. exists file, w', b. split; [exact E|]. split; [exact Hb|]. split; [exact Hv|exact Hn].
Defined.
