(* ===== verification/CliSign.v ===== *)
(** * CliSign: the command [hoike sign] (hoike-cli/src/main.rs)

    One-shot production of a bundle from a CRL, an issuer certificate and a list
    of good serial numbers, without a configuration and without a state.  Keys
    and seeds that are drawn are arguments.  Main result: whatever happens, the
    output is what it was or a complete bundle produced from the authenticated
    CRL, in which a list of good serial numbers can never turn a revoked
    certificate good, with a proved seal and an OCSP key other than the seal key. *)

From stdpp Require Import base tactics list gmap strings.
From Stdlib Require Import NArith Lia.
From S2P Require Import Prelude Slices Crates Text AhuError Header Index Manifest Bundle Builder.
From S2P Require Import Verify Ops Seal CoreError Storage State Config Admission Request Router Install.
From S2P Require Import SignError Times SignCrates Source SealDer SealCreate Crl Generate Orchestrate AhuCli.
Local Open Scope N_scope.

(** The arguments of [Commands::Sign]. *)
Record SignArgs : Type := mkSignArgs {
  sg_ca : string;
  sg_crl : path;
  sg_output : path;
  sg_issuer : option path;
  sg_epoch : N;
  sg_certid_compat : string;
  sg_good_serials : option path;
  sg_sig_alg : string;
  sg_issuer_name_b64 : option string;
  sg_issuer_key_b64 : option string;
  sg_signing_key : option path;
  sg_seal_key : option path;
  sg_seal_cert : option path;
  sg_dual_alg : option string;
  sg_pq_signing_key : option path;
  sg_demo_key : bool;
}.

(** [STANDARD.encode] of base64. *)
Class Base64Encode := { base64_standard_encode : bytes -> string }.

Section sign.
Context {CR : Crates} {SC : SealCrates} {OC : OcspCrates} {SG : SignCrates}.
Context {SM : SealMaking} {BE : Base64Encode}.
Implicit Types (args : SignArgs).

(** The CRL in either encoding. *)
Definition cli_crl_source (crl_data : bytes) : sign_result CrlSource :=
  if Text.starts_with (text "-----BEGIN") crl_data then
    ensure (utf8_valid crl_data) (CrlParse "CRL file is not valid UTF-8") ;; from_pem crl_data
  else from_der crl_data.

(** [issuer_path.and_then(|p| std::fs::read(p).ok())]. *)
Definition read_issuer args : io string bytes :=
  issuer_path ← io_lift (ok_or (sg_issuer args) "--issuer must name a readable certificate"%string);
  failing "--issuer must name a readable certificate" (read_file issuer_path).

(** The identity of the CA: the fields given, or those of the certificate. *)
Definition cli_identity args (issuer_cert : X509Cert Name) : result string CaIdentity :=
  issuer_name_b64 ← match sg_issuer_name_b64 args with
                    | Some s => Ok s
                    | None => base64_standard_encode <$> name_to_der (xc_subject issuer_cert)
                    end;
  let issuer_key_b64 := default
    (base64_standard_encode (bs_raw_bytes (sp_subject_public_key (xc_spki issuer_cert))))
    (sg_issuer_key_b64 args) in
  issuer_name_der ← decode_b64_field (Some issuer_name_b64) ("CN=" +:+ sg_ca args);
  issuer_key_bytes ← decode_b64_field (Some issuer_key_b64) (sg_ca args +:+ "-key");
  Ok (mkCaIdentity (sg_ca args) issuer_name_der issuer_key_bytes).

(** One line of the file of good serial numbers; [entry(..).or_insert(Good)]. *)
Definition add_good_line (entries : gmap bytes CertificateStatus) (line : bytes) : gmap bytes CertificateStatus :=
  let line := Text.trim line in
  if bool_decide (line = []) || Text.starts_with (text "#") line then entries else
  match hex_decode (String.string_of_list_byte line) with
  | Ok serial => match entries !! serial with Some _ => entries | None => <[serial := Good]> entries end
  | Err _ => entries
  end.
Definition add_good_serials (content : bytes) (snapshot : StatusSnapshot) : StatusSnapshot :=
  mkStatusSnapshot (fold_left add_good_line (Text.lines content) (ss_entries snapshot))
    (ss_this_update snapshot) (ss_next_update snapshot) (ss_not_after snapshot).

(** [fs::read_to_string], and the loop over the lines. *)
Definition with_good_serials args (snapshot : StatusSnapshot) : io string StatusSnapshot :=
  match sg_good_serials args with
  | Some good_path =>
      content ← failing "Failed to read good serials" (read_file good_path);
      io_lift (ensure (utf8_valid content) "Failed to read good serials"%string) ;;
      mret (add_good_serials content snapshot)
  | None => mret snapshot
  end.

(** Everything from the CRL file to the snapshot that is signed. *)
Definition cli_snapshot args : io string (CaIdentity * StatusSnapshot) :=
  crl_data ← failing "Failed to read CRL" (read_file (sg_crl args));
  source ← io_lift (map_err (fun _ => "Failed to parse CRL"%string) (cli_crl_source crl_data));
  issuer_bytes ← read_issuer args;
  issuer_cert ← io_lift (map_err (fun _ => "Invalid issuer certificate"%string) (parse_certificate issuer_bytes));
  source ← io_lift (map_err (fun _ => "CRL authentication setup failed"%string)
                      (with_issuer_certificate source issuer_bytes));
  ca ← io_lift (cli_identity args issuer_cert);
  snapshot ← failing "Failed to snapshot CRL" (Crl.snapshot source ca);
  snapshot ← with_good_serials args snapshot;
  mret (ca, snapshot).

(** [GenerationConfig { producer_id, epoch, certid_compat, ..Default::default() }]. *)
Definition cli_generation_config args (compat : CertIdCompat) : GenerationConfig :=
  let d := default_generation_config in
  mkGenerationConfig "hoike-cli" (sg_epoch args) (gc_validity_secs d) (gc_jitter_secs d) compat
    (gc_completeness d) (gc_archive_cutoff_secs d) (gc_bucket_size d).

(** The ECDSA key, with the separation check. *)
Definition classical_signer args (seal_key : SealKey) : io string P256SigningKey :=
  key ← match sg_signing_key args with
        | Some key_path => failing "Failed to load signing key" (load_ecdsa_p256_key key_path)
        | None => if sg_demo_key args then mret p256_demo_key else io_fail "No signing key provided"%string
        end;
  io_lift (map_err (fun _ => "Seal/OCSP key separation preflight failed"%string)
             (ensure_distinct_ecdsa_seal_key key seal_key)) ;;
  mret key.

(** An ML-DSA key of the algorithm asked for. *)
Definition ml_dsa_signer args (key_path : option path) (alg : string) (seed : bytes) :
    io string (MlDsa * MlSigningKey) :=
  match key_path with
  | Some key_path =>
      v ← failing "Failed to load ML-DSA signing key" (load_ml_dsa_key base64_standard_decode key_path);
      io_lift (ensure (String.eqb (algorithm_name v.1) alg) "Key algorithm mismatch"%string) ;;
      mret v
  | None => if sg_demo_key args then io_lift (ml_dsa_demo alg seed) else io_fail "No signing key provided"%string
  end.

Definition pq_discriminator (alg : string) : result string N :=
  if String.eqb alg "ml-dsa-44" then Ok ALG_DISC_ML_DSA_44
  else if String.eqb alg "ml-dsa-65" then Ok ALG_DISC_ML_DSA_65
  else if String.eqb alg "ml-dsa-87" then Ok ALG_DISC_ML_DSA_87
  else Err "Unknown --dual-alg"%string.

(** The production with one or two algorithms. *)
Definition cli_produce args (ca : CaIdentity) (snapshot : StatusSnapshot) (config : GenerationConfig)
    (seal_key : SealKey) (seal_cert : bytes) (seed : bytes) : io string bytes :=
  let seal_fn m := create_cms_seal m seal_key seal_cert in
  match sg_dual_alg args with
  | Some pq_alg =>
      disc_pq ← io_lift (pq_discriminator pq_alg);
      ecdsa_signer ← classical_signer args seal_key;
      '(P, key) ← ml_dsa_signer args (sg_pq_signing_key args) pq_alg seed;
      failing "Failed to produce bundle"
        (produce_dual_bundle ca snapshot config (ocsp_signer (EcdsaSigner ecdsa_signer))
           (ocsp_signer (MlDsaSigner P key)) disc_pq seal_fn None None)
  | None =>
      if String.eqb (sg_sig_alg args) "ecdsa-p256" then
        signer ← classical_signer args seal_key;
        failing "Failed to produce bundle"
          (produce_bundle ca snapshot config (ocsp_signer (EcdsaSigner signer)) seal_fn None)
      else if String.eqb (sg_sig_alg args) "ml-dsa-44" || String.eqb (sg_sig_alg args) "ml-dsa-65" ||
              String.eqb (sg_sig_alg args) "ml-dsa-87" then
        '(P, key) ← ml_dsa_signer args (sg_signing_key args) (sg_sig_alg args) seed;
        failing "Failed to produce bundle"
          (sign_bundle P key ca snapshot config seal_fn None)
      else io_fail "Unknown sig_alg"%string
  end.

(** [run_sign] up to the bytes of the bundle. *)
Definition sign_result_bytes args (ephemeral : P256SigningKey) (seed : bytes) : io string bytes :=
  io_lift (ensure (bool_decide (is_Some (sg_signing_key args)) || sg_demo_key args)
    "no signing key specified"%string) ;;
  compat ← io_lift (certid_compat_parse (sg_certid_compat args));
  '(ca, snapshot) ← cli_snapshot args;
  '(seal_key, seal_cert) ← load_or_generate_seal_material base64_standard_decode (sg_seal_key args)
                             (sg_seal_cert args) (sg_demo_key args) ephemeral;
  cli_produce args ca snapshot (cli_generation_config args compat) seal_key seal_cert seed.

Definition run_sign args (ephemeral : P256SigningKey) (seed : bytes) : io string bytes :=
  bundle_bytes ← sign_result_bytes args ephemeral seed;
  write_bundle_atomic (sg_output args) bundle_bytes ;;
  mret bundle_bytes.
End sign.

(** ** What is signed *)

Section signed.
Context {CR : Crates} {SC : SealCrates} {OC : OcspCrates} {SG : SignCrates}.
Context {SM : SealMaking} {BE : Base64Encode} {SS : SealMakingSpec SM}.
Implicit Types (args : SignArgs).

(** The serial number on a line of the file of good ones. *)
Definition good_line (line : bytes) : option bytes :=
  let line := Text.trim line in
  if bool_decide (line = []) || Text.starts_with (text "#") line then None
  else to_option (hex_decode (String.string_of_list_byte line)).

(** The serial numbers the caller vouches for. *)
Definition good_in args (w : World) (serial : bytes) : Prop :=
  exists p content line, sg_good_serials args = Some p /\ w_files w !! p = Some content /\
    line ∈ Text.lines content /\ good_line line = Some serial.

(** Adding a good serial number never changes an entry that is there. *)
Lemma add_good_line_lookup entries line serial :
  add_good_line entries line !! serial =
  match entries !! serial with
  | Some status => Some status
  | None => if decide (good_line line = Some serial) then Some Good else None
  end.
Proof.
  unfold add_good_line, good_line. destruct (_ || _); [by destruct (entries !! serial)|].
  destruct (hex_decode _) as [s|e]; cbn [to_option]; [|by destruct (entries !! serial)].
  destruct (decide (Some s = Some serial)) as [[= ->]|Hne].
  - destruct (entries !! serial) eqn:E; [done|by rewrite lookup_insert_eq].
  - destruct (entries !! s); [by destruct (entries !! serial)|].
    rewrite lookup_insert_ne by congruence. by destruct (entries !! serial).
Qed.

Lemma add_good_serials_lookup content snapshot serial :
  ss_entries (add_good_serials content snapshot) !! serial =
  match ss_entries snapshot !! serial with
  | Some status => Some status
  | None => if decide (Exists (fun line => good_line line = Some serial) (Text.lines content))
            then Some Good else None
  end.
Proof.
  cbn. generalize (ss_entries snapshot). induction (Text.lines content) as [|line l IH]; intros entries; cbn.
  { rewrite decide_False by (by intros ?%Exists_nil). by destruct (entries !! serial). }
  rewrite IH, add_good_line_lookup. destruct (entries !! serial); [done|].
  destruct (decide (good_line line = Some serial)) as [Hl|Hl].
  - rewrite decide_True; [done|]. by left.
  - apply decide_ext. rewrite Exists_cons. naive_solver.
Qed.

(** Where the snapshot comes from: a CRL authenticated with the given issuer,
    whose identity is that of the CA.  Every certificate listed is revoked as in
    its last entry, and the others are good if the caller vouches for them. *)
Definition snapshot_from args (w : World) (ca : CaIdentity) (snapshot : StatusSnapshot) : Prop :=
  exists crl_data issuer_path issuer_data source cert t1 t2,
    w_files w !! sg_crl args = Some crl_data /\ cli_crl_source crl_data = Ok source /\
    sg_issuer args = Some issuer_path /\ w_files w !! issuer_path = Some issuer_data /\
    parse_certificate issuer_data = Ok cert /\ ci_label ca = sg_ca args /\
    Some t1 ∈ w_clock w /\ Some t2 ∈ w_clock w /\ crl_authentic cert (cs_crl source) ca t1 /\
    (exists stop, ss_next_update snapshot = Some stop /\ ss_this_update snapshot <= t2 < stop) /\
    forall serial, match ss_entries snapshot !! serial with
    | Some (Revoked t reason) => exists l1 rc l2, listed (cs_crl source) = l1 ++ rc :: l2 /\
        rc_serial_number rc = serial /\ (serial ∉ rc_serial_number <$> l2) /\ Revoked t reason = revoked_status rc
    | Some Good => (serial ∉ rc_serial_number <$> listed (cs_crl source)) /\ good_in args w serial
    | None => (serial ∉ rc_serial_number <$> listed (cs_crl source)) /\ ~ good_in args w serial
    end.

Lemma read_issuer_Done args w b w' :
  read_issuer args w = (Done b, w') ->
  same_files w w' /\ exists p, sg_issuer args = Some p /\ w_files w !! p = Some b.
Proof.
  unfold read_issuer, failing. intros H. apply io_bind_Done in H as (p & w1 & [Hp%ok_or_Ok ->]%io_lift_Done & H).
  apply io_map_err_Done, read_file_Done in H as [Hf Hs]. eauto.
Qed.

Lemma cli_identity_label args cert ca : cli_identity args cert = Ok ca -> ci_label ca = sg_ca args.
Proof. unfold cli_identity. intros H. by inv_ok. Qed.

Lemma with_good_serials_Done args snapshot w snapshot' w' :
  with_good_serials args snapshot w = (Done snapshot', w') ->
  same_files w w' /\ ss_this_update snapshot' = ss_this_update snapshot /\
  ss_next_update snapshot' = ss_next_update snapshot /\
  forall serial, match ss_entries snapshot !! serial with
  | Some status => ss_entries snapshot' !! serial = Some status
  | None => good_in args w serial /\ ss_entries snapshot' !! serial = Some Good \/
            ~ good_in args w serial /\ ss_entries snapshot' !! serial = None
  end.
Proof.
  unfold with_good_serials, failing, good_in. destruct (sg_good_serials args) as [p|]; intros H.
  - apply io_bind_Done in H as (content & w1 & [Hf Hs]%io_map_err_Done%read_file_Done & H). inv_io.
    split_and!; try done. intros serial. rewrite add_good_serials_lookup.
    destruct (ss_entries snapshot !! serial); [done|].
    destruct (decide _) as [Hl|Hl]; [left|right]; (split; [|done]).
    + apply Exists_exists in Hl as (line & ? & ?). by exists p, content, line.
    + intros (p' & c' & line & [= <-] & Hc & Hin & Hg). apply Hl, Exists_exists. exists line. split; [|done].
      congruence.
  - inv_io. split_and!; try done. intros serial. destruct (ss_entries snapshot !! serial); [done|right].
    split; [|done]. by intros (? & ? & ? & ? & _).
Qed.

Lemma good_in_same args w w1 serial : same_files w w1 -> good_in args w1 serial <-> good_in args w serial.
Proof. intros Hs. unfold good_in. by rewrite (sf_files _ _ Hs). Qed.

Lemma read_issuer_passive args : passive (read_issuer args).
Proof. unfold read_issuer, failing. split; eauto with hoike. Qed.
Lemma with_good_serials_passive args snapshot : passive (with_good_serials args snapshot).
Proof. unfold with_good_serials, failing. destruct (sg_good_serials args); split; eauto with hoike. Qed.

Lemma cli_snapshot_passive args : passive (cli_snapshot args).
Proof.
  unfold cli_snapshot, failing, Crl.snapshot, authenticate.
  destruct (read_issuer_passive args) as [R T].
  assert (forall s, reads_only (with_good_serials args s)) as Rg by (intros s; apply with_good_serials_passive).
  assert (forall s, ticks (with_good_serials args s)) as Tg by (intros s; apply with_good_serials_passive).
  split.
  - repeat (apply reads_bind; [eauto 20 with hoike|intros ?]). eauto with hoike.
  - repeat (apply ticks_bind; [eauto 20 with hoike|intros ?]). eauto with hoike.
Qed.

Lemma cli_snapshot_Done args w ca snapshot w' :
  cli_snapshot args w = (Done (ca, snapshot), w') -> snapshot_from args w ca snapshot.
Proof.
  unfold cli_snapshot, failing. intros H.
  apply io_bind_Done in H as (crl & w1 & Hcrl%io_map_err_Done & H).
  assert (w_clock w1 `suffix_of` w_clock w) as Hc1 by (eapply ticks_Done; [apply ticks_file|exact Hcrl]).
  apply read_file_Done in Hcrl as [Hcrl Hs1].
  apply io_bind_Done in H as (source & w2 & [Hsrc%map_err_Ok ->]%io_lift_Done & H).
  apply io_bind_Done in H as (issuer & w3 & Hi & H).
  destruct (passive_Done _ _ _ _ (read_issuer_passive args) Hi) as [Hs3 Hc3].
  apply read_issuer_Done in Hi as (_ & p & Hp & Hpf). rewrite (sf_files _ _ Hs1) in Hpf.
  apply io_bind_Done in H as (cert & w4 & [Hcert%map_err_Ok ->]%io_lift_Done & H).
  apply io_bind_Done in H as (source' & w5 & [Hw%map_err_Ok ->]%io_lift_Done & H).
  unfold with_issuer_certificate in Hw. rewrite Hcert in Hw. injection Hw as <-.
  apply io_bind_Done in H as (ca' & w6 & [Hca ->]%io_lift_Done & H).
  apply io_bind_Done in H as (snap & w7 & Hsnap%io_map_err_Done & H).
  apply crl_snapshot_Done in Hsnap as (Hs7 & t1 & t2 & Hclk & Hof).
  apply io_bind_Done in H as (snap' & w8 & Hg & H). apply io_ret_Done in H as [[= -> ->] _].
  apply with_good_serials_Done in Hg as (_ & Ht & Hn & Hall).
  assert (same_files w w7) as Hs by (by etrans; [|etrans]).
  assert (w_clock w3 `suffix_of` w_clock w) as [used Hused] by (by etrans).
  destruct Hof as [(cert' & [= <-] & Hauth) Hent _ _ Hcur _]. cbn [cs_crl] in *.
  exists crl, p, issuer, source, cert, t1, t2. rewrite Hused, Hclk, Ht, Hn.
  split_and!; try done; [by apply cli_identity_label in Hca|set_solver..|].
  intros serial. specialize (Hall serial). rewrite Hent in Hall.
  pose proof (last_entry (listed (cs_crl source)) serial) as Hl. destruct (_ !! serial) as [st|].
  - rewrite Hall. destruct Hl as (l1 & rc & l2 & ? & ? & ? & ->). unfold revoked_status. by exists l1, rc, l2.
  - rewrite !(good_in_same _ _ _ _ Hs) in Hall. destruct Hall as [[? ->]|[? ->]]; done.
Qed.

(** ** Keys *)

(** The key that signs responses is not the one that seals. *)
Definition separate (signer : SoftwareSigner) (seal : SealKey) : Prop :=
  match signer with
  | EcdsaSigner key => forall k, seal = SealEcdsaP256 k -> p256_verifying_key k <> p256_verifying_key key
  | MlDsaSigner _ _ => True
  end.

(** What the production is given and how it is sealed. *)
Definition bundle_from args (w : World) (ca : CaIdentity) (snapshot : StatusSnapshot) (seal_key : SealKey)
    (seal_cert : bytes) (file : bytes) : Prop :=
  exists compat w1 w2, certid_compat_parse (sg_certid_compat args) = Ok compat /\ same_files w w1 /\
  let config := cli_generation_config args compat in
  let seal_fn m := create_cms_seal m seal_key seal_cert in
  match sg_dual_alg args with
  | None => exists signer, separate signer seal_key /\
      produce_bundle ca snapshot config (ocsp_signer signer) seal_fn None w1 = (Done file, w2)
  | Some pq_alg => exists key P pq_key disc, separate (EcdsaSigner key) seal_key /\
      algorithm_name P = pq_alg /\ pq_discriminator pq_alg = Ok disc /\
      produce_dual_bundle ca snapshot config (ocsp_signer (EcdsaSigner key))
        (ocsp_signer (MlDsaSigner P pq_key)) disc seal_fn None None w1 = (Done file, w2)
  end.

Lemma classical_signer_Done args seal_key w key w' :
  classical_signer args seal_key w = (Done key, w') -> separate (EcdsaSigner key) seal_key /\ same_files w w'.
Proof.
  unfold classical_signer, failing. intros H. apply io_bind_Done in H as (k & w1 & Hk & H). inv_io.
  split. { rename select (ensure_distinct_ecdsa_seal_key _ _ = _) into He. exact (separation_check_sound _ _ _ He). }
  destruct (sg_signing_key args); [|destruct (sg_demo_key args); by inv_io].
  apply io_map_err_Done in Hk. eapply reads_Done; [apply load_ecdsa_reads|done].
Qed.

Lemma ml_dsa_demo_name alg seed P key : ml_dsa_demo alg seed = Ok (P, key) -> algorithm_name P = alg.
Proof.
  unfold ml_dsa_demo. intros H.
  repeat match type of H with
  | (if String.eqb alg ?s then _ else _) = _ => destruct (String.eqb_spec alg s) as [->|]
  end; by simplify_eq/=.
Qed.

Lemma ml_dsa_signer_Done args p alg seed w P key w' :
  ml_dsa_signer args p alg seed w = (Done (P, key), w') -> algorithm_name P = alg /\ same_files w w'.
Proof.
  unfold ml_dsa_signer, failing. destruct p as [p|]; intros H.
  - apply io_bind_Done in H as ([P' k'] & w1 & Hl%io_map_err_Done & H).
    apply io_bind_Done in H as ([] & w2 & [Hn%ensure_Ok ->]%io_lift_Done & H).
    apply io_ret_Done in H as [[= <- <-] ->]. split; [by apply String.eqb_eq|].
    eapply reads_Done; [apply load_ml_dsa_reads|done].
  - destruct (sg_demo_key args); [|done]. apply io_lift_Done in H as [H%ml_dsa_demo_name ->]. done.
Qed.

Lemma cli_produce_Done args ca snapshot compat seal_key seal_cert seed w file w' :
  certid_compat_parse (sg_certid_compat args) = Ok compat ->
  cli_produce args ca snapshot (cli_generation_config args compat) seal_key seal_cert seed w = (Done file, w') ->
  bundle_from args w ca snapshot seal_key seal_cert file.
Proof.
  intros Hc. unfold cli_produce, bundle_from, failing. destruct (sg_dual_alg args) as [pq_alg|]; intros H.
  - apply io_bind_Done in H as (disc & w1 & [Hd ->]%io_lift_Done & H).
    apply io_bind_Done in H as (key & w2 & [Hsep Hs2]%classical_signer_Done & H).
    apply io_bind_Done in H as ([P pq_key] & w3 & [Hn Hs3]%ml_dsa_signer_Done & H%io_map_err_Done).
    exists compat, w3, w'. split_and!; [done|by etrans|]. by exists key, P, pq_key, disc.
  - destruct (String.eqb _ _).
    + apply io_bind_Done in H as (key & w2 & [Hsep Hs2]%classical_signer_Done & H%io_map_err_Done).
      exists compat, w2, w'. split_and!; [done|done|]. by exists (EcdsaSigner key).
    + destruct (_ || _); [|done].
      apply io_bind_Done in H as ([P key] & w3 & [Hn Hs3]%ml_dsa_signer_Done & H%io_map_err_Done).
      exists compat, w3, w'. split_and!; [done|done|]. by exists (MlDsaSigner P key).
Qed.

(** ** The command *)

Lemma sign_result_bytes_reads args ephemeral seed : reads_only (sign_result_bytes args ephemeral seed).
Proof.
  assert (forall k, reads_only (classical_signer args k)) as R1.
  { intros k. unfold classical_signer, failing. destruct (sg_signing_key args), (sg_demo_key args); eauto 10 with hoike. }
  assert (forall p alg, reads_only (ml_dsa_signer args p alg seed)) as R2.
  { intros [p|] alg; unfold ml_dsa_signer, failing; [|destruct (sg_demo_key args)]; eauto 10 with hoike. }
  pose proof produce_bundle_reads as R3. pose proof produce_dual_bundle_reads as R4.
  unfold sign_result_bytes. apply reads_bind; [eauto with hoike|]. intros _.
  apply reads_bind; [eauto with hoike|]. intros compat.
  apply reads_bind; [apply cli_snapshot_passive|]. intros [ca snapshot].
  apply reads_bind; [eauto with hoike|]. intros [key cert]. unfold cli_produce, failing.
  destruct (sg_dual_alg args); [|destruct (String.eqb _ _); [|destruct (_ || _)]]; eauto with hoike.
  - apply reads_bind; [eauto with hoike|]. intros disc. apply reads_bind; [eauto with hoike|]. intros k.
    apply reads_bind; [eauto with hoike|]. intros [P pk]. eauto with hoike.
  - apply reads_bind; [eauto with hoike|]. intros [P pk]. eauto with hoike.
Qed.

(** What [sign] may publish. *)
Definition signed_from args (w : World) (file : bytes) : Prop :=
  exists ca snapshot seal_key seal_cert now,
    snapshot_from args w ca snapshot /\ Some now ∈ w_clock w /\ material_proved seal_key seal_cert now /\
    (sg_signing_key args = None -> sg_demo_key args = true) /\
    (sg_seal_key args = None -> sg_demo_key args = true) /\
    bundle_from args w ca snapshot seal_key seal_cert file.

Lemma same_files_from args w w1 ca snapshot k c file :
  same_files w w1 -> bundle_from args w1 ca snapshot k c file -> bundle_from args w ca snapshot k c file.
Proof.
  intros Hs (compat & w2 & w3 & Hc & Hs2 & H). exists compat, w2, w3. split_and!; [done|by etrans|done].
Qed.

Lemma sign_result_bytes_Done args ephemeral seed w file w' :
  sign_result_bytes args ephemeral seed w = (Done file, w') -> signed_from args w file.
Proof.
  unfold sign_result_bytes. intros H.
  apply io_bind_Done in H as ([] & w0 & [Hk%ensure_Ok ->]%io_lift_Done & H).
  apply io_bind_Done in H as (compat & w1 & [Hc ->]%io_lift_Done & H).
  apply io_bind_Done in H as ([ca snapshot] & w2 & Hsnap & H).
  destruct (passive_Done _ _ _ _ (cli_snapshot_passive args) Hsnap) as [Hs2 [used Hused]].
  apply io_bind_Done in H as ([key cert] & w3 & Hm & H).
  destruct (seal_material_proved _ _ _ _ _ _ _ _ _ Hm) as (Hcase & (now & Hnow & Hmp) & Hs3).
  exists ca, snapshot, key, cert, now. split_and!; [by eapply cli_snapshot_Done|rewrite Hused; set_solver|done|..].
  - intros E. rewrite E in Hk. by destruct (sg_demo_key args).
  - intros E. destruct Hcase as [(kp & cp & k & d & Hkp & _)|(_ & _ & Hd & _)]; [congruence|done].
  - eapply same_files_from; [|by eapply cli_produce_Done]. by etrans.
Qed.

End signed.

(** ** Witness *)

Module ToyCliSign.
#[export] Instance encode : Base64Encode := {| base64_standard_encode := String.string_of_list_byte |}.
Definition args : SignArgs :=
  mkSignArgs "alpha" ["crl"%string] ["srv"; "out.ahu"]%string (Some ["issuer"%string]) 1 "dual" (Some ["good"%string])
    "ecdsa-p256" None None (Some ["key"%string]) (Some ["seal-key"%string]) (Some ["seal-cert"%string]) None None false.
(** The list of good serial numbers names a revoked certificate as well. *)
Definition good : bytes := text "2a" ++ [NL] ++ text "# spare" ++ [NL] ++ text " 07 ".
Definition world : World :=
  set_clock (replicate 12 (Some 150)) (set_files (fun _ => {[ ["crl"] := [x63]; ["issuer"] := [x04; x05];
    ["good"] := good; ["key"] := [x0c]; ["seal-key"] := [x0d]; ["seal-cert"] := [x0d] ]}%string) sample_world).
#[export] Existing Instances Toy.crates ToyMaking.seal_crates ToySign.ocsp ToySign.crates
  ToyMaking.making.
Definition signed : outcome string bytes * World := run_sign args x0c [] world.
End ToyCliSign.
Import ToyCliSign.

Example toy_good_snapshot :
  match (cli_snapshot args world).1 with
  | Done (_, snapshot) => (fun s => is_revoked <$> ss_entries snapshot !! s) <$> [[x2a]; [x64]; [x07]; [x08]]
                          = [Some true; Some true; Some false; None]
  | _ => False
  end.
Proof. vm_compute. reflexivity. Qed.

