(* ===== verification/CliQuery.v ===== *)
(** * CliQuery: the command [hoike query] (hoike-cli/src/main.rs)

    The request that is built for one certificate, with the preferred signature
    algorithms, and the report on the answer.  The encoders of [x509-ocsp] and
    the HTTP client are parameters.  Main result: what is asked is what the
    server understands. *)

From stdpp Require Import base tactics list gmap strings.
From Stdlib Require Import NArith Lia.
From S2P Require Import Prelude Slices Crates Text AhuError Index Bundle Builder CoreError Storage Config Request.
From S2P Require Import SignError Times Seal SignCrates Source Generate AdminApi AhuCli Orchestrate.
Local Open Scope N_scope.

(** Encoders that the command uses; a [PreferredSignatureAlgorithm] is its OID and parameters. *)
Class QueryCrates {OC : OcspCrates} := {
  ocsp_request_to_der : TbsRequest -> result string bytes;
  preferred_algs_to_der : list (string * option bytes) -> result string bytes;
}.
(** The decoders of the server invert them, and a SEQUENCE is not empty. *)
Class QueryCratesSpec {OC : OcspCrates} (QC : QueryCrates) : Prop := {
  ocsp_request_round tbs der : ocsp_request_to_der tbs = Ok der -> der <> [] /\ ocsp_request_from_der der = Ok tbs;
  preferred_algs_round l der : preferred_algs_to_der l = Ok der -> preferred_algs_from_der der = Ok l.*1;
}.

(** [str::split(',')]. *)
Fixpoint split_commas_from (acc l : bytes) : list bytes :=
  match l with
  | [] => [rev acc]
  | c :: l => if bool_decide (c = x2c) then rev acc :: split_commas_from [] l else split_commas_from (c :: acc) l
  end.
Definition split_commas (s : string) : list bytes := split_commas_from [] (text s).

(** The algorithm a name stands for. *)
Definition preferred_algorithm (alg : bytes) : result string (string * option bytes) :=
  let name := String.string_of_list_byte (Text.trim alg) in
  if String.eqb name "ecdsa-p256" then Ok ("1.2.840.10045.4.3.2"%string, Some NULL_DER)
  else if String.eqb name "ml-dsa-44" then Ok ("2.16.840.1.101.3.4.3.17"%string, None)
  else if String.eqb name "ml-dsa-65" then Ok ("2.16.840.1.101.3.4.3.18"%string, None)
  else if String.eqb name "ml-dsa-87" then Ok ("2.16.840.1.101.3.4.3.19"%string, None)
  else Err "Unknown algorithm for --prefer"%string.

(** The name printed for an algorithm. *)
Definition algorithm_label (alg_oid : string) : string :=
  if String.eqb alg_oid "1.2.840.10045.4.3.2" then "ecdsa-p256-sha256"
  else if String.eqb alg_oid "2.16.840.1.101.3.4.3.17" then "ml-dsa-44"
  else if String.eqb alg_oid "2.16.840.1.101.3.4.3.18" then "ml-dsa-65"
  else if String.eqb alg_oid "2.16.840.1.101.3.4.3.19" then "ml-dsa-87"
  else alg_oid.

(** What is printed about an answer. *)
Inductive QueryReport :=
| Unparsed (body : bytes)
| NoResponseBytes (successful : bool)
| BasicUnparsed (successful : bool)
| BasicAnswer (successful : bool) (algorithm : string) (signature_len : N) (statuses : list CertStatus).

Section query.
Context {CR : Crates} {OC : OcspCrates} {SG : SignCrates} {QC : QueryCrates}.

(** [build_preferred_sig_algs_extension]. *)
Definition build_preferred_sig_algs_extension (prefer_str : string) : result string bytes :=
  alg_ids ← mapM preferred_algorithm (split_commas prefer_str);
  preferred_algs_to_der alg_ids.

(** The CertID asked for. *)
Definition query_certid (issuer_name_der issuer_key_bytes serial_bytes : bytes) : result string CertId :=
  name_hash ← octet_string_new (sha256 issuer_name_der);
  key_hash ← octet_string_new (sha256 issuer_key_bytes);
  serial_number ← map_err (fun _ => "Invalid serial"%string) (serial_number_new serial_bytes);
  Ok (mkCertId sha256_oid (Some NULL_DER) name_hash key_hash serial_number).

(** The DER of the request. *)
Definition query_request (serial_hex issuer_name_b64 issuer_key_b64 : string) (prefer : option string) :
    result string bytes :=
  issuer_name_der ← map_err (fun _ => "Invalid issuer_name_b64"%string) (base64_standard_decode (text issuer_name_b64));
  issuer_key_bytes ← map_err (fun _ => "Invalid issuer_key_b64"%string) (base64_standard_decode (text issuer_key_b64));
  serial_bytes ← map_err (fun _ => "Invalid serial hex"%string) (hex_decode serial_hex);
  cert_id ← query_certid issuer_name_der issuer_key_bytes serial_bytes;
  request_extensions ← match prefer with
    | Some prefer_str =>
        pref_ext_der ← build_preferred_sig_algs_extension prefer_str;
        Ok [mkExtension ID_PREF_SIG_ALGS pref_ext_der]
    | None => Ok []
    end;
  ocsp_request_to_der (mkTbsRequest [cert_id]
    (if bool_decide (length request_extensions = 0%nat) then None else Some request_extensions)).

Definition describe_response (body : bytes) : QueryReport :=
  match ocsp_response_from_der body with
  | Err _ => Unparsed body
  | Ok ocsp_resp =>
      match or_response_bytes ocsp_resp with
      | None => NoResponseBytes (or_successful ocsp_resp)
      | Some resp_bytes =>
          match basic_ocsp_response_from_der (rb_response resp_bytes) with
          | Err _ => BasicUnparsed (or_successful ocsp_resp)
          | Ok basic => BasicAnswer (or_successful ocsp_resp) (algorithm_label (bo_signature_algorithm basic))
              (len (bo_signature basic)) (sr_cert_status <$> rd_responses (bo_tbs_response_data basic))
          end
      end
  end.

(** [ureq::post(..).send(..)]: the status and the body. *)
Variable post : string -> bytes -> io string (N * bytes).

Definition run_query (url serial_hex issuer_name_b64 issuer_key_b64 : string) (prefer : option string) :
    io string (N * QueryReport) :=
  request_der ← io_lift (query_request serial_hex issuer_name_b64 issuer_key_b64 prefer);
  '(status, body) ← post url request_der;
  mret (status, describe_response body).
End query.

(** ** What the server understands *)

Section understood.
Context {CR : Crates} {OC : OcspCrates} {SG : SignCrates} {QC : QueryCrates}.
Context {QS : QueryCratesSpec QC} {SS : SignCratesSpec SG}.

(** The names of the preferences. *)
Definition preference_names (prefer : option string) : list string :=
  match prefer with
  | Some s => (fun a => String.string_of_list_byte (Text.trim a)) <$> split_commas s
  | None => []
  end.

Lemma preferred_algorithm_disc alg x :
  preferred_algorithm alg = Ok x ->
  omap sig_oid_to_discriminator [x.1] = parse_preferred_algs [String.string_of_list_byte (Text.trim alg)].
Proof.
  unfold preferred_algorithm, parse_preferred_algs. cbn [omap list_omap]. intros H.
  repeat match goal with
  | H : context [if String.eqb ?n ?s then _ else _] |- _ => destruct (String.eqb n s); [injection H as <-; reflexivity|]
  end. done.
Qed.

Lemma preferred_algorithms_disc l xs :
  mapM preferred_algorithm l = Ok xs ->
  omap sig_oid_to_discriminator xs.*1 =
  parse_preferred_algs ((fun a => String.string_of_list_byte (Text.trim a)) <$> l).
Proof.
  revert xs. induction l as [|a l IH]; intros xs H; cbn in H; [by inv_ok|].
  apply bind_Ok in H as (x & Hx%preferred_algorithm_disc & (xs' & Hxs%IH & [= <-])%bind_Ok).
  change ((x :: xs').*1) with ([x.1] ++ xs'.*1). rewrite omap_app, Hx, Hxs. cbn [fmap list_fmap].
  unfold parse_preferred_algs. rewrite <- omap_app. done.
Qed.

(** C35: what is asked is what the server understands.  If the command sends a
    request that is not too large, the server parses it as exactly one CertID, the
    SHA-256 form of the given issuer and serial number, without a nonce, with the
    preferences in the order given; and the entry it looks up is the one under
    which a bundle produced for this issuer stores this certificate. *)
Theorem query_understood serial_hex name_b64 key_b64 prefer der :
  query_request serial_hex name_b64 key_b64 prefer = Ok der -> len der <= MAX_REQUEST_SIZE ->
  exists name key serial serial_number cid,
    base64_standard_decode (text name_b64) = Ok name /\ base64_standard_decode (text key_b64) = Ok key /\
    hex_decode serial_hex = Ok serial /\ serial_number_new serial = Ok serial_number /\
    build_certid sha256_oid (sha256 name) (sha256 key) serial_number = Ok cid /\
    forall certid_der, certid_to_der cid = Ok certid_der ->
      certid_key cid = Ok (sha256 certid_der) /\
      parse_ocsp_request der = Ok (mkParsedRequest
        [mkParsedCertId (sha256 certid_der) certid_der (sha256 name) (sha256 key) serial_number sha256_oid]
        None (parse_preferred_algs (preference_names prefer))).
Proof.
  unfold query_request. intros H Hlen.
  apply bind_Ok in H as (name & Hname%map_err_Ok & H). apply bind_Ok in H as (key & Hkey%map_err_Ok & H).
  apply bind_Ok in H as (serial & Hserial%map_err_Ok & H). apply bind_Ok in H as (cid & Hcid & H).
  apply bind_Ok in H as (exts & Hexts & [Hne Hder]%ocsp_request_round).
  unfold query_certid in Hcid. apply bind_Ok in Hcid as (nh & Hnh & Hcid).
  apply bind_Ok in Hcid as (kh & Hkh & Hcid). apply bind_Ok in Hcid as (sn & Hsn%map_err_Ok & [= <-]).
  pose proof (octet_string_new_Ok _ _ Hnh) as ->. pose proof (octet_string_new_Ok _ _ Hkh) as ->.
  exists name, key, serial, sn, (mkCertId sha256_oid (Some NULL_DER) (sha256 name) (sha256 key) sn).
  split_and!; try done. { unfold build_certid, der_of. by rewrite Hnh, Hkh. }
  intros certid_der Hc. split. { unfold certid_key, der_of. by rewrite Hc. }
  unfold parse_ocsp_request. rewrite bool_decide_eq_false_2 by done. rewrite (proj2 (N.leb_le _ _) Hlen), Hder.
  cbn [negb ensure mbind result_bind map_err tr_request_list]. cbn. unfold parse_cert_id. rewrite Hc. cbn.
  destruct prefer as [p|]; cbn [preference_names].
  - apply bind_Ok in Hexts as (ext & Hext & [= <-]). cbn. unfold parse_preferred_sig_algs. cbn.
    rewrite !(bool_decide_eq_false_2 (1%nat = 0%nat)) by done. cbn.
    unfold build_preferred_sig_algs_extension in Hext. apply bind_Ok in Hext as (xs & Hxs & Hext).
    by rewrite (preferred_algs_round _ _ Hext), (preferred_algorithms_disc _ _ Hxs).
  - injection Hexts as <-. reflexivity.
Qed.
End understood.

(** ** Witness *)

Module ToyQuery.
Import ToySign.
#[export, refine] Instance Extension_codec : Codec Extension := {
  to_val e := VArray [to_val (ext_extn_id e); to_val (ext_extn_value e)];
  of_val v := match v with
     | VArray [i; x] => i ← of_val i; x ← of_val x; Some (mkExtension i x)
     | _ => None end }.
Proof. intros e. do 2 (rewrite of_to_val; cbn [mbind option_bind]). by destruct e. Defined.
#[export, refine] Instance Extensions_codec : Codec (list Extension) := {
  to_val := seq_to_val; of_val := seq_of_val }.
Proof. apply seq_codec. Defined.
#[export, refine] Instance TbsRequest_codec : Codec TbsRequest := {
  to_val r := VArray [seq_to_val (tr_request_list r); opt_to_val (tr_request_extensions r)];
  of_val v := match v with
     | VArray [l; e] => l ← seq_of_val l; e ← opt_of_val e; Some (mkTbsRequest l e)
     | _ => None end }.
Proof. intros r. rewrite seq_codec. cbn [mbind option_bind]. rewrite opt_codec. by destruct r. Defined.
#[export, refine] Instance algorithm_codec : Codec (string * option bytes) := {
  to_val x := VArray [to_val x.1; opt_to_val x.2];
  of_val v := match v with
     | VArray [o; p] => o ← of_val o; p ← opt_of_val p; Some (o, p)
     | _ => None end }.
Proof. intros x. rewrite of_to_val. cbn [mbind option_bind]. rewrite opt_codec. by destruct x. Defined.
#[export, refine] Instance algorithms_codec : Codec (list (string * option bytes)) := {
  to_val := seq_to_val; of_val := seq_of_val }.
Proof. apply seq_codec. Defined.

#[export] Instance ocsp : OcspCrates := {
  ocsp_request_from_der := dec;
  certid_to_der c := Ok (enc c);
  octet_string_from_der b := Ok b;
  preferred_algs_from_der b := l ← dec b; Ok (l : list (string * option bytes)).*1;
  percent_decode_utf8 s := Ok s;
  base64_decode s := Ok (String.list_byte_of_string s);
}.
#[export] Instance query : @QueryCrates ocsp := {
  ocsp_request_to_der r := Ok (enc r);
  preferred_algs_to_der l := Ok (enc l);
}.
#[export] Instance query_spec : @QueryCratesSpec ocsp query.
Proof.
  split.
  - intros tbs der [= <-]. split; [done|]. apply codec_dec_enc.
  - intros l der [= <-]. cbn [preferred_algs_from_der ocsp]. by rewrite (codec_dec_enc l).
Qed.

(** Serial number 2a of an issuer, with two preferences. *)
Definition request : result string bytes :=
  @query_request Toy.crates ocsp crates query "2a" "ca" "key" (Some "ml-dsa-87, ecdsa-p256"%string).
End ToyQuery.

Lemma query_understood_witness :
  exists der pr, ToyQuery.request = Ok der /\ @parse_ocsp_request Toy.crates ToyQuery.ocsp der = Ok pr /\
    pr_nonce pr = None /\ pr_preferred_sig_algs pr = [ALG_DISC_ML_DSA_87; ALG_DISC_DEFAULT].
Proof.
  assert (match ToyQuery.request with Ok der => len der <=? MAX_REQUEST_SIZE | Err _ => false end = true) as Hok
    by (vm_compute; reflexivity).
  destruct ToyQuery.request as [der|e] eqn:E; [|discriminate Hok]. unfold ToyQuery.request in E.
  destruct (@query_understood Toy.crates ToyQuery.ocsp ToySign.crates ToyQuery.query ToyQuery.query_spec
    ToySign.crates_spec _ _ _ _ _ E (proj1 (N.leb_le _ _) Hok))
    as (name & key & serial & sn & cid & _ & _ & _ & _ & _ & H).
  destruct (H _ eq_refl) as [_ Hp]. eexists der, _. split; [reflexivity|]. split; [exact Hp|].
  split; [reflexivity|]. vm_compute. reflexivity.
Defined.
