(* ===== verification/Daemon.v ===== *)
(** * Daemon: the signer loop and the offline commands (hoike-cli/src/main.rs)

    The background loop of a signing node: scheduled production, the checks for
    new revocations between the scheduled passes, and the renewal of signing
    material before both; and the commands [import], [init-state] and the bundle
    part of [check].  The loop is a function of the number of times it wakes; keys
    and seeds that are drawn are arguments, by wake and CA.  Main results: the
    responder changes only by complete reloads and never serves an older
    generation than before; material that is expired or does not belong together
    is never signed with; when a scheduled pass takes place; what a failed pass
    does to the detection of new revocations; and that the report of [check] is
    true of the bundles it names. *)

From stdpp Require Import base tactics list gmap strings.
From Stdlib Require Import NArith Lia.
From S2P Require Import Prelude Slices Crates Text AhuError Header Index Manifest Bundle Builder.
From S2P Require Import Verify Ops Seal CoreError Storage State Config Admission Request Router Install.
From S2P Require Import SignError Times SignCrates Source SealDer SealCreate Crl Generate Orchestrate.
From S2P Require Import Handlers Live Gossip GossipNode Sessions AdminApi AhuCli.
Local Open Scope N_scope.

Definition URGENT_POLL_SECS : N := 300.

(** [config.ca.iter().map(..).min().unwrap_or(3600)]. *)
Definition min_interval (c : Config) : N :=
  match ca_batch_interval <$> c_ca c with
  | [] => 3600
  | i :: rest => foldr N.min i rest
  end.

Definition is_urgent (ca : CaConfig) : bool :=
  ca_urgent_revocation ca && bool_decide (is_Some (ca_source ca)).
Definition any_urgent (c : Config) : bool := existsb is_urgent (c_ca c).
Definition poll_interval (c : Config) : N :=
  if any_urgent c then N.min (min_interval c) URGENT_POLL_SECS else min_interval c.

Definition saturating_mul (a b : N) : N := N.min (a * b) (u64_lim - 1).

Section daemon.
Context {CR : Crates} {SC : SealCrates} {JS : Json} {OC : OcspCrates} {SG : SignCrates}.
Context {SM : SealMaking} {GC : GossipCrates} {GN : GossipNet}.
Context {RC : RotationCommand}.
Implicit Types (c : Config) (ca : CaConfig) (st : AdminContext).

(** ** Signing material *)

Definition renew_before ca : N :=
  match ca_key_rotation ca with
  | Some r => saturating_mul (kr_renew_before_days r) 86400
  | None => 7 * 86400
  end.

Definition needs_renewal (status : RotationStatus) : bool :=
  match status with RenewSoon _ | RotationExpired => true | RotationOk _ => false end.

Definition rotation_command ca : option string := kr ← ca_key_rotation ca; kr_rotation_command kr.

(** The part of [prepare_signer_material] about the responder certificate. *)
Definition prepare_certificate ca (cert : bytes) : io string unit :=
  '(status, _) ← failing "rotation check" (check_and_log_rotation (ca_label ca) cert (renew_before ca));
  match (if needs_renewal status then rotation_command ca else None) with
  | Some command => run_rotation_command (ca_label ca) command
  | None => mret tt
  end ;;
  replacement ← load_responder_cert ca;
  replacement ← io_lift (ok_or replacement "responder certificate disappeared"%string);
  parsed ← io_lift (parse_certificate replacement);
  t ← read_clock;
  now ← io_lift (ok_or t "system time before the epoch"%string);
  io_lift (ensure (negb ((now <? to_unix_duration (xc_not_before parsed)) ||
                         (to_unix_duration (xc_not_after parsed) <=? now)))
    "responder certificate is not currently valid after renewal check"%string).

(** [prepare_signer_material]. *)
Definition prepare_signer_material ca : io string unit :=
  cert ← load_responder_cert ca;
  match cert with
  | Some cert => prepare_certificate ca cert
  | None => mret tt
  end ;;
  if String.eqb (ca_nonce_policy ca) "live" then live_from_config ca ;; mret tt else mret tt.

(** ** The loop *)

(** The context, [known_revoked] and [elapsed_since_full]. *)
Record LoopState : Type := mkLoopState {
  ls_context : AdminContext;
  ls_known : gmap string (gset bytes);
  ls_elapsed : N;
}.

(** Seeding and re-baselining of one CA. *)
Definition baseline (sources : PersistentSources) (known : gmap string (gset bytes)) ca :
    io string (gmap string (gset bytes)) :=
  if is_urgent ca then
    r ← io_try (revoked_serials_for_scope ca sources);
    mret match r with Ok set => <[ca_label ca := set]> known | Err _ => known end
  else mret known.

Definition baselines c (sources : PersistentSources) (known : gmap string (gset bytes)) :
    io string (gmap string (gset bytes)) :=
  if any_urgent c then io_fold (baseline sources) known (c_ca c) else mret known.

(** The loop over the CAs before a scheduled production. *)
Definition prepare_ca (s : AdminContext * bool) ca : io string (AdminContext * bool) :=
  let '(st, material_ready) := s in
  r ← io_try (prepare_signer_material ca);
  match r with
  | Ok _ =>
      r ← io_try (reload_live_signer st ca);
      mret match r with Ok st' => (st', material_ready) | Err _ => (st, false) end
  | Err _ => mret (st, false)
  end.

(** Serving and announcing what was produced. *)
Definition serve_produced st (signed : list SignedScope) : io string AdminContext :=
  r ← io_try (reload (ax_responder st));
  mret match r with
       | Err _ => st
       | Ok rs =>
           let st := with_responder st rs in
           with_gossip_node st ((fun g => fold_left (fun g s => announce_bundle_scopes g (sc_bytes s)) signed g)
                                  <$> ax_gossip st)
       end.

(** A scheduled pass. *)
Definition full_pass c (sources : PersistentSources) (ephemeral : string -> P256SigningKey)
    (seed : string -> bytes) st (known : gmap string (gset bytes)) :
    io string (AdminContext * gmap string (gset bytes)) :=
  '(st, material_ready) ← io_fold prepare_ca (st, true) (c_ca c);
  if negb material_ready then mret (st, known) else
  r ← io_try (sign_and_write_all c sources ephemeral seed);
  st ← match r with
       | Ok signed => serve_produced st signed
       | Err _ => mret st
       end;
  known ← baselines c sources known;
  mret (st, known).

(** The explicit notice of an urgent revocation. *)
Definition announce_urgent ca st (signed : SignedScope) : io string AdminContext :=
  match ax_gossip st with
  | None => mret st
  | Some g =>
      let g := announce_bundle_scopes g (sc_bytes signed) in
      r ← io_try (decode_issuer_key ca);
      mret (with_gossip_node st (Some match r with
        | Ok key_bytes =>
            default g (to_option (announce_urgent_revocation g COMBINED_PRODUCER_ID (sha256 key_bytes)
                                    (sc_epoch signed)))
        | Err _ => g
        end))
  end.

(** The production for one CA with new revocations. *)
Definition urgent_production c (sources : PersistentSources) (ephemeral : string -> P256SigningKey)
    (seed : string -> bytes) st (known : gmap string (gset bytes)) ca (current : gset bytes) :
    io string (AdminContext * gmap string (gset bytes)) :=
  r ← io_try (prepare_signer_material ca);
  match r with
  | Err _ => mret (st, known)
  | Ok _ =>
      r ← io_try (reload_live_signer st ca);
      match r with
      | Err _ => mret (st, known)
      | Ok st =>
          r ← io_try (sign_and_write_scope c sources ca (ephemeral (ca_label ca)) (seed (ca_label ca)));
          match r with
          | Err _ => mret (st, known)
          | Ok signed =>
              let known := <[ca_label ca := current]> known in
              r ← io_try (reload (ax_responder st));
              match r with
              | Err _ => mret (st, known)
              | Ok rs => st ← announce_urgent ca (with_responder st rs) signed; mret (st, known)
              end
          end
      end
  end.

(** The body of the loop of [urgent_revocation_pass]. *)
Definition urgent_ca c (sources : PersistentSources) (ephemeral : string -> P256SigningKey)
    (seed : string -> bytes) (s : AdminContext * gmap string (gset bytes)) ca :
    io string (AdminContext * gmap string (gset bytes)) :=
  let '(st, known) := s in
  if negb (is_urgent ca) then mret (st, known) else
  r ← io_try (revoked_serials_for_scope ca sources);
  match r with
  | Err _ => mret (st, known)
  | Ok current =>
      let previous := default ∅ (known !! ca_label ca) in
      let known := <[ca_label ca := previous]> known in
      if bool_decide (current ∖ previous = ∅) then mret (st, known)
      else urgent_production c sources ephemeral seed st known ca current
  end.

Definition urgent_revocation_pass c sources ephemeral seed st known :=
  io_fold (urgent_ca c sources ephemeral seed) (st, known) (c_ca c).

(** One wake of the loop. *)
Definition wake c (sources : PersistentSources) (ephemeral : string -> P256SigningKey)
    (seed : string -> bytes) (ls : LoopState) : io string LoopState :=
  let elapsed := saturating_add (ls_elapsed ls) (poll_interval c) in
  let do_full := min_interval c <=? elapsed in
  if any_urgent c && negb do_full then
    '(st, known) ← urgent_revocation_pass c sources ephemeral seed (ls_context ls) (ls_known ls);
    mret (mkLoopState st known elapsed)
  else if negb do_full then mret (mkLoopState (ls_context ls) (ls_known ls) elapsed)
  else
    '(st, known) ← full_pass c sources ephemeral seed (ls_context ls) (ls_known ls);
    mret (mkLoopState st known 0).

(** [run_signer_loop], for a number of wakes. *)
Fixpoint wakes c (sources : PersistentSources) (ephemeral : nat -> string -> P256SigningKey)
    (seed : nat -> string -> bytes) (n : nat) (ls : LoopState) : io string LoopState :=
  match n with
  | O => mret ls
  | S n => ls ← wake c sources (ephemeral n) (seed n) ls; wakes c sources ephemeral seed n ls
  end.
Definition run_signer_loop c sources ephemeral seed (n : nat) st : io string LoopState :=
  known ← baselines c sources ∅;
  wakes c sources ephemeral seed n (mkLoopState st known 0).

(** ** Offline commands *)

(** [Config::from_file]. *)
Variable load_config : path -> io CoreError Config.

Definition run_import (bundle_path : path) (ca_label : string) (config_path : path) : io string InstallResult :=
  config ← failing "failed to load config" (load_config config_path);
  bytes ← failing "failed to read bundle" (read_file bundle_path);
  guard ← failing "writer lock" (acquire (st_state_db (c_storage config)));
  failing "import failed" (install_bundle config ca_label bytes guard).

Definition run_init_state (config_path : path) : io string StateStore :=
  config ← failing "failed to load config" (load_config config_path);
  guard ← failing "failed to lock state directory" (acquire (st_state_db (c_storage config)));
  failing "failed to initialize state" (initialize (st_state_db (c_storage config) ++ ["state.json"%string])).

(** What [check_bundles] prints. *)
Record CheckReport : Type := mkCheckReport {
  ck_checked : gset path;
  ck_trust : list (path * AdmissionTrust);
  ck_scopes : gset (bytes * bytes);
  ck_entries : N;
  ck_demo : bool;
}.

(** The body of the loop of [check_bundles]; the sum wraps around. *)
Definition check_bundle c (now : N) (r : CheckReport) (p : path) : io CoreError CheckReport :=
  canonical ← io_try (canonicalize p);
  let key := match canonical with Ok q => q | Err _ => p end in
  if bool_decide (key ∈ ck_checked r) then mret r else
  bundle ← from_file p;
  trust ← admit_bundle bundle (c_storage c) now;
  mret (mkCheckReport ({[key]} ∪ ck_checked r) (ck_trust r ++ [(p, trust)])
    (list_to_set ((fun s => (cs_issuer_name_hash s, cs_issuer_key_hash s)) <$> m_ca_scopes (b_manifest bundle))
       ∪ ck_scopes r)
    ((ck_entries r + m_entry_count (b_manifest bundle)) mod u64_lim)
    (ck_demo r || match trust with UnauthenticatedDemo => true | _ => false end)).

Definition check_bundles c (paths : list path) : io CoreError CheckReport :=
  now ← system_time;
  io_fold (check_bundle c now) (mkCheckReport ∅ [] ∅ 0 false) paths.
End daemon.

(** ** What is served *)

Section serving.
Context {CR : Crates} {SC : SealCrates} {JS : Json} {OC : OcspCrates} {SG : SignCrates}.
Context {SM : SealMaking} {GC : GossipCrates} {GN : GossipNet}.
Context {RC : RotationCommand}.
Context {HX : HexSpec} {SH : Sha256Spec} {JSS : JsonSpec}.
Implicit Types (c : Config) (ca : CaConfig) (st : AdminContext).

(** A responder after complete reloads. *)
Inductive reloads : ResponderState -> ResponderState -> Prop :=
| reloads_refl rs : reloads rs rs
| reloads_step rs rs1 rs2 w w' : reloads rs rs1 -> reload rs1 w = (Done rs2, w') -> reloads rs rs2.

Lemma reloads_trans rs1 rs2 rs3 : reloads rs1 rs2 -> reloads rs2 rs3 -> reloads rs1 rs3.
Proof. intros H1 H2. induction H2; [done|]. eapply reloads_step; [|done]. auto. Qed.

Lemma reload_live_responder st ca w st' w' :
  reload_live_signer st ca w = (Done st', w') -> ax_responder st' = ax_responder st.
Proof. unfold reload_live_signer. destruct (negb _); intros H; inv_io; done. Qed.

Lemma serve_produced_reloads st signed w st' w' :
  serve_produced st signed w = (Done st', w') -> reloads (ax_responder st) (ax_responder st').
Proof.
  unfold serve_produced. intros H. inv_io. rename select (io_try _ _ = _) into Ht.
  apply io_try_Done in Ht. destruct v as [rs|e]; [|constructor].
  cbn. eapply reloads_step; [constructor|done].
Qed.

Lemma prepare_ca_responder s ca w s' w' :
  prepare_ca s ca w = (Done s', w') -> ax_responder s'.1 = ax_responder s.1.
Proof.
  destruct s as [st ready]. unfold prepare_ca. intros H. apply io_bind_Done in H as (r & w1 & _ & H).
  destruct r as [u|e]; [|by inv_io]. apply io_bind_Done in H as (r & w2 & Ht & H). inv_io.
  apply io_try_Done in Ht. destruct r as [st'|e]; [|done]. by eapply reload_live_responder.
Qed.

Lemma io_fold_inv_in {E A S} (f : S -> A -> io E S) (P : S -> Prop) l s w s' w' :
  (forall s x w s' w', x ∈ l -> P s -> f s x w = (Done s', w') -> P s') -> P s ->
  io_fold f s l w = (Done s', w') -> P s'.
Proof.
  revert s w. induction l as [|x l IH]; intros s w Hf Hs H; cbn in H; [by apply io_ret_Done in H as [-> _]|].
  apply io_bind_Done in H as (s1 & w1 & H1 & H). eapply IH; [|by eapply Hf; [left|..]|done].
  intros. by eapply Hf; [right|..].
Qed.

Lemma io_fold_inv {E A S} (f : S -> A -> io E S) (P : S -> Prop) l s w s' w' :
  (forall s x w s' w', P s -> f s x w = (Done s', w') -> P s') -> P s ->
  io_fold f s l w = (Done s', w') -> P s'.
Proof. intros Hf. apply io_fold_inv_in. eauto. Qed.

Lemma full_pass_reloads c sources ephemeral seed st known w st' known' w' :
  full_pass c sources ephemeral seed st known w = (Done (st', known'), w') ->
  reloads (ax_responder st) (ax_responder st').
Proof.
  unfold full_pass. intros H. apply io_bind_Done in H as ([st1 ready] & w1 & Hp & H).
  assert (ax_responder st1 = ax_responder st) as <-.
  { change (ax_responder (st1, ready).1 = ax_responder st).
    eapply (io_fold_inv prepare_ca (fun s => ax_responder s.1 = ax_responder st) _ (st, true));
      [|reflexivity|exact Hp].
    intros s ca w0 s' w0' <-. apply prepare_ca_responder. }
  destruct (negb ready). { apply io_ret_Done in H as [[= -> ->] _]. constructor. }
  apply io_bind_Done in H as (r & w2 & _ & H). apply io_bind_Done in H as (st2 & w3 & Hs & H).
  apply io_bind_Done in H as (known2 & w4 & _ & H). apply io_ret_Done in H as [[= -> ->] _].
  destruct r as [signed|e]; [by eapply serve_produced_reloads|]. apply io_ret_Done in Hs as [-> _]. constructor.
Qed.

Lemma announce_urgent_responder ca st signed w st' w' :
  announce_urgent ca st signed w = (Done st', w') -> ax_responder st' = ax_responder st.
Proof. unfold announce_urgent. destruct (ax_gossip st); intros H; inv_io; done. Qed.

Lemma urgent_ca_reloads c sources ephemeral seed s ca w s' w' :
  urgent_ca c sources ephemeral seed s ca w = (Done s', w') ->
  reloads (ax_responder s.1) (ax_responder s'.1).
Proof.
  destruct s as [st known]. unfold urgent_ca. destruct (negb _); [intros H; inv_io; constructor|].
  intros H. apply io_bind_Done in H as (r & w1 & _ & H). destruct r as [current|e]; [|inv_io; constructor].
  case_bool_decide; [inv_io; constructor|]. unfold urgent_production in H.
  apply io_bind_Done in H as (r & w2 & _ & H). destruct r as [u|e]; [|inv_io; constructor].
  apply io_bind_Done in H as (r & w3 & Hl & H). apply io_try_Done in Hl.
  destruct r as [st1|e]; [|inv_io; constructor]. apply reload_live_responder in Hl. cbn [fst]. rewrite <- Hl.
  apply io_bind_Done in H as (r & w4 & _ & H). destruct r as [signed|e]; [|inv_io; constructor].
  apply io_bind_Done in H as (r & w5 & Hr & H). apply io_try_Done in Hr. destruct r as [rs|e]; [|inv_io; constructor].
  apply io_bind_Done in H as (st2 & w6 & Ha & H). apply io_ret_Done in H as [-> _]. cbn [fst].
  rewrite (announce_urgent_responder _ _ _ _ _ _ Ha). eapply reloads_step; [constructor|done].
Qed.

Lemma wake_reloads c sources ephemeral seed ls w ls' w' :
  wake c sources ephemeral seed ls w = (Done ls', w') ->
  reloads (ax_responder (ls_context ls)) (ax_responder (ls_context ls')).
Proof.
  unfold wake. destruct (_ && _); [|destruct (negb _)]; intros H; [|inv_io; constructor|].
  - apply io_bind_Done in H as ([st known] & w1 & H & H'). apply io_ret_Done in H' as [-> _]. cbn [ls_context].
    change st with (st, known).1.
    eapply (io_fold_inv _ (fun s => reloads (ax_responder (ls_context ls)) (ax_responder s.1)) _
      (ls_context ls, ls_known ls)); [|apply reloads_refl|exact H].
    intros s ca w0 s' w0' Hs Hu%urgent_ca_reloads. by eapply reloads_trans.
  - apply io_bind_Done in H as ([st known] & w1 & H%full_pass_reloads & H'). by apply io_ret_Done in H' as [-> _].
Qed.

Lemma wakes_reloads c sources ephemeral seed n ls w ls' w' :
  wakes c sources ephemeral seed n ls w = (Done ls', w') ->
  reloads (ax_responder (ls_context ls)) (ax_responder (ls_context ls')).
Proof.
  revert ls w. induction n as [|n IH]; intros ls w H; cbn in H; [inv_io; constructor|].
  apply io_bind_Done in H as (ls1 & w1 & H1%wake_reloads & H%IH). by eapply reloads_trans.
Qed.

(** Every bundle that is served is in the history that the marks cover. *)
Definition serving (rs : ResponderState) (h : list Bundle) : Prop :=
  state_location (ss_path (rs_state_store rs)) /\ evolves (rs_state_store rs) h /\
  forall b, b ∈ sm_bundles (rs_scope_map rs) -> b ∈ h.

Lemma reload_serving rs w rs' w' h :
  serving rs h -> reload rs w = (Done rs', w') ->
  serving rs' (rev (sm_bundles (rs_scope_map rs')) ++ h).
Proof.
  intros (Hloc & Hev & _) Hr. unfold reload in Hr.
  apply io_bind_Done in Hr as ([map s'] & w1 & Hl & [= <- <-]).
  pose proof (load_scope_map_spec (rs_config rs) (rs_state_store rs) w Hloc) as H.
  unfold io_spec in H. rewrite Hl in H. destruct H as [_ (Hp & Hld & _)].
  split_and!; cbn [rs_state_store rs_scope_map].
  - by rewrite Hp.
  - by apply Hld.
  - intros b Hb. apply elem_of_app. left. by rewrite <- Permutation_rev.
Qed.

(** After at least one reload, all that is served is newer in the history. *)
Lemma reloads_serving rs rs' h :
  serving rs h -> reloads rs rs' ->
  exists h', serving rs' (h' ++ h) /\
    (rs' = rs \/ exists h0, h' = rev (sm_bundles (rs_scope_map rs')) ++ h0).
Proof.
  intros Hs H. induction H as [rs|rs rs1 rs2 w w' H IH Hr]; [exists []; auto|].
  destruct (IH Hs) as (h' & Hs1 & _). exists (rev (sm_bundles (rs_scope_map rs2)) ++ h').
  rewrite <- app_assoc. split; [by eapply reload_serving|]. right. eauto.
Qed.

(** No scope that is served is older than one of the same producer and issuer key in the history. *)
Definition not_older (h : list Bundle) (rs : ResponderState) : Prop :=
  forall b1 b2 scope1 scope2, b1 ∈ h -> b2 ∈ sm_bundles (rs_scope_map rs) ->
    scope1 ∈ m_ca_scopes (b_manifest b1) -> scope2 ∈ m_ca_scopes (b_manifest b2) ->
    m_producer_id (b_manifest b1) = m_producer_id (b_manifest b2) ->
    cs_issuer_key_hash scope1 = cs_issuer_key_hash scope2 -> cs_epoch scope1 <= cs_epoch scope2.

Lemma reloads_not_older rs rs' h :
  serving rs h -> reloads rs rs' ->
  exists h', serving rs' (h' ++ h) /\ history_covered (ss_state (rs_state_store rs')) (h' ++ h) /\
    (rs' = rs \/ not_older h rs').
Proof.
  intros Hs H. destruct (reloads_serving _ _ _ Hs H) as (h' & Hs' & Hcase). exists h'.
  split; [done|]. destruct Hs' as (_ & Hev & _). split; [by apply evolves_covered|].
  destruct Hcase as [?|(h0 & ->)]; [by left|right].
  intros b1 b2 s1 s2 Hb1 Hb2. rewrite Permutation_rev in Hb2. apply list_elem_of_split in Hb2 as (l1 & l2 & E).
  rewrite E, <- !app_assoc in Hev. cbn [app] in Hev.
  intros Hs1 Hs2 Hp Hk. eapply evolves_ordered; try done. apply elem_of_app. right. by apply elem_of_app; right.
Qed.

(** C5: the loop never takes the responder back.  However many times it wakes,
    and whatever fails in between, every bundle that is served at the end was
    accepted by the rollback and continuity checks and is covered by the marks;
    and if anything was reloaded at all, then for every bundle that was served at
    the start, or is in the history, each scope of the same producer and issuer
    key in a bundle served at the end has an epoch at least as high. *)
Theorem signer_loop_never_rolls_back c sources ephemeral seed n st h w ls w' :
  serving (ax_responder st) h ->
  run_signer_loop c sources ephemeral seed n st w = (Done ls, w') ->
  let rs := ax_responder (ls_context ls) in
  exists h', serving rs (h' ++ h) /\ history_covered (ss_state (rs_state_store rs)) (h' ++ h) /\
    (rs = ax_responder st \/ not_older h rs).
Proof.
  intros Hs H. unfold run_signer_loop in H. apply io_bind_Done in H as (known & w1 & _ & H%wakes_reloads).
  by apply reloads_not_older.
Qed.

(** ** Material *)

(** Nothing is signed with material that is out of date.  If the preparation
    of a CA succeeds, then its responder certificate, read again after any renewal
    command ran, is within its validity by the clock at that moment; and if the CA
    signs live, its key was then loaded and belongs to the responder. *)
Theorem prepared_material_current ca w w' :
  prepare_signer_material ca w = (Done tt, w') ->
  (is_Some (ca_responder_cert ca) ->
   exists w1 w2 der cert now rest, load_responder_cert ca w1 = (Done (Some der), w2) /\
     parse_certificate der = Ok cert /\ w_clock w2 = Some now :: rest /\
     to_unix_duration (xc_not_before cert) <= now < to_unix_duration (xc_not_after cert)) /\
  (ca_nonce_policy ca = "live"%string ->
   exists w1 w2 m, load_live_material ca w1 = (Done m, w2) /\ responder_bound (is_demo ca) m (w_clock w1)).
Proof.
  unfold prepare_signer_material. intros H. apply io_bind_Done in H as (cert & w1 & Hc & H).
  apply io_bind_Done in H as ([] & w2 & Hp & H). split.
  - intros Hsome. destruct cert as [cert|].
    2: { unfold load_responder_cert in Hc. destruct (ca_responder_cert ca); [inv_io; done|by destruct Hsome]. }
    unfold prepare_certificate in Hp. apply io_bind_Done in Hp as ([status log] & w3 & _ & Hp).
    apply io_bind_Done in Hp as ([] & w4 & _ & Hp). apply io_bind_Done in Hp as (replacement & w5 & Hr & Hp).
    apply io_bind_Done in Hp as (der & w6 & [->%ok_or_Ok ->]%io_lift_Done & Hp).
    apply io_bind_Done in Hp as (parsed & w7 & [Hpar ->]%io_lift_Done & Hp).
    apply io_bind_Done in Hp as (t & w8 & Ht & Hp).
    apply io_bind_Done in Hp as (now & w9 & [->%ok_or_Ok ->]%io_lift_Done & Hp).
    apply io_lift_Done in Hp as [Hv%ensure_Ok ->]. apply read_clock_Some in Ht.
    apply negb_true_iff, orb_false_iff in Hv as [H1%N.ltb_ge H2%N.leb_gt].
    by exists w4, w5, der, parsed, now, (w_clock w8).
  - intros Hl. rewrite Hl in H. change (String.eqb "live" "live") with true in H. cbv iota in H.
    apply io_bind_Done in H as (live & w3 & Hlive & _). unfold live_from_config in Hlive.
    apply io_bind_Done in Hlive as (m & w4 & Hm & _). apply load_live_material_Done in Hm as Hb.
    exists w2, w4, m. tauto.
Qed.

(** ** When a pass is scheduled *)

Definition div_ceil (a b : N) : N := (a + b - 1) / b.

Lemma min_interval_poll c : poll_interval c <= min_interval c.
Proof. unfold poll_interval. destruct (any_urgent c); lia. Qed.

Lemma wake_elapsed c sources ephemeral seed ls w ls' w' :
  wake c sources ephemeral seed ls w = (Done ls', w') ->
  ls_elapsed ls' = let e := saturating_add (ls_elapsed ls) (poll_interval c) in
                   if min_interval c <=? e then 0 else e.
Proof.
  unfold wake. cbv zeta. destruct (min_interval c <=? _); cbn [negb]; rewrite ?andb_false_r, ?andb_true_r; cbv iota.
  - intros H. apply io_bind_Done in H as ([st known] & w1 & _ & H). by apply io_ret_Done in H as [-> _].
  - destruct (any_urgent c); intros H; [|by apply io_ret_Done in H as [-> _]].
    apply io_bind_Done in H as ([st known] & w1 & _ & H). by apply io_ret_Done in H as [-> _].
Qed.

Lemma div_ceil_bounds m p : 0 < p -> p <= m -> let k := div_ceil m p in 1 <= k /\ p * (k - 1) < m /\ m <= p * k.
Proof.
  intros Hp Hm. unfold div_ceil. pose proof (N.div_mod (m + p - 1) p ltac:(lia)) as H.
  pose proof (N.mod_lt (m + p - 1) p ltac:(lia)) as Hr. revert H Hr.
  generalize ((m + p - 1) mod p), ((m + p - 1) / p). intros r k H Hr.
  assert (1 <= k) by (destruct k; lia). split_and!; [done|nia|nia].
Qed.

(** One wake, in terms of the number of wakes since the last pass. *)
Lemma elapsed_step m p r :
  let k := div_ceil m p in
  0 < p -> p <= m -> m + p < u64_lim -> r < k ->
  (m <= saturating_add (p * r) p <-> r + 1 = k) /\
  (r + 1 <> k -> saturating_add (p * r) p = p * (r + 1)).
Proof.
  intros k Hp Hm Hlim Hr. destruct (div_ceil_bounds m p Hp Hm) as (H1 & H2 & H3). fold k in H1, H2, H3.
  assert (saturating_add (p * r) p = p * (r + 1)) as E.
  { unfold saturating_add. rewrite N.min_l; [lia|]. assert (p * (r + 1) <= p * k) by nia.
    assert (p * k < m + p) by nia. lia. }
  rewrite E. split; [|done]. split; [intros; nia|intros <-; done].
Qed.

Lemma mod_succ n k : 0 < k -> (n + 1) mod k = if n mod k + 1 =? k then 0 else n mod k + 1.
Proof.
  intros Hk. pose proof (N.mod_lt n k ltac:(lia)) as Hlt.
  rewrite <- N.Div0.add_mod_idemp_l. destruct (N.eqb_spec (n mod k + 1) k) as [->|Hne].
  - apply N.Div0.mod_same.
  - apply N.mod_small. revert Hlt Hne. generalize (n mod k). lia.
Qed.

Lemma wakes_elapsed c sources ephemeral seed n j ls w ls' w' :
  let p := poll_interval c in
  let k := div_ceil (min_interval c) p in
  0 < p -> min_interval c + p < u64_lim -> ls_elapsed ls = p * (j mod k) ->
  wakes c sources ephemeral seed n ls w = (Done ls', w') ->
  ls_elapsed ls' = p * ((j + N.of_nat n) mod k).
Proof.
  intros p k Hp Hlim. pose proof (min_interval_poll c) as Hle. fold p in Hle.
  destruct (div_ceil_bounds (min_interval c) p Hp Hle) as (Hk & _). fold k in Hk.
  revert j ls w. induction n as [|n IH]; intros j ls w Hj H; cbn [wakes] in H.
  - apply io_ret_Done in H as [-> _]. by rewrite N.add_0_r.
  - apply io_bind_Done in H as (ls1 & w1 & H1%wake_elapsed & H).
    apply (IH (j + 1)) in H; [by rewrite H; do 2 f_equal; lia|]. rewrite H1, Hj. cbv zeta. fold p.
    destruct (elapsed_step (min_interval c) p (j mod k) Hp Hle Hlim) as [Hfull Hnext].
    { fold k. apply N.mod_lt. lia. }
    fold k in Hfull, Hnext. rewrite mod_succ by lia.
    destruct (N.eqb_spec (j mod k + 1) k) as [E|E].
    + apply Hfull in E. apply N.leb_le in E. rewrite E. lia.
    + rewrite (Hnext E) in *. destruct (N.leb_spec (min_interval c) (p * (j mod k + 1))) as [Hm|]; [|done].
      by apply Hfull in Hm.
Qed.


(** ** New revocations *)

(** The serial numbers that do not trigger a production for a CA. *)
Definition known_of (known : gmap string (gset bytes)) (label : string) : gset bytes :=
  default ∅ (known !! label).

(** A bundle was produced for a CA after a snapshot that shows the serial number revoked. *)
Definition produced_after c (sources : PersistentSources) label (serial : bytes) : Prop :=
  exists ca current w1 w2 ephemeral seed signed w3 w4, ca ∈ c_ca c /\ ca_label ca = label /\
    revoked_serials_for_scope ca sources w1 = (Done current, w2) /\ serial ∈ current /\
    sign_and_write_scope c sources ca ephemeral seed w3 = (Done signed, w4).

Lemma urgent_production_known c sources ephemeral seed st known ca current w s' w' :
  urgent_production c sources ephemeral seed st known ca current w = (Done s', w') ->
  s'.2 = known \/ s'.2 = <[ca_label ca := current]> known /\
    exists e sd signed w3 w4, sign_and_write_scope c sources ca e sd w3 = (Done signed, w4).
Proof.
  unfold urgent_production. intros H. apply io_bind_Done in H as (r & w1 & _ & H).
  destruct r as [u|e]; [|inv_io; by left]. apply io_bind_Done in H as (r & w2 & _ & H).
  destruct r as [st1|e]; [|inv_io; by left]. apply io_bind_Done in H as (r & w3 & Hs & H).
  apply io_try_Done in Hs. destruct r as [signed|e]; [right|inv_io; by left].
  split; [|by eexists _, _, _, _, _]. apply io_bind_Done in H as (r & w4 & _ & H).
  destruct r as [rs|e]; [|by inv_io]. apply io_bind_Done in H as (st2 & w5 & _ & H). by apply io_ret_Done in H as [-> _].
Qed.

Lemma urgent_ca_known c sources ephemeral seed s ca w s' w' :
  ca ∈ c_ca c -> urgent_ca c sources ephemeral seed s ca w = (Done s', w') ->
  forall label serial, serial ∈ known_of s'.2 label ->
    serial ∈ known_of s.2 label \/ produced_after c sources label serial.
Proof.
  intros Hca. destruct s as [st known]. unfold urgent_ca. destruct (negb _); [intros H; inv_io; auto|].
  intros H label serial. apply io_bind_Done in H as (r & w1 & Hr & H). apply io_try_Done in Hr.
  destruct r as [current|e]; [|inv_io; auto]. cbn [snd].
  set (known1 := <[ca_label ca := default ∅ (known !! ca_label ca)]> known) in *.
  assert (known_of known1 label = known_of known label) as E1.
  { unfold known_of, known1. destruct (decide (label = ca_label ca)) as [->|];
      [by rewrite lookup_insert_eq|by rewrite lookup_insert_ne]. }
  case_bool_decide. { apply io_ret_Done in H as [-> _]. cbn [snd]. rewrite E1. auto. }
  apply urgent_production_known in H as [->|[-> (e & sd & signed & w3 & w4 & Hs)]]; [rewrite E1; auto|].
  unfold known_of at 1. destruct (decide (label = ca_label ca)) as [->|Hne].
  - rewrite lookup_insert_eq. intros Hin. right. by eexists ca, current, w, w1, e, sd, signed, w3, w4.
  - rewrite lookup_insert_ne by done. fold (known_of known1 label). rewrite E1. auto.
Qed.

(** Between the scheduled passes no revocation is forgotten.  After a check
    for new revocations, a serial number counts as known for a CA only if it did
    before, or if a bundle was produced for that CA after a snapshot that showed
    it revoked; a failed production leaves it to be tried again at the next wake. *)
Theorem urgent_pass_forgets_nothing c sources ephemeral seed st known w st' known' w' :
  urgent_revocation_pass c sources ephemeral seed st known w = (Done (st', known'), w') ->
  forall label serial, serial ∈ known_of known' label ->
    serial ∈ known_of known label \/ produced_after c sources label serial.
Proof.
  intros H. change known' with (st', known').2.
  eapply (io_fold_inv_in (urgent_ca c sources ephemeral seed) (fun s => forall label serial,
    serial ∈ known_of s.2 label -> serial ∈ known_of known label \/ produced_after c sources label serial)
    _ (st, known)); [|by left|exact H].
  intros s ca w0 s' w0' Hca IH Hu label serial Hin.
  destruct (urgent_ca_known _ _ _ _ _ _ _ _ _ Hca Hu label serial Hin); auto.
Qed.

End serving.

(** ** [check] *)

Section checking.
Context {CR : Crates} {SC : SealCrates} {JS : Json}.
Implicit Types (c : Config).

(** The file at a path holds a bundle that is admitted with this trust. *)
Definition admitted_at c (w : World) (now : N) (p : path) (trust : AdmissionTrust) : Prop :=
  exists file b, w_files w !! p = Some file /\ from_bytes file = Ok b /\
    exists w1, same_files w w1 /\ admitted b (c_storage c) w1 now trust.

(** What the loop has established after a part of the paths. *)
Record check_inv c (w0 : World) (now : N) (r : CheckReport) (w : World) : Prop := {
  ki_files : same_files w0 w;
  ki_trust : Forall (fun '(p, trust) => admitted_at c w0 now p trust) (ck_trust r);
  ki_demo : ck_demo r = false <-> Forall (fun '(_, trust) => trust <> UnauthenticatedDemo) (ck_trust r);
  ki_size : size (ck_checked r) = length (ck_trust r);
}.

Lemma canonicalize_reads p : reads_only (canonicalize p).
Proof. eauto with hoike. Qed.

Lemma check_bundle_inv c w0 now r p w r' w' :
  check_inv c w0 now r w -> check_bundle c now r p w = (Done r', w') -> check_inv c w0 now r' w'.
Proof.
  intros [Hf Ht Hd Hs]. unfold check_bundle. intros H. apply io_bind_Done in H as (cn & w1 & Hc & H).
  apply (reads_Done _ _ _ _ (reads_try (F := CoreError) _ (canonicalize_reads p))) in Hc.
  assert (same_files w0 w1) as Hf1 by (by etrans).
  set (key := match cn with Ok q => q | Err _ => p end) in *. case_bool_decide as Hk.
  { apply io_ret_Done in H as [-> ->]. by split. }
  apply io_bind_Done in H as (b & w2 & [(file & Hfile & Hb) Hf2]%from_file_Done & H).
  apply io_bind_Done in H as (trust & w3 & [Ha Hf3]%admit_bundle_Done & H). apply io_ret_Done in H as [-> ->].
  assert (same_files w0 w2) as Hf02 by (by etrans).
  split; cbn [ck_trust ck_demo ck_checked].
  - by etrans.
  - apply Forall_app. split; [done|]. constructor; [|done]. exists file, b.
    split_and!; [by rewrite <- (sf_files _ _ Hf1)|done|]. by exists w2.
  - rewrite orb_false_iff, Hd, Forall_app. apply and_iff_compat_l.
    rewrite Forall_singleton. by destruct trust.
  - rewrite size_union by set_solver. rewrite size_singleton, length_app, Hs. cbn. lia.
Qed.

(** The report of a check is true.  If checking the configured bundles
    succeeds, nothing was changed, every bundle it lists is in its file and is
    admitted by the trust policy exactly as the server would admit it at that
    time, no file is counted twice, and the closing line claims that all of them
    were authenticated only if none was admitted by the demo exception. *)
Theorem check_report_true c paths w r w' :
  check_bundles c paths w = (Done r, w') ->
  same_files w w' /\ exists now, Some now ∈ w_clock w /\
    Forall (fun '(p, trust) => admitted_at c w now p trust) (ck_trust r) /\
    size (ck_checked r) = length (ck_trust r) /\
    (ck_demo r = false -> Forall (fun '(_, trust) => exists signer, trust = Admission.Authenticated signer) (ck_trust r)).
Proof.
  unfold check_bundles. intros H. apply io_bind_Done in H as (now & w1 & Ht & H).
  unfold system_time in Ht. apply io_bind_Done in Ht as (t & w2 & Hclk & [->%ok_or_Ok ->]%io_lift_Done).
  assert (same_files w w2) as Hs1 by (eapply reads_Done; [apply reads_clock|exact Hclk]).
  apply read_clock_Some in Hclk.
  assert (forall l r0 w0, check_inv c w now r0 w0 -> io_fold (check_bundle c now) r0 l w0 = (Done r, w') ->
    check_inv c w now r w') as Hfold.
  { intros l. induction l as [|p l IH]; intros r0 w0 Hi Hl; cbn in Hl.
    - by apply io_ret_Done in Hl as [-> ->].
    - apply io_bind_Done in Hl as (r1 & w3 & H1 & Hl). eapply IH; [|exact Hl]. by eapply check_bundle_inv. }
  apply Hfold in H as [Hf Htr Hd Hsz]; [|by split; [..|done|done]].
  split; [done|]. exists now. rewrite Hclk. split_and!; [by left|done|done|].
  intros Hn. apply Hd in Hn. eapply Forall_impl; [exact Hn|]. intros [p []]; [eauto|done].
Qed.
End checking.

(** ** Witnesses *)

Module ToyDaemon.
Definition storage : StorageConfig :=
  mkStorageConfig (st_bundle_dir sample_storage) (st_state_db sample_storage) None [] [["seal-cert"%string]] false.
(** A CA whose source is given, with urgent revocation. *)
Definition ca_with (key : path) (nonce_policy : string) (responder : option path) : CaConfig :=
  mkCaConfig "alpha" None nonce_policy "authoritative-complete" None None None false None
    (Some (Config.Crl ["crl"%string] None))
    default_batch_interval default_validity_secs default_jitter_secs "dual"
    default_max_age_fraction 0 true None None default_sig_alg
    (Some (Config.File key)) responder None (Some ["seal-key"%string]) (Some ["seal-cert"%string]).
Definition ca : CaConfig := ca_with ["key"%string] "live" (Some ["responder"%string]).
Definition server : ServerConfig :=
  mkServerConfig "combined" default_listen default_max_request None None None None None None.
Definition config : Config := mkConfig server storage [ca] None.
Definition context : @AdminContext ToyGossip.crates ToyNode.net :=
  mkAdminContext (mkResponderState (mkScopeMap ∅ []) config (mkStateStore state_path default_state false) edge_guard)
    config (Some ToyOrchestrate.sources) None ∅.
Definition world : World := set_clock (replicate 40 (Some 150)) ToyOrchestrate.world.

#[export] Existing Instances Toy.crates ToyMaking.seal_crates ToyJson.json ToySign.ocsp ToySign.crates
  ToyMaking.making ToyGossip.crates ToyNode.net ToyApi.rotation.

(** Twelve wakes of 300 seconds: an hour. *)
Definition hour : outcome string LoopState * World :=
  run_signer_loop config ToyOrchestrate.sources (fun _ _ => x0c) (fun _ _ => []) 12 context world.

(** A source with a revoked certificate. *)
Definition revoking : RevocationSource :=
  mkRevocationSource (fun _ => mret (mkStatusSnapshot {[ [x2a] := Source.Revoked 100 None ]} 100 (Some 90000) ∅))
    (fun _ _ => mret []) false true.
Definition revoking_sources : gmap string RevocationSource := {[ "alpha"%string := revoking ]}.
Definition urgent : outcome string (AdminContext * gmap string (gset bytes)) * World :=
  urgent_revocation_pass config revoking_sources (fun _ => x0c) (fun _ => []) context ∅ world.

(** A CA without a key to sign with. *)
Definition keyless : CaConfig := ca_with ["missing"%string] "ignore" None.
Definition keyless_config : Config := mkConfig server storage [keyless] None.
End ToyDaemon.

Import ToyDaemon.

Lemma signer_loop_never_rolls_back_witness :
  exists ls w', hour = (Done ls, w') /\ length (sm_bundles (rs_scope_map (ax_responder (ls_context ls)))) = 1%nat /\
  exists h', history_covered (ss_state (rs_state_store (ax_responder (ls_context ls)))) (h' ++ []).
Proof.
  assert (match hour.1 with
    | Done ls => length (sm_bundles (rs_scope_map (ax_responder (ls_context ls)))) = 1%nat
    | _ => False end) as Hn by (vm_compute; reflexivity).
  destruct hour as [[ls|e|] w'] eqn:E; [|destruct Hn..]. exists ls, w'. split; [reflexivity|]. split; [exact Hn|].
  assert (serving (ax_responder context) []) as Hs.
  { split; [exact state_path_location|]. split; [exact (@ev_start Toy.crates ToyJson.json state_path)|].
    intros b Hb. exfalso. exact (proj1 (elem_of_nil b) Hb). }
  unfold hour in E. destruct (@signer_loop_never_rolls_back _ _ _ _ _ _ _ _ _
    Toy.hex_spec Toy.sha256_spec ToyJson.json_spec _ _ _ _ _ _ _ _ _ _ Hs E) as (h' & _ & H & _).
  exists h'. exact H.
Defined.

Lemma prepared_material_current_witness :
  exists w1 w2 m, load_live_material ca w1 = (Done m, w2) /\ responder_bound (is_demo ca) m (w_clock w1).
Proof.
  destruct (is_done_inv (prepare_signer_material ca) world) as ([] & w' & E); [vm_compute; reflexivity|].
  apply (prepared_material_current ca world w' E). reflexivity.
Defined.


Lemma urgent_pass_forgets_nothing_witness :
  exists st' known' w', urgent = (Done (st', known'), w') /\ [x2a] ∈ known_of known' "alpha" /\
    produced_after config revoking_sources "alpha" [x2a].
Proof.
  assert (match urgent.1 with Done s => bool_decide ([x2a] ∈ known_of s.2 "alpha") | _ => false end = true) as Hok
    by (vm_compute; reflexivity).
  destruct urgent as [[[st' known']|e|] w'] eqn:E; [|discriminate Hok..]. apply bool_decide_eq_true in Hok.
  exists st', known', w'. split; [reflexivity|]. split; [exact Hok|].
  destruct (urgent_pass_forgets_nothing _ _ _ _ _ _ _ _ _ _ E "alpha" [x2a] Hok) as [H|H]; [|exact H].
  exfalso. revert H. apply not_elem_of_empty.
Defined.

(** What is left of the revoked certificate when nothing could be signed. *)
Definition hidden : bool :=
  match prepare_ca (context, true) keyless world with
  | (Done (st1, true), w1) =>
      match sign_and_write_all keyless_config revoking_sources (fun _ => x0c) (fun _ => []) w1 with
      | (Failed _, w2) =>
          match revoked_serials_for_scope keyless revoking_sources w2 with
          | (Done revoked, _) => bool_decide ([x2a] ∈ revoked)
          | _ => false
          end
      | _ => false
      end
  | _ => false
  end.


Lemma check_report_true_witness :
  exists r w', @check_bundles Toy.crates ToySeal.seal_crates sample_config [ToyCli.bundle_path] ToyCli.world =
    (Done r, w') /\ size (ck_checked r) = 1%nat /\ same_files ToyCli.world w'.
Proof.
  assert (match (@check_bundles Toy.crates ToySeal.seal_crates sample_config [ToyCli.bundle_path] ToyCli.world).1 with
    | Done r => size (ck_checked r) = 1%nat | _ => False end) as Hn by (vm_compute; reflexivity).
  destruct (@check_bundles Toy.crates ToySeal.seal_crates sample_config [ToyCli.bundle_path] ToyCli.world)
    as [[r|e|] w'] eqn:E; [|destruct Hn..].
  exists r, w'. split; [reflexivity|]. split; [exact Hn|].
  exact (proj1 (@check_report_true Toy.crates ToySeal.seal_crates _ _ _ _ _ E)).
Defined.
