(* ===== verification/Startup.v ===== *)
(** * Startup: starting and checking a server (hoike-cli/src/main.rs)

    [run_server] up to the point where it serves, with the polling loop of a node
    that does not sign and the consumer of announcements, and the command
    [check].  Listeners, metrics and logs are left out.  Main results: a server
    starts only from a valid configuration, under its own writer lock, from a
    state that is already there, with current and matching key material, serving
    admitted bundles, with a client for every CA that forwards and the configured
    gossip policy; without a state nothing but the lock file is written; a node
    that polls never rolls back; and a passed check of the channels, with or
    without warnings, means what it prints. *)

From stdpp Require Import base tactics list gmap strings.
From Stdlib Require Import NArith Lia.
From S2P Require Import Prelude Slices Crates Text AhuError Header Index Manifest Bundle Builder.
From S2P Require Import Verify Ops Seal CoreError Storage State Config Admission Request Router Install.
From S2P Require Import SignError Times SignCrates Source SealDer SealCreate Crl Generate Orchestrate.
From S2P Require Import Handlers Live Gossip GossipNode Sessions AdminApi LdapRecord AhuCli Daemon.
Local Open Scope N_scope.

(** The environment variable HOIKE_RELOAD_INTERVAL_SECS. *)
Definition reload_interval (env : option string) : N :=
  default 15 (v ← env; n ← parse_unsigned u64_lim (text v); if 0 <? n then Some n else None).

(** The lines [check_trusted_channels] prints. *)
Inductive ChannelLine :=
| AdminOnOcspPort | AdminPlaintext (addr : string) | AdminTls (addr : string)
| MetricsPlaintext (addr : string) | MetricsTls (addr : string)
| ForwardClientsInvalid
| ForwardHttps (label : string) | ForwardPinned (label : string) | ForwardBundledRoots (label : string)
| ForwardInsecure (label : string) | ForwardCleartext (label : string)
| SyncProtected (label tls : string) | SyncPlaintext (label : string) | SyncTlsInvalid (label : string)
| CutoffWithoutEffect (label : string)
| GossipRequired (peers : N) | GossipPermissive (peers : N) (signing : bool) | GossipInvalid.

(** The lines that set [hard_fail]. *)
Definition hard_fail (l : ChannelLine) : bool :=
  match l with
  | ForwardClientsInvalid | ForwardCleartext _ | SyncTlsInvalid _ | GossipInvalid => true
  | _ => false
  end.
(** The lines that warn about a channel. *)
Definition channel_warning (l : ChannelLine) : bool :=
  match l with
  | AdminOnOcspPort | AdminPlaintext _ | MetricsPlaintext _ | ForwardInsecure _ | SyncPlaintext _ => true
  | _ => false
  end.

(** [hoike_gossip::GossipConfig { .. }] from the section of the file. *)
Definition gossip_config (g : GossipConfigSection) (mode : AuthMode) : GossipConfig :=
  mkGossipConfig true (go_bind g) (go_seeds g) (go_node_name g) mode (go_identity_key g) (go_peer_keys g)
    (go_peer_identities g).

(** [config.gossip.as_ref().filter(|g| g.enabled)]. *)
Definition enabled_gossip (c : Config) : option GossipConfigSection :=
  g ← c_gossip c; if go_enabled g then Some g else None.

Definition admin_lines (c : Config) : list ChannelLine :=
  let has_operators := match sv_admin (c_server c) with
                       | Some a => negb (bool_decide (ad_operators a = []))
                       | None => false
                       end in
  match sv_admin_listen (c_server c), sv_admin_tls (c_server c) with
  | None, _ => if has_operators then [AdminOnOcspPort] else []
  | Some addr, None => [AdminPlaintext addr]
  | Some addr, Some _ => [AdminTls addr]
  end.

Definition metrics_lines (c : Config) : list ChannelLine :=
  match sv_metrics_listen (c_server c), sv_metrics_tls (c_server c) with
  | Some addr, None => [MetricsPlaintext addr]
  | Some addr, Some _ => [MetricsTls addr]
  | None, _ => []
  end.

Definition forward_lines {A} (clients : gmap string A) (ca : CaConfig) : list ChannelLine :=
  match ca_forward_to ca with
  | None => []
  | Some url =>
      if Config.starts_with "https://" url then
        ForwardHttps (ca_label ca) ::
        match ca_forward_ca ca with
        | Some _ => if bool_decide (is_Some (clients !! ca_label ca)) then [ForwardPinned (ca_label ca)] else []
        | None => [ForwardBundledRoots (ca_label ca)]
        end
      else if ca_forward_insecure ca then [ForwardInsecure (ca_label ca)]
      else [ForwardCleartext (ca_label ca)]
  end.

Definition sync_lines (ca : CaConfig) : list ChannelLine :=
  match ca_source ca with
  | Some (DogtagSync _ _ _ bind_password bind_password_env _ _ tls _) =>
      let has_bind_pw := bool_decide (is_Some bind_password) || bool_decide (is_Some bind_password_env) in
      if String.eqb tls "ldaps" || String.eqb tls "starttls" then [SyncProtected (ca_label ca) tls]
      else if String.eqb tls "none" then (if has_bind_pw then [SyncPlaintext (ca_label ca)] else [])
      else [SyncTlsInvalid (ca_label ca)]
  | _ => []
  end.

Definition cutoff_lines (ca : CaConfig) : list ChannelLine :=
  if (0 <? ca_archive_cutoff_secs ca) &&
     negb (match ca_source ca with Some (DogtagSync _ _ _ _ _ _ _ _ _) => true | _ => false end)
  then [CutoffWithoutEffect (ca_label ca)] else [].

(** *** Responder certificates (rotation.rs) *)

Definition ID_EXT_KEY_USAGE : string := "2.5.29.37".

(** [slice.windows(n).any(|w| w == pattern)] for a pattern of [n] bytes. *)
Definition has_window (pattern l : bytes) : bool := Text.contains pattern l.

(** The OCSPSigning purpose, as it is searched for. *)
Definition has_ocsp_signing (extensions : option (list X509Extension)) : bool :=
  match exts ← extensions; List.find (fun ext => String.eqb (xe_extn_id ext) ID_EXT_KEY_USAGE) exts with
  | Some ext =>
      has_window [x2b; x06; x01; x05; x05; x07; x03; x01; x09] (xe_extn_value ext) ||
      has_window [x2b; x06; x01; x05; x05; x07; x03; x09] (xe_extn_value ext)
  | None => false
  end.

Record CertInfo (Nm : Type) : Type := mkCertInfo {
  ct_subject : Nm;
  ct_issuer : Nm;
  ct_not_before : N;
  ct_not_after : N;
  ct_is_expired : bool;
  ct_days_remaining : N;
  ct_has_ocsp_signing_eku : bool;
}.
Arguments mkCertInfo {_} _ _ _ _ _ _ _.
Arguments ct_not_before {_} _.
Arguments ct_not_after {_} _.
Arguments ct_is_expired {_} _.
Arguments ct_days_remaining {_} _.
Arguments ct_has_ocsp_signing_eku {_} _.

(** What [run_check] prints for a CA. *)
Inductive CertLine (Nm : Type) :=
| CertUnreadable | CertUnparsed
| CertExpired (info : CertInfo Nm) | CertExpiresSoon (info : CertInfo Nm) | CertCurrent (info : CertInfo Nm).
Arguments CertUnreadable {_}.
Arguments CertUnparsed {_}.
Arguments CertExpired {_} _.
Arguments CertExpiresSoon {_} _.
Arguments CertCurrent {_} _.

Section startup.
Context {CR : Crates} {SC : SealCrates} {JS : Json} {OC : OcspCrates} {SG : SignCrates}.
Context {SM : SealMaking} {GC : GossipCrates} {GN : GossipNet}.
Context {RC : RotationCommand} {HC : HttpClients}.
Implicit Types (c : Config) (ca : CaConfig).

(** [Config::from_file]. *)
Variable load_config : path -> io CoreError Config.

(** *** The server *)

(** The application state: the part the API changes, and the forwarding clients. *)
Record Started : Type := mkStarted {
  sr_context : AdminContext;
  sr_forward_clients : gmap string (ForwardClient RootCert);
}.

(** A signer for every CA with live nonces. *)
Definition load_live_signers c : io string (gmap string (LiveSignerState OcspSigner)) :=
  io_fold (fun signers ca =>
    if String.eqb (ca_nonce_policy ca) "live"
    then live ← live_from_config ca; mret (<[ca_label ca := live]> signers)
    else mret signers) ∅ (c_ca c).

Definition start_gossip c (rng_seed : N) : io string (option GossipNode) :=
  match enabled_gossip c with
  | None => mret None
  | Some g =>
      mode ← io_lift (map_err (fun _ => "Invalid gossip configuration"%string) (auth_mode_from_str (go_auth_mode g)));
      node ← start (gossip_config g mode) (mkChannel 256 false []) rng_seed;
      mret (Some node)
  end.

(** The initial production of a signing node. *)
Definition initial_production c (ephemeral : string -> P256SigningKey) (seed : string -> bytes) :
    io string (option PersistentSources) :=
  if needs_signing c then
    io_for_each prepare_signer_material (c_ca c) ;;
    sources ← io_lift (create_persistent_sources c);
    sign_and_write_all c sources ephemeral seed ;;
    mret (Some sources)
  else mret None.

(** [run_server] until the listeners start. *)
Definition start_server (tls_supported : bool) (ephemeral : string -> P256SigningKey) (seed : string -> bytes)
    (rng_seed : N) (config_path : path) : io string Started :=
  config ← failing "Failed to load config" (load_config config_path);
  io_lift (map_err (fun _ => "Configuration error"%string) (validate_transport config tls_supported)) ;;
  writer_guard ← failing "Failed to lock state directory" (acquire (st_state_db (c_storage config)));
  failing "State directory validation failed" (open_store (state_file config)) ;;
  sources ← initial_production config ephemeral seed;
  state ← failing "Failed to initialize responder" (load config writer_guard);
  forward_clients ← build_forward_clients config;
  live_signers ← load_live_signers config;
  gossip ← start_gossip config rng_seed;
  mret (mkStarted (mkAdminContext state config sources gossip live_signers) forward_clients).

(** The polling loop of a node that does not sign, for a number of intervals. *)
Fixpoint poll_bundles (n : nat) (state : ResponderState) : io string ResponderState :=
  match n with
  | O => mret state
  | S n =>
      r ← io_try (reload state);
      poll_bundles n match r with Ok state' => state' | Err _ => state end
  end.

(** The consumer of the messages the gossip handler passes on. *)
Definition consume (node : GossipNode) (msg : GossipMessage) : io string GossipNode :=
  match msg with
  | GenerationAnnouncement _ _ _ _ _ _ => record_generation node msg
  | UrgentRevocation _ _ _ _ => mret node
  end.

(** *** [check] *)

Definition gossip_lines c : io string (list ChannelLine) :=
  match enabled_gossip c with
  | None => mret []
  | Some g =>
      auth ← io_try (
        mode ← io_lift (auth_mode_from_str (go_auth_mode g));
        '(signer, _) ← load_authentication (gossip_config g mode);
        mret (mode, signer));
      let peers := N.of_nat (size (go_peer_identities g)) in
      mret match auth with
           | Ok (Required, _) => [GossipRequired peers]
           | Ok (Permissive, signer) => [GossipPermissive peers (bool_decide (is_Some signer))]
           | Err _ => [GossipInvalid]
           end
  end.

Definition check_trusted_channels c : io string (list ChannelLine) :=
  clients ← io_try (build_forward_clients c);
  gossip ← gossip_lines c;
  let lines := admin_lines c ++ metrics_lines c ++
    match clients with Ok _ => [] | Err _ => [ForwardClientsInvalid] end ++
    (c_ca c ≫= forward_lines match clients with Ok m => m | Err _ => ∅ end) ++
    (c_ca c ≫= sync_lines) ++ (c_ca c ≫= cutoff_lines) ++ gossip in
  if existsb hard_fail lines then io_fail "trusted channels"%string else mret lines.

Definition format_cert_info (cert_der : bytes) : io string (CertInfo Name) :=
  cert ← io_lift (map_err (fun _ => "failed to parse certificate"%string) (parse_certificate cert_der));
  let not_before := time_to_epoch (xc_not_before cert) in
  let not_after := time_to_epoch (xc_not_after cert) in
  t ← read_clock;
  let now := default 0 t in
  mret (mkCertInfo (xc_subject cert) (xc_issuer cert) not_before not_after (not_after <=? now)
          (if now <? not_after then (not_after - now) / 86400 else 0) (has_ocsp_signing (xc_extensions cert))).

(** The body of the loop over the responder certificates. *)
Definition check_responder_cert (out : list (string * CertLine Name)) ca :
    io string (list (string * CertLine Name)) :=
  match ca_responder_cert ca with
  | None => mret out
  | Some cert_path =>
      data ← io_try (read_file cert_path);
      line ← match data with
             | Err _ => mret CertUnreadable
             | Ok cert_der =>
                 info ← io_try (format_cert_info cert_der);
                 mret match info with
                      | Err _ => CertUnparsed
                      | Ok info =>
                          if ct_is_expired info then CertExpired info
                          else if ct_days_remaining info <=? 30 then CertExpiresSoon info
                          else CertCurrent info
                      end
             end;
      mret (out ++ [(ca_label ca, line)])
  end.

Definition run_check (tls_supported : bool) (config_path : path) :
    io string (list (string * CertLine Name) * list ChannelLine * CheckReport) :=
  config ← failing "Config: FAIL" (load_config config_path);
  io_lift (map_err (fun _ => "Mode: FAIL"%string) (validate_transport config tls_supported)) ;;
  certs ← io_fold check_responder_cert [] (c_ca config);
  lines ← check_trusted_channels config;
  bundle_paths ← failing "Bundle selection: FAIL" (configured_bundle_paths config);
  report ← failing "Bundle: FAIL" (check_bundles config bundle_paths);
  mret (certs, lines, report).
End startup.

(** ** A started server *)

Section started.
Context {CR : Crates} {SC : SealCrates} {JS : Json} {OC : OcspCrates} {SG : SignCrates}.
Context {SM : SealMaking} {GC : GossipCrates} {GN : GossipNet}.
Context {RC : RotationCommand} {HC : HttpClients}.
Context {HX : HexSpec} {SH : Sha256Spec} {JSS : JsonSpec}.
Implicit Types (c : Config) (ca : CaConfig).

(** The material of a CA was found current when it was prepared. *)
Definition material_current ca : Prop :=
  (is_Some (ca_responder_cert ca) ->
   exists w1 w2 der cert now rest, load_responder_cert ca w1 = (Done (Some der), w2) /\
     parse_certificate der = Ok cert /\ w_clock w2 = Some now :: rest /\
     to_unix_duration (xc_not_before cert) <= now < to_unix_duration (xc_not_after cert)) /\
  (ca_nonce_policy ca = "live"%string ->
   exists w1 w2 m, load_live_material ca w1 = (Done m, w2) /\ responder_bound (is_demo ca) m (w_clock w1)).

(** The live signer of a CA holds the key of its responder. *)
Definition live_signer_of ca (live : LiveSignerState OcspSigner) : Prop :=
  exists m w1 w2, load_live_material ca w1 = (Done m, w2) /\ responder_bound (is_demo ca) m (w_clock w1) /\
    live = mkLiveSignerState (ocsp_signer (EcdsaSigner (lm_key m))) (lm_responder_key_bytes m)
             (ca_validity_secs ca) (lm_responder_cert_der m).

(** What holds of a server that starts. *)
Record ready c (tls_supported : bool) (w : World) (sv : Started) : Prop := {
  rd_transport : transport_valid c tls_supported;
  rd_config : config_valid c;
  rd_writer : exists guard, rs_writer_guard (ax_responder (sr_context sv)) = guard /\ sdl_file guard ∉ w_locks w;
  rd_state : exists json st, w_files w !! state_file c = Some json /\ json_from_str json = Ok st;
  rd_material : needs_signing c = true -> Forall material_current (c_ca c);
  rd_sources : needs_signing c = true <-> is_Some (ax_signer (sr_context sv));
  rd_serving : exists s0 w1 w2, Router.loaded c w1 s0 (rs_scope_map (ax_responder (sr_context sv)))
      (rs_state_store (ax_responder (sr_context sv))) /\
    persisted (rs_state_store (ax_responder (sr_context sv))) w2;
  rd_live ca : ca ∈ c_ca c ->
    if String.eqb (ca_nonce_policy ca) "live"
    then exists live, ax_live_signers (sr_context sv) !! ca_label ca = Some live /\ live_signer_of ca live
    else ax_live_signers (sr_context sv) !! ca_label ca = None;
  rd_forward : exists w1, forall ca, ca ∈ c_ca c -> client_of w1 ca (sr_forward_clients sv !! ca_label ca);
  rd_gossip : match enabled_gossip c, ax_gossip (sr_context sv) with
    | None, None => True
    | Some g, Some node => exists mode w1 v, auth_mode_from_str (go_auth_mode g) = Ok mode /\
        auth_loaded (gossip_config g mode) w1 (gn_signer node) v
    | _, _ => False
    end;
}.

Lemma prepare_all_current l w w' :
  io_for_each prepare_signer_material l w = (Done tt, w') -> Forall material_current l.
Proof.
  revert w. induction l as [|ca l IH]; intros w; cbn; [constructor|].
  intros ([] & w1 & H1%prepared_material_current & H)%io_bind_Done. constructor; [exact H1|by eapply IH].
Qed.

Lemma initial_production_Done c ephemeral seed w sources w' :
  initial_production c ephemeral seed w = (Done sources, w') ->
  (needs_signing c = true -> Forall material_current (c_ca c)) /\ (needs_signing c = true <-> is_Some sources).
Proof.
  unfold initial_production. destruct (needs_signing c); intros H.
  - apply io_bind_Done in H as ([] & w1 & H1%prepare_all_current & H). inv_io. by split.
  - inv_io. split; [done|]. split; [done|by intros [? ?]].
Qed.

(** The signers after a part of the CAs. *)
Definition signers_for (cas : list CaConfig) (signers : gmap string (LiveSignerState OcspSigner)) : Prop :=
  (forall ca, ca ∈ cas -> if String.eqb (ca_nonce_policy ca) "live"
     then exists live, signers !! ca_label ca = Some live /\ live_signer_of ca live
     else signers !! ca_label ca = None) /\
  forall label, is_Some (signers !! label) -> label ∈ ca_label <$> cas.

Lemma live_from_config_Done ca w live w' : live_from_config ca w = (Done live, w') -> live_signer_of ca live.
Proof.
  unfold live_from_config. intros H. apply io_bind_Done in H as (m & w1 & Hm & H). apply io_ret_Done in H as [-> _].
  exists m, w, w1. split_and!; [done| |done]. by eapply load_live_material_Done.
Qed.

Lemma load_live_signers_Done l cas signers w signers' w' :
  NoDup (ca_label <$> cas ++ l) -> signers_for cas signers ->
  io_fold (fun signers ca =>
    if String.eqb (ca_nonce_policy ca) "live"
    then live ← live_from_config ca; mret (<[ca_label ca := live]> signers)
    else mret signers) signers l w = (Done signers', w') ->
  signers_for (cas ++ l) signers'.
Proof.
  revert cas signers w. induction l as [|ca l IH]; intros cas signers w Hnd [Hs Hk] H; cbn [io_fold] in H.
  { apply io_ret_Done in H as [-> _]. by rewrite app_nil_r. }
  rewrite cons_middle, app_assoc in Hnd |- *.
  assert (ca_label ca ∉ ca_label <$> cas) as Hnew.
  { rewrite fmap_app in Hnd. apply NoDup_app in Hnd as (Hnd & _ & _). rewrite fmap_app in Hnd.
    apply NoDup_app in Hnd as (_ & Hd & _). intros Hin. eapply Hd; [exact Hin|by left]. }
  apply io_bind_Done in H as (signers1 & w1 & H1 & H). eapply IH; [done| |exact H]. clear IH H.
  destruct (String.eqb (ca_nonce_policy ca) "live") eqn:E.
  - apply io_bind_Done in H1 as (live & w2 & Hl%live_from_config_Done & H1). apply io_ret_Done in H1 as [-> _].
    split.
    + intros ca' [Hin| ->%list_elem_of_singleton]%elem_of_app.
      * rewrite lookup_insert_ne; [by apply Hs|]. intros E'. apply Hnew. rewrite E'. by apply list_elem_of_fmap_2.
      * rewrite E. exists live. by rewrite lookup_insert_eq.
    + intros label Hl'. rewrite fmap_app. apply elem_of_app.
      destruct (decide (label = ca_label ca)) as [->|Hne]; [right; by left|left].
      rewrite lookup_insert_ne in Hl' by done. by apply Hk.
  - apply io_ret_Done in H1 as [-> _]. split.
    + intros ca' [Hin| ->%list_elem_of_singleton]%elem_of_app; [by apply Hs|]. rewrite E.
      apply eq_None_not_Some. by intros ?%Hk.
    + intros label ?%Hk. rewrite fmap_app. apply elem_of_app. by left.
Qed.

Lemma start_gossip_Done c rng_seed w gossip w' :
  start_gossip c rng_seed w = (Done gossip, w') ->
  match enabled_gossip c, gossip with
  | None, None => True
  | Some g, Some node => exists mode w1 v, auth_mode_from_str (go_auth_mode g) = Ok mode /\
      auth_loaded (gossip_config g mode) w1 (gn_signer node) v
  | _, _ => False
  end.
Proof.
  unfold start_gossip. destruct (enabled_gossip c) as [g|]; intros H; [|by inv_io].
  apply io_bind_Done in H as (mode & w1 & [Hm%map_err_Ok ->]%io_lift_Done & H).
  apply io_bind_Done in H as (node & w2 & Hn & H). apply io_ret_Done in H as [-> _].
  apply start_Done in Hn as (v & Hv & _). by exists mode, w, v.
Qed.

(** *** Before anything is produced *)

(** Every file but a lock file. *)
Definition not_lock (p : path) : Prop := forall d, p <> d ++ [WRITER_LOCK_FILE].

Lemma state_file_not_lock c : not_lock (state_file c).
Proof. intros d H. unfold state_file in H. apply app_inj_tail in H as [_ H]. discriminate H. Qed.

Lemma acquire_files d w p : not_lock p -> w_files (acquire d w).2 !! p = w_files w !! p.
Proof.
  intros Hp. change (io_spec (acquire d) w (fun _ w' => w_files w' !! p = w_files w !! p)).
  unfold acquire. apply io_spec_bind, io_spec_map_err, io_spec_syscall; intros; cbn [fst snd]; [|done..].
  apply io_spec_bind, io_spec_map_err, io_spec_syscall; intros; [|done..].
  destruct (present _ d); cbn [fst snd]; [|done].
  apply io_spec_bind, io_spec_map_err, io_spec_syscall; intros; [|done..].
  match goal with |- match (match ?x with _ => _ end).1 with _ => _ end => destruct x end; cbn [fst snd].
  all: apply io_spec_bind; unfold lock_exclusive; apply io_spec_map_err, io_spec_syscall; intros;
    try (case_decide; cbn [fst snd]); try done.
  all: try apply io_spec_ret; cbn; rewrite ?lookup_insert_ne; try done; intros E; by eapply Hp.
Qed.

Lemma acquire_locked d w : w_resolve w d ++ [WRITER_LOCK_FILE] ∈ w_locks w -> is_done (acquire d w).1 = false.
Proof.
  intros Hd. change (io_spec (acquire d) w (fun o _ => is_done o = false)).
  unfold acquire. apply io_spec_bind, io_spec_map_err, io_spec_syscall; intros; cbn [fst snd]; [|done..].
  apply io_spec_bind, io_spec_map_err, io_spec_syscall; intros; [|done..].
  destruct (present _ d); cbn [fst snd]; [|done].
  apply io_spec_bind, io_spec_map_err, io_spec_syscall; intros; [|done..].
  match goal with |- match (match ?x with _ => _ end).1 with _ => _ end => destruct x end; cbn [fst snd].
  all: apply io_spec_bind; unfold lock_exclusive; apply io_spec_map_err, io_spec_syscall; intros; [|done..].
  all: by rewrite decide_True.
Qed.

(** A command that did not succeed and changed no file but a lock file. *)
Definition excluded {E A} (w0 : World) (r : outcome E A * World) : Prop :=
  is_done r.1 = false /\ forall p, not_lock p -> w_files r.2 !! p = w_files w0 !! p.

Lemma acquire_excluded d w : w_resolve w d ++ [WRITER_LOCK_FILE] ∈ w_locks w -> excluded w (acquire d w).
Proof. intros Hd. split; [by apply acquire_locked|]. intros p Hp. by apply acquire_files. Qed.

Lemma read_file_keeps p w :
  w_files (read_file p w).2 = w_files w /\ w_locks (read_file p w).2 = w_locks w /\
  w_resolve (read_file p w).2 = w_resolve w.
Proof.
  change (io_spec (read_file p) w (fun _ w' => w_files w' = w_files w /\ w_locks w' = w_locks w /\
    w_resolve w' = w_resolve w)).
  apply io_spec_syscall; intros; [|done..]. by destruct (_ !! p).
Qed.

Section server.
Variable load_config : path -> io CoreError Config.


(** A state is never made up.  If the state file of the configuration is not
    there, the server does not start, and every file is as it was, except that the
    lock file of the state directory may have been created. *)
Theorem startup_refuses_missing_state tls_supported ephemeral seed rng_seed config_path w c w0 :
  load_config config_path w = (Done c, w0) -> w_files w0 !! state_file c = None ->
  let '(o, w') := start_server load_config tls_supported ephemeral seed rng_seed config_path w in
  is_done o = false /\ forall p, not_lock p -> w_files w' !! p = w_files w0 !! p.
Proof.
  intros Hc Hn. unfold start_server, failing. cbv [mbind io_bind io_map_err]. rewrite Hc.
  destruct (validate_transport c tls_supported) as [[]|e]; cbn [map_err io_lift]; [|by split].
  cbv [mret io_ret]. pose proof (acquire_files (st_state_db (c_storage c)) w0) as Hf.
  destruct (acquire (st_state_db (c_storage c)) w0) as [[guard|e|] w2]; [|by split..]. cbn [snd] in Hf.
  pose proof (open_store_reads (state_file c) w2) as Hr. unfold io_spec in Hr.
  destruct (open_store (state_file c) w2) as [[s|e|] w3] eqn:Ho; cbn [fst snd] in Hr.
  - apply open_store_Done in Ho as (json & Hj & _). rewrite Hf, Hn in Hj; [done|apply state_file_not_lock].
  - split; [done|]. intros p Hp. rewrite (sf_files _ _ Hr). by apply Hf.
  - split; [done|]. intros p Hp. rewrite (sf_files _ _ Hr). by apply Hf.
Qed.

(** The offline commands never run beside a node: while a writer holds the lock of the state
    directory, [import] and [init-state] fail and change no file, the lock file excepted. *)
Theorem offline_commands_excluded bundle_path label config_path w c w0 :
  load_config config_path w = (Done c, w0) ->
  w_resolve w0 (st_state_db (c_storage c)) ++ [WRITER_LOCK_FILE] ∈ w_locks w0 ->
  excluded w0 (run_import load_config bundle_path label config_path w) /\
  excluded w0 (run_init_state load_config config_path w).
Proof.
  intros Hc Hl. unfold run_import, run_init_state, failing. cbv [mbind io_bind io_map_err]. rewrite Hc. split.
  - pose proof (read_file_keeps bundle_path w0) as (Hf & Hk & Hr).
    destruct (read_file bundle_path w0) as [[b|e|] w1]; cbn [snd] in *; [|split; [done|]; intros; cbn; by rewrite Hf..].
    pose proof (acquire_excluded (st_state_db (c_storage c)) w1 ltac:(congruence)) as [Hd Hx].
    destruct (acquire _ w1) as [[g|e|] w2]; [done|split; [done|]; intros p Hp; rewrite <- Hf; by apply Hx..].
  - pose proof (acquire_excluded (st_state_db (c_storage c)) w0 Hl) as [Hd Hx].
    destruct (acquire _ w0) as [[g|e|] w2]; [done|by split..].
Qed.
End server.

(** *** Polling *)

Lemma poll_bundles_reloads n rs w rs' w' : poll_bundles n rs w = (Done rs', w') -> reloads rs rs'.
Proof.
  revert rs w. induction n as [|n IH]; intros rs w H; cbn [poll_bundles] in H.
  { apply io_ret_Done in H as [-> _]. constructor. }
  apply io_bind_Done in H as (r & w1 & Hr & H%IH). apply io_try_Done in Hr.
  destruct r as [rs1|e]; [|done]. eapply reloads_trans; [|exact H]. eapply reloads_step; [constructor|done].
Qed.

(** A node that polls never rolls back: after any number of intervals, whatever is
    published into its directory meanwhile, it serves what it served before, or
    only bundles admitted by complete reloads, none of which is older than one
    served at the start. *)
Theorem polling_never_rolls_back n rs h w rs' w' :
  serving rs h -> poll_bundles n rs w = (Done rs', w') ->
  exists h', serving rs' (h' ++ h) /\ history_covered (ss_state (rs_state_store rs')) (h' ++ h) /\
    (rs' = rs \/ not_older h rs').
Proof. intros Hs H%poll_bundles_reloads. by apply reloads_not_older. Qed.

End started.

(** ** The check of the channels *)

Section channels.
Context {GC : GossipCrates} {HC : HttpClients}.
Implicit Types (c : Config) (ca : CaConfig).

(** What a passed check of the channels establishes. *)
Record channels_ok c (w : World) (lines : list ChannelLine) : Prop := {
  ch_forward ca url : ca ∈ c_ca c -> ca_forward_to ca = Some url ->
    Config.starts_with "https://" url = true \/ ca_forward_insecure ca = true;
  ch_clients : exists clients : gmap string (ForwardClient RootCert), forall ca, ca ∈ c_ca c -> client_of w ca (clients !! ca_label ca);
  ch_sync ca url base dn pw env cookie filt tls cert : ca ∈ c_ca c ->
    ca_source ca = Some (DogtagSync url base dn pw env cookie filt tls cert) ->
    tls ∈ ["ldaps"; "starttls"; "none"]%string;
  ch_gossip g : enabled_gossip c = Some g -> exists mode signer v,
    auth_mode_from_str (go_auth_mode g) = Ok mode /\ auth_loaded (gossip_config g mode) w signer v;
  ch_quiet : existsb channel_warning lines = false ->
    (forall a, sv_admin (c_server c) = Some a -> ad_operators a <> [] ->
       is_Some (sv_admin_listen (c_server c)) /\ is_Some (sv_admin_tls (c_server c))) /\
    (is_Some (sv_metrics_listen (c_server c)) -> is_Some (sv_metrics_tls (c_server c))) /\
    (forall ca url, ca ∈ c_ca c -> ca_forward_to ca = Some url -> Config.starts_with "https://" url = true) /\
    (forall ca url base dn pw env cookie filt tls cert, ca ∈ c_ca c ->
       ca_source ca = Some (DogtagSync url base dn pw env cookie filt tls cert) ->
       tls = "none"%string -> pw = None /\ env = None);
}.

Lemma existsb_app_false {A} (f : A -> bool) l1 l2 :
  existsb f (l1 ++ l2) = false <-> existsb f l1 = false /\ existsb f l2 = false.
Proof. by rewrite existsb_app, orb_false_iff. Qed.

Lemma existsb_bind_false {A B} (f : B -> bool) (g : A -> list B) l x :
  existsb f (l ≫= g) = false -> x ∈ l -> existsb f (g x) = false.
Proof.
  induction l as [|y l IH]; [by intros _ ?%elem_of_nil|]. cbn [mbind list_bind].
  rewrite existsb_app_false. intros [H1 H2] [->|Hin]%elem_of_cons; auto.
Qed.

Lemma gossip_lines_Done c w lines w' :
  gossip_lines c w = (Done lines, w') -> existsb hard_fail lines = false ->
  same_files w w' /\ forall g, enabled_gossip c = Some g -> exists mode signer v,
    auth_mode_from_str (go_auth_mode g) = Ok mode /\ auth_loaded (gossip_config g mode) w signer v.
Proof.
  unfold gossip_lines. destruct (enabled_gossip c) as [g|]; intros H Hf; [|by inv_io].
  apply io_bind_Done in H as (auth & w1 & Ha & H). apply io_ret_Done in H as [-> ->]. apply io_try_Done in Ha.
  destruct auth as [[mode signer]|e]; [|discriminate Hf].
  apply io_bind_Done in Ha as (m & w2 & [Hm ->]%io_lift_Done & Ha).
  apply io_bind_Done in Ha as ([sg v] & w3 & [Hl Hs]%load_authentication_Done & Ha).
  apply io_ret_Done in Ha as [[= -> ->] ->]. split; [done|]. intros g' [= <-]. by exists m, sg, v.
Qed.

Lemma auth_loaded_same w w1 config signer v :
  same_files w w1 -> auth_loaded config w1 signer v -> auth_loaded config w signer v.
Proof.
  intros Hs [H1 H2 H3 H4 H5 H6 H7]. unfold holds_key in *. rewrite (sf_files _ _ Hs) in *.
  split; try done.
Qed.

Lemma channels_ok_same c w w1 lines : same_files w w1 -> channels_ok c w1 lines -> channels_ok c w lines.
Proof.
  intros Hs [H1 [clients H2] H3 H4 H5]. split; try done.
  - exists clients. intros ca Hin. specialize (H2 ca Hin). unfold client_of, forward_policy in *.
    by rewrite (sf_files _ _ Hs) in H2.
  - intros g Hg. destruct (H4 g Hg) as (mode & signer & v & ? & ?). exists mode, signer, v.
    split; [done|]. by eapply auth_loaded_same.
Qed.

Lemma quiet_admin c a :
  existsb channel_warning (admin_lines c) = false -> sv_admin (c_server c) = Some a -> ad_operators a <> [] ->
  is_Some (sv_admin_listen (c_server c)) /\ is_Some (sv_admin_tls (c_server c)).
Proof.
  unfold admin_lines. intros Hq Ha Ho. rewrite Ha in Hq. rewrite bool_decide_eq_false_2 in Hq by done. cbn [negb] in Hq.
  destruct (sv_admin_listen (c_server c)), (sv_admin_tls (c_server c)); by cbn in Hq.
Qed.

(** A passed check of the channels means what it prints.  If it passes, nothing
    was changed; every CA forwards over https or was explicitly allowed not to, and
    the forwarding clients can be built exactly as the server builds them; every
    directory source names a known protection; and if gossip is enabled, its keys
    and identities load under the configured policy.  If moreover no warning about
    a channel was printed, operators are only served over a TLS listener of their
    own, metrics over TLS, everything is forwarded over https, and no password for
    a directory crosses in cleartext. *)
Theorem checked_channels c w lines w' :
  check_trusted_channels c w = (Done lines, w') -> same_files w w' /\ channels_ok c w lines.
Proof.
  unfold check_trusted_channels. intros H. apply io_bind_Done in H as (clients & w1 & Hcl & H).
  apply io_try_Done in Hcl. apply io_bind_Done in H as (gossip & w2 & Hg & H).
  destruct (existsb hard_fail _) eqn:Hf; [done|]. apply io_ret_Done in H as [Hlines ->].
  rewrite !existsb_app_false in Hf. destruct Hf as (_ & _ & Hfc & Hff & Hfs & _ & Hfg).
  destruct clients as [clients|e]; [|discriminate Hfc]. apply forward_clients_exact in Hcl as (_ & Hs1 & Hcl & _).
  destruct (gossip_lines_Done _ _ _ _ Hg Hfg) as [Hs2 Hgo]. split; [by etrans|]. constructor.
  - intros ca url Hin Hurl. pose proof (existsb_bind_false _ _ _ _ Hff Hin) as Hl. unfold forward_lines in Hl.
    rewrite Hurl in Hl. destruct (Config.starts_with _ _); [by left|right]. by destruct (ca_forward_insecure ca).
  - by exists clients.
  - intros ca ? ? ? ? ? ? ? tls ? Hin Hsrc. pose proof (existsb_bind_false _ _ _ _ Hfs Hin) as Hl.
    unfold sync_lines in Hl. rewrite Hsrc in Hl.
    destruct (String.eqb_spec tls "ldaps") as [->|]; [set_solver|].
    destruct (String.eqb_spec tls "starttls") as [->|]; [set_solver|].
    destruct (String.eqb_spec tls "none") as [->|]; [set_solver|done].
  - intros g Hen. destruct (Hgo g Hen) as (mode & signer & v & Hm & Hv). exists mode, signer, v.
    split; [done|]. by apply (auth_loaded_same w w1).
  - rewrite Hlines, !existsb_app_false. intros (Qa & Qm & _ & Qf & Qs & _ & _). split_and!.
    + intros a. by apply quiet_admin.
    + unfold metrics_lines in Qm. intros [addr Hm]. rewrite Hm in Qm. by destruct (sv_metrics_tls (c_server c)).
    + intros ca url Hin Hurl. pose proof (existsb_bind_false _ _ _ _ Qf Hin) as Hl.
      pose proof (existsb_bind_false _ _ _ _ Hff Hin) as Hl'. unfold forward_lines in Hl, Hl'.
      rewrite Hurl in Hl, Hl'. destruct (Config.starts_with _ _); [done|]. by destruct (ca_forward_insecure ca).
    + intros ca ? ? ? pw env ? ? tls ? Hin Hsrc ->. pose proof (existsb_bind_false _ _ _ _ Qs Hin) as Hl.
      unfold sync_lines in Hl. rewrite Hsrc in Hl. cbn in Hl. destruct pw, env; by cbn in Hl.
Qed.
End channels.

(** ** A passed check *)

Section passed.
Context {CR : Crates} {SC : SealCrates} {JS : Json} {OC : OcspCrates} {SG : SignCrates}.
Context {SM : SealMaking} {GC : GossipCrates} {GN : GossipNet}.
Context {RC : RotationCommand} {HC : HttpClients}.
Implicit Types (c : Config) (ca : CaConfig).

(** What a line about a responder certificate says, by some reading of the clock. *)
Definition cert_line_true (w : World) (label : string) (line : CertLine Name) : Prop :=
  let about P := exists data cert now, parse_certificate data = Ok cert /\
    (exists p, w_files w !! p = Some data) /\ P (time_to_epoch (xc_not_after cert)) now in
  match line with
  | CertUnreadable | CertUnparsed => True
  | CertExpired _ => about (fun not_after now => not_after <= now)
  | CertExpiresSoon _ => about (fun not_after now => now < not_after < now + 31 * 86400)
  | CertCurrent _ => about (fun not_after now => now + 31 * 86400 <= not_after)
  end.

Lemma format_cert_info_Done data w info w' :
  format_cert_info data w = (Done info, w') ->
  same_files w w' /\ exists cert now, parse_certificate data = Ok cert /\
    ct_not_after info = time_to_epoch (xc_not_after cert) /\
    ct_is_expired info = (ct_not_after info <=? now) /\
    ct_days_remaining info = if now <? ct_not_after info then (ct_not_after info - now) / 86400 else 0.
Proof.
  unfold format_cert_info. intros H. apply io_bind_Done in H as (cert & w1 & [Hc%map_err_Ok ->]%io_lift_Done & H).
  apply io_bind_Done in H as (t & w2 & Ht & H). apply io_ret_Done in H as [-> ->].
  split; [eapply reads_Done; [apply reads_clock|exact Ht]|]. by exists cert, (default 0 t).
Qed.

Lemma check_responder_cert_Done out ca w out' w' :
  check_responder_cert out ca w = (Done out', w') ->
  same_files w w' /\
  match ca_responder_cert ca with
  | None => out' = out
  | Some _ => exists line, out' = out ++ [(ca_label ca, line)] /\ cert_line_true w (ca_label ca) line
  end.
Proof.
  unfold check_responder_cert. destruct (ca_responder_cert ca) as [p|]; intros H; [|by inv_io].
  apply io_bind_Done in H as (data & w1 & Hd & H).
  assert (same_files w w1) as Hs1.
  { eapply reads_Done; [|exact Hd]. apply reads_try. eauto with hoike. }
  apply io_try_Done in Hd. apply io_bind_Done in H as (line & w2 & Hl & H). apply io_ret_Done in H as [-> ->].
  destruct data as [data|e]; [|apply io_ret_Done in Hl as [-> ->]; split; [done|by eexists]].
  apply read_file_Done in Hd as [Hf _]. apply io_bind_Done in Hl as (info & w3 & Hi & Hl).
  assert (same_files w1 w3) as Hs3.
  { eapply reads_Done; [|exact Hi]. apply reads_try. unfold format_cert_info. eauto with hoike. }
  apply io_try_Done in Hi. apply io_ret_Done in Hl as [-> ->]. split; [by etrans|]. eexists. split; [done|].
  destruct info as [info|e]; [|done]. apply format_cert_info_Done in Hi as (_ & cert & now & Hc & Hna & He & Hdays).
  rewrite He, Hdays, Hna. destruct (N.leb_spec (time_to_epoch (xc_not_after cert)) now) as [Hle|Hlt].
  - exists data, cert, now. by split_and!; [|exists p|].
  - rewrite (proj2 (N.ltb_lt _ _) Hlt). set (left := time_to_epoch (xc_not_after cert) - now).
    pose proof (N.div_mod' left 86400) as Hdm. pose proof (N.mod_lt left 86400 ltac:(done)) as Hml.
    assert (time_to_epoch (xc_not_after cert) = now + left) as Hna' by (unfold left; lia).
    rewrite Hna' in Hlt. clearbody left. revert Hdm Hml. generalize (left mod 86400), (left / 86400).
    intros secs days Hdm Hml. destruct (N.leb_spec days 30); exists data, cert, now;
      (split_and!; [done|by exists p|..]); rewrite Hna'; lia.
Qed.

Lemma check_responder_certs_Done l out w out' w' :
  io_fold check_responder_cert out l w = (Done out', w') -> same_files w w' /\
  exists lines, out' = out ++ lines /\
    lines.*1 = ca_label <$> List.filter (fun ca => bool_decide (is_Some (ca_responder_cert ca))) l /\
    Forall (fun '(label, line) => cert_line_true w label line) lines.
Proof.
  revert out w. induction l as [|ca l IH]; intros out w H; cbn [io_fold] in H.
  { apply io_ret_Done in H as [-> ->]. split; [done|]. exists []. by rewrite app_nil_r. }
  apply io_bind_Done in H as (out1 & w1 & [Hs1 H1]%check_responder_cert_Done & (Hs & lines & -> & Hl & Ht)%IH).
  split; [by etrans|]. cbn [List.filter].
  assert (Forall (fun '(label, line) => cert_line_true w label line) lines) as Ht'.
  { eapply Forall_impl; [exact Ht|]. intros [label line]. unfold cert_line_true. by rewrite (sf_files _ _ Hs1). }
  destruct (ca_responder_cert ca).
  - destruct H1 as (line & -> & Hline). exists ((ca_label ca, line) :: lines). rewrite <- app_assoc. cbn.
    split; [done|]. rewrite Hl. split; [done|]. by constructor.
  - subst out1. by exists lines.
Qed.

(** A passed check is true in all its parts, and changes nothing: the
    configuration is one the server would accept; the lines about the responder
    certificates, one for each CA that has one, state how long each is still
    valid; the channels are as printed; and every bundle listed is in its file and
    admitted by the trust policy. *)
Theorem passed_check_true (load_config : path -> io CoreError Config) tls config_path w certs lines report w' :
  (forall p, reads_only (load_config p)) ->
  run_check load_config tls config_path w = (Done (certs, lines, report), w') ->
  same_files w w' /\ exists c w1 now, load_config config_path w = (Done c, w1) /\
    transport_valid c tls /\ config_valid c /\
    certs.*1 = ca_label <$> List.filter (fun ca => bool_decide (is_Some (ca_responder_cert ca))) (c_ca c) /\
    Forall (fun '(label, line) => cert_line_true w label line) certs /\ channels_ok c w lines /\
    Forall (fun '(p, trust) => admitted_at c w now p trust) (ck_trust report).
Proof.
  intros Hr H. unfold run_check, failing in H.
  apply io_bind_Done in H as (c & w1 & Hc%io_map_err_Done & H). pose proof (reads_Done _ _ _ _ (Hr _) Hc) as Hs1.
  apply io_bind_Done in H as ([] & w2 & [Hv%map_err_Ok ->]%io_lift_Done & H).
  apply validate_transport_iff in Hv as [Ht Hcv].
  apply io_bind_Done in H as (certs' & w3 & (Hs3 & cl & -> & Hlab & Hcl)%check_responder_certs_Done & H).
  apply io_bind_Done in H as (lines' & w4 & [Hs4 Hch]%checked_channels & H).
  apply io_bind_Done in H as (paths & w5 & Hp%io_map_err_Done & H).
  assert (same_files w4 w5) as Hs5 by (by eapply reads_Done; [apply configured_paths_reads|]).
  apply io_bind_Done in H as (report' & w6 & Hrep%io_map_err_Done & H). apply io_ret_Done in H as [[= -> -> ->] ->].
  apply check_report_true in Hrep as (Hs6 & now & _ & Hadm & _).
  assert (same_files w w3) as Hs03 by (by etrans). assert (same_files w w5) as Hs05 by (by etrans; [|etrans]).
  split; [by etrans|]. exists c, w1, now. split_and!; try done.
  - eapply Forall_impl; [exact Hcl|]. intros [label line]. unfold cert_line_true. by rewrite (sf_files _ _ Hs1).
  - by apply (channels_ok_same _ w w3).
  - eapply Forall_impl; [exact Hadm|]. intros [p trust] (file & b & Hf & Hb & w7 & Hs7 & Ha). exists file, b.
    rewrite (sf_files _ _ Hs05) in Hf. split_and!; [done|done|]. exists w7. split; [by etrans|done].
Qed.
End passed.

(** ** Witnesses *)

Module ToyStartup.
(** A CA that signs from a CRL and forwards what it does not know. *)
Definition ca : CaConfig :=
  mkCaConfig "alpha" None "live" "partial" None None (Some "https://upstream"%string) false None
    (Some (Config.Crl ["crl"%string] (Some ["issuer"%string])))
    default_batch_interval default_validity_secs default_jitter_secs "dual"
    default_max_age_fraction 0 true None None default_sig_alg
    (Some (Config.File ["key"%string])) (Some ["responder"%string]) None (Some ["seal-key"%string])
    (Some ["seal-cert"%string]).
Definition gossip : GossipConfigSection := mkGossipConfigSection true "node" [] "node" "permissive" None [] ∅.
Definition config : Config := mkConfig ToyDaemon.server ToyDaemon.storage [ca] (Some gossip).
Definition load_config (p : path) : io CoreError Config := mret config.
Definition world : World :=
  set_clock (replicate 40 (Some 150)) (put_file ["crl"%string] [x63] (put_file ["issuer"%string] [x04; x05]
    ToyOrchestrate.world)).
Definition stateless_world : World := set_files (delete ["srv"; "state.json"]%string) world.

#[export] Existing Instances Toy.crates ToyMaking.seal_crates ToyJson.json ToySign.ocsp ToySign.crates
  ToyMaking.making ToyGossip.crates ToyNode.net ToyApi.rotation ToyApi.clients.
Definition ephemeral (label : string) : @P256SigningKey _ ToyMaking.making := x0c.
Definition started (w : World) : outcome string Started * World :=
  start_server load_config true ephemeral (fun _ => []) 0 ["hoike.toml"%string] w.
End ToyStartup.
Import ToyStartup.


Lemma startup_refuses_missing_state_witness :
  exists e w', started stateless_world = (Failed e, w') /\ w_files w' !! ["srv"; "state.json"]%string = None.
Proof.
  pose proof (startup_refuses_missing_state load_config true ephemeral (fun _ => []) 0 ["hoike.toml"%string]
    stateless_world config stateless_world eq_refl ltac:(vm_compute; reflexivity)) as H.
  fold (started stateless_world) in H.
  assert (match (started stateless_world).1 with Failed _ => true | _ => false end = true) as Hok
    by (vm_compute; reflexivity).
  destruct (started stateless_world) as [[sv|e|] w']; [discriminate Hok| |discriminate Hok].
  exists e, w'. split; [reflexivity|]. destruct H as [_ H].
  rewrite (H ["srv"; "state.json"]%string (state_file_not_lock config)). vm_compute. reflexivity.
Defined.

Lemma checked_channels_witness :
  exists lines w', check_trusted_channels config world = (Done lines, w') /\ channels_ok config world lines.
Proof.
  destruct (is_done_inv (check_trusted_channels config) world) as (lines & w' & E); [vm_compute; reflexivity|].
  exists lines, w'. split; [exact E|]. exact (proj2 (checked_channels config world lines w' E)).
Defined.

(** While another writer holds the lock, [init-state] is refused. *)
Definition locked_world : World := set_locks (fun ls => ls ∪ {[["srv"%string; WRITER_LOCK_FILE]]}) world.

Lemma offline_commands_excluded_witness :
  excluded locked_world (run_init_state load_config ["hoike.toml"%string] locked_world).
Proof.
  apply (offline_commands_excluded load_config ["b"%string] "alpha" ["hoike.toml"%string] locked_world config
    locked_world); [reflexivity|].
  apply (bool_decide_unpack _). vm_compute. reflexivity.
Defined.
