(* ===== verification/Status.v ===== *)
(** * Status: the read-only views of the admin API (hoike-server/src/admin/status.rs)

    What the API reports about the node, its bundles, certificates, fleet and
    configuration, and the label of a failed load (obs.rs).  The JSON of the
    answers is reduced to its contents.  Main results: the lag the fleet view
    reports is exact; the view of the configuration depends on no secret; and the
    rotation view agrees with the signer loop, up to an overflow. *)

From stdpp Require Import base tactics list gmap strings.
From Stdlib Require Import NArith Lia.
From S2P Require Import Prelude Slices Crates Text AhuError Header Index Manifest Bundle Builder.
From S2P Require Import Verify Ops Seal CoreError Storage State Config Admission Request Router Install.
From S2P Require Import SignError Times SignCrates Source SealDer SealCreate Crl Generate Orchestrate.
From S2P Require Import Handlers Live Gossip GossipNode Sessions AdminApi LdapRecord AhuCli Daemon Startup.
Local Open Scope N_scope.

(** [load_failure_reason]. *)
Definition load_failure_reason (err : CoreError) : string :=
  match err with
  | CoreEpochRollback _ _ _ | EpochJumpTooLarge _ _ _ _ _ => "rollback"
  | CoreForkDetected _ => "fork"
  | CoreBundle _ => "bundle"
  | StateStoreError _ | StateLock _ => "state"
  | CoreIo _ => "io"
  | _ => "other"
  end.

(** [get_status]. *)
Record ServerStatus : Type := mkServerStatus {
  st_mode : string;
  st_listen : string;
  st_uptime_secs : N;
  st_bundle_count : nat;
  st_total_entries : N;
  st_scope_count : nat;
}.

Inductive RotationRow :=
| RotationRowOk (label : string) (expires_in_secs : N)
| RotationRowSoon (label : string) (expires_in_secs : N)
| RotationRowExpired (label : string)
| RotationRowError (label : string).

(** One row of the generations in the fleet view. *)
Record FleetRow : Type := mkFleetRow {
  fr_generation : GenRecord;
  fr_age_secs : N;
  fr_epochs_behind : N;
  fr_stale : bool;
}.

(** The view of the configuration. *)
Record CaView : Type := mkCaView {
  cv_label : string;
  cv_nonce_policy : string;
  cv_completeness : string;
  cv_sig_alg : string;
  cv_batch_interval : N;
  cv_validity_secs : N;
  cv_has_signing_key : bool;
  cv_has_responder_cert : bool;
  cv_has_seal_key : bool;
  cv_source_type : option string;
}.
Record ConfigView : Type := mkConfigView {
  vw_server : string * string * N;
  vw_storage : path * path * option (list path);
  vw_cas : list CaView;
  vw_gossip : option (bool * string * list string * string);
}.

Definition is_some {A} (o : option A) : bool := match o with Some _ => true | None => false end.

Definition ca_view (ca : CaConfig) : CaView :=
  mkCaView (ca_label ca) (ca_nonce_policy ca) (ca_completeness ca) (ca_sig_alg ca) (ca_batch_interval ca)
    (ca_validity_secs ca) (is_some (ca_signing_key ca)) (is_some (ca_responder_cert ca)) (is_some (ca_seal_key ca))
    ((fun s => match s with
               | Config.Crl _ _ => "crl"
               | DogtagSync _ _ _ _ _ _ _ _ _ => "dogtag-sync"
               end%string) <$> ca_source ca).

Definition config_view (c : Config) : ConfigView :=
  mkConfigView (sv_mode (c_server c), sv_listen (c_server c), sv_max_request (c_server c))
    (st_bundle_dir (c_storage c), st_state_db (c_storage c), st_seal_trust_anchors (c_storage c))
    (ca_view <$> c_ca c)
    ((fun g => (go_enabled g, go_bind g, go_seeds g, go_node_name g)) <$> c_gossip c).

(** The loop that finds the highest epoch of each scope. *)
Definition scope_max (gens : list GenRecord) : gmap (string * string) N :=
  fold_left (fun m g =>
    let key := (gr_producer_id g, gr_issuer_key_hash g) in
    let e := default 0 (m !! key) in
    <[key := if e <? gr_epoch g then gr_epoch g else e]> m) gens ∅.

Definition fleet_row (now : N) (maxima : gmap (string * string) N) (g : GenRecord) : FleetRow :=
  let max_epoch := default (gr_epoch g) (maxima !! (gr_producer_id g, gr_issuer_key_hash g)) in
  let epochs_behind := saturating_sub max_epoch (gr_epoch g) in
  mkFleetRow g (saturating_sub now (gr_last_seen_unix g)) epochs_behind (0 <? epochs_behind).

(** [kr.renew_before_days * 86400], which wraps around in a release build. *)
Definition shown_renew_before (ca : CaConfig) : N :=
  match ca_key_rotation ca with
  | Some kr => (kr_renew_before_days kr * 86400) mod u64_lim
  | None => 7 * 86400
  end.

Section views.
Context {CR : Crates} {SC : SealCrates} {JS : Json} {OC : OcspCrates} {SG : SignCrates}.
Context {SM : SealMaking} {GC : GossipCrates} {GN : GossipNet}.
Context {RC : RotationCommand}.
Implicit Types (st : AdminContext) (auth : Authenticated).

Definition get_status st auth (uptime_secs : N) : result Refusal ServerStatus :=
  require_role auth Viewer ;;
  let map := rs_scope_map (ax_responder st) in
  Ok (mkServerStatus (sv_mode (c_server (ax_config st))) (sv_listen (c_server (ax_config st))) uptime_secs
        (bundle_count map) (total_entries map) (scope_count map)).

(** The outer [None] is a panic of the lookup. *)
Definition get_bundles st auth : option (result Refusal (list ScopeDetail * N)) :=
  match require_role auth Viewer with
  | Err e => Some (Err e)
  | Ok _ =>
      scopes ← bundle_scopes (rs_scope_map (ax_responder st));
      Some (Ok (scopes, total_entries (rs_scope_map (ax_responder st))))
  end.

Definition get_bundle_detail st auth (label : string) : option (result Refusal (string * N * string)) :=
  match require_role auth Viewer with
  | Err e => Some (Err e)
  | Ok _ =>
      scopes ← scope_info (rs_scope_map (ax_responder st));
      Some match List.find (fun '(l, _, _) => String.eqb l label) scopes with
           | Some scope => Ok scope
           | None => Err (mkRefusal 404 "CA not found")
           end
  end.

(** The body of the loop of [get_certs]. *)
Definition add_cert_info (certs : list (string * CertInfo Name)) (ca : CaConfig) :
    io string (list (string * CertInfo Name)) :=
  match ca_responder_cert ca with
  | None => mret certs
  | Some cert_path =>
      data ← io_try (read_file cert_path);
      match data with
      | Err _ => mret certs
      | Ok cert_der =>
          info ← io_try (format_cert_info cert_der);
          mret match info with Ok info => certs ++ [(ca_label ca, info)] | Err _ => certs end
      end
  end.
Definition get_certs st auth : io string (result Refusal (list (string * CertInfo Name))) :=
  match require_role auth Viewer with
  | Err e => mret (Err e)
  | Ok _ => certs ← io_fold add_cert_info [] (c_ca (ax_config st)); mret (Ok certs)
  end.

Definition rotation_row (ca : CaConfig) (status : result SignError RotationStatus) : RotationRow :=
  match status with
  | Ok (RotationOk n) => RotationRowOk (ca_label ca) n
  | Ok (RenewSoon n) => RotationRowSoon (ca_label ca) n
  | Ok RotationExpired => RotationRowExpired (ca_label ca)
  | Err _ => RotationRowError (ca_label ca)
  end.
(** The body of the loop of [get_rotation]. *)
Definition add_rotation (statuses : list RotationRow) (ca : CaConfig) : io string (list RotationRow) :=
  match ca_responder_cert ca with
  | None => mret statuses
  | Some cert_path =>
      data ← io_try (read_file cert_path);
      match data with
      | Err _ => mret statuses
      | Ok cert_der =>
          status ← io_try (check_rotation_needed cert_der (shown_renew_before ca));
          mret (statuses ++ [rotation_row ca status])
      end
  end.
Definition get_rotation st auth : io string (result Refusal (list RotationRow)) :=
  match require_role auth Viewer with
  | Err e => mret (Err e)
  | Ok _ => statuses ← io_fold add_rotation [] (c_ca (ax_config st)); mret (Ok statuses)
  end.

(** The fleet as one node sees it: its identity, the members and the generations. *)
Definition FleetView : Type := NodeId SocketAddr * list (MemberInfo SocketAddr) * list FleetRow.

(** The fleet: [None] if no node runs, with the flag [configured]. *)
Definition get_gossip st auth :
    io string (result Refusal (bool * option FleetView) * AdminContext) :=
  match require_role auth Viewer with
  | Err e => mret (Err e, st)
  | Ok _ =>
      match ax_gossip st with
      | None => mret (Ok (is_some (enabled_gossip (ax_config st)), None), st)
      | Some gossip =>
          now ← now_unix;
          let ms := members gossip in
          '(gens, gossip) ← generations gossip;
          mret (Ok (true, Some (gn_identity gossip, ms, fleet_row now (scope_max gens) <$> gens)),
                with_gossip_node st (Some gossip))
      end
  end.

Definition get_config st auth : result Refusal ConfigView :=
  require_role auth Viewer ;;
  Ok (config_view (ax_config st)).

(** [serde_json::from_str::<Value>]. *)
Variable JsonValue : Type.
Variable json_value : bytes -> result string JsonValue.

Inductive StateView := StateJson (v : JsonValue) | StateRaw (contents : bytes) | StateMissing.
Definition get_state st auth : io string (result Refusal StateView) :=
  match require_role auth Viewer with
  | Err e => mret (Err e)
  | Ok _ =>
      data ← io_try (read_file (state_file (ax_config st)));
      mret (Ok match data with
               | Err _ => StateMissing
               | Ok contents =>
                   if negb (utf8_valid contents) then StateMissing else
                   match json_value contents with Ok v => StateJson v | Err _ => StateRaw contents end
               end)
  end.
End views.

(** ** The fleet *)

(** The scope a generation is about. *)
Definition gr_scope (g : GenRecord) : string * string := (gr_producer_id g, gr_issuer_key_hash g).

Definition is_maximum (gens : list GenRecord) (key : string * string) (m : option N) : Prop :=
  match m with
  | Some e => (exists g, g ∈ gens /\ gr_scope g = key /\ gr_epoch g = e) /\
              (forall g, g ∈ gens -> gr_scope g = key -> gr_epoch g <= e)
  | None => forall g, g ∈ gens -> gr_scope g <> key
  end.

Lemma is_maximum_other gens g key m :
  gr_scope g <> key -> is_maximum gens key m -> is_maximum (gens ++ [g]) key m.
Proof.
  intros Hk. destruct m as [e|]; cbn; [intros [(g' & Hin & H1 & H2) Hle]; split|intros Hno].
  - exists g'. rewrite elem_of_app. auto.
  - intros g'' [Hin'| ->%list_elem_of_singleton]%elem_of_app Hs; [by apply Hle|done].
  - intros g'' [Hin'| ->%list_elem_of_singleton]%elem_of_app; [by apply Hno|done].
Qed.

Lemma is_maximum_same gens g m :
  is_maximum gens (gr_scope g) m ->
  is_maximum (gens ++ [g]) (gr_scope g)
    (Some (if default 0 m <? gr_epoch g then gr_epoch g else default 0 m)).
Proof.
  intros Hm. destruct (N.ltb_spec (default 0 m) (gr_epoch g)) as [Hlt|Hge]; cbn; split.
  - exists g. by rewrite elem_of_app, list_elem_of_singleton; auto.
  - intros g'' [Hin'| ->%list_elem_of_singleton]%elem_of_app Hs; [|done].
    destruct m as [e|]; cbn in *; [destruct Hm as [_ Hm]; specialize (Hm _ Hin' Hs); lia|by destruct (Hm g'')].
  - destruct m as [e|]; cbn in *; [destruct Hm as [(g' & ? & ? & ?) _]; exists g'; by rewrite elem_of_app; auto|].
    exists g. rewrite elem_of_app, list_elem_of_singleton. split_and!; [by right|done|lia].
  - intros g'' [Hin'| ->%list_elem_of_singleton]%elem_of_app Hs; [|done].
    destruct m as [e|]; cbn in *; [by apply Hm|by destruct (Hm g'')].
Qed.

Lemma scope_max_spec gens key : is_maximum gens key (scope_max gens !! key).
Proof.
  revert key. induction gens as [|g gens IH] using rev_ind; intros key.
  { unfold scope_max. cbn [fold_left]. rewrite lookup_empty. intros g Hg. by apply elem_of_nil in Hg. }
  unfold scope_max. rewrite fold_left_app. cbn. fold (scope_max gens).
  destruct (decide (gr_scope g = key)) as [<-|Hk].
  - fold (gr_scope g). rewrite lookup_insert_eq. apply is_maximum_same, IH.
  - rewrite lookup_insert_ne by done. by apply is_maximum_other.
Qed.

(** The lag of a row is its distance to the highest epoch any node announced for its scope. *)
Lemma fleet_row_exact now gens g :
  g ∈ gens ->
  let row := fleet_row now (scope_max gens) g in
  exists leader, leader ∈ gens /\ gr_scope leader = gr_scope g /\
    gr_epoch g + fr_epochs_behind row = gr_epoch leader /\
    (forall g', g' ∈ gens -> gr_scope g' = gr_scope g -> gr_epoch g' <= gr_epoch leader) /\
    (fr_stale row = true <-> exists g', g' ∈ gens /\ gr_scope g' = gr_scope g /\ gr_epoch g < gr_epoch g').
Proof.
  intros Hin row. pose proof (scope_max_spec gens (gr_scope g)) as Hm.
  unfold row, fleet_row. fold (gr_scope g). destruct (scope_max gens !! gr_scope g) as [e|]; cbn in *; [|by destruct (Hm g)].
  destruct Hm as [(l & Hl & Hs & <-) Hle]. exists l. unfold saturating_sub. pose proof (Hle g Hin eq_refl).
  split_and!; [done|done|lia|done|]. rewrite N.ltb_lt. split; [intros; exists l; split_and!; [done|done|lia]|].
  intros (g' & Hg' & Hs' & Hlt). specialize (Hle _ Hg' Hs'). lia.
Qed.

Section fleet.
Context {CR : Crates} {SC : SealCrates} {JS : Json} {OC : OcspCrates} {SG : SignCrates}.
Context {SM : SealMaking} {GC : GossipCrates} {GN : GossipNet}.
Context {RC : RotationCommand}.
Implicit Types (st : AdminContext) (auth : Authenticated).

(** The fleet view shows this node first among equals: every row is a record of the table heard
    within the retention period, its lag is exact, each scope has a row that does not lag, and
    this node is a live member. *)
Theorem fleet_view_exact st auth w configured id ms rows st' w' :
  get_gossip st auth w = (Done (Ok (configured, Some (id, ms, rows)), st'), w') ->
  exists node, ax_gossip st = Some node /\ configured = true /\
    (exists m, m ∈ ms /\ mi_is_self m = true /\ mi_name m = ni_name id) /\
    forall row, row ∈ rows ->
      (exists key, gn_generations node !! key = Some (fr_generation row)) /\
      (exists leader, leader ∈ rows /\ fr_stale leader = false /\
         gr_scope (fr_generation leader) = gr_scope (fr_generation row) /\
         gr_epoch (fr_generation row) + fr_epochs_behind row = gr_epoch (fr_generation leader)).
Proof.
  unfold get_gossip. intros H. destruct (require_role auth Viewer); [|by inv_io].
  destruct (ax_gossip st) as [node|]; [|by inv_io].
  unfold generations in H. inv_io. exists node. split_and!; [done|done| |].
  { eexists. split; [apply elem_of_app; right; by apply list_elem_of_singleton|done]. }
  match goal with |- context [retain_recent ?t] => set (gens := (map_to_list (retain_recent t (gn_generations node))).*2) end.
  intros row (g & -> & Hg)%list_elem_of_fmap. cbn. split.
  - apply list_elem_of_fmap in Hg as ([key g'] & -> & Hk%elem_of_map_to_list).
    apply map_lookup_filter_Some in Hk as [Hk _]. by exists key.
  - match goal with |- context [fleet_row ?t] => destruct (fleet_row_exact t gens g Hg) as (l & Hl & Hs & He & Hmax & _) end.
    eexists. split; [apply list_elem_of_fmap; by exists l|]. split; [|split; [exact Hs|exact He]].
    match goal with |- fr_stale ?r = _ => destruct (fr_stale r) eqn:Hst; [exfalso|done] end.
    match type of Hst with context [fleet_row ?t] => destruct (fleet_row_exact t gens l Hl) as (_ & _ & _ & _ & _ & Hiff) end.
    apply Hiff in Hst as (g' & Hg' & Hs' & Hlt).
    pose proof (Hmax g' Hg' ltac:(congruence)). lia.
Qed.

(** ** Rotation *)

(** While the period fits 64 bits, the rotation view judges a certificate by the period the
    signer loop uses. *)
Theorem rotation_view_agrees ca :
  match ca_key_rotation ca with Some kr => kr_renew_before_days kr * 86400 < u64_lim | None => True end ->
  shown_renew_before ca = renew_before ca.
Proof.
  unfold shown_renew_before, renew_before, saturating_mul.
  destruct (ca_key_rotation ca); [|done]. intros H. rewrite N.mod_small by done. unfold u64_lim in *. lia.
Qed.

(** A period past 64 bits wraps around in the view and saturates in the signer loop: the loop
    renews a certificate the view reports as good. *)
Theorem rotation_view_wraps ca kr cert w n w' :
  ca_key_rotation ca = Some kr -> u64_lim <= kr_renew_before_days kr * 86400 -> n < u64_lim ->
  check_rotation_needed cert (shown_renew_before ca) w = (Done (RotationOk n), w') ->
  check_rotation_needed cert (renew_before ca) w = (Done (RenewSoon n), w').
Proof.
  intros Hkr Hbig Hn. assert (renew_before ca = u64_lim - 1) as ->.
  { unfold renew_before, saturating_mul. rewrite Hkr. lia. }
  unfold check_rotation_needed, mbind, io_bind, io_lift, read_clock.
  destruct (map_err SignConfig _) as [crt|]; [|done]. cbn.
  destruct (w_clock w) as [|t ts]; cbn.
  all: destruct (_ <=? _); [done|]; destruct (_ <=? shown_renew_before ca); [done|]; intros [= <- <-].
  all: by rewrite (proj2 (N.leb_le _ _)) by lia.
Qed.
End fleet.

(** ** The configuration *)

(** A configuration with its secrets erased: the signing keys (a key file, the module, slot and
    PIN of a token, the seal key), the rotation commands, the passwords of the directory, the operators and the gossip identity. *)
Definition erase_source (s : SourceConfig) : SourceConfig :=
  match s with
  | Config.Crl p issuer => Config.Crl p issuer
  | DogtagSync url base dn _ _ cookie flt tls ca => DogtagSync url base dn None None cookie flt tls ca
  end.
Definition erase_ca (ca : CaConfig) : CaConfig :=
  mkCaConfig (ca_label ca) (ca_bundle_file ca) (ca_nonce_policy ca) (ca_completeness ca)
    (ca_issuer_name_hash ca) (ca_issuer_key_hash ca) (ca_forward_to ca) (ca_forward_insecure ca)
    (ca_forward_ca ca) (erase_source <$> ca_source ca) (ca_batch_interval ca) (ca_validity_secs ca)
    (ca_jitter_secs ca) (ca_certid_compat ca) (ca_max_age_fraction ca) (ca_archive_cutoff_secs ca)
    (ca_urgent_revocation ca) (ca_issuer_name_der_b64 ca) (ca_issuer_key_bytes_b64 ca) (ca_sig_alg ca)
    ((fun _ => Demo) <$> ca_signing_key ca) (ca_responder_cert ca) None
    ((fun _ => []) <$> ca_seal_key ca) (ca_seal_cert ca).
Definition erase_secrets (c : Config) : Config :=
  let sv := c_server c in
  mkConfig
    (mkServerConfig (sv_mode sv) (sv_listen sv) (sv_max_request sv) None (sv_webui sv)
       (sv_metrics_listen sv) (sv_admin_listen sv) (sv_admin_tls sv) (sv_metrics_tls sv))
    (c_storage c) (erase_ca <$> c_ca c)
    ((fun g => mkGossipConfigSection (go_enabled g) (go_bind g) (go_seeds g) (go_node_name g)
                 (go_auth_mode g) None [] ∅) <$> c_gossip c).

Lemma ca_view_erased ca : ca_view (erase_ca ca) = ca_view ca.
Proof.
  unfold ca_view, erase_ca. cbn.
  by destruct (ca_signing_key ca), (ca_seal_key ca), (ca_source ca) as [[]|].
Qed.

(** The view of the configuration tells nothing about its secrets: configurations that differ
    in them only have the same view. *)
Theorem config_view_hides_secrets c1 c2 : erase_secrets c1 = erase_secrets c2 -> config_view c1 = config_view c2.
Proof.
  assert (forall c, config_view (erase_secrets c) = config_view c) as Hv.
  { intros c. unfold config_view, erase_secrets. cbn.
    rewrite <- list_fmap_compose, (list_fmap_ext _ ca_view) by (intros; apply ca_view_erased).
    by destruct (c_gossip c). }
  intros H. by rewrite <- (Hv c1), H, Hv.
Qed.
