(* ===== verification/Hsm.v ===== *)
(** * Hsm: keys in hardware modules (hoike-sign/src/pkcs11.rs)

    The registry of module contexts, the search for slots and keys, the two
    signers with their adapters, the settings of a CA's token (orchestrate.rs) and
    the loading of live material whose key stays in the module (live.rs).  The
    crate cryptoki and the state of the modules behind it are parameters.  Main
    results: a module is initialized once per process; a signer holds a private
    signing key with the configured attributes; signatures leave in DER form with
    the numbers of the token; and live material is bound to its certificate. *)

From stdpp Require Import base tactics list gmap strings.
From Stdlib Require Import NArith Lia Strings.Byte.
From S2P Require Import Prelude Slices Crates Text AhuError Seal CoreError Storage State Config Request.
From S2P Require Import Calendar SignError Times SignCrates Source SealDer SealCreate Orchestrate LdapRecord.
Local Open Scope N_scope.

(** ** cryptoki *)

Inductive RvError := CryptokiAlreadyInitialized | UserAlreadyLoggedIn | OtherRv (detail : string).

(** The attributes the templates use. *)
Inductive KeyAttribute :=
| AttrPrivateKeyClass
| AttrSign (b : bool)
| AttrMlDsaKeyType
| AttrParameterSet (P : MlDsa)
| AttrLabel (label : bytes)
| AttrId (id : bytes).
#[export] Instance MlDsa_eq_dec : EqDecision MlDsa.
Proof. solve_decision. Defined.
#[export] Instance KeyAttribute_eq_dec : EqDecision KeyAttribute.
Proof. solve_decision. Defined.

Inductive HsmMechanism := MechEcdsa | MechMlDsa.

(** What a call answers, and the modules afterwards. *)
Abbreviation answer H A := (H -> result RvError A * H)%type.

Class Cryptoki := {
  Hsm : Type;
  Pkcs11Ctx : Type;
  Slot : Type;
  HsmSession : Type;
  ObjectHandle : Type;
  slot_id : Slot -> N;
  ck_new : string -> answer Hsm Pkcs11Ctx;
  ck_initialize : Pkcs11Ctx -> answer Hsm unit;
  ck_get_all_slots : Pkcs11Ctx -> answer Hsm (list Slot);
  ck_get_slots_with_initialized_token : Pkcs11Ctx -> answer Hsm (list Slot);
  (** the label in the information about a token *)
  ck_get_token_label : Pkcs11Ctx -> Slot -> answer Hsm bytes;
  (** whether the list of mechanisms has [CKM_ML_DSA] *)
  ck_supports_ml_dsa : Pkcs11Ctx -> Slot -> answer Hsm bool;
  ck_open_ro_session : Pkcs11Ctx -> Slot -> answer Hsm HsmSession;
  ck_login : HsmSession -> string -> answer Hsm unit;
  ck_find_objects : HsmSession -> list KeyAttribute -> answer Hsm (list ObjectHandle);
  ck_sign : HsmSession -> HsmMechanism -> ObjectHandle -> bytes -> answer Hsm bytes;
}.

(** ** The process *)

(** The registry of contexts, whether its lock is poisoned, and the modules. *)
Record Process `{!Cryptoki} : Type := mkProcess {
  pr_registry : gmap string Pkcs11Ctx;
  pr_poisoned : bool;
  pr_hsm : Hsm;
}.
Arguments mkProcess {_}.

Record Pkcs11Config : Type := mkPkcs11Config {
  pk_module_path : string;
  pk_slot_id : option N;
  pk_token_label : option string;
  pk_pin : string;
  pk_key_label : option string;
  pk_key_id : option bytes;
}.

Record Pkcs11Signer `{!Cryptoki} : Type := mkPkcs11Signer {
  ps_ctx : Pkcs11Ctx;
  ps_session : HsmSession;
  ps_key_handle : ObjectHandle;
}.
Arguments mkPkcs11Signer {_}.

Record Pkcs11MlDsaSigner `{!Cryptoki} : Type := mkPkcs11MlDsaSigner {
  pm_ctx : Pkcs11Ctx;
  pm_session : HsmSession;
  pm_key_handle : ObjectHandle;
  pm_sig_alg_oid : string;
}.
Arguments mkPkcs11MlDsaSigner {_}.

(** Calls that may fail and change the process. *)
Definition hsm `{!Cryptoki} (E A : Type) : Type := Process -> result E A * Process.
#[export] Instance hsm_ret `{!Cryptoki} {E} : MRet (hsm E) := fun A a p => (Ok a, p).
#[export] Instance hsm_bind `{!Cryptoki} {E} : MBind (hsm E) := fun A B f m p =>
  match m p with (Ok a, p) => f a p | (Err e, p) => (Err e, p) end.

Section pkcs11.
Context {CK : Cryptoki}.
Implicit Types (config : Pkcs11Config) (session : HsmSession) (p : Process).

Definition hsm_lift {E A} (r : result E A) : hsm E A := fun p => (r, p).
Definition hsm_map_err {E F A} (f : E -> F) (m : hsm E A) : hsm F A := fun p =>
  let '(r, p) := m p in (map_err f r, p).
Definition hsm_try {E F A} (m : hsm E A) : hsm F (result E A) := fun p =>
  let '(r, p) := m p in (Ok r, p).
(** A call into the module. *)
Definition call {A} (f : answer Hsm A) : hsm RvError A := fun p =>
  let '(r, h) := f (pr_hsm p) in (r, mkProcess (pr_registry p) (pr_poisoned p) h).
Definition calling {A} (what : string) (f : answer Hsm A) : hsm SignError A :=
  hsm_map_err (fun _ => SignPkcs11 what) (call f).
(** A call of which one error is taken for success: [Err(e) if ..] and [or_else]. *)
Definition tolerating (ok_error : RvError -> bool) (what : string) (f : answer Hsm unit) : hsm SignError unit :=
  r ← hsm_try (call f);
  match r with
  | Ok _ => mret tt
  | Err e => hsm_lift (ensure (ok_error e) (SignPkcs11 what))
  end.

Definition register (module_path : string) (ctx : Pkcs11Ctx) : hsm SignError unit := fun p =>
  (Ok tt, mkProcess (<[module_path := ctx]> (pr_registry p)) (pr_poisoned p) (pr_hsm p)).
Definition get_registry : hsm SignError (gmap string Pkcs11Ctx) := fun p =>
  if pr_poisoned p then (Err (SignPkcs11 "PKCS#11 context registry lock poisoned"), p) else (Ok (pr_registry p), p).

Definition shared_context (module_path : string) : hsm SignError Pkcs11Ctx :=
  map ← get_registry;
  match map !! module_path with
  | Some ctx => mret ctx
  | None =>
      ctx ← calling "load module" (ck_new module_path);
      tolerating (fun e => match e with CryptokiAlreadyInitialized => true | _ => false end) "initialize"
        (ck_initialize ctx) ;;
      register module_path ctx ;;
      mret ctx
  end.

(** The loop over the slots with a token. *)
Fixpoint slot_with_label (ctx : Pkcs11Ctx) (label : string) (slots : list Slot) : hsm SignError Slot :=
  match slots with
  | [] => hsm_lift (Err (SignPkcs11 "token not found"))
  | slot :: slots =>
      info ← hsm_try (call (ck_get_token_label ctx slot));
      match info with
      | Ok l => if bool_decide (trim l = text label) then mret slot else slot_with_label ctx label slots
      | Err _ => slot_with_label ctx label slots
      end
  end.

Definition find_slot (ctx : Pkcs11Ctx) config : hsm SignError Slot :=
  match pk_slot_id config with
  | Some id =>
      slots ← calling "get slots" (ck_get_all_slots ctx);
      hsm_lift (ok_or (List.find (fun s => slot_id s =? id) slots) (SignPkcs11 "slot not found"))
  | None =>
      match pk_token_label config with
      | Some label =>
          slots ← calling "get slots" (ck_get_slots_with_initialized_token ctx);
          slot_with_label ctx label slots
      | None => hsm_lift (Err (SignPkcs11 "neither slot_id nor token_label specified"))
      end
  end.

(** The attributes of the configured key. *)
Definition key_filters config : list KeyAttribute :=
  option_list ((fun l => AttrLabel (text l)) <$> pk_key_label config) ++ option_list (AttrId <$> pk_key_id config).

(** The common part of [find_key] and [find_ml_dsa_key]. *)
Definition find_with (fixed : list KeyAttribute) session config : hsm SignError ObjectHandle :=
  match pk_key_label config, pk_key_id config with
  | None, None => hsm_lift (Err (SignPkcs11 "PKCS#11 config must specify key_label or key_id"))
  | _, _ =>
      handles ← calling "find key" (ck_find_objects session (fixed ++ key_filters config));
      hsm_lift (ok_or (head handles) (SignPkcs11 "no signing key found"))
  end.

Definition find_key session config : hsm SignError ObjectHandle :=
  find_with [AttrPrivateKeyClass; AttrSign true] session config.
Definition find_ml_dsa_key session config (parameter_set : MlDsa) : hsm SignError ObjectHandle :=
  find_with [AttrPrivateKeyClass; AttrSign true; AttrMlDsaKeyType; AttrParameterSet parameter_set] session config.

Definition login session (pin : string) : hsm SignError unit :=
  tolerating (fun e => match e with UserAlreadyLoggedIn => true | _ => false end) "login" (ck_login session pin).

(** [Pkcs11Signer::new]. *)
Definition Pkcs11Signer_new config : hsm SignError Pkcs11Signer :=
  ctx ← shared_context (pk_module_path config);
  slot ← find_slot ctx config;
  session ← calling "open session" (ck_open_ro_session ctx slot);
  login session (pk_pin config) ;;
  key_handle ← find_key session config;
  mret (mkPkcs11Signer ctx session key_handle).

Definition sign_prehash (signer : Pkcs11Signer) (hash : bytes) : hsm SignError bytes :=
  calling "sign" (ck_sign (ps_session signer) MechEcdsa (ps_key_handle signer) hash).

(** [Pkcs11MlDsaSigner::new]. *)
Definition Pkcs11MlDsaSigner_new config (parameter_set : MlDsa) (sig_alg_oid : string) :
    hsm SignError Pkcs11MlDsaSigner :=
  ctx ← shared_context (pk_module_path config);
  slot ← find_slot ctx config;
  supported ← calling "get mechanism list" (ck_supports_ml_dsa ctx slot);
  hsm_lift (ensure supported (SignPkcs11 "token does not support CKM_ML_DSA")) ;;
  session ← calling "open session" (ck_open_ro_session ctx slot);
  login session (pk_pin config) ;;
  key_handle ← find_ml_dsa_key session config parameter_set;
  mret (mkPkcs11MlDsaSigner ctx session key_handle sig_alg_oid).

Definition sign_message (signer : Pkcs11MlDsaSigner) (msg : bytes) : hsm SignError bytes :=
  calling "ML-DSA sign" (ck_sign (pm_session signer) MechMlDsa (pm_key_handle signer) msg).

(** The adapter [Pkcs11MlDsaSignerBridge]: [try_sign] and the identifier of the algorithm. *)
Definition ml_bridge_try_sign (signer : Pkcs11MlDsaSigner) (msg : bytes) : hsm SignError bytes :=
  sign_message signer msg.
Definition ml_bridge_algorithm (signer : Pkcs11MlDsaSigner) : string * option bytes :=
  (pm_sig_alg_oid signer, None).
End pkcs11.

(** [raw_ecdsa_to_der]; [encode_integer] is the function of the same name in seal.rs. *)
Definition raw_ecdsa_to_der (raw : bytes) : result string bytes :=
  if negb (len raw =? 64) then Err "expected 64-byte raw ECDSA signature for P-256"%string else
  let r_enc := encode_integer (take 32 raw) in
  let s_enc := encode_integer (drop 32 raw) in
  let seq_len := len r_enc + len s_enc in
  Ok ([x30] ++ (if seq_len <? 128 then [u8 seq_len] else [x81; u8 seq_len]) ++ r_enc ++ s_enc).

(** The adapter [Pkcs11SignerBridge]. *)
Definition bridge_try_sign {CR : Crates} {CK : Cryptoki} (signer : Pkcs11Signer) (msg : bytes) :
    hsm SignError bytes :=
  raw_sig ← sign_prehash signer (sha256 msg);
  hsm_lift (map_err (fun _ => Signing "raw ECDSA to DER") (raw_ecdsa_to_der raw_sig)).
Definition bridge_algorithm : string * option bytes := ("1.2.840.10045.4.3.2"%string, None).

(** ** The settings of a CA's token (orchestrate.rs) *)

(** [env] is [std::env::var(..).ok()]. *)
Definition resolve_pkcs11_pin_noninteractive (env : string -> option string) (pin pin_env : option string) :
    result string string :=
  match pin, pin_env with
  | Some p, _ => Ok p
  | None, Some env_var => ok_or (env env_var) "PKCS#11 pin_env is not set in environment"%string
  | None, None => Err "PKCS#11 PIN required"%string
  end.

Definition resolve_pkcs11_config {CR : Crates} (env : string -> option string) (ca_config : CaConfig) :
    result string Pkcs11Config :=
  match ca_signing_key ca_config with
  | Some (Pkcs11 module_ token_label slot_id pin pin_env key_label key_id) =>
      resolved_pin ← resolve_pkcs11_pin_noninteractive env pin pin_env;
      key_id ← match key_id with
               | None => Ok None
               | Some h => Some <$> map_err (fun _ => "invalid hex in key_id"%string) (hex_decode h)
               end;
      Ok (mkPkcs11Config module_ slot_id token_label resolved_pin key_label key_id)
  | _ => Err "not a PKCS#11 signing key config"%string
  end.

Definition ml_dsa_pkcs11_params {SC : SealCrates} {SM : SealMaking} (sig_alg : string) :
    result string (MlDsa * string) :=
  if String.eqb sig_alg "ml-dsa-44" then Ok (MlDsa44, ml_dsa_oid MlDsa44)
  else if String.eqb sig_alg "ml-dsa-65" then Ok (MlDsa65, ml_dsa_oid MlDsa65)
  else if String.eqb sig_alg "ml-dsa-87" then Ok (MlDsa87, ml_dsa_oid MlDsa87)
  else Err "unknown ML-DSA variant for PKCS#11"%string.

(** ** Live material (live.rs), with the feature on *)

Section live_hsm.
Context {CR : Crates} {SC : SealCrates} {JS : Json} {OC : OcspCrates} {SG : SignCrates}.
Context {SM : SealMaking} {CK : Cryptoki}.
Implicit Types (ca : CaConfig) (w : World) (p : Process).

Inductive LiveSignerKey := Software (key : P256SigningKey) | HsmKey (signer : Pkcs11Signer).

Definition live_verifying_key (k : LiveSignerKey) : option P256Key :=
  match k with Software key => Some (p256_verifying_key key) | HsmKey _ => None end.

Definition live_try_sign (k : LiveSignerKey) (msg : bytes) : hsm string bytes :=
  match k with
  | Software key => hsm_lift (p256_try_sign key msg)
  | HsmKey signer => hsm_map_err (fun _ => "HSM"%string) (bridge_try_sign signer msg)
  end.

Definition PREFLIGHT_MESSAGE : bytes := text "hoike live-signing material preflight".

Definition verify_hsm_key_matches (k : LiveSignerKey) (public_key : P256Key) : hsm string unit :=
  signature ← hsm_map_err (fun _ => "HSM preflight signing failed"%string) (live_try_sign k PREFLIGHT_MESSAGE);
  der_signature ← hsm_lift (map_err (fun _ => "HSM preflight signature parse"%string)
                              (p256_signature_from_bytes signature));
  hsm_lift (ensure (p256_verify_prehash public_key (sha256 PREFLIGHT_MESSAGE) der_signature)
              "live signing key does not match responder certificate"%string).

(** Files, the clock and the modules together. *)
Definition live (A : Type) : Type := World * Process -> outcome string A * (World * Process).
#[export] Instance live_ret : MRet live := fun A a s => (Done a, s).
#[export] Instance live_bind : MBind live := fun A B f m s =>
  match m s with
  | (Done a, s) => f a s
  | (Failed e, s) => (Failed e, s)
  | (Crashed, s) => (Crashed, s)
  end.
Definition of_io {A} (m : io string A) : live A := fun '(w, p) => let '(o, w) := m w in (o, (w, p)).
Definition of_hsm {A} (m : hsm string A) : live A := fun '(w, p) =>
  let '(r, p) := m p in (match r with Ok a => Done a | Err e => Failed e end, (w, p)).

Record LiveHsmMaterial : Type := mkLiveHsmMaterial {
  lh_key : LiveSignerKey;
  lh_responder_key_bytes : bytes;
  lh_responder_cert_der : option bytes;
}.

(** The check of a public key against the signing key. *)
Definition check_public_key (k : LiveSignerKey) (public_key : P256Key) (mismatch : string) : hsm string unit :=
  match k with
  | Software key => hsm_lift (ensure (bool_decide (public_key = p256_verifying_key key)) mismatch)
  | HsmKey _ => hsm_map_err (fun _ => mismatch) (verify_hsm_key_matches k public_key)
  end.

(** The key of [load_live_material]. *)
Definition load_live_key (env : string -> option string) ca : live LiveSignerKey :=
  match ca_signing_key ca with
  | Some (Config.File path) => key ← of_io (failing "key" (load_ecdsa_p256_key path)); mret (Software key)
  | Some Demo => mret (Software p256_demo_key)
  | Some (Pkcs11 _ _ _ _ _ _ _) =>
      config ← of_hsm (hsm_lift (resolve_pkcs11_config env ca));
      signer ← of_hsm (hsm_map_err (fun _ => "HSM"%string) (Pkcs11Signer_new config));
      mret (HsmKey signer)
  | None => of_io (io_fail "live signing requires an ECDSA file, PKCS#11 key or explicit demo key"%string)
  end.

Definition load_live_hsm_material (env : string -> option string) ca : live LiveHsmMaterial :=
  key ← load_live_key env ca;
  cert_der ← of_io (load_responder_cert ca);
  responder_key_bytes ←
    match cert_der with
    | Some b =>
        cert ← of_io (io_lift (x509_from_der b));
        t ← of_io read_clock;
        now ← of_io (io_lift (ok_or t "clock"%string));
        of_io (io_lift (ensure (negb ((now <? to_unix_duration (xc_not_before cert)) ||
                                      (to_unix_duration (xc_not_after cert) <=? now)))
          "live responder certificate is outside its validity period"%string)) ;;
        kb ← of_io (io_lift (ok_or (bs_as_bytes (sp_subject_public_key (xc_spki cert)))
          "responder public key has unused bits"%string));
        certificate_key ← of_io (io_lift (p256_from_sec1_bytes kb));
        of_hsm (check_public_key key certificate_key "live signing key does not match responder certificate") ;;
        mret kb
    | None =>
        kb ← of_io (decode_issuer_key ca);
        if is_demo ca then mret kb else
        issuer_key ← of_io (io_lift (p256_from_sec1_bytes kb));
        of_hsm (check_public_key key issuer_key "CA-direct signing key does not match issuer key") ;;
        mret kb
    end;
  mret (mkLiveHsmMaterial key responder_key_bytes cert_der).
End live_hsm.

(** ** One initialization per module *)

Definition accepted {A} (r : result RvError A) : bool :=
  match r with Ok _ | Err CryptokiAlreadyInitialized => true | Err _ => false end.

(** Modules that count, per path, the initializations they accepted. *)
Section counting.
Context (CK : Cryptoki).

Definition counted {A} (f : answer Hsm A) : answer (Hsm * gmap string nat) A := fun '(h, n) =>
  let '(r, h) := f h in (r, (h, n)).

Definition Counting : Cryptoki := {|
  Hsm := Hsm * gmap string nat;
  Pkcs11Ctx := string * Pkcs11Ctx;
  Slot := Slot;
  HsmSession := HsmSession;
  ObjectHandle := ObjectHandle;
  slot_id := slot_id;
  ck_new path := fun '(h, n) => let '(r, h) := ck_new path h in (pair path <$> r, (h, n));
  ck_initialize ctx := fun '(h, n) =>
    let '(r, h) := ck_initialize ctx.2 h in
    (r, (h, if accepted r then <[ctx.1 := S (default 0%nat (n !! ctx.1))]> n else n));
  ck_get_all_slots ctx := counted (ck_get_all_slots ctx.2);
  ck_get_slots_with_initialized_token ctx := counted (ck_get_slots_with_initialized_token ctx.2);
  ck_get_token_label ctx slot := counted (ck_get_token_label ctx.2 slot);
  ck_supports_ml_dsa ctx slot := counted (ck_supports_ml_dsa ctx.2 slot);
  ck_open_ro_session ctx slot := counted (ck_open_ro_session ctx.2 slot);
  ck_login session pin := counted (ck_login session pin);
  ck_find_objects session template := counted (ck_find_objects session template);
  ck_sign session mech key data := counted (ck_sign session mech key data);
|}.
End counting.

(** What a process may do with its modules, any number of times in any order. *)
Inductive HsmOp `{!Cryptoki} :=
| OpenEcdsa (config : Pkcs11Config)
| OpenMlDsa (config : Pkcs11Config) (parameter_set : MlDsa) (sig_alg_oid : string)
| SignPrehash (signer : Pkcs11Signer) (hash : bytes)
| SignMessage (signer : Pkcs11MlDsaSigner) (msg : bytes).

Definition run_op `{!Cryptoki} (p : Process) (op : HsmOp) : Process :=
  match op with
  | OpenEcdsa config => (Pkcs11Signer_new config p).2
  | OpenMlDsa config P oid => (Pkcs11MlDsaSigner_new config P oid p).2
  | SignPrehash signer hash => (sign_prehash signer hash p).2
  | SignMessage signer msg => (sign_message signer msg p).2
  end.

Section once.
Context (CK : Cryptoki).
#[local] Instance counting : Cryptoki := Counting CK.
Implicit Types (p : Process) (config : Pkcs11Config).

(** No module is used yet. *)
Definition fresh_process (h : @Hsm CK) : Process := @mkProcess counting ∅ false (h, ∅).

Definition count_of p (path : string) : nat := default 0%nat ((pr_hsm p).2 !! path).

(** Initialized once if in the registry, never otherwise. *)
Definition once p : Prop := forall path, count_of p path = if decide (is_Some (pr_registry p !! path)) then 1%nat else 0%nat.

Create HintDb keeps.
Definition keeps {E A} (m : hsm E A) : Prop := forall p, once p -> once (m p).2.

Lemma keeps_ret {E A} (a : A) : keeps (mret (M := hsm E) a).
Proof. by intros p. Qed.
Lemma keeps_lift {E A} (r : result E A) : keeps (hsm_lift r).
Proof. by intros p. Qed.
Lemma keeps_bind {E A B} (m : hsm E A) (f : A -> hsm E B) :
  keeps m -> (forall a, keeps (f a)) -> keeps (m ≫= f).
Proof.
  intros Hm Hf p Hp. specialize (Hm p Hp). unfold mbind, hsm_bind. destruct (m p) as [[a|e] p']; [|done].
  by apply Hf.
Qed.
Lemma keeps_map_err {E F A} (f : E -> F) (m : hsm E A) : keeps m -> keeps (hsm_map_err f m).
Proof. intros Hm p Hp. specialize (Hm p Hp). unfold hsm_map_err. by destruct (m p). Qed.
Lemma keeps_try {E F A} (m : hsm E A) : keeps m -> keeps (hsm_try (F := F) m).
Proof. intros Hm p Hp. specialize (Hm p Hp). unfold hsm_try. by destruct (m p). Qed.
Lemma keeps_call {A} (f : answer (@Hsm CK) A) : keeps (call (CK := counting) (counted CK f)).
Proof.
  intros p Hp path. unfold call. destruct p as [reg b [h n]]. cbn in *. destruct (f h) as [r h']. apply (Hp path).
Qed.
Lemma keeps_calling {A} what (f : answer (@Hsm CK) A) : keeps (calling (CK := counting) what (counted CK f)).
Proof. apply keeps_map_err, keeps_call. Qed.

Lemma keeps_login session pin : keeps (login session pin).
Proof.
  apply keeps_bind; [apply keeps_try, keeps_call|]. intros [[]|e]; [apply keeps_ret|apply keeps_lift].
Qed.

Lemma keeps_find_with fixed session config : keeps (find_with fixed session config).
Proof.
  unfold find_with. destruct (pk_key_label config), (pk_key_id config);
    first [apply keeps_lift|apply keeps_bind; [apply keeps_calling|intros; apply keeps_lift]].
Qed.

Lemma keeps_slot_with_label ctx label slots : keeps (slot_with_label ctx label slots).
Proof.
  induction slots as [|slot slots IH]; [apply keeps_lift|]. cbn [slot_with_label].
  apply keeps_bind; [apply keeps_try, keeps_call|]. intros [l|]; [|done]. case_bool_decide; [apply keeps_ret|done].
Qed.

Lemma keeps_find_slot ctx config : keeps (find_slot ctx config).
Proof.
  unfold find_slot. destruct (pk_slot_id config), (pk_token_label config);
    first [apply keeps_lift|apply keeps_bind; [apply keeps_calling|intros; first [apply keeps_lift|apply keeps_slot_with_label]]].
Qed.

Lemma keeps_shared_context path : keeps (shared_context path).
Proof.
  intros [reg b [h n]] Hp. unfold shared_context, get_registry, calling, tolerating, register, call.
  unfold hsm_try, hsm_map_err, hsm_lift, mbind, hsm_bind. cbn. destruct b; [done|].
  case_match eqn:Hr; cbn; [exact Hp|].
  destruct (@ck_new CK path h) as [[ctx|e] h1]; cbn; [|intros q; apply (Hp q)].
  destruct (@ck_initialize CK ctx h1) as [r h2]; cbn.
  assert (count_of (mkProcess reg false (h, n)) path = 0%nat) as H0.
  { rewrite (Hp path), decide_False; [done|]. cbn. intros [c Hc]. by rewrite Hr in Hc. }
  destruct (accepted r) eqn:Ha.
  - assert (once (mkProcess (<[path:=(path, ctx)]> reg) false (h2, <[path:=S (default 0%nat (n !! path))]> n))) as Ho.
    { intros q. unfold count_of. cbn. destruct (decide (path = q)) as [<-|Hq].
      - rewrite !lookup_insert_eq, decide_True by eauto. exact (f_equal S H0).
      - rewrite !lookup_insert_ne by done. apply (Hp q). }
    destruct r as [[]|[]]; done.
  - destruct r as [[]|[]]; try done; apply Hp.
Qed.

#[local] Hint Extern 1 (keeps (calling _ _)) => apply keeps_calling : keeps.
#[local] Hint Resolve keeps_ret keeps_lift keeps_login keeps_find_with keeps_find_slot
  keeps_shared_context : keeps.

(** However many signers a process opens, on whichever tokens and with whichever keys, and
    however it interleaves them with signatures, each module it uses is initialized exactly once,
    and no other module is. *)
Theorem hsm_initialized_once ops (h : @Hsm CK) : once (fold_left run_op ops (fresh_process h)).
Proof.
  assert (forall p, once p -> once (fold_left run_op ops p)) as H.
  { induction ops as [|op ops IH]; intros p Hp; [done|]. apply IH.
    destruct op as [config|config P oid|signer hash|signer msg]; cbn [run_op].
    1: unfold Pkcs11Signer_new, find_key.
    2: unfold Pkcs11MlDsaSigner_new, find_ml_dsa_key.
    3: unfold sign_prehash.
    4: unfold sign_message.
    all: lazymatch goal with |- once (?m _).2 => cut (keeps m); [by intros Hk; apply Hk|] end.
    all: repeat (apply keeps_bind; [eauto with keeps|intros]); eauto with keeps. }
  apply H. intros path. unfold count_of. cbn. rewrite !lookup_empty, decide_False; [done|by intros []].
Qed.
End once.

(** ** Keys *)

Lemma hsm_bind_Ok `{!Cryptoki} {E A B} (m : hsm E A) (f : A -> hsm E B) p b p' :
  (m ≫= f) p = (Ok b, p') -> exists a p1, m p = (Ok a, p1) /\ f a p1 = (Ok b, p').
Proof. unfold mbind, hsm_bind. destruct (m p) as [[a|e] p1]; [eauto|done]. Qed.
Lemma hsm_lift_Ok `{!Cryptoki} {E A} (r : result E A) p a p' : hsm_lift r p = (Ok a, p') -> r = Ok a /\ p' = p.
Proof. by intros [= -> <-]. Qed.
Lemma hsm_map_err_Ok `{!Cryptoki} {E F A} (f : E -> F) (m : hsm E A) p a p' :
  hsm_map_err f m p = (Ok a, p') -> m p = (Ok a, p').
Proof. unfold hsm_map_err. destruct (m p) as [[a'|e] p1]; [|done]. by intros [= -> ->]. Qed.
Lemma hsm_ret_Ok `{!Cryptoki} {E A} (a b : A) p p' : mret (M := hsm E) a p = (Ok b, p') -> b = a /\ p' = p.
Proof. by intros [= -> ->]. Qed.
Lemma calling_Ok `{!Cryptoki} {A} what (f : answer Hsm A) p a p' :
  calling what f p = (Ok a, p') -> f (pr_hsm p) = (Ok a, pr_hsm p').
Proof. unfold calling. intros Hc%hsm_map_err_Ok. unfold call in Hc. destruct (f (pr_hsm p)). by inversion Hc. Qed.

Ltac inv_hsm :=
  repeat match goal with
  | H : (_ ≫= _) _ = (Ok _, _) |- _ =>
      let a := fresh "v" in let p1 := fresh "p" in let H1 := fresh "H" in
      apply hsm_bind_Ok in H as (a & p1 & H1 & H)
  | H : hsm_lift _ _ = (Ok _, _) |- _ => apply hsm_lift_Ok in H as [H ->]
  | H : hsm_map_err _ _ _ = (Ok _, _) |- _ => apply hsm_map_err_Ok in H
  | H : mret _ _ = (Ok _, _) |- _ => apply hsm_ret_Ok in H as [-> ->]
  | H : unit |- _ => destruct H
  end; inv_ok.

(** Documented behaviour of tokens: a search returns objects that have every attribute of the
    template, and signing with [CKM_ECDSA] and a P-256 key gives the raw signature of the hash
    under that key.  [has_attribute] and [holds_key] describe the objects of a token. *)
Class CryptokiSpec {SC : SealCrates} {SM : SealMaking} (CK : Cryptoki) := {
  has_attribute : Hsm -> HsmSession -> ObjectHandle -> KeyAttribute -> Prop;
  holds_key : Hsm -> HsmSession -> ObjectHandle -> P256SigningKey -> Prop;
  find_objects_matches h session template handles h' :
    ck_find_objects session template h = (Ok handles, h') ->
    forall o a, o ∈ handles -> a ∈ template -> has_attribute h' session o a;
  sign_ecdsa h session o key hash raw h' :
    holds_key h session o key -> ck_sign session MechEcdsa o hash h = (Ok raw, h') ->
    p256_sign_prehash key hash = Ok raw;
}.

Section keys.
Context {CR : Crates} {SC : SealCrates} {SM : SealMaking} {CK : Cryptoki} {CS : CryptokiSpec CK}.
Implicit Types (config : Pkcs11Config) (p : Process).

Lemma find_with_Ok fixed session config p o p' :
  find_with fixed session config p = (Ok o, p') ->
  (exists a, a ∈ key_filters config) /\
  forall a, a ∈ fixed ++ key_filters config -> has_attribute (pr_hsm p') session o a.
Proof.
  intros H. split.
  - unfold key_filters. unfold find_with in H.
    destruct (pk_key_label config), (pk_key_id config); try discriminate H; cbn; eexists; by left.
  - intros a Ha. unfold find_with in H.
    destruct (pk_key_label config), (pk_key_id config); try discriminate H.
    all: inv_hsm; rename select (calling _ _ _ = _) into Hc; apply calling_Ok in Hc;
      eapply find_objects_matches; [exact Hc| |exact Ha];
      match goal with H : head ?l = Some _ |- _ => destruct l; inversion H; subst; by left end.
Qed.

(** A signer holds a private key that may sign and that has the configured label and identifier,
    at least one of which is configured; an ML-DSA signer's key is moreover an ML-DSA key of the
    parameter set its algorithm is for. *)
Theorem hsm_key_as_configured config :
  (forall p signer p', Pkcs11Signer_new config p = (Ok signer, p') ->
     (exists a, a ∈ key_filters config) /\
     forall a, a ∈ [AttrPrivateKeyClass; AttrSign true] ++ key_filters config ->
       has_attribute (pr_hsm p') (ps_session signer) (ps_key_handle signer) a) /\
  (forall sig_alg P oid p signer p',
     ml_dsa_pkcs11_params sig_alg = Ok (P, oid) ->
     Pkcs11MlDsaSigner_new config P oid p = (Ok signer, p') ->
     ml_bridge_algorithm signer = (ml_dsa_oid P, None) /\
     (exists a, a ∈ key_filters config) /\
     forall a, a ∈ [AttrPrivateKeyClass; AttrSign true; AttrMlDsaKeyType; AttrParameterSet P] ++ key_filters config ->
       has_attribute (pr_hsm p') (pm_session signer) (pm_key_handle signer) a).
Proof.
  split.
  - intros p signer p' H. unfold Pkcs11Signer_new in H. inv_hsm. by eapply find_with_Ok.
  - intros sig_alg P oid p signer p' Hp H. unfold Pkcs11MlDsaSigner_new in H. inv_hsm.
    split; [|by eapply find_with_Ok].
    unfold ml_dsa_pkcs11_params in Hp. unfold ml_bridge_algorithm. cbn. repeat case_match; by inversion Hp.
Qed.

(** ** Signatures *)

(** The conversion of pkcs11.rs is that of seal.rs, except that it refuses what is not 64 bytes. *)
Lemma raw_ecdsa_to_der_eq raw :
  raw_ecdsa_to_der raw =
  if len raw =? 64 then Ok (ecdsa_raw_to_der raw) else Err "expected 64-byte raw ECDSA signature for P-256"%string.
Proof.
  unfold raw_ecdsa_to_der, ecdsa_raw_to_der. destruct (N.eqb_spec (len raw) 64) as [Hl|]; [|done]. cbn [negb].
  assert (forall v, length v = 32%nat -> len (encode_integer v) <= 35) as Hv.
  { intros v Hv. destruct (encode_integer_spec v) as (c & -> & _ & _ & Hc);
      [by intros ->|unfold len; lia|].
    rewrite tlv_short by (unfold len in *; lia). cbn [app]. rewrite !len_cons. unfold len in *. lia. }
  pose proof (Hv (take 32 raw) ltac:(rewrite length_take; unfold len in Hl; lia)).
  pose proof (Hv (drop 32 raw) ltac:(rewrite length_drop; unfold len in Hl; lia)).
  by rewrite (proj2 (N.ltb_lt _ _)) by lia.
Qed.

Lemma raw_ecdsa_to_der_Ok raw der :
  raw_ecdsa_to_der raw = Ok der ->
  len raw = 64 /\ der_signature der (be_decode (take 32 raw)) (be_decode (drop 32 raw)).
Proof.
  rewrite raw_ecdsa_to_der_eq. destruct (N.eqb_spec (len raw) 64) as [Hl|]; [|done]. intros [= <-].
  split; [done|]. by apply ecdsa_raw_spec.
Qed.

Context {SS : SealMakingSpec SM}.

(** A signature by a token's P-256 key leaves in DER form and verifies, over the SHA-256 of the
    message, under the public part of that key; and signing fails only if the token fails. *)
Theorem hsm_signature_verifies signer key msg p :
  holds_key (pr_hsm p) (ps_session signer) (ps_key_handle signer) key ->
  match bridge_try_sign signer msg p with
  | (Ok der, _) => exists sig, p256_signature_from_bytes der = Ok sig /\
      p256_verify_prehash (p256_verifying_key key) (sha256 msg) sig = true
  | (Err _, _) => exists e, (sign_prehash signer (sha256 msg) p).1 = Err e
  end.
Proof.
  intros Hk. unfold bridge_try_sign, mbind, hsm_bind.
  destruct (sign_prehash signer (sha256 msg) p) as [[raw|e] p1] eqn:Hs; [|by exists e].
  pose proof Hs as Hr. apply calling_Ok in Hr. apply (sign_ecdsa _ _ _ _ _ _ _ Hk) in Hr.
  unfold hsm_lift. destruct (raw_ecdsa_to_der raw) as [der|e] eqn:Hd; cbn.
  - apply raw_ecdsa_to_der_Ok in Hd as [_ Hd]. by eapply p256_sign_verifies.
  - rewrite raw_ecdsa_to_der_eq, (p256_sign_length _ _ _ Hr) in Hd. done.
Qed.

(** Two tokens' answers that differ leave as signatures that differ. *)
Theorem raw_ecdsa_to_der_injective raw1 raw2 der :
  raw_ecdsa_to_der raw1 = Ok der -> raw_ecdsa_to_der raw2 = Ok der -> raw1 = raw2.
Proof.
  intros [H1 (b & r & rest & s & E1 & E2 & E3 & _ & _ & Er & Es)]%raw_ecdsa_to_der_Ok
    [H2 (b' & r' & rest' & s' & E1' & E2' & E3' & _ & _ & Er' & Es')]%raw_ecdsa_to_der_Ok.
  simplify_eq. rewrite <- (take_drop 32 raw1), <- (take_drop 32 raw2).
  f_equal; apply be_decode_inj; first [congruence|unfold len in *; rewrite ?length_take, ?length_drop; lia].
Qed.
End keys.

(** ** Live material *)

Section live_hsm_props.
Context {CR : Crates} {SC : SealCrates} {JS : Json} {OC : OcspCrates} {SG : SignCrates}.
Context {SM : SealMaking} {CK : Cryptoki}.
Implicit Types (ca : CaConfig) (w : World) (p : Process).

Lemma live_bind_Done {A B} (m : live A) (f : A -> live B) s b s' :
  (m ≫= f) s = (Done b, s') -> exists a s1, m s = (Done a, s1) /\ f a s1 = (Done b, s').
Proof. unfold mbind, live_bind. destruct (m s) as [[a|e|] s1]; [eauto|done|done]. Qed.
Lemma live_ret_Done {A} (a b : A) s s' : mret (M := live) a s = (Done b, s') -> b = a /\ s' = s.
Proof. by intros [= -> ->]. Qed.
Lemma of_io_Done {A} (m : io string A) s a s' :
  of_io m s = (Done a, s') -> m s.1 = (Done a, s'.1) /\ s'.2 = s.2.
Proof. destruct s as [w p]. cbn. destruct (m w). by intros [= -> <-]. Qed.
Lemma of_hsm_Done {A} (m : hsm string A) s a s' :
  of_hsm m s = (Done a, s') -> m s.2 = (Ok a, s'.2) /\ s'.1 = s.1.
Proof. destruct s as [w p]. cbn. destruct (m p) as [[b|e] p']; [|done]. by intros [= -> <-]. Qed.

(** The public key accepts signatures of the signing key: it is its public part, or the module
    made with it a signature of the preflight message that the public key verifies. *)
Definition key_bound (k : LiveSignerKey) (public_key : P256Key) : Prop :=
  match k with
  | Software key => public_key = p256_verifying_key key
  | HsmKey signer => exists p1 p2 der sig, bridge_try_sign signer PREFLIGHT_MESSAGE p1 = (Ok der, p2) /\
      p256_signature_from_bytes der = Ok sig /\
      p256_verify_prehash public_key (sha256 PREFLIGHT_MESSAGE) sig = true
  end.

Lemma check_public_key_Ok k public_key e p p' :
  check_public_key k public_key e p = (Ok tt, p') -> key_bound k public_key.
Proof.
  destruct k as [key|signer]; cbn.
  - intros H. inv_hsm. by apply bool_decide_eq_true in H.
  - intros H. unfold verify_hsm_key_matches in H. cbn in H. inv_hsm. by eexists _, _, _, _.
Qed.

Ltac inv_live :=
  repeat match goal with
  | H : (_ ≫= _) _ = (Done _, _) |- _ =>
      let a := fresh "v" in let s1 := fresh "s" in let H1 := fresh "H" in
      apply live_bind_Done in H as (a & s1 & H1 & H)
  | H : of_io _ _ = (Done _, _) |- _ =>
      let Hp := fresh "Hp" in apply of_io_Done in H as [H Hp]
  | H : of_hsm _ _ = (Done _, _) |- _ =>
      let Hw := fresh "Hw" in apply of_hsm_Done in H as [H Hw]
  | H : mret (M := live) _ _ = (Done _, _) |- _ => apply live_ret_Done in H as [-> ->]
  | H : unit |- _ => destruct H
  end;
  repeat match goal with s : (World * Process)%type |- _ => destruct s end; cbn [fst snd] in *; subst.

(** Live material is handed out only if the public key clients check signatures with, that of a
    certificate valid at the time of the check, or the issuer's, accepts what the signing key
    signs, also when that key stays in a module; the demo key without a certificate excepted. *)
Theorem live_hsm_material_bound env ca s m s' :
  load_live_hsm_material env ca s = (Done m, s') ->
  exists public_key,
    match lh_responder_cert_der m with
    | Some der => exists cert now, x509_from_der der = Ok cert /\
        to_unix_duration (xc_not_before cert) <= now < to_unix_duration (xc_not_after cert) /\
        bs_as_bytes (sp_subject_public_key (xc_spki cert)) = Some (lh_responder_key_bytes m) /\
        p256_from_sec1_bytes (lh_responder_key_bytes m) = Ok public_key /\ key_bound (lh_key m) public_key
    | None => is_demo ca = true \/
        p256_from_sec1_bytes (lh_responder_key_bytes m) = Ok public_key /\ key_bound (lh_key m) public_key
    end.
Proof.
  intros H. unfold load_live_hsm_material in H.
  apply live_bind_Done in H as (key & s1 & _ & H). apply live_bind_Done in H as (cert & s2 & _ & H).
  apply live_bind_Done in H as (kb & s3 & Hkb & H). apply live_ret_Done in H as [-> ->]. cbn.
  destruct cert as [der|].
  - inv_live. inv_io. rename select (check_public_key _ _ _ _ = _) into Hc.
    apply check_public_key_Ok in Hc.
    rename select (negb (_ || _) = true) into Hv.
    apply negb_true_iff, orb_false_iff in Hv as [Hv1%N.ltb_ge Hv2%N.leb_gt]. by eexists _, _, _.
  - apply live_bind_Done in Hkb as (kb' & s4 & _ & Hkb).
    destruct (is_demo ca); [exists (p256_verifying_key p256_demo_key); by left|].
    inv_live. inv_io. rename select (check_public_key _ _ _ _ = _) into Hc.
    apply check_public_key_Ok in Hc. eauto.
Qed.

Definition outcome_map {E A B} (f : A -> B) (o : outcome E A) : outcome E B :=
  match o with Done a => Done (f a) | Failed e => Failed e | Crashed => Crashed end.

(** [m] does what [n] does, with its result mapped, and leaves the modules alone. *)
Definition simulates {A B} (m : live A) (n : io string B) (f : B -> A) : Prop := forall w p,
  m (w, p) = let '(o, w') := n w in (outcome_map f o, (w', p)).

Lemma simulates_io {A} (n : io string A) : simulates (of_io n) n id.
Proof. intros w p. cbn. by destruct (n w) as [[] w']. Qed.
Lemma simulates_lift {A} (r : result string A) : simulates (of_hsm (hsm_lift r)) (io_lift r) id.
Proof. intros w p. by destruct r. Qed.
Lemma simulates_ret {A B} (f : B -> A) b : simulates (mret (f b)) (mret b) f.
Proof. by intros w p. Qed.
Lemma simulates_bind {A B A' B'} (m : live A) (n : io string B) (f : B -> A) (k : A -> live A') (l : B -> io string B') g :
  simulates m n f -> (forall b, simulates (k (f b)) (l b) g) -> simulates (m ≫= k) (n ≫= l) g.
Proof.
  intros Hm Hk w p. unfold mbind, live_bind, io_bind. rewrite Hm. destruct (n w) as [[b|e|] w']; cbn; [apply Hk|done|done].
Qed.
Lemma simulates_map {A B} (n : io string B) (f : B -> A) : simulates (b ← of_io n; mret (f b)) n f.
Proof. intros w p. unfold mbind, live_bind. cbn. by destruct (n w) as [[] w']. Qed.

(** Unless the key is in a module, loading does the same with the feature as without it, and
    leaves the modules alone. *)
Theorem live_material_without_hsm env ca :
  (forall module_ token slot pin pin_env label id,
     ca_signing_key ca <> Some (Pkcs11 module_ token slot pin pin_env label id)) ->
  simulates (load_live_hsm_material env ca) (load_live_material ca)
    (fun m => mkLiveHsmMaterial (Software (lm_key m)) (lm_responder_key_bytes m) (lm_responder_cert_der m)).
Proof.
  intros Hk. unfold load_live_hsm_material, load_live_material, load_live_key.
  apply (simulates_bind _ _ Software).
  { destruct (ca_signing_key ca) as [[path|module_ token slot pin pin_env label id|]|];
      [apply simulates_map|by destruct (Hk module_ token slot pin pin_env label id)|apply simulates_ret|by intros w p]. }
  intros key. eapply simulates_bind; [apply simulates_io|intros cert]. eapply (simulates_bind _ _ id).
  - destruct cert as [b|]; unfold id; [|eapply simulates_bind; [apply simulates_io|intros kb; destruct (is_demo ca)]].
    all: repeat first [exact (simulates_ret id _) | apply simulates_bind with (f := id);
      [first [apply simulates_io|apply simulates_lift]|unfold id; intros; cbn [check_public_key]]].
  - by intros kb w p.
Qed.
End live_hsm_props.

(** ** A token *)

Module ToyHsm.
(** Slot 1 has the token [hsm], with one P-256 key; the state says whether the module is
    initialized and whether the user is logged in. *)
Definition key_attributes : list KeyAttribute :=
  [AttrPrivateKeyClass; AttrSign true; AttrLabel (text "ocsp"); AttrId [x01]].

#[export] Instance cryptoki : Cryptoki := {
  Hsm := bool * bool;
  Pkcs11Ctx := unit;
  Slot := N;
  HsmSession := unit;
  ObjectHandle := byte;
  slot_id := id;
  ck_new path := fun h => (if String.eqb path "/hsm.so" then Ok tt else Err (OtherRv "no module"), h);
  ck_initialize _ := fun '(up, user) =>
    if up : bool then (Err CryptokiAlreadyInitialized, (true, user)) else (Ok tt, (true, false));
  ck_get_all_slots _ := fun h => (Ok [0; 1], h);
  ck_get_slots_with_initialized_token _ := fun h => (Ok [1], h);
  ck_get_token_label _ _ := fun h => (Ok (text "hsm     "), h);
  ck_supports_ml_dsa _ _ := fun h => (Ok false, h);
  ck_open_ro_session _ _ := fun h => (Ok tt, h);
  ck_login _ pin := fun '(up, user) =>
    if user : bool then (Err UserAlreadyLoggedIn, (up, true))
    else if String.eqb pin "1234" then (Ok tt, (up, true)) else (Err (OtherRv "PIN incorrect"), (up, false));
  ck_find_objects _ template := fun h =>
    (Ok (if forallb (fun a => bool_decide (a ∈ key_attributes)) template then [x0c] else []), h);
  ck_sign _ mech o data := fun h =>
    (match mech with
     | MechEcdsa => map_err OtherRv (@p256_sign_prehash ToyMaking.seal_crates ToyMaking.making o data)
     | MechMlDsa => Err (OtherRv "mechanism invalid")
     end, h);
}.

Lemma search_matches (h : bool * bool) template (handles : list byte) h' :
  ck_find_objects tt template h = (Ok handles, h') ->
  forall o a, o ∈ handles -> a ∈ template -> a ∈ key_attributes.
Proof.
  cbn. destruct (forallb _ template) eqn:Ht; intros [= <- <-] o a Ho Ha; [|by apply elem_of_nil in Ho].
  rewrite forallb_forall in Ht. specialize (Ht a ltac:(by apply list_elem_of_In)).
  by apply bool_decide_eq_true in Ht.
Qed.
Lemma signs (h : bool * bool) (o : byte) hash raw h' :
  ck_sign tt MechEcdsa o hash h = (Ok raw, h') ->
  @p256_sign_prehash ToyMaking.seal_crates ToyMaking.making o hash = Ok raw.
Proof.
  cbn. destruct (ToyMaking.sign_raw o hash) eqn:E; cbn; [by intros [= <- <-]|done].
Qed.

#[export] Instance spec : @CryptokiSpec ToyMaking.seal_crates ToyMaking.making cryptoki.
Proof.
  refine (@Build_CryptokiSpec ToyMaking.seal_crates ToyMaking.making cryptoki
    (fun _ _ _ a => a ∈ key_attributes) (fun _ _ o key => @eq byte o key) _ _).
  - intros h [] template handles h'. apply search_matches.
  - intros h [] o key hash raw h' <-. apply signs.
Defined.

Definition config (pin : string) (label : option string) : Pkcs11Config :=
  mkPkcs11Config "/hsm.so" None (Some "hsm"%string) pin label None.
Definition before : Process := mkProcess ∅ false (false, false).
Definition opened : result SignError Pkcs11Signer * Process :=
  Pkcs11Signer_new (config "1234" (Some "ocsp"%string)) before.
Definition signer : Pkcs11Signer := @mkPkcs11Signer cryptoki tt tt x0c.
End ToyHsm.

#[local] Existing Instance ToyHsm.cryptoki.

(** The label the token pads is found, the second signer finds the module initialized and the
    user logged in, and a wrong PIN is refused only before that. *)
Example toy_sessions :
  is_ok ToyHsm.opened.1 = true /\
  is_ok (Pkcs11Signer_new (ToyHsm.config "1234" (Some "ocsp"%string)) ToyHsm.opened.2).1 = true /\
  (Pkcs11Signer_new (ToyHsm.config "0000" (Some "ocsp"%string)) ToyHsm.before).1 =
    Err (SignPkcs11 "login") /\
  (Pkcs11Signer_new (ToyHsm.config "1234" None) ToyHsm.opened.2).1 =
    Err (SignPkcs11 "PKCS#11 config must specify key_label or key_id") /\
  (Pkcs11Signer_new (ToyHsm.config "1234" (Some "tls"%string)) ToyHsm.opened.2).1 =
    Err (SignPkcs11 "no signing key found").
Proof. split_and!; vm_compute; reflexivity. Qed.

Lemma hsm_signature_verifies_witness :
  exists der p sig, @bridge_try_sign Toy.crates _ ToyHsm.signer [x61] ToyHsm.before = (Ok der, p) /\
    @p256_signature_from_bytes ToyMaking.seal_crates der = Ok sig /\
    @p256_verify_prehash ToyMaking.seal_crates x0c (@sha256 Toy.crates [x61]) sig = true.
Proof.
  pose proof (@hsm_signature_verifies Toy.crates ToyMaking.seal_crates ToyMaking.making ToyHsm.cryptoki
    ToyHsm.spec ToyMaking.making_spec ToyHsm.signer x0c [x61] ToyHsm.before eq_refl) as H.
  destruct (@bridge_try_sign Toy.crates _ ToyHsm.signer [x61] ToyHsm.before) as [[der|e] p] eqn:E.
  - destruct H as (sig & H1 & H2). by exists der, p, sig.
  - apply (f_equal (fun r => is_ok r.1)) in E. vm_compute in E. discriminate E.
Defined.
