(* ===== verification/TokenSign.v ===== *)
(** * TokenSign: signing with a key in a hardware module (hoike-sign/src/orchestrate.rs with the
    feature [pkcs11], over generate.rs and pkcs11.rs)

    The production of a bundle by a token, whose state changes with every signature,
    and the signing of a CA's scope over every kind of key.  Main results: a
    production with a token is a production with some signer without a state, one that
    gives the answers that the token gave, so that what is proved of productions
    holds with tokens; a scope signed with any kind of key continues the state it was
    derived from; the entries verify under a certificate for the token's key; and the
    token's key is never the seal key. *)

From stdpp Require Import base tactics list gmap strings.
From Stdlib Require Import NArith Lia.
From S2P Require Import Prelude Slices Crates Text AhuError Header Index Manifest Bundle Builder Verify.
From S2P Require Import CoreError Storage State Config Admission Request Router SignError Times Seal SignCrates.
From S2P Require Import Source SealDer SealCreate Crl Generate Orchestrate Live AhuCli EntryChecks Hsm.
Local Open Scope N_scope.

(** A fold of calls. *)
Fixpoint hsm_fold `{!Cryptoki} {E A B} (f : B -> A -> hsm E B) (b : B) (l : list A) : hsm E B :=
  match l with
  | [] => mret b
  | a :: l => b ← f b a; hsm_fold f b l
  end.

Section tokens.
Context {CR : Crates} {SC : SealCrates} {JS : Json} {OC : OcspCrates} {SG : SignCrates}.
Context {SM : SealMaking} {CK : Cryptoki}.
Implicit Types (c : Config) (ca_config : CaConfig) (ca : CaIdentity) (snapshot : StatusSnapshot).
Implicit Types (config : GenerationConfig) (seal_fn : bytes -> sign_result bytes) (p : Process).

(** ** Signers in tokens *)

(** [Pkcs11SignerBridge] and [Pkcs11MlDsaSignerBridge]. *)
Inductive TokenSigner := TokenEcdsa (signer : Pkcs11Signer) | TokenMlDsa (signer : Pkcs11MlDsaSigner).
Implicit Types (token : TokenSigner).

Definition token_algorithm token : AlgorithmIdentifier :=
  let '(oid, parameters) := match token with
                            | TokenEcdsa _ => bridge_algorithm
                            | TokenMlDsa signer => ml_bridge_algorithm signer
                            end in
  mkAlgorithmIdentifier oid parameters.

Definition token_try_sign token (msg : bytes) : hsm string bytes :=
  hsm_map_err (fun _ => "signature error"%string)
    match token with
    | TokenEcdsa signer => bridge_try_sign signer msg
    | TokenMlDsa signer => ml_bridge_try_sign signer msg
    end.

(** [ensure_distinct_ecdsa_seal_key] for a token. *)
Definition token_distinct_seal_key token (seal : SealKey) : hsm SignError unit :=
  match seal with
  | SealEcdsaP256 key =>
      sig ← hsm_map_err SignSeal (token_try_sign token SEAL_OCSP_KEY_SEPARATION_MESSAGE);
      der_sig ← hsm_lift (seal_of (p256_signature_from_bytes sig));
      hsm_lift (if p256_verify_prehash (p256_verifying_key key) (sha256 SEAL_OCSP_KEY_SEPARATION_MESSAGE) der_sig
                then Err (SignSeal "the OCSP signing key and the seal key are the same key") else Ok tt)
  | SealMlDsa _ _ => mret tt
  end.

(** ** Production *)

(** The token while it signs: it gave this answer. *)
Definition answering token (sig : result string bytes) : OcspSigner :=
  mkOcspSigner (Ok (token_algorithm token)) (fun _ => sig).

Definition bucket_data (responder_id : OcspResponderId) (produced_at : DateTime) (bucket : list PreparedEntry) :
    ResponseData :=
  mkResponseData responder_id produced_at (mjoin (pe_single_responses <$> bucket)) None.

(** The body of the loop over buckets: the builder asks the token for one signature, over
    the encoding of the data. *)
Definition token_sign_bucket token (responder_id : OcspResponderId) (parsed_cert : option (X509Cert Name))
    (produced_at : DateTime) (bucket : list PreparedEntry) : hsm SignError (list bytes * bytes) :=
  sig ← match response_data_to_der (bucket_data responder_id produced_at bucket) with
        | Ok tbs => hsm_try (token_try_sign token tbs)
        | Err e => mret (Err e)
        end;
  hsm_lift (sign_bucket (answering token sig) responder_id parsed_cert produced_at bucket).

(** [sign_and_add_entries]. *)
Definition token_sign_and_add (builder : BundleBuilder) (prepared : list PreparedEntry) (bucket_size : nat) token
    (responder_id : OcspResponderId) (responder_cert_der : option bytes) (produced_at : DateTime) :
    hsm SignError BundleBuilder :=
  parsed_cert ← hsm_lift match responder_cert_der with
                         | Some c => Some <$> der_of (x509_from_der c)
                         | None => Ok None
                         end;
  hsm_fold (fun builder bucket =>
    '(all_keys, response_der) ← token_sign_bucket token responder_id parsed_cert produced_at bucket;
    mret (add_shared_entries builder all_keys response_der 0))
    builder (chunks (Nat.max bucket_size 1) prepared).

Definition producing {A} (m : io SignError A) : io string A := failing "bundle production failed" m.

(** [produce_bundle]. *)
Definition token_produce_bundle ca snapshot config token seal_fn (responder_cert_der : option bytes) : live bytes :=
  '(manifest, prepared, responder_id, produced_at) ←
    of_io (producing (start_generation ca snapshot config responder_cert_der));
  builder ← of_hsm (hsm_map_err (fun _ => "bundle production failed"%string)
    (token_sign_and_add (new manifest) prepared (gc_bucket_size config) token responder_id responder_cert_der
       produced_at));
  of_io (producing (io_lift (build_sealed builder seal_fn))).

(** The arms of [produce_scope_bundle] for tokens, up to the production. *)
Definition open_ml_dsa_token (env : string -> option string) ca_config : live TokenSigner :=
  config ← of_hsm (hsm_lift (resolve_pkcs11_config env ca_config));
  '(P, oid) ← of_hsm (hsm_lift (ml_dsa_pkcs11_params (ca_sig_alg ca_config)));
  signer ← of_hsm (hsm_map_err (fun _ => "PKCS#11 ML-DSA init"%string) (Pkcs11MlDsaSigner_new config P oid));
  mret (TokenMlDsa signer).

Definition open_ecdsa_token (env : string -> option string) ca_config (seal_key : SealKey) : live TokenSigner :=
  config ← of_hsm (hsm_lift (resolve_pkcs11_config env ca_config));
  signer ← of_hsm (hsm_map_err (fun _ => "PKCS#11 init"%string) (Pkcs11Signer_new config));
  of_hsm (hsm_map_err (fun _ => "seal key"%string) (token_distinct_seal_key (TokenEcdsa signer) seal_key)) ;;
  mret (TokenEcdsa signer).

(** [produce_scope_bundle] over every kind of key. *)
Definition produce_scope_bundle_with_tokens (env : string -> option string) ca_config ca snapshot config
    (seal_key : SealKey) (seal_cert_der : bytes) (responder_cert_der : option bytes) (seed : bytes) : live bytes :=
  match ca_signing_key ca_config with
  | Some (Pkcs11 _ _ _ _ _ _ _) =>
      token ← (if is_ml_dsa ca_config then open_ml_dsa_token env ca_config
               else open_ecdsa_token env ca_config seal_key);
      token_produce_bundle ca snapshot config token (fun m => create_cms_seal m seal_key seal_cert_der)
        responder_cert_der
  | _ => of_io (produce_scope_bundle ca_config ca snapshot config seal_key seal_cert_der responder_cert_der seed)
  end.

(** ** Signing a scope *)

(** [sign_ca_scope] from its snapshot on. *)
Definition sign_snapshot_with_tokens (env : string -> option string) c ca_config ca snapshot
    (is_authoritative_complete : bool) (ephemeral : P256SigningKey) (seed : bytes) : live SignedScope :=
  gen_config ← of_io (generation_settings c ca_config ca is_authoritative_complete);
  (if String.eqb (ca_nonce_policy ca_config) "live"
   then load_live_hsm_material env ca_config ;; mret tt else mret tt) ;;
  responder_cert_der ← of_io (load_responder_cert ca_config);
  '(seal_key, seal_cert_der) ← of_io (load_seal_materials ca_config ephemeral);
  bundle_bytes ← produce_scope_bundle_with_tokens env ca_config ca snapshot gen_config seal_key seal_cert_der
    responder_cert_der seed;
  mret (mkSignedScope (ca_label ca_config) bundle_bytes (N.of_nat (size (ss_entries snapshot)))
    (gc_epoch gen_config)).

Definition sign_ca_scope_with_tokens (env : string -> option string) c ca_config (source : RevocationSource)
    (ephemeral : P256SigningKey) (seed : bytes) : live SignedScope :=
  issuer_name_der ← of_io (decode_issuer_name ca_config);
  issuer_key_bytes ← of_io (decode_issuer_key ca_config);
  let ca := mkCaIdentity (ca_label ca_config) issuer_name_der issuer_key_bytes in
  snapshot ← of_io (failing "snapshot failed" (rv_snapshot source ca));
  sign_snapshot_with_tokens env c ca_config ca snapshot (rv_is_authoritative_complete source) ephemeral seed.
End tokens.

(** ** The signer that a token was *)

Section observed.
Context {CR : Crates} {SC : SealCrates} {JS : Json} {OC : OcspCrates} {SG : SignCrates}.
Context {SM : SealMaking} {CK : Cryptoki}.
Context {SH : Sha256Spec} {SGS : SignCratesSpec SG}.
Implicit Types (ca : CaIdentity) (snapshot : StatusSnapshot) (config : GenerationConfig).
Implicit Types (token : TokenSigner) (p : Process).

(** The token gave this answer. *)
Definition token_signed token (tbs sig : bytes) : Prop :=
  exists p p', token_try_sign token tbs p = (Ok sig, p').

(** The signer that gives the answers of a log. *)
Definition observed token (log : list (bytes * bytes)) : OcspSigner :=
  mkOcspSigner (Ok (token_algorithm token))
    (fun m => ok_or ((list_to_map log : gmap bytes bytes) !! m) "not signed"%string).

(** What a token signed for the buckets. *)
Definition log_of token rid pa (buckets : list (list PreparedEntry)) (log : list (bytes * bytes)) : Prop :=
  Forall2 (fun bucket entry => response_data_to_der (bucket_data rid pa bucket) = Ok entry.1 /\
    token_signed token entry.1 entry.2) buckets log.

Lemma sign_bucket_signed (key : OcspSigner) rid cert pa bucket r :
  sign_bucket key rid cert pa bucket = Ok r ->
  exists tbs sig, response_data_to_der (bucket_data rid pa bucket) = Ok tbs /\ os_try_sign key tbs = Ok sig.
Proof.
  unfold sign_bucket, der_of. intros H. inv_ok. rename select (ocsp_sign _ _ _ = _) into H1.
  rename select (ocsp_response_to_der _ = _) into H2.
  destruct (ocsp_sign_basic _ _ _ _ _ H1 H2) as (_ & tbs & _ & sig & _ & Ht & _ & Hs & _). eauto.
Qed.

Lemma token_sign_bucket_Ok token rid cert pa bucket p r p' :
  token_sign_bucket token rid cert pa bucket p = (Ok r, p') ->
  exists tbs sig, response_data_to_der (bucket_data rid pa bucket) = Ok tbs /\ token_signed token tbs sig /\
    forall key, os_algorithm key = Ok (token_algorithm token) -> os_try_sign key tbs = Ok sig ->
      sign_bucket key rid cert pa bucket = Ok r.
Proof.
  unfold token_sign_bucket. intros H. apply hsm_bind_Ok in H as (sig & p1 & Hsig & H).
  apply hsm_lift_Ok in H as [H ->].
  destruct (sign_bucket_signed _ _ _ _ _ _ H) as (tbs & s & Ht & Hs). cbn in Hs. subst sig.
  rewrite Ht in Hsig. exists tbs, s. split; [done|]. split.
  - unfold hsm_try in Hsig. destruct (token_try_sign token tbs p) as [x p2] eqn:E. injection Hsig as -> ->.
    by eexists _, _.
  - intros key Ha Hk. rewrite <- H. unfold sign_bucket. do 2 f_equal. apply ocsp_sign_encoding; [by rewrite Ha|].
    intros tbs' Ht'. change (response_data_to_der (bucket_data rid pa bucket) = Ok tbs') in Ht'.
    rewrite Ht in Ht'. injection Ht' as <-. by rewrite Hk.
Qed.

(** The loop over the buckets is that of any signer that gives the answers of the log. *)
Lemma token_fold_Ok token rid cert pa buckets builder p builder' p' :
  hsm_fold (fun builder bucket =>
    '(all_keys, response_der) ← token_sign_bucket token rid cert pa bucket;
    mret (add_shared_entries builder all_keys response_der 0)) builder buckets p = (Ok builder', p') ->
  exists log, log_of token rid pa buckets log /\
    forall key, os_algorithm key = Ok (token_algorithm token) ->
      Forall (fun entry => os_try_sign key entry.1 = Ok entry.2) log ->
      fold_result (fun builder bucket =>
        '(all_keys, response_der) ← sign_bucket key rid cert pa bucket;
        Ok (add_shared_entries builder all_keys response_der 0)) builder buckets = Ok builder'.
Proof.
  revert builder p. induction buckets as [|bucket buckets IH]; intros builder p H; cbn [hsm_fold] in H.
  - apply hsm_ret_Ok in H as [-> ->]. exists []. split; [constructor|]. done.
  - apply hsm_bind_Ok in H as (b1 & p1 & H1 & H). apply hsm_bind_Ok in H1 as ([keys der] & p2 & H1 & Hb).
    apply hsm_ret_Ok in Hb as [-> ->]. apply IH in H as (log & Hlog & Hall).
    apply token_sign_bucket_Ok in H1 as (tbs & sig & Ht & Hs & Hk).
    exists ((tbs, sig) :: log). split; [by constructor|]. intros key Ha [H1 H2]%Forall_cons.
    cbn [fold_result]. rewrite (Hk key Ha H1). cbn [mbind result_bind]. by apply Hall.
Qed.

Lemma observed_answers token log :
  NoDup log.*1 -> Forall (fun entry => os_try_sign (observed token log) entry.1 = Ok entry.2) log.
Proof.
  intros Hn. apply Forall_forall. intros [tbs sig] Hin. cbn.
  by rewrite (elem_of_list_to_map_1 log tbs sig Hn Hin).
Qed.

Lemma observed_token token rid pa buckets log m sig :
  log_of token rid pa buckets log -> os_try_sign (observed token log) m = Ok sig -> token_signed token m sig.
Proof.
  intros Hlog Hs%ok_or_Ok%elem_of_list_to_map_2. apply list_elem_of_lookup in Hs as [i Hi].
  by destruct (Forall2_lookup_r _ _ _ _ _ Hlog Hi) as (bucket & _ & _ & ?).
Qed.

(** ** No two buckets are the same *)

Definition cid_key (cid : CertId) (k : bytes) : Prop := exists der, certid_to_der cid = Ok der /\ k = sha256 der.

(** The keys of an entry are those of its CertIDs. *)
Definition keyed (e : PreparedEntry) : Prop :=
  pe_single_responses e <> [] /\ Forall2 cid_key (sr_cert_id <$> pe_single_responses e) (pe_entry_keys e).

Lemma prepared_keyed ca snapshot config tu base serial status e :
  prepared_for ca snapshot config tu base serial status e -> keyed e.
Proof.
  intros (sn & st & n & nu & _ & _ & _ & _ & Hk & Hr). split; rewrite Hr.
  - unfold certid_forms. by destruct (gc_certid_compat config).
  - rewrite <- list_fmap_compose. unfold compose. cbn [sr_cert_id]. by rewrite list_fmap_id.
Qed.

Lemma cid_keys_inj cids ks1 ks2 : Forall2 cid_key cids ks1 -> Forall2 cid_key cids ks2 -> ks1 = ks2.
Proof.
  intros H. revert ks2. induction H as [|cid k cids ks (der & Hd & ->) _ IH]; intros ks2 H2.
  - by inversion H2.
  - inversion H2 as [|? k2 ? ks2' (der2 & Hd2 & ->) H2']; subst. rewrite Hd in Hd2. injection Hd2 as <-.
    f_equal. by apply IH.
Qed.

Definition bucket_keys (bucket : list PreparedEntry) : list bytes := mjoin (pe_entry_keys <$> bucket).

Lemma bucket_cids bucket :
  Forall keyed bucket ->
  Forall2 cid_key (sr_cert_id <$> mjoin (pe_single_responses <$> bucket)) (bucket_keys bucket).
Proof.
  unfold bucket_keys. induction 1 as [|e bucket [_ He] _ IH]; [constructor|]. cbn [fmap list_fmap mjoin list_join].
  rewrite fmap_app. by apply Forall2_app.
Qed.

Lemma bucket_keys_nonempty bucket : bucket <> [] -> Forall keyed bucket -> bucket_keys bucket <> [].
Proof.
  intros Hne H. destruct H as [|e bucket [Hs He] _]; [done|]. unfold bucket_keys. cbn [fmap list_fmap mjoin list_join].
  destruct (pe_entry_keys e); [|done]. inversion He as [Hn|]. by apply eq_sym, fmap_nil_inv in Hn.
Qed.

Lemma buckets_data_distinct rid pa buckets :
  Forall (fun bucket => bucket <> [] /\ Forall keyed bucket) buckets -> NoDup (mjoin (bucket_keys <$> buckets)) ->
  NoDup (bucket_data rid pa <$> buckets).
Proof.
  induction 1 as [|bucket buckets [Hne Hk] Hall IH]; [constructor|]. cbn [fmap list_fmap mjoin list_join].
  intros (_ & Hd & Hn)%NoDup_app. constructor; [|by apply IH].
  intros (bucket' & Heq & Hin)%list_elem_of_fmap. rewrite Forall_forall in Hall. destruct (Hall _ Hin) as [_ Hk'].
  unfold bucket_data in Heq. injection Heq as Heq.
  assert (bucket_keys bucket = bucket_keys bucket') as Hkeys.
  { pose proof (bucket_cids _ Hk) as Hc. rewrite Heq in Hc. by eapply cid_keys_inj, bucket_cids. }
  destruct (bucket_keys bucket) as [|k ks] eqn:E; [by eapply bucket_keys_nonempty|].
  apply (Hd k); [left|]. apply list_elem_of_join. exists (bucket_keys bucket'). rewrite <- Hkeys.
  split; [left|]. rewrite Hkeys. by apply list_elem_of_fmap_2.
Qed.

Lemma bucket_keys_join buckets : mjoin (bucket_keys <$> buckets) = bucket_keys (mjoin buckets).
Proof.
  induction buckets as [|bucket buckets IH]; [done|].
  change (bucket_keys bucket ++ mjoin (bucket_keys <$> buckets) = bucket_keys (bucket ++ mjoin buckets)).
  rewrite IH. unfold bucket_keys. by rewrite fmap_app, join_app.
Qed.

Lemma log_distinct token rid pa buckets log :
  log_of token rid pa buckets log -> NoDup (bucket_data rid pa <$> buckets) -> NoDup log.*1.
Proof.
  induction 1 as [|bucket [tbs sig] buckets log [Ht _] Hlog IH]; [constructor|]. cbn [fmap list_fmap fst] in *.
  intros [Hni Hn]%NoDup_cons. constructor; [|by apply IH]. intros ([tbs' sig'] & Heq & Hin)%list_elem_of_fmap.
  cbn in Heq. subst tbs'. apply list_elem_of_lookup in Hin as [i Hi].
  destruct (Forall2_lookup_r _ _ _ _ _ Hlog Hi) as (bucket' & Hb & Ht' & _). apply Hni.
  rewrite (response_data_inj _ _ _ Ht Ht'). apply list_elem_of_fmap_2. by eapply list_elem_of_lookup_2.
Qed.

(** ** Productions with tokens *)

(** No two CertIDs of the snapshot share an entry key. *)
Definition keys_apart ca snapshot config : Prop :=
  forall source_end prepared, ss_next_update snapshot = Some source_end ->
    prepare_for ca snapshot config (expiry_base snapshot config source_end) = Ok prepared ->
    NoDup (bucket_keys prepared).

Lemma prepared_buckets ca snapshot config base prepared n :
  prepare_for ca snapshot config base = Ok prepared -> (0 < n)%nat ->
  Forall (fun bucket => bucket <> [] /\ Forall keyed bucket) (chunks n prepared).
Proof.
  intros (tu & _ & _ & Hall)%prepare_for_Ok Hn. apply Forall_forall. intros bucket Hb.
  pose proof (chunks_size n prepared Hn) as Hsz. rewrite Forall_forall in Hsz. split.
  - intros ->. specialize (Hsz _ Hb). cbn in Hsz. lia.
  - apply Forall_forall. intros e He. assert (e ∈ prepared) as Hp.
    { rewrite <- (chunks_concat n prepared Hn). apply list_elem_of_join. eauto. }
    destruct (Hall e Hp) as (serial & status & _ & _ & Hf). by eapply prepared_keyed.
Qed.

Lemma start_generation_Done ca snapshot config cert_der w manifest prepared rid pa w' :
  start_generation ca snapshot config cert_der w = (Done (manifest, prepared, rid, pa), w') ->
  exists source_end, ss_next_update snapshot = Some source_end /\
    prepare_for ca snapshot config (expiry_base snapshot config source_end) = Ok prepared.
Proof.
  unfold start_generation. intros H. apply io_bind_Done in H as ([[se base] pa'] & w1 & Ht & H).
  apply generation_times_Done in Ht as (t1 & t2 & t3 & _ & _ & Hse & _ & -> & _). inv_io. eauto.
Qed.

(** A production with a token is a production with a signer without a state, which gives
    for each encoding the answer that the token gave: with no two CertIDs under one key,
    nothing is signed twice.  What is proved of productions holds with tokens. *)
Theorem token_production_observed ca snapshot config token seal_fn cert_der s file s' :
  keys_apart ca snapshot config ->
  token_produce_bundle ca snapshot config token seal_fn cert_der s = (Done file, s') ->
  exists key, produce_bundle ca snapshot config key seal_fn cert_der s.1 = (Done file, s'.1) /\
    os_algorithm key = Ok (token_algorithm token) /\
    forall tbs sig, os_try_sign key tbs = Ok sig -> token_signed token tbs sig.
Proof.
  intros Hka H. unfold token_produce_bundle, producing, failing in H.
  apply live_bind_Done in H as ([[[manifest prepared] rid] pa] & s1 & [Hst%io_map_err_Done Hp1]%of_io_Done & H).
  apply live_bind_Done in H as (builder & s2 & [Hadd%hsm_map_err_Ok Hw2]%of_hsm_Done & H).
  apply of_io_Done in H as [H%io_map_err_Done _].
  destruct (start_generation_Done _ _ _ _ _ _ _ _ _ _ Hst) as (se & Hse & Hp).
  unfold token_sign_and_add in Hadd. apply hsm_bind_Ok in Hadd as (cert & p1 & [Hc ->]%hsm_lift_Ok & Hadd).
  apply token_fold_Ok in Hadd as (log & Hlog & Hadd). set (n := Nat.max (gc_bucket_size config) 1) in *.
  assert (0 < n)%nat as Hn by lia.
  assert (NoDup log.*1) as Hnd.
  { eapply log_distinct, buckets_data_distinct; [exact Hlog|by eapply prepared_buckets|].
    rewrite bucket_keys_join, chunks_concat by done. by eapply Hka. }
  exists (observed token log). split_and!; [|done|intros; by eapply observed_token].
  unfold produce_bundle, mbind, io_bind. rewrite Hst. unfold sign_and_add_entries. rewrite Hc.
  cbn [mbind result_bind]. fold n. rewrite Hadd; [|done|by apply observed_answers]. cbn. by rewrite <- Hw2.
Qed.
End observed.

(** ** Computations that leave the files alone *)

Section world_passive.
Context {CK : Cryptoki}.

(** Only the clock and the modules may move. *)
Definition world_passive {A} (m : live A) : Prop := forall s a s', m s = (Done a, s') ->
  same_files s.1 s'.1 /\ w_clock s'.1 `suffix_of` w_clock s.1.

Lemma wp_ret {A} (a : A) : world_passive (mret a).
Proof. intros s b s' [_ ->]%live_ret_Done. done. Qed.
Lemma wp_bind {A B} (m : live A) (f : A -> live B) :
  world_passive m -> (forall a, world_passive (f a)) -> world_passive (m ≫= f).
Proof.
  intros Hm Hf s b s' (a & s1 & [F1 C1]%Hm & [F2 C2]%Hf)%live_bind_Done. split; by etrans.
Qed.
Lemma wp_io {A} (m : io string A) : passive m -> world_passive (of_io m).
Proof. intros Hm s a s' [H _]%of_io_Done. by eapply passive_Done. Qed.
Lemma wp_hsm {A} (m : hsm string A) : world_passive (of_hsm m).
Proof. intros s a s' [_ ->]%of_hsm_Done. done. Qed.
Lemma passive_lift {A} (r : result string A) : passive (io_lift r).
Proof. split; eauto with hoike. Qed.
Lemma passive_read_clock : passive (E := string) read_clock.
Proof. split; eauto with hoike. Qed.
Lemma passive_io_fail {A} (e : string) : passive (A := A) (io_fail e).
Proof. split; eauto with hoike. Qed.
End world_passive.
#[local] Hint Resolve wp_ret wp_bind wp_io wp_hsm passive_lift passive_read_clock passive_io_fail : hoike.

Section scopes.
Context {CR : Crates} {SC : SealCrates} {JS : Json} {OC : OcspCrates} {SG : SignCrates}.
Context {SM : SealMaking} {CK : Cryptoki}.
Context {SH : Sha256Spec} {UU : UuidSpec} {CB : CiboriumSpec} {SGS : SignCratesSpec SG}.
Implicit Types (c : Config) (ca_config : CaConfig) (ca : CaIdentity) (snapshot : StatusSnapshot).
Implicit Types (config : GenerationConfig) (token : TokenSigner) (env : string -> option string) (b : Bundle).

Lemma load_live_key_passive env ca_config : world_passive (load_live_key env ca_config).
Proof.
  unfold load_live_key. destruct (ca_signing_key ca_config) as [[p| |]|]; eauto 10 with hoike.
  apply wp_bind; [|eauto with hoike]. apply wp_io. destruct (load_ecdsa_passive p). split; eauto with hoike.
Qed.

Lemma load_live_hsm_passive env ca_config : world_passive (load_live_hsm_material env ca_config).
Proof.
  unfold load_live_hsm_material. apply wp_bind; [apply load_live_key_passive|]. intros key.
  apply wp_bind; [apply wp_io, load_responder_cert_passive|]. intros [der|].
  - eauto 20 with hoike.
  - apply wp_bind; [|eauto with hoike]. apply wp_bind; [apply wp_io, decode_issuer_key_passive|].
    intros kb. destruct (is_demo ca_config); eauto 20 with hoike.
Qed.

Lemma open_ml_dsa_token_passive env ca_config : world_passive (open_ml_dsa_token env ca_config).
Proof.
  unfold open_ml_dsa_token. apply wp_bind; [eauto with hoike|]. intros config.
  apply wp_bind; [eauto with hoike|]. intros [P oid]. eauto 10 with hoike.
Qed.
Lemma open_ecdsa_token_passive env ca_config seal_key : world_passive (open_ecdsa_token env ca_config seal_key).
Proof. unfold open_ecdsa_token. eauto 20 with hoike. Qed.

(** Whatever the kind of key, a production of a scope is a production by some signer. *)
Lemma produce_scope_with_tokens_Done env ca_config ca snapshot config sk sc rc seed s file s' :
  keys_apart ca snapshot config ->
  produce_scope_bundle_with_tokens env ca_config ca snapshot config sk sc rc seed s = (Done file, s') ->
  exists key w1 seal_fn, produce_bundle ca snapshot config key seal_fn rc w1 = (Done file, s'.1) /\
    w_clock w1 `suffix_of` w_clock s.1.
Proof.
  intros Hka H. unfold produce_scope_bundle_with_tokens in H.
  assert (of_io (produce_scope_bundle ca_config ca snapshot config sk sc rc seed) s = (Done file, s') ->
    exists key w1 seal_fn, produce_bundle ca snapshot config key seal_fn rc w1 = (Done file, s'.1) /\
      w_clock w1 `suffix_of` w_clock s.1) as Hsoft.
  { intros [Hs _]%of_io_Done. apply produce_scope_bundle_Done in Hs as (key & w1 & seal_fn & Hrun & _ & Hc). eauto. }
  destruct (ca_signing_key ca_config) as [[]|]; try (by apply Hsoft).
  apply live_bind_Done in H as (token & s1 & Ho & H).
  assert (w_clock s1.1 `suffix_of` w_clock s.1) as Hc.
  { destruct (is_ml_dsa ca_config); [by apply open_ml_dsa_token_passive in Ho as [_ ?]
                                    |by apply open_ecdsa_token_passive in Ho as [_ ?]]. }
  apply token_production_observed in H as (key & Hrun & _); [|done]. eauto.
Qed.

(** The run from the snapshot on, as without tokens. *)
Lemma sign_snapshot_with_tokens_run env c ca_config ca snapshot complete ephemeral seed s signed s' :
  (forall config, keys_apart ca snapshot config) ->
  sign_snapshot_with_tokens env c ca_config ca snapshot complete ephemeral seed s = (Done signed, s') ->
  scope_run c ca_config ca snapshot complete s.1 signed s'.1.
Proof.
  intros Hka H. unfold sign_snapshot_with_tokens in H.
  apply live_bind_Done in H as (config & s4 & [Hset _]%of_io_Done & H).
  apply live_bind_Done in H as ([] & s7 & Hlive & H).
  apply live_bind_Done in H as (cert_der & s8 & [Hcert _]%of_io_Done & H).
  apply live_bind_Done in H as ([seal_key seal_cert] & s9 & [Hseal _]%of_io_Done & H).
  apply live_bind_Done in H as (file & s10 & Hfile & [-> ->]%live_ret_Done).
  apply generation_settings_Done in Hset as (C4 & _ & json & store & compat & completeness & -> & Hf & Hj & Hco & Hcm).
  assert (w_clock s7.1 `suffix_of` w_clock s4.1) as C5.
  { destruct (String.eqb _ _); [|by apply live_ret_Done in Hlive as [_ ->]].
    apply live_bind_Done in Hlive as (m & s5 & [_ C]%load_live_hsm_passive & [_ ->]%live_ret_Done). done. }
  destruct (passive_Done _ _ _ _ (load_responder_cert_passive _) Hcert) as [_ C6].
  destruct (passive_Done _ _ _ _ (load_seal_materials_passive _ _) Hseal) as [_ C7].
  apply produce_scope_with_tokens_Done in Hfile as (key & w11 & seal_fn & Hrun & C8); [|done].
  exists json, store, compat, completeness, cert_der, key, seal_fn, w11. split_and!; try done.
  by repeat (etrans; [eassumption|]).
Qed.

(** What is signed with a key of any kind, in a file or in a token, continues the state it
    was derived from: its epoch is the persisted mark of the CA key plus one, its scopes
    carry it, completeness is claimed only if the source proves it, and with the marks of
    the key level the bundle passes the rollback check of that state.  (No two CertIDs of
    a snapshot of the source share an entry key.) *)
Theorem token_scope_admissible env c ca_config source ephemeral seed s signed s' b :
  sign_ca_scope_with_tokens env c ca_config source ephemeral seed s = (Done signed, s') ->
  (forall ca, passive (rv_snapshot source ca)) ->
  (forall ca snapshot w1 w2, rv_snapshot source ca w1 = (Done snapshot, w2) ->
     forall config, keys_apart ca snapshot config) ->
  ca_jitter_secs ca_config < u64_lim ->
  clock_typed s.1 -> len (sc_bytes signed) < u32_lim -> from_bytes (sc_bytes signed) = Ok b ->
  exists kb, (exists w1 w2, decode_issuer_key ca_config w1 = (Done kb, w2)) /\
    continues_state c (rv_is_authoritative_complete source) kb signed b s.1.
Proof.
  intros H Hsrc Hka Hj Hclk Hlen Hb. unfold sign_ca_scope_with_tokens, failing in H.
  apply live_bind_Done in H as (name & s1 & [Hname _]%of_io_Done & H).
  apply live_bind_Done in H as (kb & s2 & [Hkb _]%of_io_Done & H).
  apply live_bind_Done in H as (snapshot & s3 & [Hsnap%io_map_err_Done _]%of_io_Done & H).
  destruct (passive_Done _ _ _ _ (decode_issuer_name_passive _) Hname) as [F1 C1].
  destruct (passive_Done _ _ _ _ (decode_issuer_key_passive _) Hkb) as [F2 C2].
  destruct (passive_Done _ _ _ _ (Hsrc _) Hsnap) as [F3 C3].
  exists kb. split; [eauto|].
  apply sign_snapshot_with_tokens_run, scope_run_continues with (b := b) in H; try done; [..|by eapply Hka].
  - unfold continues_state in *. destruct F1 as [E1 _ _], F2 as [E2 _ _], F3 as [E3 _ _].
    by rewrite <- E1, <- E2, <- E3.
  - eapply clock_typed_suffix, Hclk. by repeat (etrans; [eassumption|]).
Qed.

(** ** Signatures and separation *)

Context {SS : SealMakingSpec SM} {CS : CryptokiSpec CK}.

(** The handle of the signer is that of the key, as long as the process runs. *)
Definition token_holds (signer : Pkcs11Signer) (key : P256SigningKey) : Prop :=
  forall p, holds_key (pr_hsm p) (ps_session signer) (ps_key_handle signer) key.

Lemma token_signature signer key tbs sig :
  token_holds signer key -> token_signed (TokenEcdsa signer) tbs sig ->
  exists s, p256_signature_from_bytes sig = Ok s /\
    p256_verify_prehash (p256_verifying_key key) (sha256 tbs) s = true.
Proof.
  intros Hh (p & p' & H%hsm_map_err_Ok). pose proof (hsm_signature_verifies signer key tbs p (Hh p)) as Hv.
  by rewrite H in Hv.
Qed.


(** An ECDSA token is not opened for signing if its key is the seal key. *)
Theorem token_key_not_seal_key env ca_config seal_key s token s' :
  open_ecdsa_token env ca_config seal_key s = (Done token, s') ->
  exists signer, token = TokenEcdsa signer /\ forall key sk, token_holds signer key ->
    seal_key = SealEcdsaP256 sk -> p256_verifying_key sk <> p256_verifying_key key.
Proof.
  intros H. unfold open_ecdsa_token in H. apply live_bind_Done in H as (config & s1 & _ & H).
  apply live_bind_Done in H as (signer & s2 & _ & H). apply live_bind_Done in H as ([] & s3 & [Hd _]%of_hsm_Done & H).
  apply live_ret_Done in H as [-> _]. exists signer. split; [done|]. intros key sk Hh -> Heq.
  apply hsm_map_err_Ok in Hd. unfold token_distinct_seal_key in Hd.
  apply hsm_bind_Ok in Hd as (sig & p1 & Hs%hsm_map_err_Ok & Hd).
  apply hsm_bind_Ok in Hd as (der & p2 & [Hder%map_err_Ok ->]%hsm_lift_Ok & [Hd _]%hsm_lift_Ok).
  destruct (token_signature signer key _ sig Hh (ex_intro _ _ (ex_intro _ _ Hs))) as (der' & Hder' & Hv).
  rewrite Hder in Hder'. injection Hder' as <-. by rewrite Heq, Hv in Hd.
Qed.
End scopes.

(** ** A run *)

Module ToyToken.
Lemma toy_keys_apart : @keys_apart Toy.crates ToySign.ocsp ToySign.crates ToyGenerate.ca ToyGenerate.snapshot
  ToyGenerate.config.
Proof. intros source_end prepared [= <-] Hp. exact (proj1 (ToyGenerate.prepared_apart prepared Hp)). Qed.

Abbreviation produce := (@token_produce_bundle Toy.crates ToySign.ocsp ToySign.crates ToyHsm.cryptoki
  ToyGenerate.ca ToyGenerate.snapshot ToyGenerate.config (TokenEcdsa ToyHsm.signer) ToyGenerate.seal_fn (Some [x0c])).
Definition initial : World * Process := (ToyGenerate.world, ToyHsm.before).
Definition produced : option bytes := match (produce initial).1 with Done file => Some file | _ => None end.
Lemma produced_small : match produced with Some file => len file <? u32_lim | None => false end = true.
Proof. vm_compute. reflexivity. Qed.
End ToyToken.

