(* ===== verification/NodeLoops.v ===== *)
(** * NodeLoops: the tasks of a gossip node (hoike-gossip/src/node.rs)

    A node runs three tasks over one foca instance: the receive loop, the timer
    loop, and the joining of the seeds at its start.  They share foca and the
    queue of new timers, each behind a lock.  The tasks are state machines whose
    steps lie between the points where the code waits; an execution is any
    interleaving of them.  foca and its runtime are parameters.  Main results:
    every timer that foca asks for is handed back to it at most once, for its own
    request, never early, and, until then, is kept; every packet foca asks to send
    is sent once, to the address it is for; the tasks never block each other. *)

From stdpp Require Import base tactics list gmap strings relations.
From Stdlib Require Import NArith Lia.
From S2P Require Import Prelude Slices Crates Text CoreError Storage Config SignCrates Gossip GossipNode.
Local Open Scope N_scope.

(** ** foca's runtime *)

(** What a call accumulates in [AccumulatingRuntime]: packets to send and timers to
    schedule, first in first out.  Notifications are only logged. *)
Record Runtime (Addr Timer : Type) : Type := mkRuntime {
  rt_send : list (NodeId Addr * bytes);
  rt_schedule : list (N * Timer);
}.
Arguments mkRuntime {Addr Timer} _ _.
Arguments rt_send {Addr Timer} _.
Arguments rt_schedule {Addr Timer} _.

(** The calls of foca that use the runtime.  An error is logged and what was
    accumulated is kept. *)
Class FocaRuntime {GC : GossipCrates} {GN : GossipNet} := {
  Timer : Type;
  foca_handle_data : Foca -> bytes -> Foca * Runtime SocketAddr Timer;
  foca_handle_timer : Foca -> Timer -> Foca * Runtime SocketAddr Timer;
  foca_announce_to : Foca -> NodeId SocketAddr -> Foca * Runtime SocketAddr Timer;
}.

Section loops.
Context {GC : GossipCrates} {GN : GossipNet} {FR : FocaRuntime}.

Definition rt_empty : Runtime SocketAddr Timer := mkRuntime [] [].
Definition rt_app (a b : Runtime SocketAddr Timer) : Runtime SocketAddr Timer :=
  mkRuntime (rt_send a ++ rt_send b) (rt_schedule a ++ rt_schedule b).

(** The length of [buf]; a longer packet is truncated by [recv_from]. *)
Definition RECV_BUFFER : nat := 2048.

(** ** The bodies of the loops *)

(** The address a packet goes to. *)
Definition outgoing (to_data : NodeId SocketAddr * bytes) : SocketAddr * bytes := (ni_addr to_data.1, to_data.2).

(** [pending_timers.push((Instant::now() + duration, timer))] for each timer, with the
    readings of the clock. *)
Definition arm (readings : list N) (timers : list (N * Timer)) : list (N * Timer) :=
  zip_with (fun t dt => (t + dt.1, dt.2)) readings timers.

(** [pending_timers.retain(..)]: what is due, in order, and what remains. *)
Definition take_due (now : N) (pending : list (N * Timer)) : list (N * Timer) * list (N * Timer) :=
  (filter (fun dt => dt.1 <= now) pending, filter (fun dt => ~ dt.1 <= now) pending).

(** [for timer in due { .. }]. *)
Fixpoint handle_timers (foca : Foca) (due : list Timer) : Foca * Runtime SocketAddr Timer :=
  match due with
  | [] => (foca, rt_empty)
  | timer :: due =>
      let '(foca, rt) := foca_handle_timer foca timer in
      let '(foca, rest) := handle_timers foca due in
      (foca, rt_app rt rest)
  end.

(** ** The tasks *)

(** Where the receive loop is: waiting for a packet, waiting for foca with a packet, or
    draining a runtime. *)
Inductive Receiver :=
| RecvWait
| RecvLock (data : bytes)
| RecvDrain (sends : list (NodeId SocketAddr * bytes)) (timers : list (N * Timer)).

(** Where the timer loop is: waiting for the tick, waiting for foca with the timers that
    are due, or sending. *)
Inductive Ticker :=
| TickWait
| TickLock (due : list Timer)
| TickSend (sends : list (NodeId SocketAddr * bytes)).

(** Where the joining of seeds is: before the next seed, or draining a runtime while it
    holds foca. *)
Inductive Joiner :=
| JoinNext (seeds : list string)
| JoinDrain (sends : list (NodeId SocketAddr * bytes)) (timers : list (N * Timer)) (seeds : list string).

(** The tasks and what they share.  The last four components are a record of what happened:
    the timers foca asked for, with the time of the call, those that were taken as due, with
    the time and their deadline, those handed to foca, and the packets foca asked to send. *)
Record Loops : Type := mkLoops {
  lp_receiver : Receiver;
  lp_ticker : Ticker;
  lp_joiner : Joiner;
  lp_foca : Foca;
  lp_queue : list (N * Timer);
  lp_pending : list (N * Timer);
  lp_now : N;
  lp_sent : list (SocketAddr * bytes);
  lp_requests : list (N * (N * Timer));
  lp_fired : list (N * (N * Timer));
  lp_handed : list Timer;
  lp_packets : list (NodeId SocketAddr * bytes);
}.

(** foca's lock is held across a wait only by the joining of seeds. *)
Definition foca_held (j : Joiner) : bool := match j with JoinNext _ => false | JoinDrain _ _ _ => true end.

(** The requests of a runtime, at a time. *)
Definition asked (now : N) (rt : Runtime SocketAddr Timer) : list (N * (N * Timer)) := pair now <$> rt_schedule rt.

(** One step of one task.  Every rule is the code between two waits; [t] is a time not before
    the current one. *)
Inductive loop_step : Loops -> Loops -> Prop :=
(** the receive loop *)
| recv_packet p t k j f q pd now s rq fd hd pk :
    loop_step (mkLoops RecvWait k j f q pd now s rq fd hd pk)
              (mkLoops (RecvLock (take RECV_BUFFER p)) k j f q pd (now + t) s rq fd hd pk)
| recv_failed t k j f q pd now s rq fd hd pk :
    loop_step (mkLoops RecvWait k j f q pd now s rq fd hd pk) (mkLoops RecvWait k j f q pd (now + t) s rq fd hd pk)
| recv_handle b f' rt t k j f q pd now s rq fd hd pk :
    foca_held j = false -> foca_handle_data f b = (f', rt) ->
    loop_step (mkLoops (RecvLock b) k j f q pd now s rq fd hd pk)
              (mkLoops (RecvDrain (rt_send rt) (rt_schedule rt)) k j f' q pd (now + t) s
                 (rq ++ asked now rt) fd hd (pk ++ rt_send rt))
| recv_send to_data sends timers t k j f q pd now s rq fd hd pk :
    loop_step (mkLoops (RecvDrain (to_data :: sends) timers) k j f q pd now s rq fd hd pk)
              (mkLoops (RecvDrain sends timers) k j f q pd (now + t) (s ++ [outgoing to_data]) rq fd hd pk)
| recv_queue timers t k j f q pd now s rq fd hd pk :
    loop_step (mkLoops (RecvDrain [] timers) k j f q pd now s rq fd hd pk)
              (mkLoops RecvWait k j f (q ++ timers) pd (now + t) s rq fd hd pk)
(** the timer loop: a tick, with the readings of the clock while it collects and after *)
| tick readings later t due rest r j f q pd now s rq fd hd pk :
    length readings = length q -> Forall (fun x => now <= x <= later) readings -> now <= later ->
    take_due later (pd ++ arm readings q) = (due, rest) ->
    loop_step (mkLoops r TickWait j f q pd now s rq fd hd pk)
              (mkLoops r (if decide (due = []) then TickWait else TickLock due.*2) j f [] rest (later + t) s rq
                 (fd ++ (pair later <$> due)) hd pk)
| tick_handle due readings f' rt t r j f q pd now s rq fd hd pk :
    foca_held j = false -> handle_timers f due = (f', rt) ->
    length readings = length (rt_schedule rt) -> Forall (fun x => now <= x <= now + t) readings ->
    loop_step (mkLoops r (TickLock due) j f q pd now s rq fd hd pk)
              (mkLoops r (TickSend (rt_send rt)) j f' q (pd ++ arm readings (rt_schedule rt)) (now + t) s
                 (rq ++ asked now rt) fd (hd ++ due) (pk ++ rt_send rt))
| tick_send to_data sends t r j f q pd now s rq fd hd pk :
    loop_step (mkLoops r (TickSend (to_data :: sends)) j f q pd now s rq fd hd pk)
              (mkLoops r (TickSend sends) j f q pd (now + t) (s ++ [outgoing to_data]) rq fd hd pk)
| tick_done t r j f q pd now s rq fd hd pk :
    loop_step (mkLoops r (TickSend []) j f q pd now s rq fd hd pk) (mkLoops r TickWait j f q pd (now + t) s rq fd hd pk)
(** the joining of seeds *)
| join_seed seed addr seeds f' rt t r k f q pd now s rq fd hd pk :
    parse_socket_addr seed = Ok addr -> foca_announce_to f (mkNodeId addr "" 0) = (f', rt) ->
    loop_step (mkLoops r k (JoinNext (seed :: seeds)) f q pd now s rq fd hd pk)
              (mkLoops r k (JoinDrain (rt_send rt) (rt_schedule rt) seeds) f' q pd (now + t) s
                 (rq ++ asked now rt) fd hd (pk ++ rt_send rt))
| join_skip seed e seeds t r k f q pd now s rq fd hd pk :
    parse_socket_addr seed = Err e ->
    loop_step (mkLoops r k (JoinNext (seed :: seeds)) f q pd now s rq fd hd pk)
              (mkLoops r k (JoinNext seeds) f q pd (now + t) s rq fd hd pk)
| join_send to_data sends timers seeds t r k f q pd now s rq fd hd pk :
    loop_step (mkLoops r k (JoinDrain (to_data :: sends) timers seeds) f q pd now s rq fd hd pk)
              (mkLoops r k (JoinDrain sends timers seeds) f q pd (now + t) (s ++ [outgoing to_data]) rq fd hd pk)
| join_queue timers seeds t r k f q pd now s rq fd hd pk :
    loop_step (mkLoops r k (JoinDrain [] timers seeds) f q pd now s rq fd hd pk)
              (mkLoops r k (JoinNext seeds) f (q ++ timers) pd (now + t) s rq fd hd pk)
(** an announcement of this node, which takes the lock for one call *)
| api_broadcast data f' t r k j f q pd now s rq fd hd pk :
    foca_held j = false -> foca_add_broadcast f data = Ok f' ->
    loop_step (mkLoops r k j f q pd now s rq fd hd pk) (mkLoops r k j f' q pd (now + t) s rq fd hd pk).

(** The node after [GossipNode::start] spawned its tasks. *)
Definition spawned (foca : Foca) (seeds : list string) (now : N) : Loops :=
  mkLoops RecvWait TickWait (JoinNext seeds) foca [] [] now [] [] [] [] [].

(** ** Timers *)

(** The timers foca asked for that the timer loop has not collected. *)
Definition receiver_timers (r : Receiver) : list (N * Timer) :=
  match r with RecvDrain _ timers => timers | _ => [] end.
Definition joiner_timers (j : Joiner) : list (N * Timer) :=
  match j with JoinDrain _ timers _ => timers | _ => [] end.
Definition in_flight (l : Loops) : list (N * Timer) :=
  lp_queue l ++ receiver_timers (lp_receiver l) ++ joiner_timers (lp_joiner l).

(** The deadline of a timer is not before its request and its duration. *)
Definition armed (request : N * (N * Timer)) (deadline : N * Timer) : Prop :=
  deadline.2 = request.2.2 /\ request.1 + request.2.1 <= deadline.1.

(** The requests [rq] are those of the timers in flight [fl] and, one to one, those of the
    deadlines [dl]. *)
Definition conserved (rq : list (N * (N * Timer))) (fl dl : list (N * Timer)) (now : N) : Prop :=
  exists origins flight deadlines,
    rq ≡ₚ origins ++ flight /\ flight.*2 ≡ₚ fl /\ Forall (fun r => r.1 <= now) flight /\
    Forall2 armed origins deadlines /\ deadlines ≡ₚ dl.

Lemma fmap_pair_snd {A B} (a : A) (l : list B) : (pair a <$> l).*2 = l.
Proof. rewrite <- list_fmap_compose. apply list_fmap_id. Qed.

Lemma conserved_mono rq fl fl' dl dl' now t :
  fl ≡ₚ fl' -> dl ≡ₚ dl' -> conserved rq fl dl now -> conserved rq fl' dl' (now + t).
Proof.
  intros Hf Hd (o & f & d & H1 & H2 & H3 & H4 & H5). exists o, f, d. split_and!; [done|by rewrite H2| |done|by rewrite H5].
  eapply Forall_impl; [exact H3|]. cbn. lia.
Qed.

Lemma conserved_perm rq fl fl' dl dl' now :
  fl ≡ₚ fl' -> dl ≡ₚ dl' -> conserved rq fl dl now -> conserved rq fl' dl' now.
Proof. intros Hf Hd Hc. rewrite <- (N.add_0_r now). by eapply conserved_mono. Qed.

Lemma conserved_ask rq fl dl now rt :
  conserved rq fl dl now -> conserved (rq ++ asked now rt) (fl ++ rt_schedule rt) dl now.
Proof.
  intros (o & f & d & H1 & H2 & H3 & H4 & H5). exists o, (f ++ asked now rt), d. split_and!; try done.
  - by rewrite H1, app_assoc.
  - unfold asked. by rewrite fmap_app, H2, fmap_pair_snd.
  - apply Forall_app. split; [done|]. unfold asked. rewrite Forall_fmap. apply Forall_true. cbn. lia.
Qed.

Lemma armed_all now flight readings :
  length readings = length flight -> Forall (fun r => r.1 <= now) flight -> Forall (fun x => now <= x) readings ->
  Forall2 armed flight (arm readings flight.*2).
Proof.
  revert readings. induction flight as [|[s [d tm]] flight IH]; intros [|t readings]; cbn; try done.
  intros [= Hl] [Hs Hf]%Forall_cons [Ht Hr]%Forall_cons. constructor; [|by apply IH].
  unfold armed. cbn in *. split; [done|lia].
Qed.

Lemma conserved_arm rq q rest dl now readings :
  length readings = length q -> Forall (fun x => now <= x) readings ->
  conserved rq (q ++ rest) dl now -> conserved rq rest (dl ++ arm readings q) now.
Proof.
  intros Hl Hr (o & f & d & H1 & H2 & H3 & H4 & H5).
  symmetry in H2. apply Permutation_map_inv in H2 as (f' & Hm & Hp).
  symmetry in Hm. apply (fmap_app_inv snd) in Hm as (fq & fr & -> & -> & ->). rewrite Hp in H1, H3. apply Forall_app in H3 as [H3q H3r].
  exists (o ++ fq), fr, (d ++ arm readings fq.*2). split_and!; [by rewrite H1, app_assoc|done|done| |by rewrite H5].
  apply Forall2_app; [done|]. eapply armed_all; [by rewrite length_fmap in Hl|done|done].
Qed.

(** Every request is either in flight or was armed as exactly one timer, which is pending or
    was taken as due, and what was taken was due. *)
Record timers_ok (l : Loops) : Prop := {
  to_conserved : conserved (lp_requests l) (in_flight l) ((lp_fired l).*2 ++ lp_pending l) (lp_now l);
  to_due : Forall (fun fd => fd.2.1 <= fd.1 <= lp_now l) (lp_fired l);
  to_handed : (lp_fired l).*2.*2 = lp_handed l ++ match lp_ticker l with TickLock due => due | _ => [] end;
}.

Lemma take_due_perm now pending due rest :
  take_due now pending = (due, rest) -> pending ≡ₚ due ++ rest /\ Forall (fun dt => dt.1 <= now) due /\
    Forall (fun dt => now < dt.1) rest.
Proof.
  intros [= <- <-]. split_and!.
  - induction pending as [|x pending IH]; [done|]. rewrite !filter_cons.
    destruct (decide (x.1 <= now)); [rewrite decide_False by lia; cbn; by f_equiv|].
    rewrite decide_True by lia. rewrite IH at 1. apply Permutation_middle.
  - apply Forall_forall. intros x [Hx _]%list_elem_of_filter. done.
  - apply Forall_forall. intros x [Hx _]%list_elem_of_filter. lia.
Qed.

Lemma due_later (now t : N) (fired : list (N * (N * Timer))) :
  Forall (fun fd => fd.2.1 <= fd.1 <= now) fired -> Forall (fun fd => fd.2.1 <= fd.1 <= now + t) fired.
Proof. intros H. eapply Forall_impl; [exact H|]. cbn. lia. Qed.

Lemma tick_conserved rq q rest fired pd now later readings due pending :
  conserved rq (q ++ rest) (fired ++ pd) now -> length readings = length q ->
  Forall (fun x => now <= x <= later) readings -> take_due later (pd ++ arm readings q) = (due, pending) ->
  conserved rq rest ((fired ++ due) ++ pending) now.
Proof.
  intros Hc Hl Hr [Hp _]%take_due_perm.
  eapply conserved_perm; [done| |eapply (conserved_arm rq q rest _ now readings); [done| |exact Hc]].
  - by rewrite <- !app_assoc, Hp.
  - eapply Forall_impl; [exact Hr|]. cbn. lia.
Qed.

Lemma loop_step_timers l l' : loop_step l l' -> timers_ok l -> timers_ok l'.
Proof.
  intros H [Hc Hd Hh]. unfold in_flight in *.
  destruct H; cbn [lp_receiver lp_ticker lp_joiner lp_foca lp_queue lp_pending lp_now lp_requests lp_fired lp_handed
    receiver_timers joiner_timers] in *.
  all: split; unfold in_flight;
    cbn [lp_receiver lp_ticker lp_joiner lp_foca lp_queue lp_pending lp_now lp_requests lp_fired lp_handed
    receiver_timers joiner_timers] in *; try done; try (by apply due_later).
  all: try (eapply conserved_mono; [..|exact Hc]; solve_Permutation).
  all: try (eapply conserved_mono; [..|eapply conserved_ask; exact Hc]; solve_Permutation).
  - replace (later + t) with (now + (later - now + t)) by lia. rewrite fmap_app, fmap_pair_snd.
    eapply conserved_mono; [done..|]. by eapply tick_conserved.
  - apply Forall_app. apply take_due_perm in H2 as (_ & Hdue & _). split.
    + eapply Forall_impl; [exact Hd|]. cbn. lia.
    + rewrite Forall_fmap. eapply Forall_impl; [exact Hdue|]. cbn. lia.
  - rewrite !fmap_app, fmap_pair_snd, Hh, app_nil_r. by case_decide; subst.
  - eapply conserved_mono; [done| |eapply (conserved_arm _ (rt_schedule rt) _ (fd.*2 ++ pd) now readings); [done| |]].
    + by rewrite app_assoc.
    + eapply Forall_impl; [eassumption|]. cbn. lia.
    + eapply conserved_perm; [..|eapply conserved_ask; exact Hc]; solve_Permutation.
  - by rewrite app_nil_r.
Qed.

(** C31: every timer of foca is handed back to it for its own request, and none is lost.  Whatever
    the packets and their order, and however the receive loop, the timer loop, the joining of
    seeds and the announcements interleave: the timers that foca asked for are, one to one, those
    still on their way to the timer loop, those pending and those taken as due; a deadline is
    never before the request plus its duration; a timer is taken only at or after its deadline;
    and foca gets exactly the timers that were taken, in that order. *)
Theorem timers_exact foca seeds t0 l :
  rtc loop_step (spawned foca seeds t0) l -> timers_ok l.
Proof.
  intros H. assert (timers_ok (spawned foca seeds t0)) as H0.
  { split; [|constructor|done]. exists [], [], []. split_and!; constructor. }
  revert H0. induction H as [|l1 l2 l3 Hs _ IH]; [done|]. intros H0. by apply IH; eapply loop_step_timers.
Qed.

(** ** Packets *)

Definition unsent (l : Loops) : list (NodeId SocketAddr * bytes) :=
  match lp_receiver l with RecvDrain sends _ => sends | _ => [] end ++
  match lp_ticker l with TickSend sends => sends | _ => [] end ++
  match lp_joiner l with JoinDrain sends _ _ => sends | _ => [] end.

Lemma loop_step_packets l l' :
  loop_step l l' -> outgoing <$> lp_packets l ≡ₚ lp_sent l ++ (outgoing <$> unsent l) ->
  outgoing <$> lp_packets l' ≡ₚ lp_sent l' ++ (outgoing <$> unsent l').
Proof.
  intros H Hp. unfold unsent in *.
  destruct H; cbn [lp_receiver lp_ticker lp_joiner lp_packets lp_sent] in *; rewrite ?fmap_app in *; cbn in *.
  all: try case_decide; try done; try (by rewrite Hp; solve_Permutation).
Qed.

(** Every packet foca asks for is sent exactly once, to the address it is for. *)
Theorem packets_exact foca seeds t0 l :
  rtc loop_step (spawned foca seeds t0) l -> outgoing <$> lp_packets l ≡ₚ lp_sent l ++ (outgoing <$> unsent l).
Proof.
  intros H. assert (outgoing <$> lp_packets (spawned foca seeds t0) ≡ₚ
    lp_sent (spawned foca seeds t0) ++ (outgoing <$> unsent (spawned foca seeds t0))) as H0 by done.
  revert H0. induction H as [|l1 l2 l3 Hs _ IH]; [done|]. intros H0. by apply IH, (loop_step_packets l1).
Qed.

(** ** Locks *)

Lemma join_releases sends timers seeds r k f q pd now s rq fd hd pk :
  exists l', rtc loop_step (mkLoops r k (JoinDrain sends timers seeds) f q pd now s rq fd hd pk) l' /\
    lp_joiner l' = JoinNext seeds /\ lp_receiver l' = r /\ lp_ticker l' = k.
Proof.
  revert now s. induction sends as [|x sends IH]; intros now s.
  - eexists. split; [eapply rtc_once, (join_queue timers seeds 0)|done].
  - destruct (IH (now + 0) (s ++ [outgoing x])) as (l' & Hr & Hl). exists l'. split; [|done].
    eapply rtc_l; [apply join_send|exact Hr].
Qed.

(** Whether a task waits for the lock of foca. *)
Definition waits_for_foca (l : Loops) : Prop :=
  (exists data, lp_receiver l = RecvLock data) \/ (exists due, lp_ticker l = TickLock due).

Lemma handled_when_free l :
  foca_held (lp_joiner l) = false ->
  (forall data, lp_receiver l = RecvLock data -> exists l' sends timers, loop_step l l' /\ lp_receiver l' = RecvDrain sends timers) /\
  (forall due, lp_ticker l = TickLock due -> exists l' sends, loop_step l l' /\ lp_ticker l' = TickSend sends).
Proof.
  destruct l as [r k j f q pd now s rq fd hd pk]. cbn. intros Hj. split.
  - intros data ->. destruct (foca_handle_data f data) as [f' rt] eqn:E.
    eexists _, _, _. split; [eapply (recv_handle data f' rt 0); done|done].
  - intros due ->. destruct (handle_timers f due) as [f' rt] eqn:E.
    eexists _, _. split; [eapply (tick_handle due (replicate (length (rt_schedule rt)) now) f' rt 0)|done];
      [done|done|apply length_replicate|]. apply Forall_replicate. lia.
Qed.

(** The tasks never block each other for good: whoever waits for foca gets it after finitely many
    steps of the joining of seeds alone, which waits for no lock that is held. *)
Theorem never_blocked l :
  waits_for_foca l -> exists l1 l2, rtc loop_step l l1 /\ loop_step l1 l2 /\
    lp_receiver l1 = lp_receiver l /\ lp_ticker l1 = lp_ticker l /\
    (lp_receiver l2 <> lp_receiver l \/ lp_ticker l2 <> lp_ticker l).
Proof.
  intros Hw. assert (exists l1, rtc loop_step l l1 /\ lp_receiver l1 = lp_receiver l /\ lp_ticker l1 = lp_ticker l /\
    foca_held (lp_joiner l1) = false) as (l1 & H1 & Hr & Hk & Hj).
  { destruct l as [r k j f q pd now s rq fd hd pk]. destruct j as [seeds|sends timers seeds]; [by exists (mkLoops r k (JoinNext seeds) f q pd now s rq fd hd pk)|].
    destruct (join_releases sends timers seeds r k f q pd now s rq fd hd pk) as (l1 & ? & E & ? & ?).
    exists l1. by rewrite E. }
  destruct (handled_when_free l1 Hj) as [Ha Hb]. destruct Hw as [[data Hd]|[due Hd]].
  - destruct (Ha data) as (l2 & sends & timers & Hs & E); [congruence|]. exists l1, l2. split_and!; try done.
    left. by rewrite E, Hd.
  - destruct (Hb due) as (l2 & sends & Hs & E); [congruence|]. exists l1, l2. split_and!; try done.
    right. by rewrite E, Hd.
Qed.
End loops.

(** ** A run *)

Module ToyLoops.
Abbreviation addr := (@SocketAddr ToyGossip.crates ToyNode.net).
Definition peer (a : addr) : NodeId addr := mkNodeId a "peer" 0.
Definition answer (b : bytes) : Runtime addr bytes := mkRuntime [(peer 7, b)] [(5, b)].

(** A packet makes foca answer it and ask for a timer after five units. *)
#[export] Instance runtime : @FocaRuntime ToyGossip.crates ToyNode.net := {|
  Timer := bytes;
  foca_handle_data f b := (f, answer b);
  foca_handle_timer f b := (f, mkRuntime [(peer 8, b)] []);
  foca_announce_to f id := (f, mkRuntime [] []);
|}.
#[export] Existing Instances ToyGossip.crates ToyNode.net.
Definition before : Loops := spawned (FR := runtime) [] ["seed"%string] 100.
(** A packet arrives while a seed is joined; its timer is collected at 110, and taken at 120. *)
Definition after : Loops := mkLoops (FR := runtime) RecvWait (TickLock [[x61]]) (JoinNext []) [] [] [] 120
  [((7 : addr), [x61])] [(100, (5, [x61]))] [(120, (115, [x61]))] [] [(peer 7, [x61])].
Lemma loop_run : rtc loop_step before after.
Proof.
  eapply rtc_l; [apply (recv_packet [x61] 0)|]. eapply rtc_l; [by eapply (recv_handle _ _ _ 0)|].
  eapply rtc_l; [by eapply (join_seed "seed"%string (7946 : addr) [] _ _ 0)|]. eapply rtc_l; [apply (recv_send _ _ _ 0)|].
  eapply rtc_l; [apply (join_queue _ _ 0)|]. eapply rtc_l; [apply (recv_queue _ 0)|].
  eapply rtc_l; [by eapply (tick [110] 110 0); [|repeat constructor| |]|].
  eapply rtc_l; [by eapply (tick [] 120 0); [|constructor| |]|]. apply rtc_refl.
Qed.
End ToyLoops.

(** Collected at 110, the timer was due at 115 and was taken at 120. *)
Lemma timers_exact_witness :
  exists l, rtc loop_step ToyLoops.before l /\ Forall (fun fd => fd.2.1 <= fd.1 <= lp_now l) (lp_fired l) /\
    lp_fired l <> [].
Proof.
  exists ToyLoops.after. split; [exact ToyLoops.loop_run|]. split; [|discriminate].
  eapply timers_exact. exact ToyLoops.loop_run.
Defined.
