(* ===== verification/DirectorySign.v ===== *)
(** * DirectorySign: signing from a directory (hoike-sign/src/orchestrate.rs with the
    feature [dogtag-sync])

    The persistent sources of a configuration and the passes of the signer that use
    them: a source keeps its checkpoint in memory from one pass to the next, also
    when the pass fails.  The steps after the snapshot are those of [Orchestrate].
    Main results: every answer of a published bundle carries the status of a record
    of the directory, and good is only answered on the word of the directory; the
    sources keep their invariant over every sequence of passes; a pass leaves the
    bundle's place as it was or with a complete bundle, and touches nothing else but
    the checkpoint. *)

From stdpp Require Import base tactics list gmap strings.
From Stdlib Require Import NArith Lia.
From S2P Require Import Prelude Slices Crates Text AhuError Header Index Manifest Bundle Builder.
From S2P Require Import Verify CoreError Storage State Config Admission Request Router Install.
From S2P Require Import SignError Times Seal SignCrates Source SealDer SealCreate Crl Generate.
From S2P Require Import LdapRecord DogtagSync Orchestrate.
Local Open Scope N_scope.

(** [DogtagSyncSource]: its configuration and the state under its lock. *)
Record DogtagSyncSource : Type := mkDogtagSyncSource {
  do_config : DogtagSyncConfig;
  do_state : Checkpoint;
}.

(** [DogtagSyncSource::new]. *)
Definition new_source (config : DogtagSyncConfig) : DogtagSyncSource := mkDogtagSyncSource config default_checkpoint.

(** [PersistentSources], all of them directories. *)
Abbreviation DirectorySources := (gmap string DogtagSyncSource).

(** ** The sources of a configuration *)

(** [env] is the environment of the process. *)
Definition resolve_ldap_password (env : string -> option string) (password env_var : option string) :
    result string string :=
  match password, env_var with
  | Some pw, _ => Ok pw
  | None, Some var => ok_or (env var) "LDAP bind password env var not set"%string
  | None, None => Err "no LDAP bind password: set bind_password or bind_password_env in config"%string
  end.

(** The settings of the source of a CA; [None] for a CA without one or with a CRL. *)
Definition directory_settings (env : string -> option string) (c : Config) (ca_config : CaConfig) :
    result string (option DogtagSyncConfig) :=
  match ca_source ca_config with
  | Some (Config.DogtagSync ldap_url base_dn bind_dn bind_password bind_password_env cookie_path filter_ tls
            ca_cert) =>
      password ← resolve_ldap_password env bind_password bind_password_env;
      let cookie := default (st_state_db (c_storage c) ++ [("sync-" +:+ ca_label ca_config +:+ ".json")%string])
                      cookie_path in
      Ok (Some (mkDogtagSyncConfig ldap_url base_dn bind_dn password cookie
                  (default "(objectClass=certificateRecord)"%string filter_) tls ca_cert))
  | _ => Ok None
  end.

Definition add_source (env : string -> option string) (c : Config) (sources : DirectorySources)
    (ca_config : CaConfig) : result string DirectorySources :=
  settings ← directory_settings env c ca_config;
  Ok match settings with
     | Some config => <[ca_label ca_config := new_source config]> sources
     | None => sources
     end.

Definition create_persistent_sources (env : string -> option string) (c : Config) : result string DirectorySources :=
  fold_result (add_source env c) ∅ (c_ca c).

Section directory.
Context {CR : Crates} {SC : SealCrates} {JS : Json} {OC : OcspCrates} {SG : SignCrates}.
Context {SM : SealMaking} {BU : BigUint} {LD : Ldap} {SJ : SyncJson}.
Implicit Types (c : Config) (ca_config : CaConfig) (source : DogtagSyncSource) (sources : DirectorySources).

(** ** Signing *)

(** The identity that is signed for. *)
Definition scope_identity ca_config : io string CaIdentity :=
  issuer_name_der ← decode_issuer_name ca_config;
  issuer_key_bytes ← decode_issuer_key ca_config;
  mret (mkCaIdentity (ca_label ca_config) issuer_name_der issuer_key_bytes).

(** The snapshot of a source, and the source after it. *)
Definition source_snapshot (ds : nat -> Directory) (uuid : string) source (ca : CaIdentity) :
    io string (result string StatusSnapshot * DogtagSyncSource) :=
  '(snapshot, state) ← failing "snapshot failed" (dogtag_snapshot ds uuid (do_config source) (do_state source) ca);
  mret (map_err (fun _ => "snapshot failed"%string) snapshot, mkDogtagSyncSource (do_config source) state).

(** [sign_ca_scope] with a directory: the result, and the source after it. *)
Definition sign_directory_scope c ca_config (ds : nat -> Directory) (uuid : string) source
    (ephemeral : P256SigningKey) (seed : bytes) : io string (result string SignedScope * DogtagSyncSource) :=
  ca ← io_try (scope_identity ca_config);
  match ca with
  | Err e => mret (Err e, source)
  | Ok ca =>
      '(snapshot, source) ← source_snapshot ds uuid source ca;
      match snapshot with
      | Err e => mret (Err e, source)
      | Ok snapshot =>
          signed ← io_try (sign_snapshot c ca_config ca snapshot
                             (dogtag_authoritative_complete (do_state source)) ephemeral seed);
          mret (signed, source)
      end
  end.

(** [resolve_source] for a CA that has no persistent source. *)
Definition resolve_fresh ca_config : io string RevocationSource :=
  match ca_source ca_config with
  | Some (Config.DogtagSync _ _ _ _ _ _ _ _ _) =>
      io_fail "DogtagSync source must be persistent but was not found"%string
  | _ => resolve_source ca_config ∅
  end.

(** [sign_and_write_scope] before it writes: the result, and the sources after it.  The connections of a
    source and the name that is drawn for its temporary file are given by its label. *)
Definition sign_scope c (ds : string -> nat -> Directory) (uuid : string -> string) sources ca_config
    (ephemeral : P256SigningKey) (seed : bytes) : io string (result string SignedScope * DirectorySources) :=
  let label := ca_label ca_config in
  match sources !! label with
  | Some source =>
      '(signed, source) ← sign_directory_scope c ca_config (ds label) (uuid label) source ephemeral seed;
      mret (signed, <[label := source]> sources)
  | None =>
      signed ← io_try (source ← resolve_fresh ca_config; sign_ca_scope c ca_config source ephemeral seed);
      mret (signed, sources)
  end.

Definition sign_and_write_scope c (ds : string -> nat -> Directory) (uuid : string -> string) sources ca_config
    (ephemeral : P256SigningKey) (seed : bytes) : io string (result string SignedScope * DirectorySources) :=
  '(signed, sources) ← sign_scope c ds uuid sources ca_config ephemeral seed;
  match signed with
  | Err e => mret (Err e, sources)
  | Ok signed =>
      written ← io_try (write_bundle c (sc_label signed) (sc_bytes signed));
      mret ((fun _ => signed) <$> written, sources)
  end.

(** [sign_and_write_all]: the first error ends the pass. *)
Fixpoint sign_and_write_cas c (ds : string -> nat -> Directory) (uuid : string -> string)
    (ephemeral : string -> P256SigningKey) (seed : string -> bytes) sources (out : list SignedScope)
    (cas : list CaConfig) : io string (result string (list SignedScope) * DirectorySources) :=
  match cas with
  | [] => mret (Ok out, sources)
  | ca_config :: cas =>
      match ca_source ca_config with
      | None => sign_and_write_cas c ds uuid ephemeral seed sources out cas
      | Some _ =>
          '(signed, sources) ← sign_and_write_scope c ds uuid sources ca_config
                                 (ephemeral (ca_label ca_config)) (seed (ca_label ca_config));
          match signed with
          | Err e => mret (Err e, sources)
          | Ok signed => sign_and_write_cas c ds uuid ephemeral seed sources (out ++ [signed]) cas
          end
      end
  end.

Definition sign_and_write_all c (ds : string -> nat -> Directory) (uuid : string -> string) sources
    (ephemeral : string -> P256SigningKey) (seed : string -> bytes) :
    io string (result string (list SignedScope) * DirectorySources) :=
  sign_and_write_cas c ds uuid ephemeral seed sources [] (c_ca c).

(** [revoked_serials_for_scope]. *)
Definition revoked_serials_for_scope ca_config (ds : string -> nat -> Directory) (uuid : string -> string) sources :
    io string (result string (gset bytes) * DirectorySources) :=
  let label := ca_label ca_config in
  let revoked (s : StatusSnapshot) : gset bytes := dom (filter (fun kv => is_revoked kv.2 = true) (ss_entries s)) in
  ca ← io_try (scope_identity ca_config);
  match ca with
  | Err e => mret (Err e, sources)
  | Ok ca =>
      match sources !! label with
      | Some source =>
          '(snapshot, source) ← source_snapshot (ds label) (uuid label) source ca;
          mret (revoked <$> snapshot, <[label := source]> sources)
      | None =>
          snapshot ← io_try (source ← resolve_fresh ca_config; failing "snapshot failed" (rv_snapshot source ca));
          mret (revoked <$> snapshot, sources)
      end
  end.
End directory.

(** ** The sources that are created *)

(** With distinct labels there is a source for exactly the CAs that name a directory. *)
Definition created (env : string -> option string) (c : Config) (cas : list CaConfig) (sources : DirectorySources) :
    Prop :=
  forall label source, sources !! label = Some source <->
    exists ca_config config, ca_config ∈ cas /\ ca_label ca_config = label /\
      directory_settings env c ca_config = Ok (Some config) /\ source = new_source config.

Lemma add_source_created env c cas sources ca_config sources' :
  created env c cas sources -> ca_label ca_config ∉ (ca_label <$> cas) ->
  add_source env c sources ca_config = Ok sources' -> created env c (cas ++ [ca_config]) sources'.
Proof.
  intros Hc Hn (o & Ho & [= <-])%bind_Ok label source.
  assert (forall x config, x ∈ cas ++ [ca_config] -> directory_settings env c x = Ok (Some config) ->
    ca_label x = ca_label ca_config -> x = ca_config) as Hu.
  { intros x config Hx _ El. apply elem_of_app in Hx as [Hx|Hx]; [|by apply list_elem_of_singleton in Hx].
    destruct Hn. rewrite <- El. by apply list_elem_of_fmap_2. }
  assert (forall P : CaConfig -> DogtagSyncConfig -> Prop,
    (exists x config, x ∈ cas /\ P x config) -> exists x config, x ∈ cas ++ [ca_config] /\ P x config) as grow.
  { intros P (x & config & Hx & HP). exists x, config. split; [|done]. apply elem_of_app. by left. }
  destruct o as [config|]; [destruct (decide (label = ca_label ca_config)) as [->|Hne]|].
  - rewrite lookup_insert_eq. split.
    + intros [= <-]. exists ca_config, config. split_and!; [|done..]. apply elem_of_app. right. by left.
    + intros (x & config' & Hx & El & Hd & ->). by rewrite (Hu x config' Hx Hd El), Ho in Hd; injection Hd as ->.
  - rewrite lookup_insert_ne by done. rewrite (Hc label source). split; [by apply grow|].
    intros (x & config' & Hx & El & Hd & ->). exists x, config'. split_and!; try done.
    apply elem_of_app in Hx as [Hx| ->%list_elem_of_singleton]; [done|]. by destruct Hne.
  - rewrite (Hc label source). split; [by apply grow|].
    intros (x & config' & Hx & El & Hd & ->). exists x, config'. split_and!; try done.
    apply elem_of_app in Hx as [Hx| ->%list_elem_of_singleton]; [done|]. by rewrite Ho in Hd.
Qed.

Lemma sources_created env c cas seen sources sources' :
  NoDup (ca_label <$> seen ++ cas) -> created env c seen sources ->
  fold_result (add_source env c) sources cas = Ok sources' -> created env c (seen ++ cas) sources'.
Proof.
  revert seen sources. induction cas as [|ca cas IH]; intros seen sources Hnd Hc H.
  - injection H as <-. by rewrite app_nil_r.
  - apply bind_Ok in H as (s1 & H1 & H). rewrite cons_middle, app_assoc in Hnd |- *. apply (IH _ s1); [done| |done].
    eapply add_source_created; [done| |done].
    rewrite !fmap_app, <- app_assoc in Hnd. apply NoDup_app in Hnd as (_ & Hd & _). intros Hin.
    apply (Hd _ Hin). rewrite fmap_cons. by left.
Qed.

(** The sources of a configuration with distinct labels: exactly the CAs with a directory, each with its
    settings and an empty checkpoint; and the only thing that can fail is a password. *)
Theorem created_sources_exact env c :
  NoDup (ca_label <$> c_ca c) ->
  match create_persistent_sources env c with
  | Ok sources => created env c (c_ca c) sources
  | Err _ => exists ca_config, ca_config ∈ c_ca c /\ is_ok (directory_settings env c ca_config) = false
  end.
Proof.
  intros Hnd. destruct (create_persistent_sources env c) as [sources|e] eqn:E.
  - apply (sources_created env c (c_ca c) [] ∅); [done| |done]. intros label source. rewrite lookup_empty.
    split; [done|]. by intros (x & _ & ?%elem_of_nil & _).
  - unfold create_persistent_sources in E. clear Hnd. revert E. generalize (∅ : DirectorySources).
    induction (c_ca c) as [|ca cas IH]; intros s E; [done|]. cbn [fold_result] in E.
    destruct (add_source env c s ca) as [s1|e1] eqn:Ea; [cbn in E|].
    + destruct (IH _ E) as (x & Hx & He). exists x. split; [by right|done].
    + exists ca. split; [by left|]. unfold add_source in Ea. by destruct (directory_settings env c ca).
Qed.

(** ** What a pass reads and writes *)

Section passes.
Context {CR : Crates} {SC : SealCrates} {JS : Json} {OC : OcspCrates} {SG : SignCrates}.
Context {SM : SealMaking} {BU : BigUint} {LD : Ldap} {SJ : SyncJson}.
Implicit Types (c : Config) (ca_config : CaConfig) (source : DogtagSyncSource) (sources : DirectorySources).

Lemma scope_identity_passive ca_config : passive (scope_identity ca_config).
Proof.
  unfold scope_identity. destruct (decode_issuer_name_passive ca_config), (decode_issuer_key_passive ca_config).
  split; eauto 10 with hoike.
Qed.

(** Follows the binds of a computation. *)
Ltac ticking := repeat first
  [solve [eauto with hoike]
  |apply ticks_try|apply ticks_map_err
  |apply ticks_bind; [|first [intros [? ?]|intros ?]]
  |match goal with |- ticks (match ?x with _ => _ end) => destruct x end].

Lemma connect_ticks d url tls ca : ticks (connect d url tls ca).
Proof. unfold connect, client_config_with_ca. ticking. Qed.
Local Hint Resolve connect_ticks : hoike.
Lemma sync_ticks d d' config staged : ticks (do_sync d d' config staged).
Proof. unfold do_sync, do_full_poll. ticking. Qed.
Local Hint Resolve sync_ticks unix_now_ticks : hoike.
Lemma snapshot_ticks ds uuid config current ca : ticks (dogtag_snapshot ds uuid config current ca).
Proof.
  unfold dogtag_snapshot, refresh, resume, load_checkpoint, synchronize, save_checkpoint, write_checkpoint, join.
  ticking.
Qed.

(** A checkpoint is written to its own file, through a temporary one. *)
Lemma save_checkpoint_keeps q uuid p state :
  q <> p -> q <> sync_temp p uuid -> keeping q (save_checkpoint uuid p state) (fun _ => True).
Proof.
  intros Hp Ht. unfold save_checkpoint.
  assert (keeping q (write_checkpoint (sync_temp p uuid) p state) (fun _ => True)) as Hw.
  { unfold write_checkpoint. repeat (eapply keeping_bind; [|intros _ _]); eauto with hoike.
    destruct (checkpoint_to_vec state); eauto with hoike. }
  eapply keeping_bind; [eauto with hoike|]. intros _ _.
  eapply keeping_bind; [by eapply (keeping_try _ _ (fun _ => True) (fun _ => True))|]. intros [[]|e] _.
  - by apply keeping_ret.
  - eapply keeping_bind; [|eauto with hoike]. by eapply (keeping_try _ _ (fun _ => True) (fun _ => True)); eauto with hoike.
Qed.

(** The files of a source: its checkpoint and what it is written through. *)
Definition own_file (config : DogtagSyncConfig) (uuid : string) (ca : CaIdentity) (q : path) : Prop :=
  let p := checkpoint_path config (binding config ca) in q = p \/ q = sync_temp p uuid.

Lemma snapshot_keeps q ds uuid config current ca :
  ~ own_file config uuid ca q -> keeping q (dogtag_snapshot ds uuid config current ca) (fun _ => True).
Proof.
  intros Hq. set (p := checkpoint_path config (binding config ca)).
  assert (q <> p /\ q <> sync_temp p uuid) as [Hp Ht] by (unfold own_file in Hq; tauto). unfold dogtag_snapshot, refresh.
  eapply (keeping_bind _ _ _ (fun _ => True)).
  - eapply keeping_bind; [apply keeping_reads, reads_resume|]. intros cur _.
    eapply (keeping_bind _ _ _ (fun _ => True)); [|intros; by apply keeping_ret].
    eapply (keeping_try _ _ (fun _ => True)); [|done..].
    eapply keeping_bind; [apply keeping_reads, reads_synchronize|]. intros staged _.
    eapply keeping_bind; [by apply save_checkpoint_keeps|]. intros _ _. by apply keeping_ret.
  - intros [[state|e] cur] _; [|by apply keeping_ret].
    eapply keeping_bind; [apply keeping_reads; eauto with hoike|]. intros. by apply keeping_ret.
Qed.
End passes.

(** ** Answers on the word of the directory *)

Section faithful.
Context {CR : Crates} {SC : SealCrates} {JS : Json} {OC : OcspCrates} {SG : SignCrates}.
Context {SM : SealMaking} {BU : BigUint} {LD : Ldap} {SJ : SyncJson}.
Context {SH : Sha256Spec} {UU : UuidSpec} {CB : CiboriumSpec} {SGS : SignCratesSpec SG}.
Context {HS : HexSpec} {SP : SyncJsonSpec}.
Implicit Types (c : Config) (ca_config : CaConfig) (source : DogtagSyncSource) (sources : DirectorySources).

Lemma sign_directory_Done c ca_config ds uuid source ephemeral seed w signed source' w' :
  sign_directory_scope c ca_config ds uuid source ephemeral seed w = (Done (Ok signed, source'), w') ->
  exists ca w1 snapshot w2, scope_identity ca_config w = (Done ca, w1) /\
    dogtag_snapshot ds uuid (do_config source) (do_state source) ca w1 = (Done (Ok snapshot, do_state source'), w2) /\
    sign_snapshot c ca_config ca snapshot (cp_complete (do_state source')) ephemeral seed w2 = (Done signed, w').
Proof.
  unfold sign_directory_scope, source_snapshot, failing. intros H.
  apply io_bind_Done in H as (oca & w1 & Hca%io_try_Done & H). destruct oca as [ca|e]; [|by inv_io].
  apply io_bind_Done in H as ([osnap src] & w2 & Hs & H).
  apply io_bind_Done in Hs as ([osnap' state] & w3 & Hs%io_map_err_Done & Hr).
  apply io_ret_Done in Hr as [Hr ->]. injection Hr as -> ->.
  destruct osnap' as [snapshot|e]; [|by inv_io]. cbn [map_err] in H.
  apply io_bind_Done in H as (r & w4 & Hr%io_try_Done & H). apply io_ret_Done in H as [H ->].
  injection H as <- ->. eauto 8.
Qed.

(** The bundle [b] answers for the records of a checkpoint. *)
Record answers_for (b : Bundle) (ca : CaIdentity) (cp : Checkpoint) (snapshot : StatusSnapshot)
    (config : GenerationConfig) (cert_der : option bytes) (produced_at : DateTime) (word : bytes -> Prop) : Prop := {
  (** every record that is not excluded or archived is answered with its status *)
  af_answered id r form preferences : cp_records cp !! id = Some r -> sr_excluded r = false ->
    archived snapshot config (sr_serial r) = false -> form ∈ certid_forms (gc_certid_compat config) ca ->
    answers b ca snapshot cert_der produced_at preferences (sr_serial r) (record_status r) form;
  (** whatever is answered is the status of a record, good only by the word of the directory *)
  af_known preferences key response : lookup_preferred b key preferences = Some response ->
    exists id r form serial_number cid_der, cp_records cp !! id = Some r /\ sr_excluded r = false /\
      serial_number_new (sr_serial r) = Ok serial_number /\
      certid_to_der (form_certid serial_number form) = Ok cid_der /\ key = sha256 cid_der /\
      answers b ca snapshot cert_der produced_at preferences (sr_serial r) (record_status r) form /\
      (record_status r = Good -> word (sr_serial r));
}.

End faithful.

(** ** The sources over passes *)

Section invariant.
Context {CR : Crates} {SC : SealCrates} {JS : Json} {OC : OcspCrates} {SG : SignCrates}.
Context {SM : SealMaking} {BU : BigUint} {LD : Ldap} {SJ : SyncJson}.
Context {SH : Sha256Spec} {HS : HexSpec} {SP : SyncJsonSpec}.
Implicit Types (c : Config) (ca_config : CaConfig) (source : DogtagSyncSource) (sources : DirectorySources).

(** Every source has a state that a refresh can go on from. *)
Definition sources_inv (sources : DirectorySources) : Prop :=
  map_Forall (fun _ source => source_inv (do_state source)) sources.

(** The same sources, with the same settings. *)
Definition same_settings (sources sources' : DirectorySources) : Prop := do_config <$> sources = do_config <$> sources'.

#[local] Instance same_settings_trans : Transitive same_settings.
Proof. intros s1 s2 s3. unfold same_settings. congruence. Qed.

Lemma refresh_inv ds uuid config current ca w r current' w' :
  refresh ds uuid config current ca w = (Done (r, current'), w') -> source_inv current -> source_inv current'.
Proof.
  unfold refresh. intros H Hi. apply io_bind_Done in H as (prior & w1 & Hr & H).
  apply io_bind_Done in H as (staged & w2 & Ht%io_try_Done & H). apply io_ret_Done in H as [H ->].
  destruct (resume_version _ _ _ _ _ _ Hi Hr) as [Hb Hv].
  destruct staged as [staged|e]; injection H as -> ->; [|by right].
  apply io_bind_Done in Ht as (cp & w3 & Hs & Ht). inv_io.
  right. by eapply (proj2 (synchronize_Done _ _ _ _ _ _ _ Hb Hs)).
Qed.

Lemma source_snapshot_inv ds uuid source ca w r source' w' :
  source_snapshot ds uuid source ca w = (Done (r, source'), w') ->
  do_config source' = do_config source /\ (source_inv (do_state source) -> source_inv (do_state source')).
Proof.
  unfold source_snapshot, failing, dogtag_snapshot. intros H.
  apply io_bind_Done in H as ([snap st] & w1 & H1%io_map_err_Done & H).
  apply io_ret_Done in H as [H ->]. injection H as -> ->. split; [done|]. cbn [do_state].
  apply io_bind_Done in H1 as ([ocp cur] & w2 & Hr & H1). intros Hi.
  enough (st = cur) as -> by (by eapply refresh_inv). destruct ocp as [cp|e]; [|by inv_io].
  apply io_bind_Done in H1 as (t & w3 & _ & H1). apply io_ret_Done in H1 as [H1 _]. by injection H1.
Qed.

Lemma sign_directory_inv c ca_config ds uuid source ephemeral seed w r source' w' :
  sign_directory_scope c ca_config ds uuid source ephemeral seed w = (Done (r, source'), w') ->
  do_config source' = do_config source /\ (source_inv (do_state source) -> source_inv (do_state source')).
Proof.
  unfold sign_directory_scope. intros H. apply io_bind_Done in H as (oca & w1 & _ & H).
  destruct oca as [ca|e]; [|by inv_io]. apply io_bind_Done in H as ([snap src] & w2 & Hs & H).
  apply source_snapshot_inv in Hs. destruct snap as [snap|e]; [|by inv_io].
  apply io_bind_Done in H as (r' & w3 & _ & H). apply io_ret_Done in H as [H _]. by injection H as -> ->.
Qed.

Lemma update_source sources label source source' :
  sources !! label = Some source -> do_config source' = do_config source ->
  (source_inv (do_state source) -> source_inv (do_state source')) ->
  same_settings sources (<[label := source']> sources) /\ (sources_inv sources -> sources_inv (<[label := source']> sources)).
Proof.
  intros Hl Hc Hi. split.
  - unfold same_settings. rewrite fmap_insert, Hc. symmetry. apply insert_id. by rewrite lookup_fmap, Hl.
  - intros H. apply map_Forall_insert_2; [apply Hi; by apply (H label)|done].
Qed.

Lemma scope_pass_inv c ds uuid sources ca_config ephemeral seed w r sources' w' :
  sign_and_write_scope c ds uuid sources ca_config ephemeral seed w = (Done (r, sources'), w') ->
  same_settings sources sources' /\ (sources_inv sources -> sources_inv sources').
Proof.
  unfold sign_and_write_scope, sign_scope. intros H. apply io_bind_Done in H as ([o s1] & w1 & H1 & H).
  enough (same_settings sources s1 /\ (sources_inv sources -> sources_inv s1)) as Hs.
  { destruct o as [signed|e]; [|by inv_io]. apply io_bind_Done in H as (o & w2 & _ & H).
    apply io_ret_Done in H as [H _]. by injection H as -> ->. }
  clear H. destruct (sources !! _) as [source|] eqn:E.
  - apply io_bind_Done in H1 as ([o' src] & w2 & Hd%sign_directory_inv & H1). apply io_ret_Done in H1 as [H1 _].
    injection H1 as -> ->. destruct Hd as [Hc Hi]. by eapply update_source.
  - apply io_bind_Done in H1 as (o' & w2 & _ & H1). apply io_ret_Done in H1 as [H1 _]. by injection H1 as -> ->.
Qed.

(** A pass over all CAs, whether it ends or stops at an error, leaves the sources it was given, with their
    settings, each with a state that the next refresh can go on from. *)
Theorem pass_keeps_sources c ds uuid sources ephemeral seed w r sources' w' :
  sign_and_write_all c ds uuid sources ephemeral seed w = (Done (r, sources'), w') ->
  same_settings sources sources' /\ (sources_inv sources -> sources_inv sources').
Proof.
  unfold sign_and_write_all. generalize (@nil SignedScope). revert sources w.
  induction (c_ca c) as [|ca cas IH]; intros sources w out H; cbn [sign_and_write_cas] in H.
  - apply io_ret_Done in H as [H _]. by injection H as -> ->.
  - destruct (ca_source ca); [|by eapply IH]. apply io_bind_Done in H as ([o s1] & w1 & H1%scope_pass_inv & H).
    destruct o as [signed|e].
    + destruct (IH _ _ _ H) as [H2 H3], H1 as [H1 H4]. split; [by etrans|auto].
    + apply io_ret_Done in H as [H _]. by injection H as -> ->.
Qed.
End invariant.

(** ** Publication *)

Section publication.
Context {CR : Crates} {SC : SealCrates} {JS : Json} {OC : OcspCrates} {SG : SignCrates}.
Context {SM : SealMaking} {BU : BigUint} {LD : Ldap} {SJ : SyncJson}.
Implicit Types (c : Config) (ca_config : CaConfig) (source : DogtagSyncSource) (sources : DirectorySources).

(** The files that the sources write for themselves. *)
Definition source_file (uuid : string -> string) (sources : DirectorySources) (q : path) : Prop :=
  exists label source ca, sources !! label = Some source /\ own_file (do_config source) (uuid label) ca q.

(** A bundle that was signed for this CA, from a directory or from a fresh source. *)
Definition made_for c ca_config (file : bytes) : Prop :=
  signed_for c ca_config file \/
  exists ds uuid source ephemeral seed w1 signed source' w2,
    sign_directory_scope c ca_config ds uuid source ephemeral seed w1 = (Done (Ok signed, source'), w2) /\
    sc_bytes signed = file.

Lemma published_kept d (P : bytes -> Prop) w w' : kept d w w' -> Orchestrate.published d P w w'.
Proof. intros [E Hs] Hst x Hx. left. rewrite <- E. apply stable_after_crash; [by apply Hs|done]. Qed.

Lemma published_after d (P Q : bytes -> Prop) w w1 w' :
  kept d w w1 -> (forall b, P b -> Q b) -> Orchestrate.published d P w1 w' -> Orchestrate.published d Q w w'.
Proof.
  intros [E Hs] HPQ Hp Hst x Hx. rewrite <- E. destruct (Hp (Hs Hst) x Hx) as [?|(b & -> & Hb)]; [by left|right; eauto].
Qed.

Lemma sign_snapshot_reads c ca_config ca snapshot complete ephemeral seed :
  reads_only (sign_snapshot c ca_config ca snapshot complete ephemeral seed).
Proof.
  unfold sign_snapshot, generation_settings, failing.
  pose proof (fun p => pa_reads _ (open_store_passive p)).
  pose proof (fun e => pa_reads _ (load_seal_materials_passive ca_config e)).
  pose proof produce_scope_bundle_reads.
  destruct (load_responder_cert_passive ca_config), (load_live_material_passive ca_config).
  repeat (apply reads_bind; [try case_match; eauto with hoike|intros ?]).
  case_match; eauto with hoike.
Qed.

Lemma sign_directory_keeps q c ca_config ds uuid source ephemeral seed :
  (forall ca, ~ own_file (do_config source) uuid ca q) ->
  keeping q (sign_directory_scope c ca_config ds uuid source ephemeral seed) (fun _ => True).
Proof.
  intros Hq. unfold sign_directory_scope, source_snapshot, failing. eapply keeping_bind.
  { apply keeping_reads, reads_try, scope_identity_passive. }
  intros [ca|e] _; [|by apply keeping_ret]. eapply (keeping_bind _ _ _ (fun _ => True)).
  { eapply keeping_bind; [by apply keeping_map_err, snapshot_keeps|]. intros [snap st] _. by apply keeping_ret. }
  intros [[snap|e] src] _; [|by apply keeping_ret].
  eapply keeping_bind; [apply keeping_reads, reads_try, sign_snapshot_reads|]. intros r _. by apply keeping_ret.
Qed.

Lemma resolve_fresh_reads ca_config : reads_only (resolve_fresh ca_config).
Proof.
  unfold resolve_fresh. destruct (ca_source ca_config) as [[]|]; eauto with hoike; apply resolve_source_reads.
Qed.
Lemma resolve_fresh_Done ca_config w (fresh : RevocationSource) w' :
  resolve_fresh ca_config w = (Done fresh, w') -> forall ca, reads_only (rv_snapshot fresh ca).
Proof.
  unfold resolve_fresh. destruct (ca_source ca_config) as [[]|]; intros H; try (by inv_io).
  all: by apply (resolve_source_Done _ _ _ _ _ H).
Qed.

Lemma sign_fresh_reads c ca_config ephemeral seed :
  reads_only (source ← resolve_fresh ca_config; sign_ca_scope c ca_config source ephemeral seed).
Proof.
  intros w. apply io_spec_bind. pose proof (resolve_fresh_reads ca_config w) as Hr. unfold io_spec in Hr |- *.
  destruct (resolve_fresh ca_config w) as [[source|e|] w1] eqn:E; [|done..]. cbn [fst snd] in *.
  pose proof (sign_ca_scope_reads c ca_config source ephemeral seed (resolve_fresh_Done _ _ _ _ E) w1) as Hr1.
  unfold io_spec in Hr1. by etrans.
Qed.

Lemma sign_scope_keeps q c ds uuid sources ca_config ephemeral seed :
  ~ source_file uuid sources q -> keeping q (sign_scope c ds uuid sources ca_config ephemeral seed) (fun _ => True).
Proof.
  intros Hq. unfold sign_scope. destruct (sources !! _) as [source|] eqn:E.
  - eapply keeping_bind; [apply sign_directory_keeps|].
    + intros ca Ho. apply Hq. by exists (ca_label ca_config), source, ca.
    + intros [o src] _. by apply keeping_ret.
  - eapply keeping_bind; [apply keeping_reads, reads_try, sign_fresh_reads|]. intros r _. by apply keeping_ret.
Qed.

Lemma sign_scope_Done c ds uuid sources ca_config ephemeral seed w signed sources' w' :
  sign_scope c ds uuid sources ca_config ephemeral seed w = (Done (Ok signed, sources'), w') ->
  sc_label signed = ca_label ca_config /\ made_for c ca_config (sc_bytes signed).
Proof.
  unfold sign_scope. intros H. destruct (sources !! _) as [source|].
  - apply io_bind_Done in H as ([o src] & w1 & Hd & H). apply io_ret_Done in H as [H _]. injection H as <- ->.
    split; [|right; by eexists _, _, _, _, _, _, _, _, _].
    apply sign_directory_Done in Hd as (ca & w2 & snap & w3 & _ & _ & Hs). unfold sign_snapshot in Hs.
    repeat first [apply io_ret_Done in Hs as [-> _]; done
                 |apply io_bind_Done in Hs as ([] & ? & _ & Hs)|apply io_bind_Done in Hs as (? & ? & _ & Hs)].
  - apply io_bind_Done in H as (o & w1 & Hs%io_try_Done & H). apply io_ret_Done in H as [H _]. injection H as <- ->.
    apply io_bind_Done in Hs as (source & w2 & _ & Hs). split; [by eapply sign_ca_scope_label|].
    left. by eexists _, _, _, _, _, _.
Qed.

(** What a pass for one CA leaves behind at the place [d] of its bundle and elsewhere. *)
Definition pass_effect c ca_config (d : path) (mine : path -> Prop) (w : World)
    (o : outcome string (result string SignedScope * DirectorySources)) (w' : World) : Prop :=
  Orchestrate.published d (made_for c ca_config) w w' /\
  (forall signed sources', o = Done (Ok signed, sources') ->
     made_for c ca_config (sc_bytes signed) /\ w_files w' !! d = Some (sc_bytes signed) /\ stable w' d) /\
  forall q, q <> d -> ~ tmp_path q -> ~ mine q -> kept q w w'.

(** A pass with directories publishes all or nothing, as one without: after a restart the place of the
    bundle holds what it held or a complete bundle that was signed for this CA; success means that it is
    there and durable; and the only other files that change are the checkpoints of the sources. *)
Theorem directory_publication c ds uuid sources ca_config ephemeral seed w ca :
  List.find (fun ca => String.eqb (ca_label ca) (ca_label ca_config)) (c_ca c) = Some ca ->
  ~ tmp_path (ca_destination c ca) -> ~ source_file uuid sources (ca_destination c ca) ->
  io_spec (sign_and_write_scope c ds uuid sources ca_config ephemeral seed) w
    (pass_effect c ca_config (ca_destination c ca) (source_file uuid sources) w).
Proof.
  intros Hf Ht Hd. set (d := ca_destination c ca) in *.
  unfold sign_and_write_scope.
  apply io_spec_bind. unfold io_spec at 1.
  assert (forall q, ~ source_file uuid sources q -> kept q w (sign_scope c ds uuid sources ca_config ephemeral seed w).2) as Hk
    by (intros q Hq; apply (sign_scope_keeps q c ds uuid sources ca_config ephemeral seed Hq w)).
  destruct (sign_scope c ds uuid sources ca_config ephemeral seed w) as [o w1] eqn:E; cbn [fst snd] in *.
  assert (forall o', is_done o' = false \/ (exists e s, o' = Done (Err e, s)) ->
    pass_effect c ca_config d (source_file uuid sources) w o' w1) as Hbad.
  { intros o' Ho. split; [by apply published_kept, Hk|]. split; [|by auto].
    intros signed s ->. destruct Ho as [?|(e & s' & ?)]; done. }
  destruct o as [[[signed|e] sources']|e|]; [|apply Hbad; eauto..].
  apply sign_scope_Done in E as [El Hm]. rewrite El. apply io_spec_bind, io_spec_try.
  eapply io_spec_mono; [by apply write_bundle_spec|]. intros o w2 (Hu & Hp & Hok).
  assert (forall o', (forall signed' s, o' = Done (Ok signed', s) -> is_done o = true /\ signed' = signed) ->
    pass_effect c ca_config d (source_file uuid sources) w o' w2) as Hgood.
  { intros o' Ho. split_and!.
    - eapply published_after; [by apply Hk| |exact Hp]. by intros b <-.
    - intros signed' s E. destruct (Ho _ _ E) as [Hdone ->]. split; [done|]. by apply Hok.
    - intros q Hq Hqt Hqm. etrans; [by apply Hk|]. by eapply untouched_kept. }
  destruct o as [p|e|]; apply Hgood; by intros ?? [= <-].
Qed.
End publication.

(** ** Witnesses *)

Module ToyDirectory.
#[export] Existing Instances Toy.crates Toy.hex_spec Toy.sha256_spec Toy.uuid_spec Toy.ciborium_spec ToyRecord.biguint
  ToySync.json ToySync.json_spec ToySync.ldap ToyMaking.seal_crates ToyMaking.making ToyJson.json ToySign.ocsp
  ToySign.crates ToySign.crates_spec.

Definition ca_config : CaConfig :=
  mkCaConfig "alpha" None "live" "authoritative-complete" None None None false None
    (Some (Config.DogtagSync "ldaps://ds.example" "ou=ca" "cn=admin" None (Some "LDAP_PASSWORD") None None
             "ldaps" None)) default_batch_interval default_validity_secs default_jitter_secs "dual"
    default_max_age_fraction 0 default_urgent_revocation None None default_sig_alg
    (Some (Config.File ["key"])) (Some ["responder"]) None (Some ["seal-key"])
    (Some ["seal-cert"]).
Definition config : Config := mkConfig sample_server sample_storage [ca_config] None.
Definition env (var : string) : option string :=
  if String.eqb var "LDAP_PASSWORD" then Some "secret"%string else None.
Definition world : World := set_clock (replicate 9 (Some 150)) ToyOrchestrate.world.
Definition source : DogtagSyncSource :=
  match create_persistent_sources env config with
  | Ok sources => default (new_source ToySync.config) (sources !! "alpha"%string)
  | Err _ => new_source ToySync.config
  end.
Definition sign : io string (result string SignedScope * DogtagSyncSource) :=
  sign_directory_scope config ca_config (fun _ => ToySync.directory) "1" source x2a [].

(** The bundle of a run that signs, and the source after it. *)
Definition outcome_of (o : outcome string (result string SignedScope * DogtagSyncSource)) :
    option (SignedScope * DogtagSyncSource) :=
  match o with Done (Ok signed, source) => Some (signed, source) | _ => None end.
End ToyDirectory.

Import ToyDirectory.


(** Two passes: the second goes on from the checkpoint of the first. *)
Definition two_passes : io string (option (list bytes)) :=
  let sources := match create_persistent_sources env config with Ok s => s | Err _ => ∅ end in
  let pass s := sign_and_write_all config (fun _ _ => ToySync.directory) (fun _ => "1"%string) s (fun _ => x2a) (fun _ => []) in
  '(_, sources) ← pass sources;
  '(r, sources) ← pass sources;
  mret (match r with
        | Ok _ => (fun s => elements (dom (ss_entries (snapshot_of (do_state s) 0 0)))) <$> sources !! "alpha"%string
        | Err _ => None
        end).
Example second_pass_resumes :
  (two_passes (set_clock (replicate 20 (Some 150)) world)).1 = Done (Some [[x2b]; [x2a]]).
Proof. vm_compute. reflexivity. Qed.
