(* ===== verification/Routes.v ===== *)
(** * Routes: the surfaces of the server (hoike-server/src/lib.rs, admin/mod.rs, tls.rs,
    state.rs and the listeners of hoike-cli/src/main.rs)

    Which handlers each listener exposes, over which transport, and the whole admin
    API from the Authorization header to its effect.  axum's choice among the
    registered routes, rustls and the embedded files are parameters.  Main results:
    with an admin listener the public port serves OCSP only and the admin port never
    does; a listener with TLS configured is never served in the clear; no request
    without a live session of the required role changes anything or learns anything,
    and viewers change nothing at all. *)

From stdpp Require Import base tactics list gmap strings.
From Stdlib Require Import NArith Lia.
From S2P Require Import Prelude Slices Crates Text AhuError Header Index Manifest Bundle Builder Verify.
From S2P Require Import Ops CoreError Storage State Config Admission Request Router Install.
From S2P Require Import SignError Times Seal SignCrates Source SealDer SealCreate Crl Generate.
From S2P Require Import Orchestrate Live Handlers Sessions Gossip GossipNode AdminApi Startup Status.
Local Open Scope N_scope.

(** ** Routers *)

Inductive Method := MGet | MPost | MDelete.
#[export] Instance Method_eq_dec : EqDecision Method.
Proof. solve_decision. Defined.

(** The endpoints of the admin API. *)
Inductive AdminEndpoint :=
| EpLogin | EpLogout
| EpStatus | EpBundles | EpBundleDetail | EpCerts | EpRotation | EpGossip | EpConfig | EpState
| EpReload | EpInspect | EpVerify | EpDiff | EpExtract | EpApply
| EpSignAll | EpSignCa | EpRotateCa
| EpQuery.

(** What a route leads to. *)
Inductive Endpoint :=
| OcspPost | OcspGetRoot | OcspGet
| Admin (e : AdminEndpoint)
| StaticDir (dir : path)
| UiRedirect | UiIndex | UiFile
| Scrape.

(** A registered route: its methods ([None] for a nested service, which takes all), its pattern, its
    handler and the limit of its body, if one is set. *)
Record Route : Type := mkRoute {
  ro_method : option Method;
  ro_pattern : string;
  ro_endpoint : Endpoint;
  ro_limit : option N;
}.

Definition route (m : Method) (pattern : string) (e : Endpoint) : Route := mkRoute (Some m) pattern e None.

(** [Router::nest]. *)
Definition nest (prefix : string) (inner outer : list Route) : list Route :=
  outer ++ ((fun r => mkRoute (ro_method r) (prefix +:+ ro_pattern r) (ro_endpoint r) (ro_limit r)) <$> inner).

(** [layer(DefaultBodyLimit::max(..))]. *)
Definition body_limit (limit : N) (routes : list Route) : list Route :=
  (fun r => mkRoute (ro_method r) (ro_pattern r) (ro_endpoint r) (Some limit)) <$> routes.

Definition ADMIN_BODY_LIMIT : N := 64 * 1024 * 1024.

Definition build_admin_router : list Route :=
  body_limit ADMIN_BODY_LIMIT
    ((fun '(m, pattern, e) => route m pattern (Admin e)) <$>
     [(MPost, "/session", EpLogin); (MDelete, "/session", EpLogout);
      (MGet, "/status", EpStatus); (MGet, "/bundles", EpBundles); (MGet, "/bundles/{label}", EpBundleDetail);
      (MGet, "/certs", EpCerts); (MGet, "/rotation", EpRotation); (MGet, "/gossip", EpGossip);
      (MGet, "/config", EpConfig); (MGet, "/state", EpState);
      (MPost, "/bundles/reload", EpReload); (MPost, "/bundles/inspect", EpInspect);
      (MPost, "/bundles/verify", EpVerify); (MPost, "/bundles/diff", EpDiff);
      (MPost, "/bundles/extract", EpExtract); (MPost, "/bundles/apply", EpApply);
      (MPost, "/sign/all", EpSignAll); (MPost, "/sign/{label}", EpSignCa); (MPost, "/rotate/{label}", EpRotateCa);
      (MPost, "/query", EpQuery)]%string).

(** [embedded_ui::mount]. *)
Definition embedded_mount (app : list Route) : list Route :=
  app ++ [route MGet "/ui" UiRedirect; route MGet "/ui/" UiIndex; route MGet "/ui/{*path}" UiFile].

(** [mount_webui]; [embed_webui] is the feature of the build. *)
Definition mount_webui (embed_webui : bool) (app : list Route) (c : Config) : list Route :=
  match sv_webui (c_server c) with
  | Some (mkWebUiConfig (Some static_dir)) => app ++ [mkRoute None "/ui" (StaticDir static_dir) None]
  | Some (mkWebUiConfig None) => if embed_webui then embedded_mount app else app
  | None => app
  end.

Definition ocsp_routes : list Route :=
  [route MPost "/" OcspPost; route MGet "/" OcspGetRoot; route MGet "/{*path}" OcspGet; route MPost "/{*path}" OcspPost].

Definition build_router (embed_webui : bool) (c : Config) : list Route :=
  match sv_admin_listen (c_server c) with
  | Some _ => ocsp_routes
  | None => mount_webui embed_webui (nest "/api/admin" build_admin_router ocsp_routes) c
  end.

Definition build_admin_router_standalone (embed_webui : bool) (c : Config) : list Route :=
  mount_webui embed_webui (nest "/api/admin" build_admin_router []) c.

Definition build_metrics_router : list Route := [route MGet "/metrics" Scrape].

(** ** The embedded interface *)

Definition dot : Ascii.ascii := Ascii.ascii_of_N 46.

(** [path.rsplit('.').next()]. *)
Fixpoint path_extension_from (acc path : string) : string :=
  match path with
  | EmptyString => acc
  | String a path => if Ascii.eqb a dot then path_extension_from path path else path_extension_from acc path
  end.
Definition path_extension (path : string) : string := path_extension_from path path.

Definition mime_from_path (path : string) : string :=
  let e := path_extension path in
  if String.eqb e "html" then "text/html; charset=utf-8"
  else if String.eqb e "js" then "application/javascript; charset=utf-8"
  else if String.eqb e "css" then "text/css; charset=utf-8"
  else if String.eqb e "json" then "application/json"
  else if String.eqb e "svg" then "image/svg+xml"
  else if String.eqb e "png" then "image/png"
  else if String.eqb e "ico" then "image/x-icon"
  else if String.eqb e "woff2" then "font/woff2"
  else if String.eqb e "woff" then "font/woff"
  else "application/octet-stream".

(** [serve_path]: content type and contents, or [None] for 404; [get_file] is the embedded directory. *)
Definition serve_path (get_file : string -> option bytes) (path : string) : option (string * bytes) :=
  match get_file path with
  | Some file => Some (mime_from_path path, file)
  | None => (fun index => ("text/html; charset=utf-8"%string, index)) <$> get_file "index.html"%string
  end.
Definition serve_index (get_file : string -> option bytes) : option (string * bytes) := serve_path get_file "index.html".
Definition serve_file := serve_path.

(** ** Listeners (main.rs) *)

Inductive Transport := Plaintext | Tls (config : TlsConfig).

Record Listener : Type := mkListener {
  li_addr : string;
  li_router : list Route;
  li_transport : Transport;
}.

(** [serve_listener]; [tls_feature] is the feature of the build.  [None]: the listener is disabled. *)
Definition serve_listener (tls_feature : bool) (addr : string) (router : list Route) (tls : option TlsConfig) :
    option Listener :=
  match tls with
  | Some tls => if tls_feature then Some (mkListener addr router (Tls tls)) else None
  | None => Some (mkListener addr router Plaintext)
  end.

(** The listeners of a server: metrics, admin and OCSP. *)
Definition listeners (embed_webui tls_feature : bool) (c : Config) : list Listener :=
  let server := c_server c in
  option_list (addr ← sv_metrics_listen server;
               serve_listener tls_feature addr build_metrics_router (sv_metrics_tls server)) ++
  option_list (addr ← sv_admin_listen server;
               serve_listener tls_feature addr (build_admin_router_standalone embed_webui c) (sv_admin_tls server)) ++
  [mkListener (sv_listen server) (build_router embed_webui c) Plaintext].

(** ** TLS (tls.rs) *)

(** [rustls] and [rustls-pemfile]: the PEM readers and the checks of the builders. *)
Class Rustls := {
  TlsKey : Type;
  tls_pem_certs : bytes -> result string (list bytes);
  tls_pem_key : bytes -> result string (option TlsKey);
  with_protocol_versions : result string unit;
  roots_accept : bytes -> result string unit;
  build_verifier : list bytes -> result string unit;
  with_single_cert : list bytes -> TlsKey -> result string unit;
}.

(** The configuration of a listener: its chain and key, and the anchors that clients must chain to. *)
Record TlsServer `{!Rustls} : Type := mkTlsServer {
  ts_certs : list bytes;
  ts_key : TlsKey;
  ts_client_anchors : option (list bytes);
}.
Arguments mkTlsServer {_} _ _ _.
Arguments ts_certs {_} _.
Arguments ts_key {_} _.
Arguments ts_client_anchors {_} _.

Section tls.
Context {RU : Rustls}.

Definition load_certs (p : path) : io string (list bytes) :=
  file ← failing "opening certificate file" (read_file p);
  certs ← io_lift (map_err (fun _ => "parsing certificates"%string) (tls_pem_certs file));
  io_lift (ensure (negb (bool_decide (certs = []))) "no certificates found"%string) ;;
  mret certs.

Definition load_key (p : path) : io string TlsKey :=
  file ← failing "opening private key file" (read_file p);
  key ← io_lift (map_err (fun _ => "parsing private key"%string) (tls_pem_key file));
  io_lift (ok_or key "no private key found"%string).

Definition add_client_anchor (roots : list bytes) (anchor : bytes) : result string (list bytes) :=
  map_err (fun _ => "adding client CA anchor"%string) (roots_accept anchor) ;;
  Ok (roots ++ [anchor]).

Definition server_config (cert key : path) (client_ca : option path) : io string TlsServer :=
  certs ← load_certs cert;
  key ← load_key key;
  io_lift (map_err (fun _ => "TLS protocol version setup failed"%string) with_protocol_versions) ;;
  anchors ← match client_ca with
            | Some ca_path =>
                loaded ← load_certs ca_path;
                roots ← io_lift (fold_result add_client_anchor [] loaded);
                io_lift (map_err (fun _ => "building client-cert verifier"%string) (build_verifier roots)) ;;
                mret (Some roots)
            | None => mret None
            end;
  io_lift (map_err (fun _ => "loading server certificate/key"%string) (with_single_cert certs key)) ;;
  mret (mkTlsServer certs key anchors).

Definition server_config_from (tls : TlsConfig) : io string TlsServer :=
  server_config (tls_cert tls) (tls_key tls) (tls_client_ca tls).

(** [serve_router_tls] up to the accept loop. *)
Definition serve_router_tls {Addr} (parse_addr : string -> result string Addr) (addr : string) (router : list Route)
    (tls : TlsConfig) : io string (Addr * list Route * TlsServer) :=
  sock ← io_lift (map_err (fun _ => "invalid address"%string) (parse_addr addr));
  config ← server_config_from tls;
  mret (sock, router, config).

(** A certificate file of [w], and what it holds. *)
Definition cert_file (w : World) (p : path) (certs : list bytes) : Prop :=
  certs <> [] /\ exists b, w_files w !! p = Some b /\ tls_pem_certs b = Ok certs.

Lemma load_certs_Done p w certs w' : load_certs p w = (Done certs, w') -> cert_file w p certs /\ same_files w w'.
Proof.
  unfold load_certs, failing. intros H. inv_io.
  rename select (read_file _ _ = _) into Hr. apply read_file_Done in Hr as [Hf Hs].
  rename select (negb _ = true) into Hn. apply negb_true_iff, bool_decide_eq_false in Hn.
  split; [|done]. split; [done|eauto].
Qed.

Lemma anchors_added l roots roots' : fold_result add_client_anchor roots l = Ok roots' -> roots' = roots ++ l.
Proof.
  revert roots. induction l as [|a l IH]; intros roots H; cbn in H.
  - injection H as <-. by rewrite app_nil_r.
  - apply bind_Ok in H as (r & (? & _ & [= <-])%bind_Ok & H). apply IH in H as ->. by rewrite <- app_assoc.
Qed.

(** The trusted path of a management listener: a configuration is only built with a non-empty chain and a
    key from the configured files; if [client_ca] is set, clients must chain to exactly the certificates of
    that file, of which there is at least one; and only without it are clients not asked for one. *)
Theorem server_config_sound tls w config w' :
  server_config_from tls w = (Done config, w') ->
  cert_file w (tls_cert tls) (ts_certs config) /\
  (exists b, w_files w !! tls_key tls = Some b /\ tls_pem_key b = Ok (Some (ts_key config))) /\
  with_single_cert (ts_certs config) (ts_key config) = Ok tt /\
  match tls_client_ca tls, ts_client_anchors config with
  | Some ca, Some anchors => cert_file w ca anchors
  | None, None => True
  | _, _ => False
  end.
Proof.
  unfold server_config_from, server_config, load_key, failing. intros H.
  apply io_bind_Done in H as (certs & w1 & [Hc S1]%load_certs_Done & H).
  apply io_bind_Done in H as (key & w2 & Hk & H). apply io_bind_Done in H as ([] & w3 & [_ ->]%io_lift_Done & H).
  apply io_bind_Done in H as (anchors & w4 & Ha & H).
  apply io_bind_Done in H as ([] & w5 & [Hs%map_err_Ok ->]%io_lift_Done & H). apply io_ret_Done in H as [-> ->].
  cbn [ts_certs ts_key ts_client_anchors].
  inv_io. rename select (read_file _ _ = _) into Hr. apply read_file_Done in Hr as [Hf S2].
  split_and!; [done|..|done|].
  - subst. eexists. split; [|eassumption]. by rewrite <- (sf_files _ _ S1).
  - destruct (tls_client_ca tls) as [ca|]; [|by inv_io].
    apply io_bind_Done in Ha as (loaded & w6 & [[Hne (b & Hb & Hl)] _]%load_certs_Done & Ha). inv_io.
    rename select (fold_result _ _ _ = _) into Hfold. apply anchors_added in Hfold as ->.
    split; [done|]. exists b. split; [|done]. by rewrite <- (sf_files _ _ S1), <- (sf_files _ _ S2).
Qed.
End tls.

(** ** Separation of the surfaces *)

(** axum's router: the endpoint a request reaches. *)
Class Axum := { axum_dispatch : list Route -> Method -> string -> option Endpoint }.

(** A pattern without captures. *)
Definition is_literal (pattern : string) : bool :=
  negb (existsb (Ascii.eqb (Ascii.ascii_of_N 123)) (String.list_ascii_of_string pattern)).

(** A registered route for this method. *)
Definition registers (routes : list Route) (m : Method) (pattern : string) (e : Endpoint) : Prop :=
  exists r, r ∈ routes /\ (ro_method r = Some m \/ ro_method r = None) /\ ro_pattern r = pattern /\ ro_endpoint r = e.

(** The documented behaviour: a request only reaches a registered endpoint, and a literal pattern takes
    precedence over captures and wildcards. *)
Class AxumSpec (AX : Axum) : Prop := {
  dispatch_registered routes m p e : axum_dispatch routes m p = Some e -> exists pattern, registers routes m pattern e;
  dispatch_literal routes m p e : is_literal p = true -> registers routes m p e ->
    (forall e', registers routes m p e' -> e' = e) -> axum_dispatch routes m p = Some e;
}.

Definition is_ocsp (e : Endpoint) : bool := match e with OcspPost | OcspGetRoot | OcspGet => true | _ => false end.
Definition is_management (e : Endpoint) : bool :=
  match e with Admin _ | StaticDir _ | UiRedirect | UiIndex | UiFile => true | _ => false end.

(** All endpoints of a router satisfy a predicate. *)
Definition all_endpoints (P : Endpoint -> bool) (routes : list Route) : Prop :=
  Forall (fun r => P (ro_endpoint r) = true) routes.

Lemma mount_endpoints P embed app c :
  (forall e, is_management e = true -> P e = true) -> all_endpoints P app -> all_endpoints P (mount_webui embed app c).
Proof.
  intros HP Ha. unfold mount_webui, embedded_mount, all_endpoints in *.
  destruct (sv_webui (c_server c)) as [[[dir|]]|]; [|destruct embed|]; try done;
    apply Forall_app; (split; [done|]); repeat constructor; cbn; by apply HP.
Qed.

Lemma nested_endpoints P prefix inner outer :
  all_endpoints P inner -> all_endpoints P outer -> all_endpoints P (nest prefix inner outer).
Proof. intros Hi Ho. apply Forall_app. split; [done|]. apply Forall_fmap. by eapply Forall_impl; [exact Hi|]. Qed.

Lemma admin_endpoints : all_endpoints (fun e => match e with Admin _ => true | _ => false end) build_admin_router.
Proof. unfold build_admin_router, body_limit. repeat constructor. Qed.

Section separation.
Context {AX : Axum} {AS : AxumSpec AX}.

Lemma dispatch_endpoints P routes m p e :
  all_endpoints P routes -> axum_dispatch routes m p = Some e -> P e = true.
Proof.
  intros HP (pattern & r & Hr & _ & _ & <-)%dispatch_registered.
  by apply (proj1 (Forall_forall _ _) HP).
Qed.

(** The endpoints registered for a method under a pattern. *)
Definition endpoints_at (routes : list Route) (m : Method) (p : string) : list Endpoint :=
  ro_endpoint <$> filter (fun r => (ro_method r = Some m \/ ro_method r = None) /\ ro_pattern r = p) routes.

Lemma dispatch_only routes m p e :
  is_literal p = true -> endpoints_at routes m p = [e] -> axum_dispatch routes m p = Some e.
Proof.
  intros Hl He. assert (forall e', registers routes m p e' <-> e' ∈ endpoints_at routes m p) as Hr.
  { intros e'. unfold registers, endpoints_at. rewrite list_elem_of_fmap. split.
    - intros (r & Hin & Hm & Hp & <-). exists r. rewrite list_elem_of_filter. done.
    - intros (r & -> & ((Hm & Hp) & Hin)%list_elem_of_filter). eauto 6. }
  apply dispatch_literal; [done|apply Hr; rewrite He; by left|].
  intros e' Hin%Hr. rewrite He in Hin. by apply list_elem_of_singleton.
Qed.

(** The endpoint of the admin API that a path without captures names, under both layouts. *)
Theorem admin_mounted embed c outer r m :
  outer = [] \/ outer = ocsp_routes -> r ∈ build_admin_router -> ro_method r = Some m -> is_literal (ro_pattern r) = true ->
  axum_dispatch (mount_webui embed (nest "/api/admin" build_admin_router outer) c) m ("/api/admin" +:+ ro_pattern r)
    = Some (ro_endpoint r).
Proof.
  intros Ho Hr Hm Hl.
  assert (forall webui, Forall (fun r => forall m, ro_method r = Some m -> is_literal (ro_pattern r) = true ->
    is_literal ("/api/admin" +:+ ro_pattern r) = true /\
    endpoints_at (mount_webui embed (nest "/api/admin" build_admin_router outer)
      (mkConfig (mkServerConfig "" "" 0 None webui None None None None) (c_storage c) (c_ca c) None))
      m ("/api/admin" +:+ ro_pattern r) = [ro_endpoint r]) build_admin_router) as H.
  { intros webui. unfold build_admin_router at 2, body_limit.
    repeat (constructor; [intros m' [= <-] Hl'; first
      [by vm_compute in Hl'
      |split; [reflexivity|destruct Ho as [-> | ->], webui as [[[dir|]]|], embed; vm_compute; reflexivity]]|]).
    constructor. }
  specialize (H (sv_webui (c_server c))). rewrite Forall_forall in H. destruct (H r Hr m Hm Hl) as [Hl' He].
  by apply dispatch_only.
Qed.

(** With an admin listener, whatever a client of the public port asks for reaches an OCSP handler; the
    admin port reaches the admin API and the web interface but never an OCSP handler; and the metrics port
    only the metrics.  Without one, the public port has all of both. *)
Theorem surfaces_separated embed c m p e :
  (axum_dispatch (build_router embed c) m p = Some e -> is_Some (sv_admin_listen (c_server c)) -> is_ocsp e = true) /\
  (axum_dispatch (build_admin_router_standalone embed c) m p = Some e -> is_management e = true) /\
  (axum_dispatch build_metrics_router m p = Some e -> e = Scrape) /\
  (axum_dispatch (build_router embed c) m p = Some e -> e <> Scrape).
Proof.
  split_and!.
  - intros Hd [a Ha]. unfold build_router in Hd. rewrite Ha in Hd. by eapply dispatch_endpoints, Hd; repeat constructor.
  - intros Hd. eapply dispatch_endpoints, Hd. apply mount_endpoints; [done|].
    apply nested_endpoints; [|constructor]. eapply Forall_impl; [apply admin_endpoints|]. cbn. intros r. by destruct (ro_endpoint r).
  - intros Hd. assert ((match e with Scrape => true | _ => false end) = true) as He
      by (by eapply (dispatch_endpoints (fun e => match e with Scrape => true | _ => false end)), Hd; repeat constructor).
    by destruct e.
  - intros Hd ->.
    enough (all_endpoints (fun e => match e with Scrape => false | _ => true end) (build_router embed c)) as Ha
      by (by pose proof (dispatch_endpoints _ _ _ _ _ Ha Hd)).
    unfold build_router.
    destruct (sv_admin_listen (c_server c)); [by repeat constructor|].
    apply mount_endpoints; [by intros []|]. apply nested_endpoints; [|by repeat constructor].
    eapply Forall_impl; [apply admin_endpoints|]. cbn. intros r. by destruct (ro_endpoint r).
Qed.
End separation.

(** A listener for which TLS is configured is served over TLS or not at all, and clear text is served on
    the admin and metrics addresses only if no TLS is configured for them; the public port has none. *)
Theorem management_transport tls_feature addr router tls l :
  serve_listener tls_feature addr router tls = Some l ->
  li_addr l = addr /\ li_router l = router /\
  match tls with Some t => li_transport l = Tls t /\ tls_feature = true | None => li_transport l = Plaintext end.
Proof. unfold serve_listener. destruct tls as [t|]; [destruct tls_feature|]; intros H; simplify_eq; done. Qed.

(** ** The admin API *)

Section api.
Context {CR : Crates} {SC : SealCrates} {JS : Json} {OC : OcspCrates} {SG : SignCrates}.
Context {SM : SealMaking} {GC : GossipCrates} {GN : GossipNet}.
Context {RC : RotationCommand}.
Context (JsonValue : Type) (json_value : bytes -> result string JsonValue).
Implicit Types (st : AdminContext) (auth : Authenticated).

(** A request to an endpoint behind a session, with what its other extractors deliver. *)
Inductive AdminCall :=
| CallStatus (uptime_secs : N)
| CallBundles
| CallBundleDetail (label : string)
| CallCerts
| CallRotation
| CallGossip
| CallConfig
| CallState
| CallReload
| CallInspect (body : bytes)
| CallVerify (body : bytes)
| CallDiff (a b : bytes)
| CallExtract (certid : string) (body : bytes)
| CallApply (base : bytes) (deltas : list bytes)
| CallSignAll (ephemeral : string -> P256SigningKey) (seed : string -> bytes)
| CallSignCa (label : string) (ephemeral : P256SigningKey) (seed : bytes)
| CallRotateCa (label : string)
| CallQuery (serial issuer_name_hash issuer_key_hash : string) (prefer : list string).

Definition endpoint_of (call : AdminCall) : AdminEndpoint :=
  match call with
  | CallStatus _ => EpStatus | CallBundles => EpBundles | CallBundleDetail _ => EpBundleDetail
  | CallCerts => EpCerts | CallRotation => EpRotation | CallGossip => EpGossip | CallConfig => EpConfig
  | CallState => EpState | CallReload => EpReload | CallInspect _ => EpInspect | CallVerify _ => EpVerify
  | CallDiff _ _ => EpDiff | CallExtract _ _ => EpExtract | CallApply _ _ => EpApply
  | CallSignAll _ _ => EpSignAll | CallSignCa _ _ _ => EpSignCa | CallRotateCa _ => EpRotateCa
  | CallQuery _ _ _ _ => EpQuery
  end.

Inductive AdminAnswer :=
| AnsStatus (s : ServerStatus)
| AnsBundles (b : list ScopeDetail * N)
| AnsBundleDetail (d : string * N * string)
| AnsCerts (certs : list (string * CertInfo Name))
| AnsRotation (rows : list RotationRow)
| AnsGossip (fleet : bool * option FleetView)
| AnsConfig (v : ConfigView)
| AnsState (v : StateView JsonValue)
| AnsReload (n : nat * N)
| AnsInspect (b : Manifest * bool * nat)
| AnsVerify (v : BundleVerdict)
| AnsDiff (d : DiffResult)
| AnsExtract (response : option bytes)
| AnsApply (r : ApplyResult)
| AnsSigned (s : SignedAnswer)
| AnsRotated (label : string)
| AnsQuery (q : QueryAnswer).

(** The answer of a handler that leaves the context alone; [None] is a panic. *)
Definition view {A} st (ans : A -> AdminAnswer) (r : result Refusal A) :
    io string (option (result Refusal AdminAnswer) * AdminContext) := mret (Some (ans <$> r), st).
Definition view_panicking {A} st (ans : A -> AdminAnswer) (r : option (result Refusal A)) :
    io string (option (result Refusal AdminAnswer) * AdminContext) := mret ((fun r : result Refusal A => ans <$> r) <$> r, st).
Definition view_io {A} st (ans : A -> AdminAnswer) (m : io string (result Refusal A)) :
    io string (option (result Refusal AdminAnswer) * AdminContext) := r ← m; view st ans r.
Definition act {A} (ans : A -> AdminAnswer) (m : io string (result Refusal A * AdminContext)) :
    io string (option (result Refusal AdminAnswer) * AdminContext) := '(r, st) ← m; view st ans r.

(** The handler of each endpoint. *)
Definition admin_handle st auth (call : AdminCall) : io string (option (result Refusal AdminAnswer) * AdminContext) :=
  match call with
  | CallStatus uptime_secs => view st AnsStatus (get_status st auth uptime_secs)
  | CallBundles => view_panicking st AnsBundles (get_bundles st auth)
  | CallBundleDetail label => view_panicking st AnsBundleDetail (get_bundle_detail st auth label)
  | CallCerts => view_io st AnsCerts (get_certs st auth)
  | CallRotation => view_io st AnsRotation (get_rotation st auth)
  | CallGossip => act AnsGossip (get_gossip st auth)
  | CallConfig => view st AnsConfig (get_config st auth)
  | CallState => view_io st AnsState (get_state JsonValue json_value st auth)
  | CallReload => act AnsReload (reload_bundles st auth)
  | CallInspect body => view st AnsInspect (inspect_bundle auth body)
  | CallVerify body => view_io st AnsVerify (io_try (verify_bundle (c_storage (ax_config st)) auth body))
  | CallDiff a b => view st AnsDiff (diff_bundles auth a b)
  | CallExtract certid body => view st AnsExtract (extract_entry auth certid body)
  | CallApply base deltas => view st AnsApply (apply_deltas auth base deltas)
  | CallSignAll ephemeral seed => act AnsSigned (sign_all st auth ephemeral seed)
  | CallSignCa label ephemeral seed => act AnsSigned (sign_ca st auth label ephemeral seed)
  | CallRotateCa label => act AnsRotated (rotate_ca st auth label)
  | CallQuery serial inh ikh prefer => view_panicking st AnsQuery (ocsp_query st auth serial inh ikh prefer)
  end.

(** A request with its header, at the instant [t]: the extractor [Authenticated] runs before the handler. *)
Definition serve_admin (sessions : gmap string Session) st (authorization : option string) (t : N)
    (call : AdminCall) : io string (option (result Refusal AdminAnswer) * gmap string Session * AdminContext) :=
  match authenticate_request sessions authorization t with
  | (Err e, sessions) => mret (Some (Err e), sessions, st)
  | (Ok auth, sessions) => '(r, st) ← admin_handle st auth call; mret (r, sessions, st)
  end.

(** *** Who may do what *)

(** The role each endpoint is for, as the comments of the route table have it. *)
Definition min_role (call : AdminCall) : OperatorRole :=
  match call with
  | CallStatus _ | CallBundles | CallBundleDetail _ | CallCerts | CallRotation | CallGossip | CallConfig | CallState
  | CallExtract _ _ | CallQuery _ _ _ _ => Viewer
  | CallReload | CallInspect _ | CallVerify _ | CallDiff _ _ | CallApply _ _ | CallSignAll _ _ | CallSignCa _ _ _ => Operator
  | CallRotateCa _ => Administrator
  end.

(** The endpoints that act on the server. *)
Definition acts (call : AdminCall) : bool :=
  match call with CallReload | CallSignAll _ _ | CallSignCa _ _ _ | CallRotateCa _ => true | _ => false end.

Lemma acts_role call : acts call = true -> rank Operator <= rank (min_role call).
Proof. by destruct call. Qed.

(** The header names a session that has not expired and has at least this role. *)
Definition authorized (sessions : gmap string Session) (authorization : option string) (t : N) (min : OperatorRole) : bool :=
  match (token ← extract_bearer_token authorization; sessions !! token) with
  | Some session => (t <=? se_expires_at session) && has_at_least (se_role session) min
  | None => false
  end.

(** The context after a read: at most old generations of the fleet are dropped. *)
Definition viewed st st' : Prop :=
  ax_responder st' = ax_responder st /\ ax_config st' = ax_config st /\ ax_signer st' = ax_signer st /\
  ax_live_signers st' = ax_live_signers st /\
  (ax_gossip st' = ax_gossip st \/
   exists node now, ax_gossip st = Some node /\
     ax_gossip st' = Some (with_generations node (retain_recent now (gn_generations node)))).

Lemma refused_below st auth call w :
  rank (au_role auth) < rank (min_role call) ->
  admin_handle st auth call w = (Done (Some (Err (mkRefusal 403 "insufficient permissions")), st), w).
Proof.
  intros Hr. apply require_role_Err in Hr as E. destruct call; cbn [min_role] in E.
  all: unfold admin_handle, view, view_panicking, view_io, act, get_status, get_bundles, get_bundle_detail, get_certs,
    get_rotation, get_gossip, get_config, get_state, reload_bundles, inspect_bundle, verify_bundle, diff_bundles,
    extract_entry, apply_deltas, sign_all, sign_ca, rotate_ca, ocsp_query; by rewrite E.
Qed.

Lemma viewed_refl st : viewed st st.
Proof. split_and!; try done. by left. Qed.

(** What a call that does not act leaves behind. *)
Definition only_viewed st (m : io string (option (result Refusal AdminAnswer) * AdminContext)) : Prop :=
  forall w, io_spec m w (fun o w' => same_files w w' /\ forall r st', o = Done (r, st') -> viewed st st').

Lemma view_only {A} st (ans : A -> AdminAnswer) r : only_viewed st (view st ans r).
Proof. intros w. split; [done|]. intros ? st' Heq. injection Heq as _ <-. apply viewed_refl. Qed.
Lemma view_panicking_only {A} st (ans : A -> AdminAnswer) r : only_viewed st (view_panicking st ans r).
Proof. intros w. split; [done|]. intros ? st' Heq. injection Heq as _ <-. apply viewed_refl. Qed.
Lemma view_io_only {A} st (ans : A -> AdminAnswer) m : reads_only m -> only_viewed st (view_io st ans m).
Proof.
  intros Hm w. apply io_spec_bind. eapply io_spec_mono; [apply Hm|]. intros [r|e|] w1 Hs; [|done..].
  split; [done|]. intros ? st' Heq. injection Heq as _ <-. apply viewed_refl.
Qed.

Lemma format_cert_info_reads b : reads_only (format_cert_info b).
Proof. unfold format_cert_info. eauto 10 with hoike. Qed.

Lemma get_certs_reads st auth : reads_only (get_certs st auth).
Proof.
  unfold get_certs, add_cert_info. pose proof format_cert_info_reads. destruct (require_role _ _); [|eauto with hoike].
  apply reads_bind; [|eauto with hoike]. apply reads_fold. intros certs ca.
  destruct (ca_responder_cert ca); [|eauto with hoike]. apply reads_bind; [eauto with hoike|].
  intros [b|e]; eauto with hoike.
Qed.
Lemma get_rotation_reads st auth : reads_only (get_rotation st auth).
Proof.
  unfold get_rotation, add_rotation. assert (forall b n, reads_only (check_rotation_needed b n)) as Hc.
  { intros b n. unfold check_rotation_needed. apply reads_bind; [eauto with hoike|]. intros cert.
    apply reads_bind; [eauto with hoike|]. intros t. repeat case_match; eauto with hoike. }
  destruct (require_role _ _); [|eauto with hoike].
  apply reads_bind; [|eauto with hoike]. apply reads_fold. intros rows ca.
  destruct (ca_responder_cert ca); [|eauto with hoike]. apply reads_bind; [eauto with hoike|].
  intros [b|e]; eauto with hoike.
Qed.
Lemma get_state_reads st auth : reads_only (get_state JsonValue json_value st auth).
Proof. unfold get_state. destruct (require_role _ _); eauto with hoike. Qed.
Lemma verify_bundle_reads storage auth body : reads_only (verify_bundle storage auth body).
Proof.
  unfold verify_bundle. pose proof authenticate_reads.
  do 5 (apply reads_bind; [eauto with hoike|intros ?]). apply reads_bind; [eauto with hoike|]. intros [seal|e]; eauto with hoike.
Qed.

Lemma get_gossip_only st auth : only_viewed st (act AnsGossip (get_gossip st auth)).
Proof.
  intros w. unfold act, get_gossip, now_unix, generations, now_unix.
  destruct (require_role _ _) as [[]|e]; [|by apply (view_only st AnsGossip (Err e))].
  destruct (ax_gossip st) as [node|] eqn:Eg; [|by apply (view_only st AnsGossip (Ok _))].
  apply io_spec_bind.
  apply (io_spec_mono _ _ (fun o w' => same_files w w' /\ forall r st', o = Done (r, st') -> viewed st st')).
  2: { intros [[r st1]|e|] w1 [Hs Hv]; [|by split..]. split; [done|]. intros r' st' Heq. injection Heq as _ <-.
       by eapply Hv. }
  apply io_spec_bind, io_spec_bind. eapply io_spec_mono; [apply reads_clock|]. intros [t|e|] w1 H1; [|by split..].
  apply io_spec_bind, io_spec_bind, io_spec_bind. eapply io_spec_mono; [apply reads_clock|].
  intros [t'|e|] w2 H2; [|by split; [etrans|]..]. split; [by etrans|]. intros r st' Heq.
  injection Heq as _ <-. split_and!; try done. right. by exists node, (default 0 t').
Qed.

Lemma idle_only_views st auth call : acts call = false -> only_viewed st (admin_handle st auth call).
Proof.
  intros Ha. destruct call; try done; unfold admin_handle; cbv beta;
    first [apply view_only|apply view_panicking_only|apply view_io_only|apply get_gossip_only].
  - apply get_certs_reads.
  - apply get_rotation_reads.
  - apply get_state_reads.
  - apply reads_try, verify_bundle_reads.
Qed.

(** C24: the admin API is closed to whoever has no live session of the role its endpoint is for.  For
    every endpoint behind a session and every Authorization header: without an unexpired session of at
    least that role, the answer is 401 or 403, no file, no state of the server and no session is touched
    (an expired one is dropped), and nothing else is disclosed.  With one, an endpoint that does not act
    changes no file and nothing in the server but for generations of the fleet that have grown old; and
    the endpoints that act are for operators and administrators. *)
Theorem admin_surface_guarded sessions st authorization t call w :
  let '(o, w') := serve_admin sessions st authorization t call w in
  if authorized sessions authorization t (min_role call) then
    (acts call = false -> same_files w w' /\
       forall r sessions' st', o = Done (r, sessions', st') -> sessions' = sessions /\ viewed st st') /\
    (acts call = true -> exists token session, extract_bearer_token authorization = Some token /\
       sessions !! token = Some session /\ rank Operator <= rank (se_role session))
  else exists e sessions', o = Done (Some (Err e), sessions', st) /\ w' = w /\ rf_status e ∈ [401; 403] /\
    (forall token session, sessions' !! token = Some session -> sessions !! token = Some session) /\
    (forall token session, sessions !! token = Some session -> t <= se_expires_at session ->
       sessions' !! token = Some session).
Proof.
  unfold serve_admin, authorized, authenticate_request.
  destruct (extract_bearer_token authorization) as [token|]; cbn [mbind option_bind];
    [|eexists _, _; split_and!; [done|done|set_solver|done|done]].
  destruct (sessions !! token) as [session|] eqn:Es; [|eexists _, _; split_and!; [done|done|set_solver|done|done]].
  destruct (N.ltb_spec (se_expires_at session) t) as [He|He].
  { replace (t <=? se_expires_at session) with false by (symmetry; apply N.leb_gt; lia). cbn [andb].
    eexists _, _. split_and!; [done|done|set_solver|..].
    - intros token' s' [_ Hs]%lookup_delete_Some. done.
    - intros token' s' Hs Ht. rewrite lookup_delete_ne; [done|]. intros ->. rewrite Es in Hs. injection Hs as ->. lia. }
  replace (t <=? se_expires_at session) with true by (symmetry; apply N.leb_le; lia). cbn [andb].
  set (auth := mkAuthenticated _ _). destruct (has_at_least (se_role session) (min_role call)) eqn:Hr.
  - apply N.leb_le in Hr. destruct ((admin_handle st auth call ≫= _) w) as [o w'] eqn:E. split.
    + intros Ha. pose proof (idle_only_views st auth call Ha w) as Hv. unfold io_spec in Hv. cbv [mbind io_bind mret io_ret] in E.
      destruct (admin_handle st auth call w) as [[[r st1]|e|] w1]; cbn [fst snd] in Hv; simplify_eq; [|by split; [apply Hv|]..].
      split; [apply Hv|]. intros r' sessions' st' Heq. simplify_eq. split; [done|]. by eapply Hv.
    + intros Ha%acts_role. exists token, session. split_and!; [done|done|lia].
  - apply N.leb_gt in Hr. cbv [mbind io_bind]. rewrite refused_below by done.
    eexists _, _. split_and!; [done|done|set_solver|done|done].
Qed.
End api.

(** ** The application state (state.rs) *)

Section assembly.
Context {CR : Crates} {SC : SealCrates} {JS : Json} {OC : OcspCrates} {SG : SignCrates}.
Context {SM : SealMaking} {GC : GossipCrates} {GN : GossipNet}.
Context {RC : RotationCommand} {HC : HttpClients}.
Implicit Types (app : Started).

(** [AppState::new]. *)
Definition app_new (responder : ResponderState) (c : Config) : io string Started :=
  forward_clients ← build_forward_clients c;
  mret (mkStarted (mkAdminContext responder c None None ∅) forward_clients).

Definition forward_client_for app (label : string) : option (ForwardClient RootCert) := sr_forward_clients app !! label.

Definition with_live_signer_for app (label : string) (live : LiveSignerState OcspSigner) : Started :=
  mkStarted (with_live (sr_context app) (<[label := live]> (ax_live_signers (sr_context app)))) (sr_forward_clients app).

(** [with_live_signer]: the assertion fails unless exactly one CA has live nonces. *)
Definition with_live_signer app (live : LiveSignerState OcspSigner) : option Started :=
  match ca_label <$> List.filter (fun ca => String.eqb (ca_nonce_policy ca) "live") (c_ca (ax_config (sr_context app))) with
  | [label] => Some (with_live_signer_for app label live)
  | _ => None
  end.

Definition live_signer_for app (label : string) : option (LiveSignerState OcspSigner) :=
  ax_live_signers (sr_context app) !! label.

Definition with_signer_context app (sources : PersistentSources) : Started :=
  let st := sr_context app in
  mkStarted (mkAdminContext (ax_responder st) (ax_config st) (Some sources) (ax_gossip st) (ax_live_signers st))
    (sr_forward_clients app).

Definition with_gossip app (node : GossipNode) : Started :=
  mkStarted (with_gossip_node (sr_context app) (Some node)) (sr_forward_clients app).

(** The signer that is attached for a CA serves that CA and no other. *)
Theorem live_signer_own app label live label' :
  live_signer_for (with_live_signer_for app label live) label' =
  if decide (label = label') then Some live else live_signer_for app label'.
Proof. unfold live_signer_for, with_live_signer_for. cbn. by rewrite lookup_insert. Qed.

(** The builder for a single CA attaches the signer to the one CA with live nonces, or panics. *)
Theorem with_live_signer_single app live :
  match with_live_signer app live with
  | Some app' => exists ca, ca ∈ c_ca (ax_config (sr_context app)) /\ ca_nonce_policy ca = "live"%string /\
      app' = with_live_signer_for app (ca_label ca) live /\
      forall ca', ca' ∈ c_ca (ax_config (sr_context app)) -> ca_nonce_policy ca' = "live"%string -> ca' = ca
  | None => length (List.filter (fun ca => String.eqb (ca_nonce_policy ca) "live") (c_ca (ax_config (sr_context app)))) <> 1%nat
  end.
Proof.
  unfold with_live_signer.
  assert (forall ca, ca ∈ List.filter (fun ca => String.eqb (ca_nonce_policy ca) "live") (c_ca (ax_config (sr_context app))) <->
    ca ∈ c_ca (ax_config (sr_context app)) /\ ca_nonce_policy ca = "live"%string) as Hin.
  { intros ca. by rewrite !list_elem_of_In, filter_In, String.eqb_eq. }
  destruct (List.filter _ _) as [|ca [|]]; cbn; try done.
  exists ca. destruct (proj1 (Hin ca) ltac:(by left)) as [H1 H2]. split_and!; try done.
  intros ca' H3 H4. by apply list_elem_of_singleton, Hin.
Qed.

(** [run_server] builds its state with these: the state after startup is that of [new], with what was
    attached to it. *)
Theorem assembled responder c clients (sources : option PersistentSources) gossip live :
  let app := mkStarted (mkAdminContext responder c None None ∅) clients in
  let app := map_fold (fun label l app => with_live_signer_for app label l) app live in
  let app := match sources with Some s => with_signer_context app s | None => app end in
  let app := match gossip with Some g => with_gossip app g | None => app end in
  app = mkStarted (mkAdminContext responder c sources gossip live) clients.
Proof.
  cbv zeta.
  assert (map_fold (fun label l app => with_live_signer_for app label l)
    (mkStarted (mkAdminContext responder c None None ∅) clients) live =
    mkStarted (mkAdminContext responder c None None live) clients) as ->.
  { apply (map_fold_weak_ind (fun app m => app = mkStarted (mkAdminContext responder c None None m) clients)); [done|].
    intros label l m app _ ->. done. }
  by destruct sources, gossip.
Qed.
End assembly.

(** ** Witnesses *)

(** A router that only knows literal paths. *)
Module ToyAxum.
#[export] Instance axum : Axum := { axum_dispatch routes m p := head (endpoints_at routes m p) }.

#[export] Instance axum_spec : AxumSpec axum.
Proof.
  assert (forall routes m p e, registers routes m p e <-> e ∈ endpoints_at routes m p) as Hr.
  { intros routes m p e. unfold registers, endpoints_at. rewrite list_elem_of_fmap. split.
    - intros (r & Hin & Hm & Hp & <-). exists r. rewrite list_elem_of_filter. done.
    - intros (r & -> & ((Hm & Hp) & Hin)%list_elem_of_filter). eauto 6. }
  split; cbn.
  - intros routes m p e He. exists p. apply Hr. destruct (endpoints_at routes m p); [done|].
    injection He as ->. by left.
  - intros routes m p e _ He%Hr Hu. destruct (endpoints_at routes m p) as [|e' l] eqn:E; [by apply elem_of_nil in He|].
    cbn. f_equal. apply Hu, Hr. rewrite E. by left.
Qed.
End ToyAxum.

(** The label "all" is not reachable on the path of single CAs. *)
Example sign_all_shadows embed c :
  @axum_dispatch ToyAxum.axum (build_admin_router_standalone embed c) MPost "/api/admin/sign/all" = Some (Admin EpSignAll).
Proof.
  apply (@admin_mounted ToyAxum.axum ToyAxum.axum_spec embed c [] (mkRoute (Some MPost) "/sign/all" (Admin EpSignAll) (Some ADMIN_BODY_LIMIT)) MPost);
    [by left| |done|done].
  unfold build_admin_router, body_limit. cbn. do 16 right. by left.
Qed.
Example public_port_serves_ocsp_only p m e :
  @axum_dispatch ToyAxum.axum (build_router true
    (mkConfig (mkServerConfig "" "" 0 None None None (Some "127.0.0.1:9443"%string) None None) sample_storage [] None)) m p
    = Some e -> is_ocsp e = true.
Proof.
  intros H. by eapply (@surfaces_separated ToyAxum.axum ToyAxum.axum_spec).
Qed.
