(* ===== verification/Metrics.v ===== *)
(** * Metrics: what the server counts (hoike-server/src/obs.rs and the metrics endpoint of lib.rs)

    The recorder is the process-wide handle of the Prometheus exporter; without it,
    or in a build without the feature [metrics], recording does nothing.  The text
    that the exporter renders is a parameter.  Main results: a scrape sets the gauges
    of every loaded scope to its own figures at the time of the scrape, shows the
    members of the fleet exactly, and touches no counter. *)

From stdpp Require Import base tactics list gmap strings.
From Stdlib Require Import NArith Lia SpecFloat.
From S2P Require Import Prelude Slices Crates Text AhuError Header Index Manifest Bundle Builder Verify.
From S2P Require Import Ops CoreError Storage State Config Admission Request Router Install.
From S2P Require Import SignError Times Seal SignCrates Source SealDer SealCreate Crl Generate.
From S2P Require Import Orchestrate Live Handlers Sessions Gossip GossipNode AdminApi Startup Status.
Local Open Scope N_scope.

(** ** The registry *)

(** A metric: its name and its labels. *)
Abbreviation Metric := (string * list (string * string))%type.

Record Registry : Type := mkRegistry {
  mr_counters : gmap Metric N;
  mr_gauges : gmap Metric f64;
  mr_histograms : gmap Metric (list f64);
}.
Definition empty_registry : Registry := mkRegistry ∅ ∅ ∅.

(** [HANDLE]. *)
Abbreviation Recorder := (option Registry).

(** [as f64]. *)
Definition u64_as_f64 (n : N) : f64 :=
  match n with N0 => f64_zero | Npos m => binary_round f64_prec f64_emax false m 0 end.

(** [counter!(..).increment(1)], [gauge!(..).set(..)] and [histogram!(..).record(..)]. *)
Definition increment (metric : Metric) (r : Registry) : Registry :=
  mkRegistry (<[metric := default 0 (mr_counters r !! metric) + 1]> (mr_counters r)) (mr_gauges r) (mr_histograms r).
Definition set_gauge (metric : Metric) (v : N) (r : Registry) : Registry :=
  mkRegistry (mr_counters r) (<[metric := u64_as_f64 v]> (mr_gauges r)) (mr_histograms r).
Definition record_value (metric : Metric) (v : f64) (r : Registry) : Registry :=
  mkRegistry (mr_counters r) (mr_gauges r)
    (<[metric := default [] (mr_histograms r !! metric) ++ [v]]> (mr_histograms r)).

(** ** Recording (obs.rs) *)

(** [install]; [metrics] is the feature of the build and [installed] whether the exporter could be
    installed as the recorder. *)
Definition install (metrics installed : bool) (h : Recorder) : bool * Recorder :=
  match h with
  | Some _ => (false, h)
  | None => if metrics && installed then (true, Some empty_registry) else (false, None)
  end.

(** [install_metrics] of lib.rs. *)
Definition install_metrics := install.

Definition render (text_of : Registry -> string) (h : Recorder) : option string := text_of <$> h.

Definition record_request (ca method status : string) : Recorder -> Recorder :=
  fmap (increment ("hoike_requests_total", [("ca", ca); ("method", method); ("status", status)])%string).
Definition record_request_duration (ca : string) (seconds : f64) : Recorder -> Recorder :=
  fmap (record_value ("hoike_request_duration_seconds", [("ca", ca)])%string seconds).
Definition record_certid_alg (ca alg : string) : Recorder -> Recorder :=
  fmap (increment ("hoike_certid_hash_alg_total", [("ca", ca); ("alg", alg)])%string).
Definition record_nonce (ca policy outcome : string) : Recorder -> Recorder :=
  fmap (increment ("hoike_nonce_requests_total", [("ca", ca); ("policy", policy); ("outcome", outcome)])%string).
Definition record_bundle_load_failure (ca reason : string) : Recorder -> Recorder :=
  fmap (increment ("hoike_bundle_load_failures_total", [("ca", ca); ("reason", reason)])%string).
Definition record_signer_generation (ca : string) (seconds : f64) : Recorder -> Recorder :=
  fmap (record_value ("hoike_signer_generation_duration_seconds", [("ca", ca)])%string seconds).

Definition members_metric (state : string) : Metric := ("hoike_gossip_members", [("state", state)])%string.
Definition set_members (alive suspect down : N) (r : Registry) : Registry :=
  set_gauge (members_metric "down") down
    (set_gauge (members_metric "suspect") suspect (set_gauge (members_metric "alive") alive r)).
Definition record_gossip_members (alive suspect down : N) : Recorder -> Recorder := fmap (set_members alive suspect down).

Definition scope_labels (s : ScopeDetail) : list (string * string) :=
  [("ca", sd_ca_label s); ("producer", sd_producer_id s)]%string.

(** The body of the loop of [update_bundle_gauges]; the subtractions saturate. *)
Definition set_scope_gauges (now : N) (r : Registry) (s : ScopeDetail) : Registry :=
  let labels := scope_labels s in
  let r := set_gauge ("hoike_bundle_epoch"%string, labels) (sd_epoch s) r in
  let r := set_gauge ("hoike_bundle_entries"%string, labels) (sd_entry_count s) r in
  let age := now - w_produced_at (sd_window s) in
  let r := set_gauge ("hoike_bundle_age_seconds"%string, labels) age r in
  let ttl := w_next_update_min (sd_window s) - now in
  set_gauge ("hoike_bundle_next_update_seconds"%string, labels) ttl r.
Definition update_bundle_gauges (scopes : list ScopeDetail) (now : N) : Recorder -> Recorder :=
  fmap (fun r => fold_left (set_scope_gauges now) scopes r).

(** ** The endpoint (lib.rs) *)

(** The census of [metrics_handler]: alive, suspect and down. *)
Definition count_member {Addr} (c : N * N * N) (m : MemberInfo Addr) : N * N * N :=
  let '(alive, suspect, down) := c in
  match mi_state _ m with
  | Alive => (alive + 1, suspect, down)
  | Suspect => (alive, suspect + 1, down)
  | Down => (alive, suspect, down + 1)
  end.
Definition census {Addr} (ms : list (MemberInfo Addr)) : N * N * N := fold_left count_member ms (0, 0, 0).

(** An answer: the status and the body. *)
Abbreviation MetricsAnswer := (N * string)%type.

Section endpoint.
Context {CR : Crates} {OC : OcspCrates} {SG : SignCrates} {GC : GossipCrates} {GN : GossipNet}.
Implicit Types (st : AdminContext).

(** [metrics_handler], with the recorder after it; [None] is a panic of the view of the scopes. *)
Definition metrics_handler (text_of : Registry -> string) st (h : Recorder) :
    io string (option (MetricsAnswer * Recorder)) :=
  now ← now_unix;
  match bundle_scopes (rs_scope_map (ax_responder st)) with
  | None => mret None
  | Some scopes =>
      let h := update_bundle_gauges scopes now h in
      let h := match ax_gossip st with
               | Some gossip =>
                   let '(alive, suspect, down) := census (members gossip) in
                   record_gossip_members alive suspect down h
               | None => h
               end in
      mret (Some (match render text_of h with
                  | Some body => (200, body)
                  | None => (503, "metrics not enabled (build with --features metrics)"%string)
                  end, h))
  end.
End endpoint.

(** ** What a scrape shows *)

(** The figures of a scope. *)
Definition figure (name : string) (s : ScopeDetail) (now : N) : option N :=
  if String.eqb name "hoike_bundle_epoch" then Some (sd_epoch s)
  else if String.eqb name "hoike_bundle_entries" then Some (sd_entry_count s)
  else if String.eqb name "hoike_bundle_age_seconds" then Some (now - w_produced_at (sd_window s))
  else if String.eqb name "hoike_bundle_next_update_seconds" then Some (w_next_update_min (sd_window s) - now)
  else None.

Lemma scope_gauges_own now r s name v :
  figure name s now = Some v -> mr_gauges (set_scope_gauges now r s) !! (name, scope_labels s) = Some (u64_as_f64 v).
Proof.
  unfold figure, set_scope_gauges, set_gauge. cbn [mr_gauges].
  destruct (String.eqb_spec name "hoike_bundle_epoch") as [->|]; [intros [= <-]; by simplify_map_eq|].
  destruct (String.eqb_spec name "hoike_bundle_entries") as [->|]; [intros [= <-]; by simplify_map_eq|].
  destruct (String.eqb_spec name "hoike_bundle_age_seconds") as [->|]; [intros [= <-]; by simplify_map_eq|].
  destruct (String.eqb_spec name "hoike_bundle_next_update_seconds") as [->|]; [intros [= <-]; by simplify_map_eq|done].
Qed.

Lemma scope_gauges_other now r s name labels :
  labels <> scope_labels s -> mr_gauges (set_scope_gauges now r s) !! (name, labels) = mr_gauges r !! (name, labels).
Proof. intros Hl. unfold set_scope_gauges, set_gauge. cbn [mr_gauges]. by rewrite !lookup_insert_ne by congruence. Qed.

Lemma gauges_after now scopes r name labels :
  Forall (fun s => scope_labels s <> labels) scopes ->
  mr_gauges (fold_left (set_scope_gauges now) scopes r) !! (name, labels) = mr_gauges r !! (name, labels).
Proof.
  revert r. induction scopes as [|s scopes IH]; intros r Hf; [done|]. decompose_Forall_hyps. rewrite IH by done.
  apply scope_gauges_other. congruence.
Qed.

Lemma gauges_counters now scopes r :
  mr_counters (fold_left (set_scope_gauges now) scopes r) = mr_counters r /\
  mr_histograms (fold_left (set_scope_gauges now) scopes r) = mr_histograms r.
Proof. revert r. induction scopes as [|s scopes IH]; intros r; [done|]. cbn [fold_left]. by destruct (IH (set_scope_gauges now r s)) as [-> ->]. Qed.

Lemma census_sum {Addr} (ms : list (MemberInfo Addr)) a s d :
  let '(alive, suspect, down) := fold_left count_member ms (a, s, d) in
  alive + suspect + down = a + s + d + N.of_nat (length ms) /\ a <= alive /\ s <= suspect /\ d <= down /\
  (forall m, m ∈ ms -> mi_state _ m = Alive -> a < alive).
Proof.
  revert a s d. induction ms as [|m ms IH]; intros a s d; [split_and!; cbn; try lia; by intros m ?%elem_of_nil|].
  cbn [fold_left count_member]. destruct (mi_state _ m) eqn:Em.
  1: specialize (IH (a + 1) s d). 2: specialize (IH a (s + 1) d). 3: specialize (IH a s (d + 1)).
  all: destruct (fold_left count_member ms _) as [[alive suspect] down]; destruct IH as (H1 & H2 & H3 & H4 & H5);
    split_and!; cbn [length] in *; try lia; intros m' [->|Hm]%elem_of_cons Ha; try congruence; try lia;
    specialize (H5 m' Hm Ha); lia.
Qed.

Section scrape.
Context {CR : Crates} {OC : OcspCrates} {SG : SignCrates} {GC : GossipCrates} {GN : GossipNet}.
Implicit Types (st : AdminContext).

(** The members a scrape shows. *)
Definition shows_members (r : Registry) (node : GossipNode) : Prop :=
  exists alive suspect down, alive + suspect + down = N.of_nat (length (members node)) /\ 0 < alive /\
    mr_gauges r !! members_metric "alive" = Some (u64_as_f64 alive) /\
    mr_gauges r !! members_metric "suspect" = Some (u64_as_f64 suspect) /\
    mr_gauges r !! members_metric "down" = Some (u64_as_f64 down).

(** A scrape is exact.  Without a recorder it is refused with 503; with one, the answer is the text of a
    registry in which every loaded scope, if no later one has its labels, shows its epoch, entries, age
    and time to live at the time of the scrape; in which the three series of the fleet are present, add
    up to its members and count at least this node as alive; and which has the counters and histograms
    of before. *)
Theorem scrape_exact text_of st h w t answer h' w' :
  metrics_handler text_of st h w = (Done (Some (answer, h')), w') -> read_clock (E := string) w = (Done t, w') ->
  match h with
  | None => answer.1 = 503 /\ h' = None
  | Some r => exists r' scopes, h' = Some r' /\ answer = (200, text_of r') /\
      bundle_scopes (rs_scope_map (ax_responder st)) = Some scopes /\
      mr_counters r' = mr_counters r /\ mr_histograms r' = mr_histograms r /\
      (forall before s after name v, scopes = before ++ s :: after ->
         Forall (fun s' => scope_labels s' <> scope_labels s) after -> figure name s (default 0 t) = Some v ->
         mr_gauges r' !! (name, scope_labels s) = Some (u64_as_f64 v)) /\
      forall node, ax_gossip st = Some node -> shows_members r' node
  end.
Proof.
  unfold metrics_handler, now_unix. intros H Ht. apply io_bind_Done in H as (now & w1 & Hnow & H).
  apply io_bind_Done in Hnow as (t' & w2 & Hr & Hnow). apply io_ret_Done in Hnow as [-> ->].
  destruct (bundle_scopes _) as [scopes|] eqn:Es; apply io_ret_Done in H as [H ->]; [|done].
  rewrite Hr in Ht. injection Ht as ->. injection H as -> ->. destruct h as [r|]; cbn [update_bundle_gauges fmap option_fmap option_map].
  - set (r1 := fold_left _ scopes r). destruct (gauges_counters (default 0 t) scopes r) as [Hc Hh].
    assert (forall before s after name v, scopes = before ++ s :: after ->
       Forall (fun s' => scope_labels s' <> scope_labels s) after -> figure name s (default 0 t) = Some v ->
       mr_gauges r1 !! (name, scope_labels s) = Some (u64_as_f64 v)) as Hg.
    { intros before s after name v -> Ha Hv. unfold r1. rewrite fold_left_app. cbn [fold_left].
      rewrite gauges_after by done. by apply scope_gauges_own. }
    destruct (ax_gossip st) as [node|]; [|exists r1, scopes; by split_and!].
    pose proof (census_sum (members node) 0 0 0) as Hm. unfold census.
    destruct (fold_left count_member (members node) (0, 0, 0)) as [[alive suspect] down].
    exists (set_members alive suspect down r1), scopes. split_and!; try done.
    + intros before s after name v E Ha Hv. unfold set_members, set_gauge. cbn [mr_gauges].
      rewrite !lookup_insert_ne by (unfold members_metric, scope_labels; congruence). by eapply Hg.
    + intros node' [= <-]. destruct Hm as (Hs & _ & _ & _ & Hal). exists alive, suspect, down. split_and!.
      * lia.
      * eapply Hal; [unfold members; apply elem_of_app; right; by left|reflexivity].
      * unfold set_members, set_gauge. cbn [mr_gauges]. by rewrite !lookup_insert_ne, lookup_insert_eq by done.
      * unfold set_members, set_gauge. cbn [mr_gauges]. by rewrite lookup_insert_ne, lookup_insert_eq by done.
      * unfold set_members, set_gauge. cbn [mr_gauges]. by rewrite lookup_insert_eq.
  - by destruct (ax_gossip st); [destruct (census _) as [[]]|].
Qed.

(** A second installation changes nothing, and only the first one that works reports success. *)
Theorem install_once metrics installed h b h' :
  install metrics installed h = (b, h') ->
  (b = true <-> h = None /\ metrics = true /\ installed = true) /\ (is_Some h -> h' = h) /\ (b = true -> h' = Some empty_registry).
Proof.
  unfold install. destruct h as [r|]; [|destruct metrics, installed]; cbn; intros [= <- <-]; split_and!; try done; split; try done;
    intros (? & ? & ?); done.
Qed.
End scrape.
