(* ===== verification/AhuMain.v ===== *)
(** * AhuMain: the [ahu] program (hoike-cli/src/ahu_main.rs and [inspect] of ahu_commands.rs)

    The command line of the bundle tools: what its parser accepts, the dispatch to
    the commands of [AhuCli], the exit status, and the report that [inspect] prints,
    with the distribution of discriminators that [verify] prints too.  Main results:
    an accepted command line never meets the commands' own checks of their options;
    the report's layout does not wrap around and gives the sections of the file; the
    distribution lists every discriminator of the index once, in order, and adds up
    to the records. *)

From stdpp Require Import base tactics list gmap strings pretty sorting.
From Stdlib Require Import NArith Lia.
From S2P Require Import Prelude Slices Crates Text AhuError Header Index Manifest Bundle Builder Verify Ops.
From S2P Require Import Seal CoreError Storage Config Admission Router Calendar SignError Times SignCrates.
From S2P Require Import Source SealDer SealCreate Orchestrate AhuCli.
Local Open Scope N_scope.

(** ** [inspect] *)

(** A section of the report: its heading and its lines, a label and a value each. *)
Abbreviation report_section := (string * list (string * string))%type.

Section inspect.
Context {CR : Crates}.

(** [Display] of identifiers. *)
Variable uuid_display : bytes -> string.

Definition decimal (n : N) : string := pretty n.
Definition bundle_type_name (t : BundleType) : string := match t with Full => "full" | Delta => "delta" end.
Definition completeness_name (c : Completeness) : string :=
  match c with Partial => "partial" | AuthoritativeComplete => "authoritative-complete" end.
Definition responder_id_name (t : ResponderIdType) : string := match t with ByName => "byName" | ByKey => "byKey" end.
Definition compression_name (a : CompressionAlgorithm) : string := match a with CompressionNone => "none" | Zstd => "zstd" end.

(** [offset + length], which wraps around in a release build. *)
Definition section_end (offset length : N) : N := (offset + length) mod u64_lim.
Definition range_line (label : string) (offset length : N) : string * string :=
  (label, decimal offset +:+ ".." +:+ decimal (section_end offset length) +:+ " (" +:+ decimal length +:+ " bytes)").

Definition opt_line {A} (label : string) (show : A -> string) (o : option A) : list (string * string) :=
  match o with Some a => [(label, show a)] | None => [] end.

Definition scope_lines (i : nat) (scope : CaScope) : list (string * string) :=
  [("scope", decimal (N.of_nat i));
   ("hash_algorithm", hex_encode (cs_hash_algorithm scope));
   ("issuer_name_hash", hex_encode (cs_issuer_name_hash scope));
   ("issuer_key_hash", hex_encode (cs_issuer_key_hash scope));
   ("epoch", decimal (cs_epoch scope));
   ("responder_id", hex_encode (rid_value (cs_responder_id scope)) +:+
      " (" +:+ responder_id_name (rid_id_type (cs_responder_id scope)) +:+ ")");
   ("signature_alg", hex_encode (cs_signature_algorithm scope));
   ("completeness", completeness_name (cs_completeness scope))]%string ++
  opt_line "responder_chain" (fun chain : list bytes => decimal (len chain) +:+ " cert(s)") (cs_responder_chain scope).

Definition inspect_report (file : string) (bundle : Bundle) : list report_section :=
  let m := b_manifest bundle in
  let h := b_header bundle in
  [("ahu bundle",
    [("File", file); ("Format", decimal (fh_format_major h) +:+ "." +:+ decimal (fh_format_minor h));
     ("Bundle ID", uuid_display (m_bundle_id m)); ("Producer", m_producer_id m);
     ("Created", decimal (m_created_at m) +:+ " (epoch)"); ("Type", bundle_type_name (m_bundle_type m));
     ("Entry count", decimal (m_entry_count m)); ("Index records", decimal (len (b_index bundle)))]);
   ("Window",
    [("produced_at", decimal (w_produced_at (m_window m))); ("this_update_min", decimal (w_this_update_min (m_window m)));
     ("next_update_min", decimal (w_next_update_min (m_window m))); ("next_update_max", decimal (w_next_update_max (m_window m)))]);
   ("Integrity",
    [("index_digest", hex_encode (in_index_digest (m_integrity m))); ("data_digest", hex_encode (in_data_digest (m_integrity m)))]);
   ("Continuity",
    ([("chain_length", decimal (co_chain_length (m_continuity m)))] ++
     opt_line "prev_manifest_digest" hex_encode (co_prev_manifest_digest (m_continuity m)) ++
     opt_line "base_manifest_digest" hex_encode (co_base_manifest_digest (m_continuity m)))%list);
   ("CA Scopes (" +:+ decimal (len (m_ca_scopes m)) +:+ ")", concat (imap scope_lines (m_ca_scopes m)))]%string ++
  match m_shard m with
  | Some shard => [("Shard", [("index", decimal (sh_shard_index shard) +:+ " of " +:+ decimal (sh_shard_count shard));
                              ("function", decimal (sh_shard_fn shard))])]%string
  | None => []
  end ++
  match m_compression m with
  | Some comp => [("Compression", ([("algorithm", compression_name (cm_algorithm comp))] ++
                                   opt_line "dictionary" hex_encode (cm_dictionary_digest comp))%list)]%string
  | None => []
  end ++
  [("Layout",
    [("header", "0.." +:+ decimal HEADER_SIZE);
     range_line "manifest" (fh_manifest_offset h) (fh_manifest_length h);
     range_line "seal" (fh_seal_offset h) (fh_seal_length h);
     range_line "index" (fh_index_offset h) (fh_index_length h);
     range_line "data" (fh_data_offset h) (fh_data_length h)])]%string ++
  match discriminators (b_index bundle) with
  | [] => []
  | lines => [("Discriminators"%string, (fun '(disc, count, name) => (decimal disc, decimal count +:+ " entries (" +:+ name +:+ ")")) <$> lines)]
  end.

Definition ahu_inspect (p : path) (display : path -> string) : io string (list report_section) :=
  bundle ← failing "bundle" (from_file p);
  mret (inspect_report (display p) bundle).
End inspect.

(** ** The distribution is exact *)

Lemma disc_counts_lookup index counts d :
  fold_left count_disc index counts !! d =
  let n := len (filter (fun r => ir_discriminator r = d) index) in
  if n =? 0 then counts !! d else Some (default 0 (counts !! d) + n).
Proof.
  revert counts. induction index as [|r index IH]; intros counts; [done|]. cbn [fold_left]. rewrite IH. cbv zeta.
  unfold count_disc. rewrite filter_cons. destruct (decide (ir_discriminator r = d)) as [<-|Hne].
  - rewrite lookup_insert_eq. cbn [from_option id]. unfold len. cbn [length].
    destruct (N.eqb_spec (N.of_nat (length (filter (fun r' => ir_discriminator r' = ir_discriminator r) index))) 0) as [E|E];
      destruct (N.eqb_spec (N.of_nat (S (length (filter (fun r' => ir_discriminator r' = ir_discriminator r) index)))) 0) as [E'|E'];
      try lia; f_equal; lia.
  - by rewrite lookup_insert_ne.
Qed.

(** A discriminator occurs among the records or not at all. *)
Lemma disc_counts_exact index d :
  disc_counts index !! d = (if decide (d ∈ ir_discriminator <$> index)
                            then Some (len (filter (fun r => ir_discriminator r = d) index)) else None).
Proof.
  unfold disc_counts. rewrite disc_counts_lookup, lookup_empty. cbn [from_option id].
  destruct (N.eqb_spec (len (filter (fun r => ir_discriminator r = d) index)) 0) as [E|E].
  - rewrite decide_False; [done|]. intros (r & -> & Hr)%list_elem_of_fmap.
    assert (r ∈ filter (fun r' => ir_discriminator r' = ir_discriminator r) index) as Hin by (by apply list_elem_of_filter).
    unfold len in E. by destruct (filter _ index); [apply elem_of_nil in Hin|].
  - rewrite decide_True; [by rewrite N.add_0_l|].
    destruct (filter (fun r => ir_discriminator r = d) index) as [|r l] eqn:Ef; [done|].
    assert (r ∈ filter (fun r => ir_discriminator r = d) index) as [<- Hr]%list_elem_of_filter by (rewrite Ef; by left).
    by apply list_elem_of_fmap_2.
Qed.

(** Counts add up. *)
Lemma disc_counts_sum index counts :
  map_fold (fun _ n acc => n + acc) 0 (fold_left count_disc index counts) =
  map_fold (fun _ n acc => n + acc) 0 counts + len index.
Proof.
  revert counts. induction index as [|r index IH]; intros counts; [cbn [fold_left]; unfold len; cbn [length]; lia|].
  cbn [fold_left]. rewrite IH.
  assert (forall (m : gmap N N) k v, m !! k = None ->
    map_fold (fun _ n acc => n + acc) 0 (<[k:=v]> m) = v + map_fold (fun _ n acc => n + acc) 0 m) as Hins.
  { intros m k v Hk. apply (map_fold_insert_L (fun _ n acc => n + acc)); [intros; lia|done]. }
  unfold count_disc, len. cbn [length]. set (k := ir_discriminator r).
  destruct (counts !! k) as [n|] eqn:E; cbn [from_option id].
  - rewrite <- (insert_delete_id counts k n E) at 2. rewrite <- insert_delete_eq. rewrite !Hins by apply lookup_delete_eq. lia.
  - rewrite Hins by done. lia.
Qed.

Lemma foldr_add_perm l l' : l ≡ₚ l' -> foldr N.add 0 l = foldr N.add 0 l'.
Proof. induction 1; cbn; lia. Qed.

(** The lines of a map are its entries, sorted. *)
Lemma disc_lines_perm counts : (disc_lines counts).*1 ≡ₚ map_to_list counts.
Proof.
  unfold disc_lines. rewrite <- list_fmap_compose.
  rewrite (list_fmap_ext _ id (merge_sort disc_le (map_to_list counts))) by done. rewrite list_fmap_id.
  apply merge_sort_Permutation.
Qed.

Lemma disc_lines_sorted counts : StronglySorted N.lt (disc_lines counts).*1.*1.
Proof.
  pose proof (disc_lines_perm counts) as Hp. pose proof (NoDup_fst_map_to_list counts) as Hnd. rewrite <- Hp in Hnd.
  assert (StronglySorted disc_le (disc_lines counts).*1) as Hs.
  { unfold disc_lines. rewrite <- list_fmap_compose.
    rewrite (list_fmap_ext _ id (merge_sort disc_le (map_to_list counts))) by done. rewrite list_fmap_id.
    apply StronglySorted_merge_sort; apply _. }
  clear Hp. induction Hs as [|x l Hs IH Hx]; cbn in *; constructor; apply NoDup_cons in Hnd as [Hn Hnd]; [by apply IH|].
  apply Forall_fmap. apply Forall_forall. intros y Hy. unfold disc_le in Hx. rewrite Forall_forall in Hx.
  specialize (Hx y Hy). cbn. assert (x.1 <> y.1); [|lia]. intros E. apply Hn. rewrite E. by apply list_elem_of_fmap_2.
Qed.

Lemma disc_lines_elem index d n name :
  (d, n, name) ∈ disc_lines (disc_counts index) <->
  d ∈ ir_discriminator <$> index /\ n = len (filter (fun r => ir_discriminator r = d) index) /\ name = disc_name d.
Proof.
  unfold disc_lines. rewrite list_elem_of_fmap. setoid_rewrite merge_sort_Permutation. split.
  - intros ([d' n'] & [= -> -> ->] & Hd%elem_of_map_to_list). rewrite disc_counts_exact in Hd.
    case_decide; [|done]. by injection Hd as <-.
  - intros (Hd & -> & ->). exists (d, len (filter (fun r => ir_discriminator r = d) index)). split; [done|].
    apply elem_of_map_to_list. by rewrite disc_counts_exact, decide_True.
Qed.

Lemma discriminators_nil index : discriminators index = [] <-> Forall (fun r => ir_discriminator r = 0) index.
Proof.
  assert (forall d, is_Some (disc_counts index !! d) <-> d ∈ ir_discriminator <$> index) as Hdom.
  { intros d. rewrite disc_counts_exact. case_decide; by split. }
  unfold discriminators. split.
  - destruct (_ || _) eqn:E.
    + intros Hl. exfalso. pose proof (disc_lines_perm (disc_counts index)) as Hp. rewrite Hl in Hp. cbn in Hp.
      apply Permutation_nil in Hp. rewrite Hp in E. apply map_to_list_empty_iff in Hp. rewrite Hp in E. by rewrite map_size_empty in E.
    + intros _. apply orb_false_iff in E as [_ E]. apply Forall_forall. intros r Hr.
      destruct (proj2 (Hdom (ir_discriminator r)) (list_elem_of_fmap_2 _ _ _ Hr)) as [n Hn].
      apply elem_of_map_to_list, list_elem_of_In in Hn. rewrite <- not_true_iff_false, existsb_exists in E.
      destruct (N.eqb_spec (ir_discriminator r) 0) as [H0|H0]; [done|]. destruct E. exists (ir_discriminator r, n). split; [done|].
      cbn. by apply negb_true_iff, N.eqb_neq.
  - intros Hz. assert (disc_counts index = ∅ \/ exists n, disc_counts index = {[0 := n]}) as Hc.
    { destruct (disc_counts index !! 0) as [n|] eqn:E0; [right; exists n|left]; apply map_eq; intros d.
      all: assert (d <> 0 -> disc_counts index !! d = None) as Hd.
      1,3: intros Hd; apply eq_None_not_Some; intros (r & -> & Hr)%Hdom%list_elem_of_fmap; rewrite Forall_forall in Hz; by specialize (Hz r Hr).
      - destruct (decide (d = 0)) as [->|Hne]; [by simplify_map_eq|]. rewrite Hd by done. by simplify_map_eq.
      - destruct (decide (d = 0)) as [->|Hne]; [by simplify_map_eq|]. rewrite Hd by done. by simplify_map_eq. }
    destruct Hc as [-> | [n ->]]; [done|]. by rewrite map_size_singleton, map_to_list_singleton.
Qed.

(** The distribution that [inspect] and [verify] print lists each discriminator of the index exactly once,
    in ascending order, with the number of its records, and these add up to the records; it is left out
    only if there is none but the default. *)
Theorem discriminators_exact index :
  let lines := discriminators index in
  (lines = [] <-> Forall (fun r => ir_discriminator r = 0) index) /\
  (lines <> [] ->
     StronglySorted N.lt lines.*1.*1 /\
     (forall d n name, (d, n, name) ∈ lines <->
        d ∈ ir_discriminator <$> index /\ n = len (filter (fun r => ir_discriminator r = d) index) /\ name = disc_name d) /\
     foldr N.add 0 lines.*1.*2 = len index).
Proof.
  intros lines. split; [apply discriminators_nil|]. unfold lines, discriminators. destruct (_ || _); [|done]. intros _.
  split_and!; [apply disc_lines_sorted|apply disc_lines_elem|].
  rewrite (foldr_add_perm _ (map_to_list (disc_counts index)).*2) by (by rewrite disc_lines_perm).
  pose proof (disc_counts_sum index ∅) as Hs. rewrite map_fold_empty, N.add_0_l in Hs. rewrite <- Hs.
  unfold disc_counts. rewrite map_fold_foldr. generalize (map_to_list (fold_left count_disc index ∅)). intros l.
  induction l as [|[k n] l IH]; cbn; [done|]. by rewrite IH.
Qed.

(** The ends that the report prints do not wrap around: they are the ends of the sections in the file. *)
Theorem layout_exact {CR : Crates} file b :
  from_bytes file = Ok b ->
  Forall (fun s => section_end s.1 s.2 = s.1 + s.2 /\ s.1 + s.2 <= len file) (sections (b_header b)).
Proof.
  intros [_ _ _ Hm _ Hs (ib & _ & Hi) Hd]%from_bytes_Ok.
  apply section_at_bounds in Hm, Hs, Hi, Hd. unfold sections, section_end.
  repeat constructor; cbn [fst snd]; try (apply N.mod_small); tauto.
Qed.

(** ** The command line *)

(** [Commands], after parsing. *)
Inductive AhuCommand :=
| CmdInspect (file : path)
| CmdVerify (file : path) (config : option path) (structure_only entries : bool)
| CmdExtract (file : path) (certid : string) (output : option path)
| CmdDiff (a b : path)
| CmdApply (base : path) (deltas : list path) (output : path) (seal_key seal_cert : option path)
    (input_signer_pin : list path).

(** What the parser's attributes demand: the group [mode], [requires], [conflicts_with_all] and [required]. *)
Definition clap_accepts (cmd : AhuCommand) : bool :=
  match cmd with
  | CmdVerify _ config structure_only entries =>
      xorb (bool_decide (is_Some config)) structure_only && implb entries (bool_decide (is_Some config)) &&
      negb (structure_only && entries)
  | CmdApply _ deltas _ seal_key seal_cert input_signer_pin =>
      negb (bool_decide (deltas = [])) &&
      implb (bool_decide (is_Some seal_key))
        (bool_decide (is_Some seal_cert) && negb (bool_decide (input_signer_pin = []))) &&
      implb (bool_decide (is_Some seal_cert)) (bool_decide (is_Some seal_key)) &&
      implb (negb (bool_decide (input_signer_pin = []))) (bool_decide (is_Some seal_key))
  | _ => true
  end.

(** What a command prints. *)
Inductive AhuOutput :=
| OutInspect (report : list report_section)
| OutVerify (v : VerifyOutput)
| OutExtract (response : bytes)
| OutDiff (d : DiffResult)
| OutApply (r : ApplyResult).

Section main.
Context {CR : Crates} {SC : SealCrates} {SG : SignCrates} {SM : SealMaking}.
Variable uuid_display : bytes -> string.
Variable display : path -> string.
Variable load_config : path -> io CoreError Config.

(** The dispatch of [main]. *)
Definition run_command (cmd : AhuCommand) : io string AhuOutput :=
  match cmd with
  | CmdInspect file => r ← ahu_inspect uuid_display file display; mret (OutInspect r)
  | CmdVerify file config structure_only entries =>
      v ← ahu_verify load_config file config structure_only entries; mret (OutVerify v)
  | CmdExtract file certid output => b ← ahu_extract file certid output; mret (OutExtract b)
  | CmdDiff a b => d ← ahu_diff a b; mret (OutDiff d)
  | CmdApply base deltas output seal_key seal_cert input_signer_pin =>
      r ← ahu_apply base deltas output seal_key seal_cert input_signer_pin; mret (OutApply r)
  end.

(** [main]: the exit status and the output; the parser exits with 2. *)
Definition ahu_main (cmd : AhuCommand) : io string (N * option AhuOutput) :=
  if negb (clap_accepts cmd) then mret (2, None) else
  r ← io_try (run_command cmd);
  mret match r with Ok out => (0, Some out) | Err _ => (1, None) end.

(** What the parser accepts, the commands do not refuse for its options: a verification is authenticated
    against a configuration, or structural only and then without entries; a sealed application has its
    key, its certificate and at least one pin, and an unsealed one none of them. *)
Theorem accepted_options cmd :
  clap_accepts cmd = true ->
  match cmd with
  | CmdVerify _ config structure_only entries =>
      (exists p, config = Some p /\ structure_only = false) \/ (config = None /\ structure_only = true /\ entries = false)
  | CmdApply _ deltas _ seal_key seal_cert pins => deltas <> [] /\
      ((exists k c, seal_key = Some k /\ seal_cert = Some c /\ pins <> []) \/
       (seal_key = None /\ seal_cert = None /\ pins = []))
  | _ => True
  end.
Proof.
  destruct cmd as [|file config so en| | |base deltas output key cert pins]; try done; cbn [clap_accepts].
  - destruct config as [p|], so, en; cbn; try done; intros _; eauto.
  - destruct deltas as [|d ds]; [done|].
    destruct key as [k|], cert as [c|], pins as [|q qs]; cbn; try done; intros _; (split; [done|]); [left|right]; eauto.
Qed.

(** So the exit status 1 of an accepted verification is never about its options: its configuration was
    loaded, or none was asked for. *)
Theorem accepted_mode config structure_only entries file w :
  clap_accepts (CmdVerify file config structure_only entries) = true ->
  match config with
  | Some p => verify_mode load_config config structure_only entries w = (c ← failing "config" (load_config p); mret (Some c)) w
  | None => verify_mode load_config config structure_only entries w = (Done None, w)
  end.
Proof.
  intros [(p & -> & ->)|(-> & -> & ->)]%accepted_options; done.
Qed.

(** The status of [main]: 2 for a command line that is not accepted, which does nothing; 0 exactly when
    the command succeeded. *)
Theorem main_status cmd w :
  let '(o, w') := ahu_main cmd w in
  if clap_accepts cmd then
    forall out, (o = Done (0, Some out) <-> run_command cmd w = (Done out, w'))
  else o = Done (2, None) /\ w' = w.
Proof.
  unfold ahu_main. destruct (clap_accepts cmd); [|done]. cbn [negb]. cbv [mbind io_bind io_try].
  destruct (run_command cmd w) as [[r|e|] w1]; cbn; intros out; split; intros H; by simplify_eq.
Qed.
End main.
