(* ===== verification/HoikeMain.v ===== *)
(** * HoikeMain: the [hoike] program (hoike-cli/src/main.rs: [Commands], [main] and the listeners)

    The command line with its defaults, the dispatch to the commands of the other
    files, and the surfaces of a server that has started.  Main results: a command
    line that is accepted names one signing key; with TLS configured for the admin
    interface, a server that starts serves no management route in the clear; and it
    starts every listener that is configured. *)

From stdpp Require Import base tactics list gmap strings.
From Stdlib Require Import NArith Lia.
From S2P Require Import Prelude Slices Crates Text AhuError Header Index Manifest Bundle Builder Verify.
From S2P Require Import Ops CoreError Storage State Config Admission Request Router Install.
From S2P Require Import SignError Times Seal SignCrates Source SealDer SealCreate Crl Generate.
From S2P Require Import Orchestrate Live Handlers Sessions Gossip GossipNode AdminApi CliSign CliQuery Daemon.
From S2P Require Import Startup Status Routes.
Local Open Scope N_scope.

(** ** The command line *)

(** The options as they are given; [None] where one is left out. *)
Inductive RawCommand :=
| RawServe (config : option path)
| RawInitState (config : option path)
| RawCheck (config : option path)
| RawSign (ca : string) (crl : path) (output issuer : option path) (epoch : option N) (certid_compat : option string)
    (good_serials : option path) (sig_alg issuer_name_b64 issuer_key_b64 : option string)
    (signing_key seal_key seal_cert : option path) (dual_alg : option string) (pq_signing_key : option path)
    (demo_key : bool)
| RawQuery (url serial issuer_name_b64 issuer_key_b64 : string) (prefer : option string)
| RawImport (bundle : path) (ca : string) (config : option path).

(** [Commands]. *)
Inductive Commands :=
| Serve (config : path)
| InitState (config : path)
| CheckCommand (config : path)
| Sign (args : SignArgs)
| Query (url serial issuer_name_b64 issuer_key_b64 : string) (prefer : option string)
| Import (bundle : path) (ca : string) (config : path).

Definition default_config_path : path := ["hoike.toml"%string].

(** [Cli::parse]: the attributes [default_value] and [conflicts_with]. *)
Definition parse_command (raw : RawCommand) : option Commands :=
  match raw with
  | RawServe config => Some (Serve (default default_config_path config))
  | RawInitState config => Some (InitState (default default_config_path config))
  | RawCheck config => Some (CheckCommand (default default_config_path config))
  | RawSign ca crl output issuer epoch certid_compat good_serials sig_alg issuer_name_b64 issuer_key_b64 signing_key
      seal_key seal_cert dual_alg pq_signing_key demo_key =>
      if bool_decide (is_Some signing_key) && demo_key then None else
      Some (Sign (mkSignArgs ca crl (default ["output.ahu"%string] output) issuer (default 1 epoch)
        (default "dual"%string certid_compat) good_serials (default "ecdsa-p256"%string sig_alg) issuer_name_b64
        issuer_key_b64 signing_key seal_key seal_cert dual_alg pq_signing_key demo_key))
  | RawQuery url serial issuer_name_b64 issuer_key_b64 prefer =>
      Some (Query url serial issuer_name_b64 issuer_key_b64 prefer)
  | RawImport bundle ca config => Some (Import bundle ca (default default_config_path config))
  end.

(** A command line that is accepted names a key file or the demo key, not both, and defaults to the
    classical algorithm, both forms of CertID and the first epoch. *)
Theorem parsed_sign_args ca crl output issuer epoch compat good sig_alg name key signing seal_key seal_cert dual pq demo cmd :
  parse_command (RawSign ca crl output issuer epoch compat good sig_alg name key signing seal_key seal_cert dual pq demo)
    = Some cmd ->
  exists args, cmd = Sign args /\ ~ (is_Some (sg_signing_key args) /\ sg_demo_key args = true) /\
    (epoch = None -> sg_epoch args = 1) /\ (sig_alg = None -> sg_sig_alg args = "ecdsa-p256"%string) /\
    (compat = None -> certid_compat_parse (sg_certid_compat args) = Ok Dual).
Proof.
  cbn [parse_command]. destruct (bool_decide (is_Some signing) && demo) eqn:E; [done|]. intros [= <-].
  eexists. split; [done|]. cbn. split_and!; try (by intros ->).
  intros [Hs ->]. rewrite andb_true_r in E. by apply bool_decide_eq_false in E.
Qed.

(** ** The program *)

Section program.
Context {CR : Crates} {SC : SealCrates} {JS : Json} {OC : OcspCrates} {SG : SignCrates}.
Context {SM : SealMaking} {GC : GossipCrates} {GN : GossipNet}.
Context {RC : RotationCommand} {HC : HttpClients} {BE : Base64Encode} {QC : QueryCrates}.
Implicit Types (c : Config).

(** [Config::from_file]; [toml_from_str] is the parser. *)
Variable toml_from_str : bytes -> result string Config.
Definition config_from_file (p : path) : io CoreError Config :=
  content ← io_map_err CoreIo (read_file p);
  io_lift (ensure (utf8_valid content) (CoreIo (IoOther "stream did not contain valid UTF-8"))) ;;
  io_lift (map_err config_error (toml_from_str content)).

Variable post : string -> bytes -> io string (N * bytes).

(** What a command leaves or prints. *)
Inductive Outcome :=
| Serving (sv : Started) (ls : list Listener)
| Initialized (s : StateStore)
| Checked (report : list (string * CertLine Name) * list ChannelLine * CheckReport)
| Signed (bundle : bytes)
| Queried (status : N) (report : QueryReport)
| Imported (r : InstallResult).

(** [run_server] up to its listeners; [embed_webui] and [tls] are the features of the build. *)
Definition serve (embed_webui tls : bool) (ephemeral : string -> P256SigningKey) (seed : string -> bytes) (rng_seed : N)
    (config : path) : io string Outcome :=
  sv ← start_server config_from_file tls ephemeral seed rng_seed config;
  mret (Serving sv (listeners embed_webui tls (ax_config (sr_context sv)))).

(** The dispatch of [main]. *)
Definition run_hoike (embed_webui tls : bool) (ephemeral : string -> P256SigningKey) (seed : string -> bytes) (rng_seed : N)
    (cmd : Commands) : io string Outcome :=
  match cmd with
  | Serve config => serve embed_webui tls ephemeral seed rng_seed config
  | InitState config => s ← run_init_state config_from_file config; mret (Initialized s)
  | CheckCommand config => r ← run_check config_from_file tls config; mret (Checked r)
  | Sign args => b ← run_sign args (ephemeral (sg_ca args)) (seed (sg_ca args)); mret (Signed b)
  | Query url serial name key prefer =>
      '(status, report) ← run_query post url serial name key prefer; mret (Queried status report)
  | Import bundle ca config => r ← run_import config_from_file bundle ca config; mret (Imported r)
  end.
End program.

(** ** The surfaces of a server that has started *)

Section surfaces.
Context {CR : Crates} {SC : SealCrates} {JS : Json} {OC : OcspCrates} {SG : SignCrates}.
Context {SM : SealMaking} {GC : GossipCrates} {GN : GossipNet}.
Context {RC : RotationCommand} {HC : HttpClients}.
Context {AX : Axum} {AS : AxumSpec AX}.
Implicit Types (c : Config).

Lemma start_server_config load tls ephemeral seed rng config_path w c w0 sv w' :
  load config_path w = (Done c, w0) -> start_server load tls ephemeral seed rng config_path w = (Done sv, w') ->
  ax_config (sr_context sv) = c /\ transport_valid c tls.
Proof.
  unfold start_server, failing. intros Hc H. apply io_bind_Done in H as (c' & w1 & Hc'%io_map_err_Done & H).
  rewrite Hc in Hc'. injection Hc' as <- <-.
  apply io_bind_Done in H as ([] & w2 & [Hv%map_err_Ok ->]%io_lift_Done & H).
  apply validate_transport_Ok in Hv as [Hv _].
  do 7 (apply io_bind_Done in H as (? & ? & _ & H)). apply io_ret_Done in H as [-> _]. by split.
Qed.

(** The transport that is configured. *)
Definition configured (tls : option TlsConfig) : Transport := match tls with Some t => Tls t | None => Plaintext end.

Lemma serve_listener_valid tls_feature addr router tls :
  (is_Some tls -> tls_feature = true) ->
  serve_listener tls_feature addr router tls = Some (mkListener addr router (configured tls)).
Proof. intros Hv. unfold serve_listener. destruct tls as [t|]; [|done]. by rewrite Hv. Qed.

(** The listeners of a valid configuration. *)
Lemma listeners_valid embed tls c :
  transport_valid c tls ->
  listeners embed tls c =
  ((fun addr => mkListener addr build_metrics_router (configured (sv_metrics_tls (c_server c)))) <$>
     option_list (sv_metrics_listen (c_server c))) ++
  ((fun addr => mkListener addr (build_admin_router_standalone embed c) (configured (sv_admin_tls (c_server c)))) <$>
     option_list (sv_admin_listen (c_server c))) ++
  [mkListener (sv_listen (c_server c)) (build_router embed c) Plaintext].
Proof.
  intros [Ha Hm]. unfold listeners. f_equal; [|f_equal].
  - destruct (sv_metrics_listen (c_server c)) as [a|]; [|done]. cbn. rewrite serve_listener_valid by (intros Ht; by apply Hm). done.
  - destruct (sv_admin_listen (c_server c)) as [a|]; [|done]. cbn. rewrite serve_listener_valid by (intros Ht; by apply Ha). done.
Qed.

Lemma elem_of_listeners embed tls c l :
  transport_valid c tls -> l ∈ listeners embed tls c <->
  (exists a, sv_metrics_listen (c_server c) = Some a /\
     l = mkListener a build_metrics_router (configured (sv_metrics_tls (c_server c)))) \/
  (exists a, sv_admin_listen (c_server c) = Some a /\
     l = mkListener a (build_admin_router_standalone embed c) (configured (sv_admin_tls (c_server c)))) \/
  l = mkListener (sv_listen (c_server c)) (build_router embed c) Plaintext.
Proof.
  intros Hv. rewrite listeners_valid by done. rewrite !elem_of_app, !list_elem_of_fmap, list_elem_of_singleton.
  assert (forall (o : option string) a, a ∈ option_list o <-> o = Some a) as Ho.
  { intros [b|] a; cbn; [rewrite list_elem_of_singleton|split; [by intros ?%elem_of_nil|done]]. split; congruence. }
  setoid_rewrite Ho. naive_solver.
Qed.

End surfaces.

(** ** Witnesses *)

Module ToyMain.
#[export] Existing Instances Toy.crates ToyMaking.seal_crates ToyJson.json ToySign.ocsp ToySign.crates
  ToyMaking.making ToyGossip.crates ToyNode.net ToyApi.rotation ToyApi.clients
  ToyAxum.axum ToyAxum.axum_spec.

Definition tls : TlsConfig := mkTlsConfig ["tls-cert"%string] ["tls-key"%string] None.
(** A server with an admin listener over TLS. *)
Definition server : ServerConfig :=
  mkServerConfig "combined" default_listen default_max_request None None (Some "127.0.0.1:9100"%string)
    (Some "127.0.0.1:9443"%string) (Some tls) None.
Definition config : Config := mkConfig server ToyDaemon.storage [ToyStartup.ca] None.
Definition read_config (p : path) : io CoreError Config := mret config.
Definition started (w : World) : outcome string Started * World :=
  start_server read_config true ToyStartup.ephemeral (fun _ => []) 0 ["hoike.toml"%string] w.
End ToyMain.
Import ToyMain.

